(* ===== verification/_CoqProject ===== *)
-Q . S2P
Prelude.v
Text.v
Kv.v
LogPath.v
WalStore.v
WalFacts.v
EventSourcing.v
EventFacts.v
Rpki.v
Rrdp.v
RrdpFacts.v
Repository.v
RepositoryFacts.v
RepositoryInv.v
RrdpClient.v
RepositoryAccess.v
AccessFacts.v
Roas.v
Routes.v
RouteFacts.v
RouteUpdateFacts.v
RoaRenewFacts.v
CaCerts.v
CaEvents.v
CaKeys.v
CaChildren.v
CaProducts.v
CaClass.v
CertAuth.v
CertAuthCmds.v
CaFacts.v
CaCertFacts.v
CaInvariant.v
CaSteps.v
CaStepFacts.v
CaRoll.v
CaDemo.v
CaProps.v
TaskQueue.v
CaObjects.v
CaObjectsStore.v
CaObjectsFacts.v
CaListenFacts.v
CaRepoSync.v
CaRepoSyncFacts.v
CaObjectsDemo.v
CaFollow.v
CaFollowProps.v
CaObjectsProps.v
Scheduler.v
TaskFacts.v
TaskProps.v
BgpTree.v
BgpAnalysis.v
BgpFacts.v
BgpAnalysisFacts.v
BgpProps.v
EventProps.v
RepositoryProps.v
WalProps.v
RouteProps.v
JsNumber.v
MomentLocales.v
Ip6Addr.v
Ip6AddrFacts.v
RoaDialog.v
RoaRequest.v
RoaDialogProps.v
CaPages.v
CaContent.v
Testbed.v
MomentNumerals.v
MomentOrdinals.v
MomentRelative.v
MomentForms.v
MomentTables.v
MomentRelativeProps.v
Lagosta.v
Ip6AddrProps.v
WebText.v
