(* ===== verification/Prelude.v ===== *)
(** * A verification of krill

    Krill is a daemon for the RPKI: it runs certification authorities (CAs) that issue route
    origin authorizations (ROAs), and a publication server from which relying parties fetch
    what CAs publish.  The daemon is written in Rust ([src/src]); its web interface is the
    JavaScript bundle [src/lagosta/js/app.js].  This library models the state that both keep and
    the operations on it, and proves what makes them correct.

    ** The parts and the files that model them

    The daemon keeps its state in a key-value store of JSON files, on which two stores are
    built.  The aggregate store (event sourcing) records commands and events of the CAs and of
    the list of publishers; the write-ahead log store keeps the large content of the publication
    server.  The manager of the publication server combines the list of publishers with the
    content.  A CA is an aggregate: it has resource classes with their keys, certificates for its
    children, and the authorizations its operator configured with the ROAs issued for them.
    The events of its commands are heard by the store of published objects, which makes
    manifests and CRLs, and by the task queue, whose scheduler synchronises CAs with their
    parents and repositories in the background.  The web interface sends requests to change
    authorizations.

    - [Prelude], [Text]: results and errors, machine integers, stateful code, hash maps in an
      unspecified order ([HashOrder]), tactics and hints; texts, numerals, splitting and
      trimming.
    - [Kv]: [commons/eventsourcing/kv.rs], the key-value store, as a map of files and
      directories.
    - [WalStore], [WalFacts], [LogPath], [WalProps]: [commons/eventsourcing/wal.rs]; the class
      [WalSupport] is the trait of the values kept.  [LogPath] is the replay of numbered files
      that both stores share.
    - [EventSourcing], [EventFacts], [EventProps]: [commons/eventsourcing/agg.rs], [cmd.rs],
      [evt.rs], [store.rs] and [commons/api/history.rs]; the class [Aggregate] is the trait,
      and its instance for the list of publishers is in [RepositoryAccess].
    - [Rpki]: what is used of the [rpki] crate (URIs, hashes), as a class.
    - [Rrdp], [RrdpFacts]: [commons/api/rrdp.rs], elements, deltas and their verification.
    - [Repository], [RepositoryFacts], [RepositoryInv], [RepositoryProps]: the content of the
      publication server in [pubd/repository.rs], its commands and changes, the steps it can
      take and the invariant of the reachable states.  [RrdpClient] is a relying party that
      follows RFC 8182.
    - [RepositoryAccess], [AccessFacts]: the access side of [pubd/repository.rs],
      [pubd/commands.rs], [events.rs], [publishers.rs], and [pubd/manager.rs].
    - [Roas]: [commons/api/roas.rs], payloads, configurations and updates with their texts;
      prefixes and resource sets of the [rpki] crate are the class [PrefixApi].
    - [Routes], [RouteFacts], [RouteUpdateFacts], [RoaRenewFacts], [RouteProps]:
      [daemon/ca/routes.rs], [RoaUpdates] of [daemon/ca/events.rs], and the authorizations in
      [daemon/ca/certauth.rs]; signing is a parameter.
    - [CaCerts], [CaEvents], [CaKeys], [CaChildren], [CaProducts], [CaClass], [CertAuth],
      [CertAuthCmds]: a CA, from [daemon/ca/certauth.rs] (state, commands, events), [rc.rs] and
      [keys.rs] (resource classes and key states), [child.rs] (children and their certificates),
      [aspa.rs], [bgpsec.rs], and the certificates of [commons/api/ca.rs]; X.509 and resource
      sets are the class [CaApi], signing the record [Signer].  A command is turned into events
      ([ca_process_command]), an event is applied ([ca_apply]); [None] is a panic.
    - [CaFacts], [CaCertFacts], [CaInvariant], [CaSteps], [CaStepFacts], [CaRoll], [CaDemo],
      [CaProps]: the invariant of CAs and that every command keeps it, key rolls, the
      exchange between child and parent, a concrete instance and the theorems.
    - [CaObjects], [CaObjectsStore], [CaObjectsFacts], [CaListenFacts]: [daemon/ca/publishing.rs],
      what each key publishes, its revocations, manifest and CRL, and the listener.
    - [CaFollow], [CaFollowProps]: a CA together with the listener, event by event, command by
      command, and in all reachable states.
    - [CaRepoSync], [CaRepoSyncFacts], [CaObjectsDemo], [CaObjectsProps]: the synchronisation of a
      CA with its repositories and its deletion in [daemon/ca/manager.rs].
    - [TaskQueue], [Scheduler], [TaskFacts], [TaskProps]: [daemon/mq.rs] and
      [daemon/scheduler.rs]; the priority queue is the class [QueuePeek], and the state machine
      [scheduler_act] interleaves the thread of the scheduler with others.
    - [BgpTree], [BgpAnalysis], [BgpFacts], [BgpAnalysisFacts], [BgpProps]: [commons/bgp], the
      announcements seen, their validation in trees of prefixes, the report on ROAs and the
      suggestions, and the safe updates of [daemon/krillserver.rs] and [http/server.rs]; the
      interval tree and the blocks of resource sets are the class [BgpApi].
    - [JsNumber]: double precision numbers and their conversion from texts in JavaScript.
    - [RoaDialog], [RoaRequest], [RoaDialogProps]: the forms for ROAs in the web interface, and
      how the server reads what they send.
    - [CaPages], [CaContent]: the redirections between the pages of the web interface, and the
      requests of the page of a CA with their answers.
    - [Testbed]: the registration of child CAs and publishers at a testbed.
    - [Ip6Addr], [Ip6AddrFacts], [Ip6AddrProps]: the library ip6addr, with which the table of
      announcements is sorted.
    - [Lagosta]: the session, the guard of the router and the table of announcements.
    - [WebText]: the loader of the bundle's modules, [escape-html] and the comparison of byte
      arrays.
    - [MomentLocales], [MomentNumerals], [MomentOrdinals]: parts of the day, numerals and ordinals
      in the locales of moment.js in the bundle.
    - [MomentRelative], [MomentForms], [MomentTables], [MomentRelativeProps]: relative times, the
      core and all locales: those with functions and those with texts only.

    ** What the theorems show

    Publication server ([RepositoryProps]): an RRDP update publishes exactly the objects of the
    publishers; a client that follows the deltas ends with the current snapshot (both for deltas
    that are admissible and publishers that are not removed while a change of theirs is staged,
    conditions that the server does not check; the client also needs the same session); publishers
    stay below their base URI; deltas have contiguous serials; the verification of deltas is
    exact; truncation keeps what the configuration allows.  Three theorems show where the
    code departs from its comments (a withdraw of a staged update, a publish over a URI in use,
    the maximum number of deltas).

    Stores ([WalProps], [EventProps]): both refine a plain instance to which commands are
    applied one by one, over any interleaving of commands, reads, restarts and steps of a
    concurrent snapshot update, or with lost and corrupt snapshots, the aggregate store as long as
    its pre-save listeners refuse nothing; rejected commands are
    recorded, the history is paged correctly, keys round trip.  Two theorems show defects: any
    command refused by a listener is on record as a success, and warming up keeps an event
    that it archives.  Access and content of the publication server name the same publishers.

    ROAs ([RouteProps]): issuing keeps the objects well-formed and covers exactly the held
    authorizations in every aggregation mode; a second update changes nothing; renewal
    replaces what is due; updates have the effect of their events, and errors are exact.

    CAs ([CaProps]): by an invariant of all reachable states, certificates of children never
    exceed the resources of the CA, and no command panics but for two kinds, which do; a key roll
    comes to its end; a child that got what it asked for asks for nothing more.  Further theorems
    show defects: what a move to another repository forgets, and a limit that keeps a CA from
    taking on a smaller certificate.

    A CA with its objects ([CaFollowProps]): the published objects follow the keys of the CA in
    every state that the two reach, and the listener refuses a command only if signing fails, as
    long as keys are revoked in classes with a certificate and the 32-bit class names do not run
    out.

    Published objects ([CaObjectsProps]): manifests and CRLs list exactly what is published and
    revoked, in every state; what is no longer published is revoked; a synchronisation with the
    publication server, whose model it is composed with, makes the repository hold exactly what
    the CA publishes.  Three theorems show defects: a certificate that is published and revoked,
    a repository that is emptied while in use after a CA moved back to it, a CA that cannot be
    created again.

    Background tasks ([TaskProps]): recurring tasks are never lost; a change of what is published
    is followed by a synchronisation, which is repeated until it succeeds; and an update of RRDP
    is not resumed after a restart.

    Analysis ([BgpProps]): validation is that of RFC 6811; a report has one entry for each ROA and
    the announcements in scope, with what ROAs authorize; a suggestion keeps what one ROA alone
    authorizes; an update is applied as safe exactly if nothing is invalid under the ROAs within
    its own prefixes, which overlooks ROAs for less specific ones.  Two theorems show further
    defects: a suggestion that loses an announcement, and IPv6 ROAs that invalidate IPv4
    announcements.

    Web interface: the stored token is the one in use; pages of tables are complete and sorted by
    network; addresses round trip through their texts; the carts follow the selections and
    their handlers return; redirections end if and only if some CA loads; the page of a CA shows
    that CA if answers arrive in order, and may show another if not; registration ends with the
    server's reply to a free name; modules run once; escaping, clocks and numerals round trip; relative times name
    the unit and number that stand for the duration in every locale.  [RoaDialogProps]
    composes the forms with the CA: what is removed when a suggested removal is confirmed, and
    what number is sent for an AS number typed.

    ** Conventions

    Errors are values of [result]; stateful code that may fail is a function of type [StE].
    Machine integers are [N] or [Z] with the width written out where it matters ([u64_succ],
    [parse_unsigned], the [None] of [nr_of_specific_prefixes]).  Time, random names and signing
    are arguments.  Strings are byte strings; lower case and white space are those of ASCII.  Loops that are not structural take fuel, and the theorems give the fuel
    that is enough: the number of files for a replay, three for the handlers of selections (each
    call empties a selection), the number of names in use plus one for a registration, the
    number of modules plus one for the loader, two more than the logarithm for the Eifel rule of
    Luxembourgish.

    ** Not modelled

    In Rust: the HTTP server, authentication, the rest of the configuration, the command line and
    upgrades; cryptography and signers; the messages between parent and child CAs as they are
    sent (their contents are modelled), the status of CAs, and resource tagged attestations; the
    download of BGP dumps; failing disk operations; the files written for RRDP and rsync.  In the bundle: Vue, the
    router, axios, element-ui (but for the selection of table rows), polyfills and other
    libraries; templates; the data of locales (names of months, formats) and the core of
    moment.js beyond the clock and relative times; the end-to-end tests under [src/tests/ui]. *)

From stdpp Require Import base gmap strings list sorting fin_maps.
From Stdlib Require Import ZArith Lia.

(** ** Results: Rust's [Result<T, E>] as a value *)

Inductive result (E A : Type) : Type :=
| Ok (a : A)
| Err (e : E).
Arguments Ok {E A} a.
Arguments Err {E A} e.

#[export] Instance result_ret E : MRet (result E) := λ A a, Ok a.
#[export] Instance result_bind E : MBind (result E) := λ A B f m,
  match m with Ok a => f a | Err e => Err e end.
#[export] Instance result_fmap E : FMap (result E) := λ A B f m,
  match m with Ok a => Ok (f a) | Err e => Err e end.

Definition map_err {E F A} (f : E → F) (m : result E A) : result F A :=
  match m with Ok a => Ok a | Err e => Err (f e) end.

Definition ok_or {E A} (o : option A) (e : E) : result E A :=
  match o with Some a => Ok a | None => Err e end.

Definition is_ok {E A} (m : result E A) : bool :=
  match m with Ok _ => true | Err _ => false end.

(** A [for] loop whose body may return early with an error. *)
Fixpoint for_each {E A} (f : A → result E unit) (l : list A) : result E unit :=
  match l with
  | [] => Ok tt
  | x :: l => match f x with Ok _ => for_each f l | Err e => Err e end
  end.

(** A [for] loop that threads a state and may return early with an error. *)
Fixpoint fold_each {E A S} (f : S → A → result E S) (s : S) (l : list A) : result E S :=
  match l with
  | [] => Ok s
  | x :: l => match f s x with Ok s' => fold_each f s' l | Err e => Err e end
  end.

Lemma bind_Ok {E A B} (f : A → result E B) (m : result E A) b :
  (m ≫= f) = Ok b ↔ ∃ a, m = Ok a ∧ f a = Ok b.
Proof. destruct m; simpl; split; naive_solver. Qed.

Lemma for_each_Ok {E A} (f : A → result E unit) (l : list A) :
  for_each f l = Ok tt ↔ Forall (λ x, f x = Ok tt) l.
Proof.
  induction l as [|x l IH]; simpl; [by split; [constructor|]|].
  rewrite Forall_cons. destruct (f x) as [[]|e] eqn:Hx; [rewrite IH; naive_solver|].
  split; [done|]. intros [? _]. done.
Qed.

(** The loop fails with the error of the first element whose body fails. *)
Lemma for_each_Err {E A} (f : A → result E unit) (l : list A) e :
  for_each f l = Err e ↔
  ∃ l1 x l2, l = l1 ++ x :: l2 ∧ Forall (λ y, f y = Ok tt) l1 ∧ f x = Err e.
Proof.
  induction l as [|x l IH]; simpl.
  { split; [done|]. intros ([]&?&?&?&?); simplify_eq. }
  destruct (f x) as [[]|e'] eqn:Hx.
  - rewrite IH. split.
    + intros (l1&y&l2&->&?&?). exists (x :: l1), y, l2. by repeat constructor.
    + intros ([|z l1]&y&l2&?&Hl&?); simplify_eq/=; [congruence|].
      apply Forall_cons in Hl as [_ ?]. by exists l1, y, l2.
  - split.
    + intros [= ->]. exists [], x, l. by repeat constructor.
    + intros ([|z l1]&y&l2&?&Hl&?); simplify_eq/=; [congruence|].
      apply Forall_cons in Hl as [? _]. congruence.
Qed.

(** ** Machine integers *)

Definition u64_modulus : N := 18446744073709551616.
Definition u64_max : N := 18446744073709551615.

(** [+ 1] on a [u64] counter, with the wrap-around of a release build. *)
Definition u64_succ (n : N) : N := ((n + 1) mod u64_modulus)%N.

Lemma u64_succ_small n : (n < u64_max)%N → u64_succ n = (n + 1)%N.
Proof. intros H. apply N.mod_small. unfold u64_max, u64_modulus in *. lia. Qed.

(** [- 1] on a [u64] or [usize], with the wrap-around of a release build. *)
Definition u64_pred (n : N) : N := if decide (n = 0%N) then u64_max else (n - 1)%N.

(** ** Stateful code that may fail

    [StE S E A]: code that reads and writes a state [S] and returns an [A] or an error; the
    state stays changed when an error is returned.  [None] means that a loop in it ran out
    of the fuel it was given. *)

Definition StE (S E A : Type) : Type := S → option (S * result E A).

#[export] Instance ste_ret S E : MRet (StE S E) := λ A a s, Some (s, Ok a).
#[export] Instance ste_bind S E : MBind (StE S E) := λ A B f m s,
  match m s with
  | Some (s', Ok a) => f a s'
  | Some (s', Err e) => Some (s', Err e)
  | None => None
  end.

(** An error value; a result that does not touch the state; code that may fail to update it. *)
Definition ste_err {S E A} (e : E) : StE S E A := λ s, Some (s, Err e).
Definition ste_result {S E A} (r : result E A) : StE S E A := λ s, Some (s, r).
Definition ste_gets {S E A} (f : S → result E A) : StE S E A := λ s, Some (s, f s).
Definition ste_update {S E} (f : S → result E S) : StE S E unit := λ s,
  Some match f s with Ok s' => (s', Ok tt) | Err e => (s, Err e) end.
(** Runs code and hands its error over as a value. *)
Definition ste_try {S E A} (m : StE S E A) : StE S E (result E A) := λ s,
  match m s with Some (s', r) => Some (s', Ok r) | None => None end.

Fixpoint ste_for {S E A} (l : list A) (f : A → StE S E unit) : StE S E unit :=
  match l with
  | [] => mret tt
  | x :: l => f x ≫= λ _, ste_for l f
  end.

(** ** Time: instants and durations in nanoseconds since the epoch *)

Definition Instant : Type := Z.
Definition nanos_per_sec : Z := 1000000000.
Definition seconds (s : Z) : Z := (s * nanos_per_sec)%Z.
(** [Time::timestamp]: whole seconds, rounded down. *)
Definition timestamp (t : Instant) : Z := (t / nanos_per_sec)%Z.

(** ** HashMap iteration

    A [std::collections::HashMap] is iterated in an unspecified order.  Code that
    iterates a map is modelled against this interface: some enumeration that lists
    every entry exactly once.  Theorems proved over it hold for every order. *)
Class HashOrder : Type := {
  hm_iter : ∀ {K V} `{Countable K}, gmap K V → list (K * V);
  hm_iter_perm : ∀ {K V} `{Countable K} (m : gmap K V), hm_iter m ≡ₚ map_to_list m;
}.

#[export] Instance map_to_list_order : HashOrder := {|
  hm_iter K V _ _ m := map_to_list m;
  hm_iter_perm K V _ _ m := Permutation_refl _;
|}.

Section hash_order.
Context `{HO : !HashOrder} `{Countable K} {V : Type}.
Implicit Types (m : gmap K V).

Definition hm_keys m : list K := (hm_iter m).*1.
Definition hm_values m : list V := (hm_iter m).*2.

Lemma elem_of_hm_iter m k v : (k, v) ∈ hm_iter m ↔ m !! k = Some v.
Proof. rewrite hm_iter_perm. apply elem_of_map_to_list. Qed.

Lemma elem_of_hm_values m v : v ∈ hm_values m ↔ ∃ k, m !! k = Some v.
Proof.
  unfold hm_values. rewrite list_elem_of_fmap. split.
  - intros ([k v']&->&Hin). exists k. by apply elem_of_hm_iter.
  - intros [k Hk]. exists (k, v). split; [done|]. by apply elem_of_hm_iter.
Qed.

Lemma elem_of_hm_keys m k : k ∈ hm_keys m ↔ is_Some (m !! k).
Proof.
  unfold hm_keys. rewrite list_elem_of_fmap. split.
  - intros ([k' v]&->&Hin). exists v. by apply elem_of_hm_iter.
  - intros [v Hv]. exists (k, v). split; [done|]. by apply elem_of_hm_iter.
Qed.

Lemma NoDup_hm_keys m : NoDup (hm_keys m).
Proof.
  unfold hm_keys. rewrite hm_iter_perm. apply NoDup_fst_map_to_list.
Qed.

Lemma NoDup_hm_iter m : NoDup (hm_iter m).
Proof. rewrite hm_iter_perm. apply NoDup_map_to_list. Qed.

Lemma length_hm_iter m : length (hm_iter m) = size m.
Proof. rewrite hm_iter_perm. apply length_map_to_list. Qed.
End hash_order.

(** Keys removed one by one. *)
Lemma foldl_delete_lookup `{Countable K} {V} (m : gmap K V) l k :
  foldl (λ m x, delete x m) m l !! k = if decide (k ∈ l) then None else m !! k.
Proof.
  revert m. induction l as [|x l IH]; intros m.
  { destruct (decide _) as [?%elem_of_nil|]; done. }
  change (foldl _ m (x :: l)) with (foldl (λ m x, delete x m) (delete x m) l). rewrite IH.
  destruct (decide (k ∈ l)) as [Hl|Hl], (decide (k ∈ x :: l)) as [Hx|Hx]; rewrite elem_of_cons in Hx.
  - done.
  - tauto.
  - destruct Hx as [->|]; [apply lookup_delete_eq|done].
  - rewrite lookup_delete_ne; [done|]. intros ->. tauto.
Qed.

(** ** Tactics and hints *)

Create HintDb krill discriminated.
#[export] Hint Resolve elem_of_nil NoDup_hm_keys NoDup_hm_iter : krill.

(** Invert every monadic success in the context. *)
Ltac inv_ok :=
  repeat match goal with
  | H : (_ ≫= _) = Ok _ |- _ =>
      apply bind_Ok in H; destruct H as (? & ? & H)
  | H : Ok _ = Ok _ |- _ => injection H as H; subst
  | H : mret _ = Ok _ |- _ => injection H as H; subst
  | H : Err _ = Ok _ |- _ => discriminate H
  | H : Ok _ = Err _ |- _ => discriminate H
  end.

(** Case on the scrutinee of a [match]/[if] in the goal or a hypothesis, remembering it. *)
Ltac case_on :=
  match goal with
  | H : context [match ?x with _ => _ end] |- _ => destruct x eqn:?; simplify_eq/=
  | |- context [match ?x with _ => _ end] => destruct x eqn:?; simplify_eq/=
  end.

(** ** Filtering *)

Lemma filter_none {A} (P : A → Prop) `{∀ x, Decision (P x)} l : (∀ x, x ∈ l → ¬ P x) → filter P l = [].
Proof.
  induction l as [|x l IH]; intros Hp; [done|]. rewrite filter_cons_False by (apply Hp; by left).
  apply IH. intros y Hy. apply Hp. by right.
Qed.

Lemma filter_same {A} (P Q : A → Prop) `{∀ x, Decision (P x), ∀ x, Decision (Q x)} (l : list A) :
  (∀ x, x ∈ l → P x ↔ Q x) → filter P l = filter Q l.
Proof.
  induction l as [|x l IH]; intros HPQ; [done|]. rewrite !filter_cons, IH by (intros y Hy; apply HPQ; by right).
  destruct (decide (P x)) as [Hp|Hp]; rewrite HPQ in Hp by (by left); by destruct (decide (Q x)).
Qed.

Lemma filter_all {A} (P : A → Prop) `{∀ x, Decision (P x)} (l : list A) : (∀ x, P x) → filter P l = l.
Proof. intros Hp. induction l as [|x l IH]; [done|]. by rewrite filter_cons_True, IH. Qed.
