(* ===== verification/Text.v ===== *)
(** * Strings and numbers as text

    What the modelled code uses of Rust's [str] and of integer parsing: [strip_prefix],
    [strip_suffix], [contains], [split], [u64::from_str] and [i64::from_str], with the
    round trips of printed numbers and separated parts. *)

From stdpp Require Import base strings list pretty numbers.
From Stdlib Require Import ZArith Lia Ascii.
From S2P Require Import Prelude.


(** ** Prefixes and suffixes *)

Fixpoint strip_prefix (pre s : string) : option string :=
  match pre, s with
  | EmptyString, _ => Some s
  | String a pre, String b s => if decide (a = b) then strip_prefix pre s else None
  | String _ _, EmptyString => None
  end.

Fixpoint strip_suffix (suf s : string) : option string :=
  if decide (s = suf) then Some ""
  else match s with
       | EmptyString => None
       | String a s => String a <$> strip_suffix suf s
       end.

Definition starts_with (s pre : string) : bool := bool_decide (is_Some (strip_prefix pre s)).
Definition ends_with (s suf : string) : bool := bool_decide (is_Some (strip_suffix suf s)).

Fixpoint contains (s sub : string) : bool :=
  starts_with s sub || match s with EmptyString => false | String _ s => contains s sub end.

Lemma string_app_nil s : "" +:+ s = s.
Proof. reflexivity. Qed.
Lemma string_app_cons a s t : String a s +:+ t = String a (s +:+ t).
Proof. reflexivity. Qed.

Lemma string_app_empty s : s +:+ "" = s.
Proof. induction s as [|a s IH]; [done|]. by rewrite string_app_cons, IH. Qed.
Lemma string_app_assoc s t u : (s +:+ t) +:+ u = s +:+ (t +:+ u).
Proof. induction s as [|a s IH]; [done|]. by rewrite !string_app_cons, IH. Qed.
Lemma string_app_inj s t u : s +:+ t = s +:+ u → t = u.
Proof. induction s as [|a s IH]; [done|]. rewrite !string_app_cons. intros [= ?]. auto. Qed.

Lemma strip_prefix_app pre s : strip_prefix pre (pre +:+ s) = Some s.
Proof.
  induction pre as [|a pre IH]; [done|]. rewrite string_app_cons. simpl. by rewrite decide_True.
Qed.

Lemma strip_prefix_Some pre s r : strip_prefix pre s = Some r ↔ s = pre +:+ r.
Proof.
  split; [|intros ->; apply strip_prefix_app].
  revert s. induction pre as [|a pre IH]; intros s; [by intros [= ->]|].
  simpl. destruct s as [|b s]; [done|]. case_decide; [|done]. subst. intros ->%IH. done.
Qed.

Lemma starts_with_app pre s : starts_with (pre +:+ s) pre = true.
Proof. unfold starts_with. rewrite strip_prefix_app. by apply bool_decide_eq_true. Qed.

Lemma app_length_string (s t : string) : String.length (s +:+ t) = String.length s + String.length t.
Proof.
  induction s as [|a s IH]; [done|]. rewrite string_app_cons. simpl. by rewrite IH.
Qed.

Lemma strip_suffix_unfold suf s :
  strip_suffix suf s =
  if decide (s = suf) then Some ""
  else match s with EmptyString => None | String a s => String a <$> strip_suffix suf s end.
Proof. by destruct s. Qed.

Lemma strip_suffix_app suf s : strip_suffix suf (s +:+ suf) = Some s.
Proof.
  induction s as [|a s IH].
  - rewrite string_app_nil, strip_suffix_unfold. by rewrite decide_True.
  - rewrite string_app_cons, strip_suffix_unfold. rewrite decide_False, IH; [done|].
    intros Heq%(f_equal String.length). simpl in Heq. rewrite app_length_string in Heq. lia.
Qed.

Lemma strip_suffix_Some suf s r : strip_suffix suf s = Some r → s = r +:+ suf.
Proof.
  revert r. induction s as [|a s IH]; intros r; rewrite strip_suffix_unfold; case_decide as Hd.
  - intros [= <-]. by rewrite <-Hd.
  - done.
  - intros [= <-]. by rewrite <-Hd.
  - destruct (strip_suffix suf s) eqn:Hs; simpl; [|done]. intros [= <-]. rewrite string_app_cons. f_equal. by apply IH.
Qed.

Lemma ends_with_app s suf : ends_with (s +:+ suf) suf = true.
Proof. unfold ends_with. rewrite strip_suffix_app. by apply bool_decide_eq_true. Qed.

Lemma contains_prefix pre s : contains (pre +:+ s) pre = true.
Proof. destruct (pre +:+ s) eqn:Hs; simpl; rewrite <-Hs; by rewrite starts_with_app. Qed.

(** ** Path separators *)

Fixpoint has_slash (s : string) : bool :=
  match s with EmptyString => false | String a s => bool_decide (a = "/"%char) || has_slash s end.

(** What comes before the first slash is determined by the whole. *)
Lemma before_slash_unique p q r s :
  has_slash p = false → has_slash q = false → p +:+ "/" +:+ r = q +:+ "/" +:+ s → p = q.
Proof.
  revert q. induction p as [|a p IH]; intros [|b q] Hp Hq Heq; [done|..].
  - by injection Heq as <- _.
  - by injection Heq as -> _.
  - simpl in Hp, Hq. apply orb_false_iff in Hp as [_ Hp], Hq as [_ Hq].
    injection Heq as -> Heq. f_equal. by apply IH.
Qed.

(** ** Splitting at ["--"] *)

Fixpoint split_dashes (s : string) : list string :=
  match s with
  | EmptyString => [""]
  | String "-"%char (String "-"%char r) => "" :: split_dashes r
  | String a r => match split_dashes r with [] => [] | p :: ps => String a p :: ps end
  end.

(** A part that the separator can follow: it does not hold the separator, also not
    together with a dash that comes after it. *)
Definition clean_part (p : string) : bool := bool_decide (split_dashes (p +:+ "-") = [p +:+ "-"]).

Lemma split_dashes_cons a r :
  (a = "-"%char → match r with String b _ => b ≠ "-"%char | _ => True end) →
  split_dashes (String a r) = match split_dashes r with [] => [] | p :: ps => String a p :: ps end.
Proof.
  intros H. destruct (decide (a = "-"%char)) as [->|Ha].
  - specialize (H eq_refl). destruct r as [|b r]; [done|].
    destruct b as [[] [] [] [] [] [] [] []]; done.
  - destruct a as [[] [] [] [] [] [] [] []]; done.
Qed.

Lemma split_dashes_app p r :
  clean_part p = true → split_dashes (p +:+ "--" +:+ r) = p :: split_dashes r.
Proof.
  unfold clean_part. rewrite bool_decide_eq_true. intros H.
  induction p as [|a p IH]; [done|].
  assert (a = "-"%char → match p with String b _ => b ≠ "-"%char | _ => False end) as Hnd.
  { intros ->. destruct p as [|b p]; [discriminate|]. intros ->. simpl in H. by injection H. }
  rewrite string_app_cons, split_dashes_cons in H; [|intros ->; destruct p; by specialize (Hnd eq_refl)].
  rewrite string_app_cons, split_dashes_cons; [|intros ->; destruct p; by specialize (Hnd eq_refl)].
  rewrite IH; [done|]. destruct (split_dashes (p +:+ "-")) as [|q qs]; [done|].
  by injection H as -> ->.
Qed.

(** ** Numbers *)

Definition digit_value (a : ascii) : option N :=
  match a with
  | "0" => Some 0%N | "1" => Some 1%N | "2" => Some 2%N | "3" => Some 3%N | "4" => Some 4%N
  | "5" => Some 5%N | "6" => Some 6%N | "7" => Some 7%N | "8" => Some 8%N | "9" => Some 9%N
  | _ => None
  end%char.

Fixpoint digits_value (acc : N) (s : string) : option N :=
  match s with
  | EmptyString => Some acc
  | String a s => v ← digit_value a; digits_value (acc * 10 + v)%N s
  end.

(** One or more digits. *)
Definition parse_digits (s : string) : option N :=
  match s with EmptyString => None | _ => digits_value 0 s end.

Definition skip_plus (s : string) : string :=
  match s with String "+"%char r => r | _ => s end.

(** [uN::from_str] for the type whose largest value is [max]. *)
Definition parse_unsigned (max : N) (s : string) : option N :=
  n ← parse_digits (skip_plus s); if bool_decide (n ≤ max)%N then Some n else None.

Definition parse_u64 : string → option N := parse_unsigned u64_max.
Definition parse_u32 : string → option N := parse_unsigned 4294967295.
Definition parse_u8 : string → option N := parse_unsigned 255.

Definition i64_min : Z := -9223372036854775808.
Definition i64_max : Z := 9223372036854775807.

Definition parse_i64 (s : string) : option Z :=
  z ← match s with
      | String "-"%char r => (λ n, - Z.of_N n)%Z <$> parse_digits r
      | _ => Z.of_N <$> parse_digits (skip_plus s)
      end;
  if bool_decide (i64_min ≤ z ≤ i64_max)%Z then Some z else None.

Lemma digit_value_char (x : N) : (x < 10)%N → digit_value (pretty_N_char x) = Some x.
Proof.
  intros H. assert (x = 0 ∨ x = 1 ∨ x = 2 ∨ x = 3 ∨ x = 4 ∨ x = 5 ∨ x = 6 ∨ x = 7 ∨ x = 8 ∨ x = 9)%N
    as Hx by lia. naive_solver.
Qed.

Lemma digits_value_go (x : N) s : digits_value 0 (pretty_N_go x s) = digits_value x s.
Proof.
  revert s. induction (N.lt_wf_0 x) as [x _ IH]. intros s.
  destruct (decide (x = 0%N)) as [->|Hx]; [by rewrite pretty_N_go_0|].
  rewrite pretty_N_go_step by lia. rewrite IH by (apply N.div_lt; lia). simpl.
  rewrite digit_value_char by (apply N.mod_lt; lia). simpl. f_equal.
  rewrite (N.div_mod x 10) at 3 by lia. lia.
Qed.

(** A printed number starts with a digit. *)
Definition starts_with_digit (s : string) : bool :=
  match s with String a _ => bool_decide (is_Some (digit_value a)) | EmptyString => false end.

Lemma pretty_N_go_nonempty (x : N) s :
  starts_with_digit s = true ∨ (0 < x)%N → starts_with_digit (pretty_N_go x s) = true.
Proof.
  revert s. induction (N.lt_wf_0 x) as [x _ IH]. intros s H.
  destruct (decide (x = 0%N)) as [->|Hx]; [rewrite pretty_N_go_0; naive_solver lia|].
  rewrite pretty_N_go_step by lia. apply IH; [apply N.div_lt; lia|]. left. simpl.
  rewrite digit_value_char by (apply N.mod_lt; lia). by apply bool_decide_eq_true.
Qed.

Lemma pretty_N_digits (n : N) :
  starts_with_digit (pretty n) = true ∧ digits_value 0 (pretty n) = Some n.
Proof.
  unfold pretty, pretty_N. case_decide as Hn; [by subst|].
  split; [apply pretty_N_go_nonempty; lia|]. by rewrite digits_value_go.
Qed.

Lemma parse_digits_pretty (n : N) : parse_digits (pretty n) = Some n.
Proof. destruct (pretty_N_digits n) as [H1 H2]. by destruct (pretty n). Qed.

Lemma skip_plus_pretty (n : N) : skip_plus (pretty n) = pretty n.
Proof.
  destruct (pretty_N_digits n) as [H _]. destruct (pretty n) as [|a s]; [done|].
  simpl in *. destruct a as [[] [] [] [] [] [] [] []]; done.
Qed.

Lemma parse_unsigned_pretty max (n : N) : (n ≤ max)%N → parse_unsigned max (pretty n) = Some n.
Proof.
  intros H. unfold parse_unsigned. rewrite skip_plus_pretty, parse_digits_pretty. simpl.
  by rewrite bool_decide_true.
Qed.

Lemma parse_u64_pretty (n : N) : (n ≤ u64_max)%N → parse_u64 (pretty n) = Some n.
Proof. apply parse_unsigned_pretty. Qed.

Lemma parse_i64_pretty (z : Z) : (i64_min ≤ z ≤ i64_max)%Z → parse_i64 (pretty z) = Some z.
Proof.
  intros H. unfold parse_i64.
  assert (∀ n : N, (match pretty n with
      | String "-"%char r => (λ n, - Z.of_N n)%Z <$> parse_digits r
      | _ => Z.of_N <$> parse_digits (skip_plus (pretty n)) end) = Some (Z.of_N n)) as Hpos.
  { intros n. pose proof (pretty_N_digits n) as [Hd _]. pose proof (skip_plus_pretty n) as Hs.
    pose proof (parse_digits_pretty n) as Hp. destruct (pretty n) as [|a s]; [done|].
    simpl in Hd. destruct a as [[] [] [] [] [] [] [] []]; try done; by rewrite Hs, Hp. }
  destruct z as [|p|p].
  - done.
  - change (pretty (Z.pos p)) with (pretty (N.pos p)). rewrite Hpos. simpl.
    by rewrite bool_decide_true.
  - change (pretty (Z.neg p)) with (String "-"%char (pretty (N.pos p))). cbv beta iota.
    rewrite parse_digits_pretty. simpl. by rewrite bool_decide_true.
Qed.

(** Printed numbers hold no dash, so the separator can follow them. *)
Fixpoint no_dash (s : string) : bool :=
  match s with EmptyString => true | String a s => negb (bool_decide (a = "-"%char)) && no_dash s end.

Lemma no_dash_split s r :
  no_dash s = true → split_dashes r = [r] → split_dashes (s +:+ r) = [s +:+ r].
Proof.
  intros Hs Hr. induction s as [|a s IH]; [done|].
  simpl in Hs. apply andb_true_iff in Hs as [Ha%negb_true_iff%bool_decide_eq_false Hs].
  change (String a s +:+ r) with (String a (s +:+ r)).
  rewrite split_dashes_cons by done. by rewrite IH.
Qed.

Lemma split_single_app s t :
  split_dashes s = [s] → no_dash t = true → split_dashes (s +:+ t) = [s +:+ t].
Proof.
  intros Hs Ht. induction s as [|a s IH].
  - rewrite string_app_nil. pose proof (no_dash_split t "" Ht eq_refl) as H.
    by rewrite string_app_empty in H.
  - assert (a = "-"%char → match s with String b _ => b ≠ "-"%char | _ => True end) as Hnd.
    { intros ->. destruct s as [|b s]; [done|]. intros ->. simpl in Hs. by injection Hs. }
    rewrite split_dashes_cons in Hs by done. rewrite string_app_cons, split_dashes_cons.
    + destruct (split_dashes s) as [|q qs] eqn:Hq; [done|]. injection Hs as -> ->. by rewrite IH.
    + intros ->. destruct s as [|b s]; [|exact (Hnd eq_refl)]. rewrite string_app_nil.
      destruct t as [|b t]; [done|]. simpl in Ht. by intros ->.
Qed.

Lemma no_dash_clean s : no_dash s = true → clean_part s = true.
Proof. intros H. apply bool_decide_eq_true. by apply no_dash_split. Qed.

Lemma digits_no_dash s acc : is_Some (digits_value acc s) → no_dash s = true.
Proof.
  revert acc. induction s as [|a s IH]; intros acc; simpl; [done|].
  destruct (digit_value a) eqn:Ha; simpl; [|by intros []]. intros H%IH. rewrite H.
  rewrite bool_decide_false; [done|]. by intros ->.
Qed.

Lemma clean_pretty_N (n : N) : clean_part (pretty n) = true.
Proof. apply no_dash_clean, (digits_no_dash _ 0). destruct (pretty_N_digits n) as [_ ->]. eauto. Qed.

Lemma clean_pretty_Z (z : Z) : clean_part (pretty z) = true.
Proof.
  destruct z as [|p|p].
  - done.
  - change (pretty (Z.pos p)) with (pretty (N.pos p)). apply clean_pretty_N.
  - change (pretty (Z.neg p)) with (String "-" (pretty (N.pos p))).
    pose proof (clean_pretty_N (N.pos p)) as Hc. pose proof (pretty_N_digits (N.pos p)) as [Hd _].
    unfold clean_part in *. apply bool_decide_eq_true in Hc. apply bool_decide_eq_true.
    change (String "-" (pretty (N.pos p)) +:+ "-") with (String "-" (pretty (N.pos p) +:+ "-")).
    rewrite split_dashes_cons; [by rewrite Hc|].
    intros _. destruct (pretty (N.pos p)) as [|b s]; [done|]. simpl in *. by intros ->.
Qed.

(** ** Splitting at separators, and white space *)

Definition push_char (a : ascii) (l : list string) : list string :=
  match l with [] => [] | p :: ps => String a p :: ps end.

(** [split] with a character. *)
Fixpoint split_on (c : ascii) (s : string) : list string :=
  match s with
  | EmptyString => [""]
  | String a r => if bool_decide (a = c) then "" :: split_on c r else push_char a (split_on c r)
  end.

(** [split] with a separator of two characters. *)
Fixpoint split_on2 (c d : ascii) (s : string) : list string :=
  match s with
  | EmptyString => [""]
  | String a r =>
      match r with
      | String b r' =>
          if bool_decide (a = c) && bool_decide (b = d) then "" :: split_on2 c d r'
          else push_char a (split_on2 c d r)
      | EmptyString => [String a ""]
      end
  end.

(** [splitn(2, c)]: what comes before and, if the character is there, after it. *)
Fixpoint split_once_on (c : ascii) (s : string) : string * option string :=
  match s with
  | EmptyString => ("", None)
  | String a r =>
      if bool_decide (a = c) then ("", Some r)
      else let '(p, q) := split_once_on c r in (String a p, q)
  end.

Definition is_space (a : ascii) : bool :=
  bool_decide (a ∈ [" "; "009"; "010"; "011"; "012"; "013"]%char).

Fixpoint trim_start (s : string) : string :=
  match s with EmptyString => "" | String a r => if is_space a then trim_start r else s end.
Fixpoint trim_end (s : string) : string :=
  match s with
  | EmptyString => ""
  | String a r =>
      match trim_end r with
      | EmptyString => if is_space a then "" else String a ""
      | r' => String a r'
      end
  end.
Definition trim (s : string) : string := trim_end (trim_start s).

(** All characters of a text satisfy a test. *)
Fixpoint all_chars (f : ascii → bool) (s : string) : bool :=
  match s with EmptyString => true | String a s => f a && all_chars f s end.
Definition without (c : ascii) : string → bool := all_chars (λ a, negb (bool_decide (a = c))).

Lemma all_chars_app f s t : all_chars f (s +:+ t) = all_chars f s && all_chars f t.
Proof.
  induction s as [|a s IH]; [done|]. rewrite string_app_cons. simpl. rewrite IH. by rewrite andb_assoc.
Qed.

Lemma without_app c s t : without c (s +:+ t) = without c s && without c t.
Proof. apply all_chars_app. Qed.

Lemma all_chars_impl f g s : (∀ a, f a = true → g a = true) → all_chars f s = true → all_chars g s = true.
Proof.
  intros Hfg. induction s as [|a s IH]; simpl; [done|]. rewrite !andb_true_iff. intros [Ha Hs]. auto.
Qed.

Lemma split_on_app c p r : without c p = true → split_on c (p +:+ String c r) = p :: split_on c r.
Proof.
  induction p as [|a p IH]; intros Hp.
  - rewrite string_app_nil. simpl. by rewrite bool_decide_true.
  - rewrite string_app_cons. simpl in *. apply andb_true_iff in Hp as [Ha Hp].
    apply negb_true_iff in Ha. by rewrite Ha, (IH Hp).
Qed.

Lemma split_on_none c p : without c p = true → split_on c p = [p].
Proof.
  induction p as [|a p IH]; intros Hp; [done|]. simpl in *. apply andb_true_iff in Hp as [Ha Hp].
  apply negb_true_iff in Ha. by rewrite Ha, (IH Hp).
Qed.

Lemma split_on2_app c d p r :
  without c p = true → split_on2 c d (p +:+ String c (String d r)) = p :: split_on2 c d r.
Proof.
  induction p as [|a p IH]; intros Hp.
  - rewrite string_app_nil. simpl. rewrite !bool_decide_true by done. done.
  - simpl in Hp. apply andb_true_iff in Hp as [Ha Hp]. apply negb_true_iff in Ha. specialize (IH Hp).
    rewrite string_app_cons. simpl. destruct (p +:+ String c (String d r)) as [|b t] eqn:Ht.
    { destruct p; discriminate. }
    rewrite Ha. simpl. simpl in IH. by rewrite IH.
Qed.

Lemma split_on2_none c d p : without c p = true → split_on2 c d p = [p].
Proof.
  induction p as [|a p IH]; intros Hp; [done|]. simpl in Hp. apply andb_true_iff in Hp as [Ha Hp].
  apply negb_true_iff in Ha. specialize (IH Hp). simpl. destruct p as [|b p]; [done|].
  rewrite Ha. simpl. simpl in IH. by rewrite IH.
Qed.

Lemma split_once_on_app c p r : without c p = true → split_once_on c (p +:+ String c r) = (p, Some r).
Proof.
  induction p as [|a p IH]; intros Hp.
  - rewrite string_app_nil. simpl. by rewrite bool_decide_true.
  - rewrite string_app_cons. simpl in *. apply andb_true_iff in Hp as [Ha Hp].
    apply negb_true_iff in Ha. by rewrite Ha, (IH Hp).
Qed.

Lemma split_once_on_none c p : without c p = true → split_once_on c p = (p, None).
Proof.
  induction p as [|a p IH]; intros Hp; [done|]. simpl in *. apply andb_true_iff in Hp as [Ha Hp].
  apply negb_true_iff in Ha. by rewrite Ha, (IH Hp).
Qed.

Definition no_space (s : string) : bool := all_chars (λ a, negb (is_space a)) s.

Lemma trim_end_no_space s : no_space s = true → trim_end s = s.
Proof.
  induction s as [|a s IH]; [done|]. simpl. intros [Ha Hs]%andb_true_iff. apply negb_true_iff in Ha.
  rewrite (IH Hs), Ha. by destruct s.
Qed.

Lemma trim_no_space s : no_space s = true → trim s = s.
Proof.
  intros Hs. unfold trim. destruct s as [|a s]; [done|]. simpl.
  pose proof Hs as [Ha _]%andb_true_iff. apply negb_true_iff in Ha. rewrite Ha.
  by rewrite trim_end_no_space.
Qed.

Lemma trim_leading s : trim (String " " s) = trim s.
Proof. done. Qed.

Lemma trim_end_trailing s : trim_end (s +:+ " ") = trim_end s.
Proof. induction s as [|a s IH]; [done|]. rewrite string_app_cons. simpl. by rewrite IH. Qed.

Lemma trim_trailing s : trim (s +:+ " ") = trim s.
Proof.
  unfold trim. induction s as [|a s IH]; [done|]. rewrite string_app_cons. simpl. destruct (is_space a); [done|].
  rewrite <-(trim_end_trailing (String a s)). by rewrite string_app_cons.
Qed.

Lemma digit_chars s acc : is_Some (digits_value acc s) → all_chars (λ a, bool_decide (is_Some (digit_value a))) s = true.
Proof.
  revert acc. induction s as [|a s IH]; intros acc; simpl; [done|].
  destruct (digit_value a) eqn:Ha; simpl; [|by intros []]. apply IH.
Qed.

Lemma pretty_digits (n : N) : all_chars (λ a, bool_decide (is_Some (digit_value a))) (pretty n) = true.
Proof. apply (digit_chars _ 0). destruct (pretty_N_digits n) as [_ ->]. eauto. Qed.

Lemma digit_value_cases a :
  is_Some (digit_value a) → a ∈ ["0"; "1"; "2"; "3"; "4"; "5"; "6"; "7"; "8"; "9"]%char.
Proof. intros [v H]. apply (bool_decide_eq_true_1 _). destruct a as [[] [] [] [] [] [] [] []]; (discriminate || reflexivity). Qed.

Lemma pretty_without (n : N) c : digit_value c = None → without c (pretty n) = true.
Proof.
  intros Hc. eapply all_chars_impl; [|apply pretty_digits]. intros a Ha%bool_decide_eq_true.
  apply negb_true_iff, bool_decide_eq_false. intros ->. rewrite Hc in Ha. by destruct Ha.
Qed.

Lemma pretty_no_space (n : N) : no_space (pretty n) = true.
Proof.
  eapply all_chars_impl; [|apply pretty_digits]. intros a Ha%bool_decide_eq_true%digit_value_cases.
  rewrite !elem_of_cons, elem_of_nil in Ha. naive_solver.
Qed.
