(* ===== verification/Kv.v ===== *)
(** * The key-value store ([src/src/commons/eventsourcing/kv.rs])

    Values are stored as JSON files in a directory per scope.  The disk is modelled as a map
    from key to stored value and the set of directories below the base directory; a listing
    enumerates it in an unspecified order.  Failing disk operations (a full disk, missing
    permissions) are not modelled; every error that follows from the contents of the
    store is. *)

From stdpp Require Import base gmap strings list.
From Stdlib Require Import Ascii.
From S2P Require Import Prelude Text.

(** ** Keys *)

Record KeyStoreKey := mkKey { scope : option string; name : string }.

#[export] Instance KeyStoreKey_eq_dec : EqDecision KeyStoreKey.
Proof. solve_decision. Defined.
#[export] Instance KeyStoreKey_countable : Countable KeyStoreKey.
Proof.
  apply (inj_countable' (λ k, (scope k, name k)) (λ p, mkKey p.1 p.2)). by intros [].
Defined.

Definition key_simple (nm : string) : KeyStoreKey := mkKey None nm.
Definition key_scoped (sc nm : string) : KeyStoreKey := mkKey (Some sc) nm.

Definition sub_scope (self : KeyStoreKey) (new : string) : KeyStoreKey :=
  if bool_decide (new = "") then self
  else
    let sc := match scope self with
              | Some existing => existing +:+ "/" +:+ new
              | None => new
              end in
    mkKey (Some sc) (name self).

Definition key_archived (self : KeyStoreKey) : KeyStoreKey := sub_scope self "archived".
Definition key_corrupt (self : KeyStoreKey) : KeyStoreKey := sub_scope self "corrupt".
Definition key_surplus (self : KeyStoreKey) : KeyStoreKey := sub_scope self "surplus".

Definition key_display (self : KeyStoreKey) : string :=
  match scope self with
  | Some sc => sc +:+ "/" +:+ name self
  | None => name self
  end.

Inductive KeyValueError :=
| KvIoError (what : string)
| JsonError
| UnknownKey (k : KeyStoreKey)
| DuplicateKey (k : KeyStoreKey).

(** ** Directory paths *)

(** The path and all directories above it. *)
Fixpoint path_dirs (s : string) : list string :=
  match s with
  | EmptyString => [""]
  | String a s =>
      if bool_decide (a = "/"%char) then "" :: (String a <$> path_dirs s)
      else String a <$> path_dirs s
  end.

(** The directory right above the path, if that is not the base directory. *)
Definition path_parent (s : string) : option string := last (removelast (path_dirs s)).

(** ** The store *)

(** [serde]: values of type [A] are written as, and read back from, stored values. *)
Class Json (V A : Type) := {
  to_json : A → V;
  from_json : V → option A;
  from_to_json : ∀ a, from_json (to_json a) = Some a;
}.

Section kv.
Context `{HO : !HashOrder} {V : Type}.

Record KeyValueStore := mkKv {
  kv_files : gmap KeyStoreKey V;
  kv_dirs : gmap string unit;
}.

Definition kv_empty : KeyValueStore := mkKv ∅ ∅.

Definition make_dirs (dirs : gmap string unit) (sc : option string) : gmap string unit :=
  match sc with
  | None => dirs
  | Some s => foldr (λ d m, <[d := tt]> m) dirs (path_dirs s)
  end.

#[global] Arguments make_dirs : simpl never.

Definition dir_exists (self : KeyValueStore) (sc : option string) : bool :=
  match sc with
  | None => true
  | Some s => bool_decide (is_Some (kv_dirs self !! s))
  end.

Definition store {A} `{!Json V A} (self : KeyValueStore) (key : KeyStoreKey) (value : A)
    : result KeyValueError KeyValueStore :=
  Ok (mkKv (<[key := to_json value]> (kv_files self)) (make_dirs (kv_dirs self) (scope key))).

Definition kv_has (self : KeyValueStore) (key : KeyStoreKey) : bool :=
  bool_decide (is_Some (kv_files self !! key)).

Definition store_new {A} `{!Json V A} (self : KeyValueStore) (key : KeyStoreKey) (value : A)
    : result KeyValueError KeyValueStore :=
  if kv_has self key then Err (DuplicateKey key) else store self key value.

Definition kv_get {A} `{!Json V A} (self : KeyValueStore) (key : KeyStoreKey)
    : result KeyValueError (option A) :=
  match kv_files self !! key with
  | Some v => Some <$> ok_or (from_json v) JsonError
  | None => Ok None
  end.

Definition drop_key (self : KeyValueStore) (key : KeyStoreKey) : result KeyValueError KeyValueStore :=
  Ok (mkKv (delete key (kv_files self)) (kv_dirs self)).

(** Whether the path is the directory [d] or lies below it. *)
Definition under (d s : string) : bool := bool_decide (s = d) || starts_with s (d +:+ "/").

Definition key_under (d : string) (k : KeyStoreKey) : bool :=
  match scope k with Some s => under d s | None => false end.

Definition drop_scope (self : KeyValueStore) (d : string) : result KeyValueError KeyValueStore :=
  Ok (mkKv (filter (λ kv, key_under d kv.1 = false) (kv_files self))
           (filter (λ kv, under d kv.1 = false) (kv_dirs self))).

Definition kv_wipe (self : KeyValueStore) : result KeyValueError KeyValueStore := Ok kv_empty.

Definition move_key (self : KeyValueStore) (from to : KeyStoreKey)
    : result KeyValueError KeyValueStore :=
  match kv_files self !! from with
  | None => Err (UnknownKey from)
  | Some v =>
      dirs ← if dir_exists self (scope to) then Ok (kv_dirs self)
             else match scope to with
                  | None => Ok (kv_dirs self)
                  | Some s => if dir_exists self (path_parent s) then Ok (<[s := tt]> (kv_dirs self))
                              else Err (KvIoError "creating parent dir failed")
                  end;
      Ok (mkKv (<[to := v]> (delete from (kv_files self))) dirs)
  end.

Definition archive (self : KeyValueStore) (key : KeyStoreKey) : result KeyValueError KeyValueStore :=
  move_key self key (key_archived key).
Definition archive_to (self : KeyValueStore) (key : KeyStoreKey) (sc : string)
    : result KeyValueError KeyValueStore :=
  move_key self key (sub_scope key sc).
Definition archive_corrupt (self : KeyValueStore) (key : KeyStoreKey)
    : result KeyValueError KeyValueStore :=
  move_key self key (key_corrupt key).
Definition archive_surplus (self : KeyValueStore) (key : KeyStoreKey)
    : result KeyValueError KeyValueStore :=
  move_key self key (key_surplus key).

(** The first level directories. *)
Definition scopes (self : KeyValueStore) : result KeyValueError (list string) :=
  Ok (filter (λ d, has_slash d = false) (hm_keys (kv_dirs self))).

Definition has_scope (self : KeyValueStore) (sc : string) : bool := dir_exists self (Some sc).

(** The names of the files directly in a scope. *)
Definition read_dir_files (self : KeyValueStore) (sc : option string)
    : result KeyValueError (list string) :=
  if dir_exists self sc then Ok (name <$> filter (λ k, scope k = sc) (hm_keys (kv_files self)))
  else Err (KvIoError "Could not read directory").

Definition keys (self : KeyValueStore) (sc : option string) (matching : string)
    : result KeyValueError (list KeyStoreKey) :=
  names ← read_dir_files self sc;
  Ok (mkKey sc <$> filter (λ n, bool_decide (matching = "") || contains n matching = true) (names : list string)).

(** Renaming a directory: every path below it is rewritten. *)
Definition rename_under (d d' s : string) : string :=
  match strip_prefix d s with Some r => if under d s then d' +:+ r else s | None => s end.

Definition rename_dir (self : KeyValueStore) (d d' : string) : result KeyValueError KeyValueStore :=
  if has_scope self d then
    Ok (mkKv (kmap (λ k, mkKey (rename_under d d' <$> scope k) (name k)) (kv_files self))
             (kmap (rename_under d d') (kv_dirs self)))
  else Err (KvIoError "rename failed").

Definition scope_archive (self : KeyValueStore) (sc sub : string)
    : result KeyValueError KeyValueStore :=
  let tmp_path := "." +:+ sc in
  kv1 ← rename_dir self sc tmp_path;
  let kv2 := mkKv (kv_files kv1) (make_dirs (kv_dirs kv1) (Some sc)) in
  rename_dir kv2 tmp_path (sc +:+ "/" +:+ sub).

(** ** Facts *)

Lemma path_dirs_self s : s ∈ path_dirs s.
Proof.
  induction s as [|a s IH]; simpl; [by left|].
  case_bool_decide; [apply elem_of_cons; right|]; by apply list_elem_of_fmap_2.
Qed.

Lemma make_dirs_lookup dirs s d :
  is_Some (make_dirs dirs (Some s) !! d) ↔ d ∈ path_dirs s ∨ is_Some (dirs !! d).
Proof.
  unfold make_dirs. induction (path_dirs s) as [|x l IH]; simpl; [set_solver|].
  rewrite lookup_insert, elem_of_cons. case_decide; naive_solver.
Qed.

Lemma make_dirs_self dirs s : is_Some (make_dirs dirs (Some s) !! s).
Proof. apply make_dirs_lookup. left. apply path_dirs_self. Qed.

Lemma make_dirs_mono dirs sc d : is_Some (dirs !! d) → is_Some (make_dirs dirs sc !! d).
Proof. destruct sc; [|done]. intros. apply make_dirs_lookup. by right. Qed.

Lemma kv_get_store {A} `{!Json V A} self self' key (a : A) :
  store self key a = Ok self' → kv_get self' key = Ok (Some a).
Proof.
  unfold store, kv_get. intros [= <-]. simpl. rewrite lookup_insert_eq, from_to_json. done.
Qed.

Lemma store_new_Ok {A} `{!Json V A} self self' key (a : A) :
  store_new self key a = Ok self' ↔ kv_files self !! key = None ∧ store self key a = Ok self'.
Proof.
  unfold store_new, kv_has. case_bool_decide as H.
  - split; [done|]. intros [Hn _]. rewrite Hn in H. by destruct H.
  - apply eq_None_not_Some in H. naive_solver.
Qed.

Lemma elem_of_keys self sc matching ks k :
  keys self sc matching = Ok ks →
  k ∈ ks ↔ is_Some (kv_files self !! k) ∧ scope k = sc ∧ (matching = "" ∨ contains (name k) matching = true).
Proof.
  unfold keys, read_dir_files. destruct (dir_exists self sc); simpl; [|done].
  intros [= <-]. rewrite list_elem_of_fmap. setoid_rewrite list_elem_of_filter.
  setoid_rewrite list_elem_of_fmap. setoid_rewrite list_elem_of_filter.
  setoid_rewrite elem_of_hm_keys. split.
  - intros (n&->&Hm&k'&->&Hsc&Hk'). destruct k' as [sc' n']; simpl in *; subst.
    apply orb_true_iff in Hm. rewrite bool_decide_eq_true in Hm. done.
  - intros (Hk&Hsc&Hm). exists (name k). destruct k as [sc' n']; simpl in *; subst.
    split; [done|]. split; [|by exists (mkKey sc n')].
    apply orb_true_iff. by rewrite bool_decide_eq_true.
Qed.

Lemma keys_NoDup self sc matching ks : keys self sc matching = Ok ks → NoDup ks.
Proof.
  unfold keys, read_dir_files. destruct (dir_exists self sc); simpl; [|done]. intros [= <-].
  apply NoDup_fmap_2; [intros ?? [=]; done|]. apply NoDup_filter, NoDup_fmap_2_strong.
  - intros [s1 n1] [s2 n2] [H1 _]%list_elem_of_filter [H2 _]%list_elem_of_filter ?; simpl in *; congruence.
  - apply NoDup_filter, NoDup_hm_keys.
Qed.

Lemma path_dirs_app s x :
  has_slash x = false → path_dirs (s +:+ "/" +:+ x) = path_dirs s ++ [s +:+ "/" +:+ x].
Proof.
  intros Hx. assert (path_dirs x = [x]) as Hpx.
  { induction x as [|a x IH]; [done|]. simpl in *. apply orb_false_iff in Hx as [-> Hx].
    by rewrite IH. }
  induction s as [|a s IH].
  - rewrite !string_app_nil. change ("/" +:+ x) with (String "/" x). simpl. by rewrite Hpx.
  - rewrite string_app_cons. simpl. rewrite IH, fmap_app. simpl. by case_bool_decide.
Qed.

Lemma path_dirs_last s : last (path_dirs s) = Some s.
Proof.
  induction s as [|a s IH]; [done|]. simpl.
  assert (last (String a <$> path_dirs s) = Some (String a s)) as Hl by (by rewrite fmap_last, IH).
  case_bool_decide; [|done]. by rewrite last_cons, Hl.
Qed.

Lemma path_parent_app s x : has_slash x = false → path_parent (s +:+ "/" +:+ x) = Some s.
Proof.
  intros Hx. unfold path_parent. rewrite path_dirs_app by done. rewrite removelast_last.
  apply path_dirs_last.
Qed.

Lemma string_app_ne (s x : string) : x ≠ "" → s +:+ x ≠ s.
Proof.
  intros Hx Heq%(f_equal String.length). rewrite app_length_string in Heq. destruct x; [done|].
  simpl in Heq. lia.
Qed.

Lemma sub_scope_ne h k x : scope k = Some h → x ≠ "" → scope (sub_scope k x) ≠ Some h.
Proof.
  intros Hk Hx Ha. unfold sub_scope in Ha. rewrite bool_decide_false, Hk in Ha by done. simpl in Ha.
  injection Ha as Ha. by apply (string_app_ne h) in Ha.
Qed.

(** Moving a key into a sub-scope of its own scope succeeds. *)
Lemma move_sub_Ok self h k v x :
  x ≠ "" → has_slash x = false →
  scope k = Some h → kv_files self !! k = Some v → is_Some (kv_dirs self !! h) →
  ∃ dirs, move_key self k (sub_scope k x) = Ok (mkKv (<[sub_scope k x := v]> (delete k (kv_files self))) dirs) ∧
    is_Some (dirs !! h).
Proof.
  intros Hx Hsl Hk Hv Hd. unfold move_key. rewrite Hv.
  unfold sub_scope. rewrite bool_decide_false, Hk by done. cbn [scope]. simpl.
  case_bool_decide; simpl; [eauto|].
  rewrite path_parent_app by done. simpl. rewrite bool_decide_true by done. simpl.
  eexists. split; [done|]. rewrite lookup_insert. case_decide; eauto.
Qed.

Lemma archive_Ok self h k v :
  scope k = Some h → kv_files self !! k = Some v → is_Some (kv_dirs self !! h) →
  ∃ dirs, archive self k = Ok (mkKv (<[key_archived k := v]> (delete k (kv_files self))) dirs) ∧
    is_Some (dirs !! h).
Proof. by apply move_sub_Ok. Qed.
End kv.
Arguments KeyValueStore : clear implicits.
