(* ===== verification/LogPath.v ===== *)
(** * Replaying a log of numbered files

    Both stores replay numbered files onto an instance: the file for the instance's own number
    is read and applied, which moves the instance to the next number, until there is no such
    file.  [log_path] says that the files lead from one instance to another; every file is
    read once, so the number of files bounds the length of a replay. *)

From stdpp Require Import base gmap strings list fin_maps fin_sets.
From S2P Require Import Prelude Kv.

Section log.
Context {V S I : Type} `{JI : !Json V I}.
Context (key : N → KeyStoreKey) (rev : S → N) (app : S → I → S) (fits : S → I → Prop).
Implicit Types (kv : KeyValueStore V) (s t : S).

Definition item_at kv (r : N) (i : I) : Prop := kv_get kv (key r) = Ok (Some i).

Inductive log_path kv : S → S → Prop :=
| path_nil t : log_path kv t t
| path_cons s t i :
    (rev s < u64_max)%N → item_at kv (rev s) i → fits s i → log_path kv (app s i) t → log_path kv s t.

Context (key_inj : ∀ r r', key r = key r' → r = r') (rev_app : ∀ s i, rev (app s i) = u64_succ (rev s)).

Lemma item_at_Some kv r i : item_at kv r i → is_Some (kv_files kv !! key r).
Proof. unfold item_at, kv_get. by destruct (kv_files kv !! key r). Qed.

Lemma path_revision kv s t : log_path kv s t → (rev s ≤ rev t)%N.
Proof.
  induction 1 as [|s t i Hlt _ _ _ IH]; [lia|]. rewrite rev_app, u64_succ_small in IH by done. lia.
Qed.

Lemma path_trans kv s t u : log_path kv s t → log_path kv t u → log_path kv s u.
Proof. induction 1; eauto using log_path. Qed.

Lemma path_snoc kv s t i :
  log_path kv s t → (rev t < u64_max)%N → item_at kv (rev t) i → fits t i → log_path kv s (app t i).
Proof. intros. eapply path_trans; [done|]. eauto using log_path. Qed.

Lemma path_frame kv kv' s t :
  log_path kv s t →
  (∀ r, (rev s ≤ r < rev t)%N → (r < u64_max)%N → kv_files kv' !! key r = kv_files kv !! key r) →
  log_path kv' s t.
Proof.
  induction 1 as [|s t i Hlt Hi Hf Hp IH]; intros Hk; [constructor|].
  pose proof (path_revision _ _ _ Hp) as Hle. rewrite rev_app, u64_succ_small in Hle, IH by done.
  econstructor; [done| |done|apply IH; intros r Hr; apply Hk; lia].
  unfold item_at, kv_get in *. rewrite Hk by lia. done.
Qed.

(** Two paths from one instance to the same number end in the same instance. *)
Lemma path_functional kv s t t' :
  log_path kv s t → log_path kv s t' → rev t = rev t' → t = t'.
Proof.
  induction 1 as [t|s t i Hlt Hi Hf Hp IH]; intros Hp' Heq.
  - destruct Hp' as [|t t' i Hlt Hi _ Hp']; [done|].
    apply path_revision in Hp'. rewrite rev_app, u64_succ_small in Hp' by done. lia.
  - destruct Hp' as [t'|s t' i' Hlt' Hi' _ Hp'].
    + apply path_revision in Hp. rewrite rev_app, u64_succ_small in Hp by done. lia.
    + unfold item_at in *. rewrite Hi in Hi'. simplify_eq. by apply IH.
Qed.

(** Every item of a path is a file of its own. *)
Lemma path_files kv s t : log_path kv s t → N.to_nat (rev t - rev s) ≤ size (kv_files kv).
Proof.
  intros Hp.
  assert (∀ r, (rev s ≤ r < rev t)%N → is_Some (kv_files kv !! key r)) as Hfiles.
  { induction Hp as [|s t i Hlt Hi Hf Hp IH]; intros r Hr; [lia|].
    rewrite rev_app, u64_succ_small in IH by done.
    destruct (decide (r = rev s)) as [->|]; [by eapply item_at_Some|apply IH; lia]. }
  set (ks := (λ i, key (rev s + N.of_nat i)) <$> seq 0 (N.to_nat (rev t - rev s))).
  assert (NoDup ks) as Hnd.
  { apply NoDup_fmap_2_strong; [|apply NoDup_seq]. intros i j _ _ Heq%key_inj. lia. }
  assert (N.to_nat (rev t - rev s) = size (list_to_set ks :> gset KeyStoreKey)) as ->.
  { rewrite size_list_to_set by done. unfold ks. by rewrite length_fmap, length_seq. }
  rewrite <-size_dom. apply subseteq_size. intros k Hk.
  apply elem_of_list_to_set, list_elem_of_fmap in Hk as (i&->&Hi%elem_of_seq).
  apply elem_of_dom, Hfiles. lia.
Qed.
End log.
