(* ===== verification/WalStore.v ===== *)
(** * The write-ahead log store ([src/src/commons/eventsourcing/wal.rs])

    [WalSupport] is the interface a type gives the store: commands yield changes, a set of
    changes moves an instance to its next revision.  The store keeps a snapshot per handle,
    one file per change set, and a cache of instances. *)

From stdpp Require Import base gmap strings list pretty.
From S2P Require Import Prelude Text Kv.

(** A set of changes that applies to an instance of the given revision. *)
Record WalSet (Change : Type) := mkWalSet {
  ws_revision : N;
  ws_summary : string;
  ws_changes : list Change;
}.
Arguments mkWalSet {Change}.
Arguments ws_revision {Change}.
Arguments ws_summary {Change}.
Arguments ws_changes {Change}.

(** [WalSupport] with its [WalCommand]; [WEnv] is what a command reads from outside. *)
Class WalSupport (T Command Change CError WEnv : Type) := {
  wal_revision : T → N;
  wal_apply : T → WalSet Change → T;
  wal_process_command : T → WEnv → Command → result CError (list Change);
  wal_handle : Command → string;
  wal_summary : Command → string;
}.

(** What the store relies on: a set takes an instance to the next revision. *)
Class WalLaws `{W : WalSupport T Command Change CError WEnv} : Prop :=
  wal_apply_revision : ∀ t set, wal_revision (wal_apply t set) = u64_succ (wal_revision t).

Inductive WalStoreError :=
| WalKeyStoreError (e : KeyValueError)
| WalUnknown (handle : string)
| WalWarmupFailed (handle : string).

Definition key_for_snapshot (handle : string) : KeyStoreKey := key_scoped handle "snapshot.json".

Definition key_for_wal_set (handle : string) (revision : N) : KeyStoreKey :=
  key_scoped handle ("wal-" +:+ pretty revision +:+ ".json").

(** The revision in a key as [update_snapshot] reads it. *)
Definition revision_of_key (key : KeyStoreKey) : option N :=
  remaining ← strip_prefix "wal-" (name key);
  number ← strip_suffix ".json" remaining;
  parse_u64 number.

Section wal.
Context `{HO : !HashOrder} `{W : WalSupport T Command Change CError WEnv}.
Context {V : Type} `{JT : !Json V T} `{JS : !Json V (WalSet Change)}.

Record WalStore := mkWalStore {
  ws_kv : KeyValueStore V;
  ws_cache : gmap string T;
}.

Definition ws_with_kv (self : WalStore) (kv : KeyValueStore V) : WalStore :=
  mkWalStore kv (ws_cache self).
Definition cache_insert (self : WalStore) (handle : string) (instance : T) : WalStore :=
  mkWalStore (ws_kv self) (<[handle := instance]> (ws_cache self)).

Definition wal_err {A} (r : result KeyValueError A) : result WalStoreError A :=
  map_err WalKeyStoreError r.

Definition wal_has (self : WalStore) (handle : string) : bool :=
  kv_has (ws_kv self) (key_for_snapshot handle).

Definition get_snapshot (self : WalStore) (handle : string) : result WalStoreError T :=
  o ← wal_err (kv_get (ws_kv self) (key_for_snapshot handle));
  ok_or o (WalUnknown handle).

(** The loop of [get_latest_no_lock]; [None] when the fuel does not suffice. *)
Fixpoint replay (fuel : nat) (kv : KeyValueStore V) (handle : string) (instance : T)
    : option (result WalStoreError T) :=
  match fuel with
  | 0 => None
  | S fuel =>
      match kv_get kv (key_for_wal_set handle (wal_revision instance)) with
      | Err e => Some (Err (WalKeyStoreError e))
      | Ok None => Some (Ok instance)
      | Ok (Some set) => replay fuel kv handle (wal_apply instance set)
      end
  end.

(** One more than the number of files: every iteration reads another file. *)
Definition replay_fuel (kv : KeyValueStore V) : nat := S (size (kv_files kv)).

Definition get_latest_no_lock (self : WalStore) (handle : string)
    : option (WalStore * result WalStoreError T) :=
  match match ws_cache self !! handle with
        | None => get_snapshot self handle
        | Some instance => Ok instance
        end with
  | Err e => Some (self, Err e)
  | Ok instance =>
      if negb (kv_has (ws_kv self) (key_for_wal_set handle (wal_revision instance)))
      then Some (self, Ok instance)
      else r ← replay (replay_fuel (ws_kv self)) (ws_kv self) handle instance;
           Some match r with
                | Ok instance => (cache_insert self handle instance, Ok instance)
                | Err e => (self, Err e)
                end
  end.

Definition wal_add (self : WalStore) (handle : string) (instance : T)
    : WalStore * result WalStoreError unit :=
  match store_new (ws_kv self) (key_for_snapshot handle) instance with
  | Err e => (self, Err (WalKeyStoreError e))
  | Ok kv => (cache_insert (ws_with_kv self kv) handle instance, Ok tt)
  end.

Definition wal_remove (self : WalStore) (handle : string) : WalStore * result WalStoreError unit :=
  if negb (wal_has self handle) then (self, Err (WalUnknown handle))
  else
    let self := mkWalStore (ws_kv self) (delete handle (ws_cache self)) in
    match drop_scope (ws_kv self) handle with
    | Err e => (self, Err (WalKeyStoreError e))
    | Ok kv => (ws_with_kv self kv, Ok tt)
    end.

Inductive CommandError := FromStore (e : WalStoreError) | FromType (e : CError).

Definition send_command (self : WalStore) (env : WEnv) (cmd : Command)
    : option (WalStore * result CommandError T) :=
  let handle := wal_handle cmd in
  x ← get_latest_no_lock self handle;
  let '(self, r) := x : WalStore * result WalStoreError T in
  Some match r with
  | Err e => (self, Err (FromStore e))
  | Ok latest =>
      let summary := wal_summary cmd in
      let revision := wal_revision latest in
      match wal_process_command latest env cmd with
      | Err e => (self, Err (FromType e))
      | Ok changes =>
          if bool_decide (changes = []) then (self, Ok latest)
          else
            let set := mkWalSet revision summary changes in
            match store_new (ws_kv self) (key_for_wal_set handle revision) set with
            | Err e => (self, Err (FromStore (WalKeyStoreError e)))
            | Ok kv =>
                let latest := wal_apply latest set in
                (cache_insert (ws_with_kv self kv) handle latest, Ok latest)
            end
      end
  end.

(** *** Updating the snapshot, in the steps that other threads may come between *)

Definition store_snapshot (self : WalStore) (handle : string) (latest : T)
    : result WalStoreError WalStore :=
  kv ← wal_err (store (ws_kv self) (key_for_snapshot handle) latest);
  Ok (ws_with_kv self kv).

Definition clean_key (archive_sets : bool) (latest : T) (kv : KeyValueStore V) (key : KeyStoreKey)
    : result KeyValueError (KeyValueStore V) :=
  match revision_of_key key with
  | Some revision =>
      if bool_decide (revision < wal_revision latest)%N
      then if archive_sets then archive kv key else drop_key kv key
      else Ok kv
  | None => Ok kv
  end.

Definition update_snapshot (self : WalStore) (handle : string) (archive_sets : bool)
    : option (WalStore * result WalStoreError unit) :=
  x ← get_latest_no_lock self handle;
  let '(self, r) := x : WalStore * result WalStoreError T in
  Some match r with
  | Err e => (self, Err e)
  | Ok latest =>
      match store_snapshot self handle latest with
      | Err e => (self, Err e)
      | Ok self =>
          match keys (ws_kv self) (Some handle) "wal-" with
          | Err e => (self, Err (WalKeyStoreError e))
          | Ok ks =>
              match fold_each (clean_key archive_sets latest) (ws_kv self) ks with
              | Err e => (self, Err (WalKeyStoreError e))
              | Ok kv => (ws_with_kv self kv, Ok tt)
              end
          end
      end
  end.

(** Scopes whose name is a handle; [MyHandle::from_str] is the test. *)
Definition wal_list (is_handle : string → bool) (self : WalStore)
    : result WalStoreError (list string) :=
  l ← wal_err (scopes (ws_kv self)); Ok (filter (λ s, is_handle s = true) (l : list string)).

Fixpoint warm_all (self : WalStore) (handles : list string)
    : option (WalStore * result WalStoreError unit) :=
  match handles with
  | [] => Some (self, Ok tt)
  | handle :: handles =>
      x ← get_latest_no_lock self handle;
      let '(self, r) := x : WalStore * result WalStoreError T in
      match r with
      | Err e => Some (self, Err (WalWarmupFailed handle))
      | Ok latest => warm_all (cache_insert self handle latest) handles
      end
  end.

Definition wal_warm (is_handle : string → bool) (self : WalStore)
    : option (WalStore * result WalStoreError unit) :=
  match wal_list is_handle self with
  | Err e => Some (self, Err e)
  | Ok handles => warm_all self handles
  end.

(** Stopping the process: the disk stays, the cache is gone. *)
Definition wal_restart (self : WalStore) : WalStore := mkWalStore (ws_kv self) ∅.
End wal.
Arguments WalStore : clear implicits.
