(* ===== verification/WalFacts.v ===== *)
(** * Durability of the write-ahead log store

    The store implements a plain instance per handle: [wal_inv st h t] says that the disk and
    the cache of [st] hold the instance [t] for handle [h], in the form of a snapshot and the
    change sets that lead from it to [t].  Every operation keeps it, a restart keeps it, and
    so does a snapshot update whose steps are interleaved with commands of other threads. *)

From stdpp Require Import base gmap strings list pretty fin_maps fin_sets.
From Stdlib Require Import Ascii.
From S2P Require Import Prelude Text Kv LogPath WalStore.

(** ** Keys *)

Lemma revision_of_wal_key h r : (r ≤ u64_max)%N → revision_of_key (key_for_wal_set h r) = Some r.
Proof.
  intros Hr. unfold revision_of_key, key_for_wal_set, key_scoped; simpl name.
  rewrite strip_prefix_app. simpl. rewrite strip_suffix_app. simpl. by apply parse_u64_pretty.
Qed.

Lemma key_for_wal_set_inj h r r' : key_for_wal_set h r = key_for_wal_set h r' → r = r'.
Proof.
  unfold key_for_wal_set, key_scoped. intros Heq.
  assert ("wal-" +:+ pretty r +:+ ".json" = "wal-" +:+ pretty r' +:+ ".json") as Heq' by congruence.
  apply (f_equal (strip_prefix "wal-")) in Heq'. rewrite !strip_prefix_app in Heq'.
  injection Heq' as Heq'. apply (f_equal (strip_suffix ".json")) in Heq'.
  rewrite !strip_suffix_app in Heq'. injection Heq' as Heq'. by apply (inj pretty).
Qed.

Lemma wal_key_not_snapshot h h' r : key_for_wal_set h r ≠ key_for_snapshot h'.
Proof. done. Qed.

Section wal_facts.
Context `{HO : !HashOrder} `{W : WalSupport T Command Change CError WEnv} `{WL : !WalLaws}.
Context {V : Type} `{JT : !Json V T} `{JS : !Json V (WalSet Change)}.
Implicit Types (kv : KeyValueStore V) (st : WalStore T V) (h : string) (s t : T).

(** The stored sets lead from one instance to another. *)
Abbreviation path kv h := (log_path (key_for_wal_set h) wal_revision wal_apply (λ _ _, True) kv).
Abbreviation wal_set_at kv h r set := (item_at (key_for_wal_set h) kv r set).

Definition wal_inv st h t : Prop :=
  (∃ s, kv_get (ws_kv st) (key_for_snapshot h) = Ok (Some s) ∧ path (ws_kv st) h s t) ∧
  (∀ c, ws_cache st !! h = Some c → path (ws_kv st) h c t) ∧
  (∀ r, is_Some (kv_files (ws_kv st) !! key_for_wal_set h r) → (r < wal_revision t)%N) ∧
  is_Some (kv_dirs (ws_kv st) !! h).

Lemma wpath_revision kv h s t : path kv h s t → (wal_revision s ≤ wal_revision t)%N.
Proof. apply path_revision, wal_apply_revision. Qed.

Lemma wpath_frame kv kv' h s t :
  path kv h s t →
  (∀ r, (wal_revision s ≤ r < wal_revision t)%N → (r < u64_max)%N →
    kv_files kv' !! key_for_wal_set h r = kv_files kv !! key_for_wal_set h r) →
  path kv' h s t.
Proof. apply path_frame, wal_apply_revision. Qed.

Lemma wpath_files kv h s t :
  path kv h s t → N.to_nat (wal_revision t - wal_revision s) ≤ size (kv_files kv).
Proof. apply path_files; [apply key_for_wal_set_inj|apply wal_apply_revision]. Qed.

(** The loop ends at the end of the path. *)
Lemma replay_path kv h s t fuel :
  path kv h s t → kv_files kv !! key_for_wal_set h (wal_revision t) = None →
  (N.to_nat (wal_revision t - wal_revision s) < fuel)%nat → replay fuel kv h s = Some (Ok t).
Proof.
  intros Hp Hend. revert fuel. induction Hp as [t|s t set Hlt Hset _ Hp IH]; intros [|fuel] Hf; [lia| |lia|].
  - simpl. unfold kv_get. by rewrite Hend.
  - simpl. unfold item_at in Hset. rewrite Hset.
    pose proof (wpath_revision _ _ _ _ Hp) as Hle.
    rewrite (wal_apply_revision (WalLaws := WL)), u64_succ_small in Hle, IH by done.
    apply IH; [done|]. lia.
Qed.

(** ** The invariant depends on one handle only *)

Definition same_handle st st' h : Prop :=
  (∀ k, scope k = Some h → kv_files (ws_kv st') !! k = kv_files (ws_kv st) !! k) ∧
  ws_cache st' !! h = ws_cache st !! h ∧
  (is_Some (kv_dirs (ws_kv st) !! h) → is_Some (kv_dirs (ws_kv st') !! h)).

Lemma wal_inv_frame st st' h t : same_handle st st' h → wal_inv st h t → wal_inv st' h t.
Proof.
  intros (Hk&Hc&Hd) ((s&Hs&Hp)&Hcache&Hmax&Hdir). split; [|split; [|split]].
  - exists s. unfold kv_get in *. rewrite Hk by done. split; [done|].
    eapply wpath_frame; [done|]. intros. by apply Hk.
  - intros c. rewrite Hc. intros Hc'%Hcache. eapply wpath_frame; [done|]. intros. by apply Hk.
  - intros r. rewrite Hk by done. apply Hmax.
  - auto.
Qed.

Lemma wal_inv_end st h t :
  wal_inv st h t → kv_files (ws_kv st) !! key_for_wal_set h (wal_revision t) = None.
Proof.
  intros (_&_&Hmax&_). apply eq_None_not_Some. intros H%Hmax. lia.
Qed.

Lemma replay_fuel_enough st h s t :
  wal_inv st h t → path (ws_kv st) h s t →
  replay (replay_fuel (ws_kv st)) (ws_kv st) h s = Some (Ok t).
Proof.
  intros Hinv Hp. apply replay_path; [done|by apply wal_inv_end|].
  unfold replay_fuel. pose proof (wpath_files _ _ _ _ Hp). lia.
Qed.

(** Getting the latest instance: it is the one the invariant names, and what is cached
    for the handle afterwards is that instance. *)
Lemma get_latest_inv st h t :
  wal_inv st h t →
  ∃ st', get_latest_no_lock st h = Some (st', Ok t) ∧ wal_inv st' h t ∧ ws_kv st' = ws_kv st ∧
    (∀ h', h' ≠ h → ws_cache st' !! h' = ws_cache st !! h') ∧
    (ws_cache st' !! h = None ∨ ws_cache st' !! h = Some t).
Proof.
  intros Hinv. pose proof Hinv as ((s&Hs&Hp)&Hcache&Hmax&Hdir). unfold get_latest_no_lock.
  assert (∃ i, match ws_cache st !! h with
    None => get_snapshot st h | Some i => Ok i end = Ok i ∧ path (ws_kv st) h i t ∧
    (ws_cache st !! h = None ∨ ws_cache st !! h = Some i)) as (i&->&Hi&Hci).
  { destruct (ws_cache st !! h) as [c|] eqn:Hc; [exists c; auto|].
    exists s. unfold get_snapshot. rewrite Hs. auto. }
  unfold kv_has. case_bool_decide as Hhas; cbn [negb].
  - rewrite (replay_fuel_enough _ _ _ _ Hinv Hi). simpl. eexists. split; [done|].
    unfold cache_insert; simpl. split; [|split; [done|split]].
    + split; [by exists s|]. split; [|done]. simpl. intros c. rewrite lookup_insert_eq.
      intros [= <-]. constructor.
    + intros h' Hne. by rewrite lookup_insert_ne.
    + right. by rewrite lookup_insert_eq.
  - eexists. split; [|split; [exact Hinv|split; [done|split; [done|]]]].
    + do 2 f_equal. f_equal. destruct Hi as [|i t set Hlt Hset _ _]; [done|].
      exfalso. apply Hhas. unfold item_at, kv_get in Hset. by destruct (kv_files _ !! _).
    + destruct Hi as [|i t set Hlt Hset _ _]; [done|].
      exfalso. apply Hhas. unfold item_at, kv_get in Hset. by destruct (kv_files _ !! _).
Qed.

(** ** Commands *)

(** The object the store implements: a command that yields changes moves the instance on,
    any other command leaves it. *)
Definition spec_send t (env : WEnv) (cmd : Command) : T * result (CommandError (CError := CError)) T :=
  match wal_process_command t env cmd with
  | Err e => (t, Err (FromType e))
  | Ok [] => (t, Ok t)
  | Ok changes =>
      let t' := wal_apply t (mkWalSet (wal_revision t) (wal_summary cmd) changes) in (t', Ok t')
  end.

(** Storing the next set on disk is what commits a command: from then on the disk alone
    holds the new instance. *)
Lemma commit_path kv h s t set kv' :
  path kv h s t → (wal_revision t < u64_max)%N →
  store kv (key_for_wal_set h (wal_revision t)) set = Ok kv' → path kv' h s (wal_apply t set).
Proof.
  intros Hp Hlt Hst. pose proof (kv_get_store _ _ _ _ Hst) as Hset.
  apply path_snoc; [|done..]. eapply wpath_frame; [done|]. unfold store in Hst. injection Hst as <-.
  intros r Hr _. simpl. rewrite lookup_insert_ne; [done|]. intros Heq%key_for_wal_set_inj. lia.
Qed.

Lemma wal_commit st h t set kv' :
  wal_inv st h t → (wal_revision t < u64_max)%N →
  store (ws_kv st) (key_for_wal_set h (wal_revision t)) set = Ok kv' →
  wal_inv (mkWalStore kv' (ws_cache st)) h (wal_apply t set).
Proof.
  intros ((s&Hs&Hp)&Hcache&Hmax&Hdir) Hlt Hst. split; [|split; [|split]]; simpl in *.
  - exists s. split; [|by eapply commit_path]. unfold store in Hst. injection Hst as <-.
    unfold kv_get in *; simpl. by rewrite lookup_insert_ne.
  - intros c Hc. eapply commit_path; eauto.
  - unfold store in Hst. injection Hst as <-. simpl.
    intros r. rewrite (wal_apply_revision (WalLaws := WL)), u64_succ_small by done.
    rewrite lookup_insert. case_decide as Heq; [apply key_for_wal_set_inj in Heq; lia|].
    intros H%Hmax. lia.
  - unfold store in Hst. injection Hst as <-. by apply make_dirs_mono.
Qed.

Lemma wal_inv_cache st h t : wal_inv st h t → wal_inv (cache_insert st h t) h t.
Proof.
  intros (Hs&_&Hmax&Hdir). repeat split; try done. simpl. intros c. rewrite lookup_insert_eq.
  intros [= <-]. constructor.
Qed.

Lemma send_command_inv st h t env cmd :
  wal_inv st h t → wal_handle cmd = h → (wal_revision t < u64_max)%N →
  ∃ st', send_command st env cmd = Some (st', (spec_send t env cmd).2) ∧
    wal_inv st' h (spec_send t env cmd).1 ∧
    kv_get (A := T) (ws_kv st') (key_for_snapshot h) = kv_get (ws_kv st) (key_for_snapshot h) ∧
    (∀ s, path (ws_kv st) h s t → path (ws_kv st') h s (spec_send t env cmd).1) ∧
    (ws_cache st' !! h = None ∨ ws_cache st' !! h = Some (spec_send t env cmd).1).
Proof.
  intros Hinv <- Hlt. unfold send_command, spec_send.
  destruct (get_latest_inv _ _ _ Hinv) as (st1&->&Hinv1&Hkv&_&Hcache). simpl.
  destruct (wal_process_command t env cmd) as [[|c cs]|e];
    [exists st1; by rewrite Hkv| |exists st1; by rewrite Hkv].
  rewrite bool_decide_false by done. set (set := mkWalSet _ _ _).
  destruct (store_new _ _ set) as [kv'|e] eqn:Hst.
  - apply store_new_Ok in Hst as [_ Hst]. eexists. split; [done|]. simpl. split; [|split; [|split]].
    + apply wal_inv_cache. by eapply wal_commit.
    + unfold store in Hst. injection Hst as <-. unfold kv_get; simpl.
      by rewrite lookup_insert_ne, Hkv.
    + intros s Hs. eapply commit_path; [|done..]. by rewrite Hkv.
    + right. by rewrite lookup_insert_eq.
  - unfold store_new, kv_has in Hst. rewrite bool_decide_false in Hst; [done|].
    apply eq_None_not_Some, (wal_inv_end _ _ _ Hinv1).
Qed.

(** A command leaves every other handle alone. *)
Lemma get_latest_frame st st' h h' r :
  get_latest_no_lock st h' = Some (st', r) → h ≠ h' → same_handle st st' h.
Proof.
  unfold get_latest_no_lock. intros Hg Hne.
  assert (st' = st ∨ ∃ i, st' = cache_insert st h' i) as [->|[i ->]].
  { destruct (match ws_cache st !! h' with None => _ | Some i => Ok i end) as [i|e];
      simplify_eq; [|by left]. destruct (negb _); simplify_eq; [by left|].
    destruct (replay _ _ _ _) as [[t|e]|]; simplify_eq/=; eauto. }
  - done.
  - split; [done|]. split; [|done]. simpl. by rewrite lookup_insert_ne.
Qed.

Lemma send_command_frame st st' h env cmd r :
  send_command st env cmd = Some (st', r) → h ≠ wal_handle cmd → same_handle st st' h.
Proof.
  unfold send_command. intros Hs Hne.
  destruct (get_latest_no_lock st (wal_handle cmd)) as [[st1 r1]|] eqn:Hg; [|done]. simpl in Hs.
  pose proof (get_latest_frame _ _ _ _ _ Hg Hne) as Hsame.
  destruct r1 as [latest|e]; [|by simplify_eq].
  destruct (wal_process_command _ _ _) as [cs|e]; [|by simplify_eq].
  case_bool_decide; [by simplify_eq|].
  destruct (store_new _ _ _) as [kv'|e] eqn:Hst; simplify_eq; [|done].
  apply store_new_Ok in Hst as [_ Hst]. unfold store in Hst. injection Hst as <-.
  destruct Hsame as (H1&H2&H3). split; [|split]; simpl.
  - intros k Hk. rewrite lookup_insert_ne; [by apply H1|]. intros <-. simpl in Hk. congruence.
  - by rewrite lookup_insert_ne.
  - intros Hd. apply make_dirs_mono. auto.
Qed.

Lemma restart_inv st h t : wal_inv st h t → wal_inv (wal_restart st) h t.
Proof.
  intros (Hs&_&Hmax&Hdir). by repeat split.
Qed.

(** Adding an instance to an unused handle. *)
Lemma wal_add_inv st h t :
  (∀ k, scope k = Some h → kv_files (ws_kv st) !! k = None) →
  ∃ st', wal_add st h t = (st', Ok tt) ∧ wal_inv st' h t.
Proof.
  intros Hnone. unfold wal_add, store_new, kv_has.
  rewrite bool_decide_false by (rewrite Hnone by done; by intros []).
  eexists. split; [done|]. unfold store; simpl. split; [|split; [|split]]; simpl.
  - exists t. split; [|constructor]. unfold kv_get; simpl. by rewrite lookup_insert_eq, from_to_json.
  - intros c. rewrite lookup_insert_eq. intros [= <-]. constructor.
  - intros r. rewrite lookup_insert_ne by done. rewrite Hnone by done. by intros [].
  - apply make_dirs_self.
Qed.

(** ** Snapshot updates interleaved with commands *)

(** How far a thread is with [update_snapshot]. *)
Inductive Phase :=
| Idle
| Got (latest : T)
| Stored (latest : T)
| Cleaning (latest : T) (ks : list KeyStoreKey).

(** A step of the system; the label is the command that was sent, if any.  Commands and reads
    are atomic under the lock of their handle, the steps of a snapshot update are not. *)
Inductive sys_step (h : string) (archive_sets : bool)
    : option (WEnv * Command) → WalStore T V * Phase → WalStore T V * Phase → Prop :=
| step_command st st' ph env cmd r :
    send_command st env cmd = Some (st', r) →
    sys_step h archive_sets (Some (env, cmd)) (st, ph) (st', ph)
| step_read st st' ph r :
    get_latest_no_lock st h = Some (st', r) → sys_step h archive_sets None (st, ph) (st', ph)
| step_restart st ph : sys_step h archive_sets None (st, ph) (wal_restart st, Idle)
| step_get st st' l :
    get_latest_no_lock st h = Some (st', Ok l) → sys_step h archive_sets None (st, Idle) (st', Got l)
| step_store st st' l :
    store_snapshot st h l = Ok st' → sys_step h archive_sets None (st, Got l) (st', Stored l)
| step_list st l ks :
    keys (ws_kv st) (Some h) "wal-" = Ok ks →
    sys_step h archive_sets None (st, Stored l) (st, Cleaning l ks)
| step_clean st l k ks kv' :
    clean_key archive_sets l (ws_kv st) k = Ok kv' →
    sys_step h archive_sets None (st, Cleaning l (k :: ks)) (ws_with_kv st kv', Cleaning l ks)
| step_done st l : sys_step h archive_sets None (st, Cleaning l []) (st, Idle).

(** The instance a snapshot update has in hand is not newer than what is cached. *)
Definition behind st h t l : Prop :=
  path (ws_kv st) h l t ∧ (∀ c, ws_cache st !! h = Some c → path (ws_kv st) h l c).

Definition phase_inv st h t (ph : Phase) : Prop :=
  match ph with
  | Idle => True
  | Got l => behind st h t l
  | Stored l => behind st h t l ∧ kv_get (ws_kv st) (key_for_snapshot h) = Ok (Some l)
  | Cleaning l ks => behind st h t l ∧ kv_get (ws_kv st) (key_for_snapshot h) = Ok (Some l)
                     ∧ Forall (λ k, scope k = Some h) ks
  end.

(** Cleaning touches neither the snapshot nor the sets from the given instance on. *)
Lemma clean_key_keeps b l kv kv' h k :
  clean_key b l kv k = Ok kv' → scope k = Some h →
  (∀ k', scope k' = Some h → kv_files kv' !! k' = kv_files kv !! k' ∨
     kv_files kv' !! k' = None ∧ ∃ r, revision_of_key k' = Some r ∧ (r < wal_revision l)%N) ∧
  (is_Some (kv_dirs kv !! h) → is_Some (kv_dirs kv' !! h)).
Proof.
  unfold clean_key. intros Hc Hk. destruct (revision_of_key k) as [r|] eqn:Hr; [|naive_solver].
  case_bool_decide as Hlt; [|naive_solver]. destruct b.
  - unfold archive, move_key in Hc. destruct (kv_files kv !! k) as [v|]; [|done].
    inv_ok. simpl. split.
    + intros k' Hk'. rewrite lookup_insert_ne.
      { rewrite lookup_delete. case_decide; [subst; right; eauto|by left]. }
      intros <-. by apply (sub_scope_ne h k "archived").
    + intros Hd. repeat case_on; inv_ok; try done. rewrite lookup_insert. case_decide; eauto.
  - unfold drop_key in Hc. inv_ok. simpl. split; [|done]. intros k' _. rewrite lookup_delete.
    case_decide; [subst; right; eauto|by left].
Qed.

(** Cleaning a stored key succeeds, and removes it if its revision has passed. *)
Lemma clean_key_Ok b l kv h k :
  scope k = Some h → is_Some (kv_files kv !! k) → is_Some (kv_dirs kv !! h) →
  ∃ kv', clean_key b l kv k = Ok kv' ∧
    (∀ k', scope k' = Some h → k' ≠ k → kv_files kv' !! k' = kv_files kv !! k') ∧
    (∀ r, revision_of_key k = Some r → (r < wal_revision l)%N → kv_files kv' !! k = None).
Proof.
  intros Hk [v Hv] Hd. unfold clean_key. destruct (revision_of_key k) as [r|]; [|naive_solver].
  case_bool_decide; [|naive_solver]. destruct b.
  - destruct (archive_Ok _ _ _ _ Hk Hv Hd) as (dirs&->&_). eexists. split; [done|]. simpl.
    assert (∀ k', scope k' = Some h → key_archived k ≠ k') as Hne.
    { intros k' Hk' <-. by apply (sub_scope_ne h k "archived"). }
    split; [intros k' Hk' ?|intros _ _ _]; rewrite lookup_insert_ne by auto;
      [by rewrite lookup_delete_ne|apply lookup_delete_eq].
  - eexists. split; [done|]. simpl. split; [intros k' _ ?|intros _ _ _];
      [by rewrite lookup_delete_ne|apply lookup_delete_eq].
Qed.

Lemma clean_key_path b l kv kv' h k s t :
  clean_key b l kv k = Ok kv' → scope k = Some h → (wal_revision l ≤ wal_revision s)%N →
  path kv h s t → path kv' h s t.
Proof.
  intros Hc Hk Hle Hp. destruct (clean_key_keeps _ _ _ _ _ _ Hc Hk) as [Hkeep _].
  eapply wpath_frame; [done|]. intros r Hr Hmax.
  destruct (Hkeep (key_for_wal_set h r)) as [?|(_&r'&Hr'&?)]; [done..|].
  rewrite revision_of_wal_key in Hr' by lia. simplify_eq. lia.
Qed.

Lemma phase_inv_frame st st' h t ph :
  same_handle st st' h → phase_inv st h t ph → phase_inv st' h t ph.
Proof.
  intros (Hk&Hc&_).
  assert (∀ s u, path (ws_kv st) h s u → path (ws_kv st') h s u) as Hp.
  { intros s u Hp. eapply wpath_frame; [done|]. intros. by apply Hk. }
  assert (∀ l, behind st h t l → behind st' h t l) as Hb.
  { intros l [H1 H2]. split; [auto|]. rewrite Hc. auto. }
  assert (kv_get (A := T) (ws_kv st') (key_for_snapshot h) = kv_get (ws_kv st) (key_for_snapshot h)) as Hs.
  { unfold kv_get. by rewrite Hk. }
  destruct ph; simpl; rewrite ?Hs; naive_solver.
Qed.

Lemma phase_inv_send st st' h t ph env cmd r :
  wal_inv st h t → phase_inv st h t ph → wal_handle cmd = h → (wal_revision t < u64_max)%N →
  send_command st env cmd = Some (st', r) →
  wal_inv st' h (spec_send t env cmd).1 ∧ phase_inv st' h (spec_send t env cmd).1 ph.
Proof.
  intros Hinv Hph Hh Hlt Hs.
  destruct (send_command_inv _ _ _ env cmd Hinv Hh Hlt) as (st1&Hs'&Hinv'&Hsnap&Hpath&Hcache).
  rewrite Hs in Hs'. injection Hs' as -> ->. split; [done|].
  assert (∀ l, behind st h t l → behind st1 h (spec_send t env cmd).1 l) as Hb.
  { intros l [H1 H2]. split; [auto|]. intros c Hc. destruct Hcache as [Hc'|Hc']; rewrite Hc in Hc';
      simplify_eq. auto. }
  destruct ph; simpl in *; rewrite ?Hsnap; naive_solver.
Qed.

Lemma get_latest_phase st st' h t ph r :
  wal_inv st h t → phase_inv st h t ph → get_latest_no_lock st h = Some (st', r) →
  r = Ok t ∧ wal_inv st' h t ∧ phase_inv st' h t ph ∧ behind st' h t t.
Proof.
  intros Hinv Hph Hg. destruct (get_latest_inv _ _ _ Hinv) as (st1&Hg'&Hinv'&Hkv&_&Hcache).
  rewrite Hg in Hg'. injection Hg' as -> ->.
  assert (∀ l, path (ws_kv st) h l t → behind st1 h t l) as Hb.
  { intros l Hl. split; [by rewrite Hkv|]. rewrite Hkv. intros c Hc.
    destruct Hcache as [Hc'|Hc']; rewrite Hc in Hc'; by simplify_eq. }
  split; [done|]. split; [done|]. split; [|apply Hb; constructor].
  destruct ph; simpl in *; unfold behind in Hph; rewrite ?Hkv; naive_solver.
Qed.

Lemma store_snapshot_inv st st' h t l :
  wal_inv st h t → behind st h t l → store_snapshot st h l = Ok st' →
  wal_inv st' h t ∧ behind st' h t l ∧ kv_get (ws_kv st') (key_for_snapshot h) = Ok (Some l).
Proof.
  intros (_&Hc&Hmax&Hdir) [Hl Hlc] Hst. unfold store_snapshot, wal_err in Hst. simpl in Hst.
  injection Hst as <-.
  assert (∀ s u, path (ws_kv st) h s u → path (mkKv (<[key_for_snapshot h:=to_json l]>
    (kv_files (ws_kv st))) (make_dirs (kv_dirs (ws_kv st)) (Some h))) h s u) as Hp.
  { intros s u Hp. eapply wpath_frame; [done|]. intros. simpl. by rewrite lookup_insert_ne. }
  assert (kv_get (mkKv (<[key_for_snapshot h:=to_json l]> (kv_files (ws_kv st)))
    (make_dirs (kv_dirs (ws_kv st)) (Some h))) (key_for_snapshot h) = Ok (Some l)) as Hget.
  { unfold kv_get; simpl. by rewrite lookup_insert_eq, from_to_json. }
  split; [split; [|split; [|split]]|split; [split|]]; simpl; auto.
  - exists l. auto.
  - intros r. rewrite lookup_insert_ne by done. apply Hmax.
  - by apply make_dirs_mono.
Qed.

Lemma clean_key_inv b st h t l k ks kv' :
  wal_inv st h t → phase_inv st h t (Cleaning l (k :: ks)) → clean_key b l (ws_kv st) k = Ok kv' →
  wal_inv (ws_with_kv st kv') h t ∧ phase_inv (ws_with_kv st kv') h t (Cleaning l ks).
Proof.
  intros (_&Hc&Hmax&Hdir) ([Hl Hlc]&Hsnap&[Hk Hks]%Forall_cons) Hclean.
  destruct (clean_key_keeps _ _ _ _ _ _ Hclean Hk) as [Hkeep Hd].
  assert (∀ s u, (wal_revision l ≤ wal_revision s)%N → path (ws_kv st) h s u → path kv' h s u) as Hp.
  { intros s u. by eapply clean_key_path. }
  assert (kv_get kv' (key_for_snapshot h) = Ok (Some l)) as Hsnap'.
  { unfold kv_get in *. destruct (Hkeep (key_for_snapshot h)) as [->|(_&r&Hr&_)]; done. }
  assert (path kv' h l t) as Hl' by (by apply Hp).
  split; [split; [|split; [|split]]|]; simpl.
  - eauto.
  - intros c Hc'. apply Hp; [|by apply Hc]. by eapply wpath_revision, Hlc.
  - intros r Hr. apply Hmax. destruct (Hkeep (key_for_wal_set h r)) as [<-|[Hn _]]; [done..|].
    rewrite Hn in Hr. by destruct Hr.
  - auto.
  - split; [|done]. split; [done|]. intros c Hc'. apply Hp; [done|]. by apply Hlc.
Qed.

Lemma clean_all b l st h t ks :
  wal_inv st h t → phase_inv st h t (Cleaning l ks) → NoDup ks →
  Forall (λ k, is_Some (kv_files (ws_kv st) !! k)) ks →
  ∃ kv', fold_each (clean_key b l) (ws_kv st) ks = Ok kv' ∧
    wal_inv (ws_with_kv st kv') h t ∧ phase_inv (ws_with_kv st kv') h t (Cleaning l []) ∧
    (∀ k, scope k = Some h → k ∉ ks → kv_files kv' !! k = kv_files (ws_kv st) !! k) ∧
    (∀ k r, k ∈ ks → revision_of_key k = Some r → (r < wal_revision l)%N → kv_files kv' !! k = None).
Proof.
  revert st. induction ks as [|k ks IH]; intros st Hinv Hph Hnd Hsome; simpl.
  { exists (ws_kv st). split; [done|]. unfold ws_with_kv. destruct st as [kv cache]. simpl.
    split; [done|]. split; [done|]. split; [done|]. by intros k r ?%elem_of_nil. }
  apply NoDup_cons in Hnd as [Hnin Hnd]. apply Forall_cons in Hsome as [Hk Hsome].
  pose proof Hph as (_&_&[Hsc Hscs]%Forall_cons).
  destruct (clean_key_Ok b l _ _ _ Hsc Hk (proj2 (proj2 (proj2 Hinv)))) as (kv1&Hc&Hother&Hgone).
  rewrite Hc. destruct (clean_key_inv _ _ _ _ _ _ _ _ Hinv Hph Hc) as [Hinv1 Hph1].
  destruct (IH _ Hinv1 Hph1 Hnd) as (kv'&Hfold&Hinv'&Hph'&Hkeep&Hdrop).
  { apply Forall_forall. intros k' Hin. simpl. rewrite Hother; [by eapply Forall_forall in Hsome| |].
    - by eapply Forall_forall in Hscs.
    - by intros ->. }
  exists kv'. split; [exact Hfold|]. split; [done|]. split; [done|]. simpl in *. split.
  - intros k' Hk' [Hne Hnin']%not_elem_of_cons. rewrite Hkeep by done. by apply Hother.
  - intros k' r [->|Hin]%elem_of_cons Hr Hlt; [|by eapply Hdrop].
    rewrite Hkeep by done. by eapply Hgone.
Qed.

(** A snapshot update succeeds; afterwards the instance itself is on disk and no set is left. *)
Lemma update_snapshot_inv b st h t :
  wal_inv st h t → (wal_revision t ≤ u64_max)%N →
  ∃ st', update_snapshot st h b = Some (st', Ok tt) ∧ wal_inv st' h t ∧
    kv_get (ws_kv st') (key_for_snapshot h) = Ok (Some t) ∧
    (∀ r, kv_files (ws_kv st') !! key_for_wal_set h r = None).
Proof.
  intros Hinv Hle. unfold update_snapshot.
  destruct (get_latest_no_lock st h) as [[st1 r1]|] eqn:Hg;
    [|by destruct (get_latest_inv _ _ _ Hinv) as (?&?&_); congruence].
  destruct (get_latest_phase _ _ _ _ Idle _ Hinv I Hg) as (->&Hinv1&_&Hb). cbn [mbind option_bind].
  destruct (store_snapshot st1 h t) as [st2|e] eqn:Hst; [|done].
  destruct (store_snapshot_inv _ _ _ _ _ Hinv1 Hb Hst) as (Hinv2&Hb2&Hs2).
  destruct (keys (ws_kv st2) (Some h) "wal-") as [ks|e] eqn:Hks.
  - assert (phase_inv st2 h t (Cleaning t ks)) as Hph.
    { split; [done|]. split; [done|]. apply Forall_forall. intros k Hk.
      by eapply elem_of_keys in Hk as (?&?&?). }
    destruct (clean_all b t st2 h t ks) as (kv'&->&Hinv'&(_&Hs'&_)&Hkeep&Hdrop); [done..| | |].
    { by eapply keys_NoDup. }
    { apply Forall_forall. intros k Hk. by eapply elem_of_keys in Hk as (?&?&?). }
    eexists. split; [done|]. split; [done|]. split; [done|]. simpl. intros r.
    destruct (kv_files (ws_kv st2) !! key_for_wal_set h r) as [v|] eqn:Hv.
    + assert (r < wal_revision t)%N by (apply Hinv2; eauto).
      eapply Hdrop; [|apply revision_of_wal_key; lia|done].
      eapply elem_of_keys; [done|]. split; [eauto|]. split; [done|]. right. apply contains_prefix.
    + destruct (decide (key_for_wal_set h r ∈ ks)) as [Hin|Hin].
      * eapply elem_of_keys in Hin as [Hin _]; [|done]. rewrite Hv in Hin. by destruct Hin.
      * by rewrite Hkeep.
  - exfalso. unfold keys, read_dir_files, dir_exists in Hks.
    by rewrite (bool_decide_true _ (proj2 (proj2 (proj2 Hinv2)))) in Hks.
Qed.

(** The effect of a label on the instance of [h]. *)
Definition spec_label h t (lab : option (WEnv * Command)) : T :=
  match lab with
  | Some (env, cmd) => if decide (wal_handle cmd = h) then (spec_send t env cmd).1 else t
  | None => t
  end.

Lemma sys_step_inv h b lab st ph st' ph' t :
  wal_inv st h t → phase_inv st h t ph → (wal_revision t < u64_max)%N →
  sys_step h b lab (st, ph) (st', ph') →
  wal_inv st' h (spec_label h t lab) ∧ phase_inv st' h (spec_label h t lab) ph'.
Proof.
  intros Hinv Hph Hlt Hstep. inversion Hstep; simplify_eq; simpl.
  - case_decide as Hh; [by eapply phase_inv_send|].
    assert (same_handle st st' h) by (eapply send_command_frame; [done|congruence]).
    split; [by eapply wal_inv_frame|by eapply phase_inv_frame].
  - by destruct (get_latest_phase _ _ _ _ _ _ Hinv Hph ltac:(eassumption)) as (_&?&?&_).
  - split; [by apply restart_inv|done].
  - by destruct (get_latest_phase _ _ _ _ _ _ Hinv Hph ltac:(eassumption)) as ([= ->]&?&?&?).
  - by destruct (store_snapshot_inv _ _ _ _ _ Hinv Hph ltac:(eassumption)) as (?&?&?).
  - split; [done|]. destruct Hph as [Hb Hs]. split; [done|]. split; [done|].
    apply Forall_forall. intros k Hk. by eapply elem_of_keys in Hk as (?&?&?).
  - by eapply clean_key_inv.
  - done.
Qed.

(** A run of the system, with the commands that were sent in it. *)
Inductive sys_run h (b : bool) : list (option (WEnv * Command)) → WalStore T V * Phase → WalStore T V * Phase → Prop :=
| run_nil x : sys_run h b [] x x
| run_cons lab labs x1 x2 x3 :
    sys_step h b lab x1 x2 → sys_run h b labs x2 x3 → sys_run h b (lab :: labs) x1 x3.

Lemma spec_label_revision h t lab :
  (wal_revision t < u64_max)%N → (wal_revision (spec_label h t lab) ≤ wal_revision t + 1)%N.
Proof.
  intros Hlt. destruct lab as [[env cmd]|]; simpl; [|lia]. case_decide; [|lia].
  unfold spec_send. destruct (wal_process_command t env cmd) as [[|c cs]|e]; simpl; [lia| |lia].
  rewrite (wal_apply_revision (WalLaws := WL)), u64_succ_small by done. lia.
Qed.

Lemma spec_labels_revision h t labs :
  (wal_revision t + N.of_nat (length labs) ≤ u64_max)%N →
  (wal_revision (foldl (spec_label h) t labs) ≤ wal_revision t + N.of_nat (length labs))%N.
Proof.
  revert t. induction labs as [|lab labs IH]; intros t Hle; simpl in *; [lia|].
  pose proof (spec_label_revision h t lab ltac:(lia)). specialize (IH (spec_label h t lab)). lia.
Qed.

Lemma sys_run_inv h b labs x x' t :
  sys_run h b labs x x' → wal_inv x.1 h t → phase_inv x.1 h t x.2 →
  (wal_revision t + N.of_nat (length labs) ≤ u64_max)%N →
  wal_inv x'.1 h (foldl (spec_label h) t labs) ∧ phase_inv x'.1 h (foldl (spec_label h) t labs) x'.2.
Proof.
  intros Hrun. revert t. induction Hrun as [x|lab labs [st ph] [st' ph'] x3 Hstep Hrun IH];
    intros t Hinv Hph Hlt; simpl in *; [done|].
  assert (wal_revision t < u64_max)%N as Hlt' by lia.
  destruct (sys_step_inv _ _ _ _ _ _ _ _ Hinv Hph Hlt' Hstep). apply IH; [done..|].
  pose proof (spec_label_revision h t lab Hlt'). lia.
Qed.
End wal_facts.
