(* ===== verification/EventSourcing.v ===== *)
(** * Event sourcing ([src/src/commons/eventsourcing/{agg,cmd,evt,store}.rs], [commons/api/history.rs])

    An aggregate turns commands into events and applies events to itself.  The
    [AggregateStore] keeps, per handle, every event, every processed command, a snapshot with
    a back-up of the one before it, and the numbers of the last event and command. *)

From stdpp Require Import base gmap strings list pretty sorting.
From S2P Require Import Prelude Text Kv.

(** ** Events and commands *)

Record StoredEvent (E : Type) := mkStoredEvent { ev_id : string; ev_version : N; ev_details : E }.
Arguments mkStoredEvent {E}.
Arguments ev_id {E}.
Arguments ev_version {E}.
Arguments ev_details {E}.

Record SentCommand (C : Type) := mkSentCommand {
  sc_handle : string;
  sc_version : option N;
  sc_details : C;
  sc_actor : string;
}.
Arguments mkSentCommand {C}.
Arguments sc_handle {C}.
Arguments sc_version {C}.
Arguments sc_details {C}.
Arguments sc_actor {C}.

Record Actor := mkActor { actor_name : string; actor_is_user : bool }.

Definition sent_command_new {C} (id : string) (version : option N) (details : C) (actor : Actor)
    : SentCommand C :=
  let name := if actor_is_user actor then "user:" +:+ actor_name actor else actor_name actor in
  mkSentCommand id version details name.

Inductive StoredEffect := EffectError (msg : string) | EffectSuccess (events : list N).

Definition successful (self : StoredEffect) : bool :=
  match self with EffectError _ => false | EffectSuccess _ => true end.

Definition effect_events (self : StoredEffect) : option (list N) :=
  match self with EffectError _ => None | EffectSuccess events => Some events end.

Record StoredCommand (D : Type) := mkStoredCommand {
  cmd_actor : string;
  cmd_time : Instant;
  cmd_handle : string;
  cmd_version : N;
  cmd_sequence : N;
  cmd_details : D;
  cmd_effect : StoredEffect;
}.
Arguments mkStoredCommand {D}.
Arguments cmd_actor {D}.
Arguments cmd_time {D}.
Arguments cmd_handle {D}.
Arguments cmd_version {D}.
Arguments cmd_sequence {D}.
Arguments cmd_details {D}.
Arguments cmd_effect {D}.

(** ** Command keys *)

Record CommandKey := mkCommandKey { ck_sequence : N; ck_timestamp_secs : Z; ck_label : string }.

#[export] Instance CommandKey_eq_dec : EqDecision CommandKey.
Proof. solve_decision. Defined.

Definition command_key_new (sequence : N) (time : Instant) (label : string) : CommandKey :=
  mkCommandKey sequence (timestamp time) label.

Definition command_key_display (k : CommandKey) : string :=
  "command--" +:+ pretty (ck_timestamp_secs k) +:+ "--" +:+ pretty (ck_sequence k) +:+ "--" +:+ ck_label k.

Definition command_key_from_str (s : string) : result string CommandKey :=
  match split_dashes s with
  | [p0; p1; p2; p3] =>
      if negb (bool_decide (p0 = "command")) then Err s
      else
        timestamp_secs ← ok_or (parse_i64 p1) s;
        sequence ← ok_or (parse_u64 p2) s;
        let label := match strip_suffix ".json" p3 with Some l => l | None => p3 end in
        Ok (mkCommandKey sequence timestamp_secs label)
  | _ => Err s
  end.

(** The order in which commands were processed. *)
Definition ck_le (a b : CommandKey) : Prop := (ck_sequence a ≤ ck_sequence b)%N.
#[export] Instance ck_le_dec : RelDecision ck_le.
Proof. intros a b. unfold ck_le. apply _. Defined.
#[export] Instance ck_le_total : Total ck_le.
Proof. intros a b. unfold ck_le. lia. Qed.
#[export] Instance ck_le_trans : Transitive ck_le.
Proof. intros a b c. unfold ck_le. lia. Qed.

(** ** History criteria *)

Record CommandHistoryCriteria := mkCriteria {
  crit_before : option Z;
  crit_after : option Z;
  crit_after_sequence : option N;
  crit_label_includes : option (list string);
  crit_label_excludes : option (list string);
  crit_offset : nat;
  crit_rows_limit : option nat;
}.

Definition default_criteria : CommandHistoryCriteria := mkCriteria None None None None None 0 (Some 100).

Definition set_after_sequence (self : CommandHistoryCriteria) (sequence : N) : CommandHistoryCriteria :=
  mkCriteria (crit_before self) (crit_after self) (Some sequence) (crit_label_includes self)
    (crit_label_excludes self) (crit_offset self) (crit_rows_limit self).

Definition matches_timestamp_secs (self : CommandHistoryCriteria) (stamp : Z) : bool :=
  match crit_before self with
  | Some before => negb (bool_decide (stamp > before)%Z)
  | None => true
  end &&
  match crit_after self with
  | Some after => negb (bool_decide (stamp < after)%Z)
  | None => true
  end.

Definition matches_sequence (self : CommandHistoryCriteria) (sequence : N) : bool :=
  match crit_after_sequence self with
  | None => true
  | Some seq_crit => bool_decide (seq_crit < sequence)%N
  end.

Definition matches_label (self : CommandHistoryCriteria) (label : string) : bool :=
  match crit_label_includes self with
  | Some includes => bool_decide (label ∈ includes)
  | None => true
  end &&
  match crit_label_excludes self with
  | Some excludes => negb (bool_decide (label ∈ excludes))
  | None => true
  end.

Definition matches_crit (self : CommandKey) (crit : CommandHistoryCriteria) : bool :=
  matches_timestamp_secs crit (ck_timestamp_secs self)
  && matches_label crit (ck_label self)
  && matches_sequence crit (ck_sequence self).

(** ** Aggregates *)

(** [Aggregate], with the storable form of its commands and their labels, and how errors and
    initialisation look; [AEnv] is what a command reads from outside. *)
Class Aggregate (A Cmd Storable Evt Init AErr AEnv : Type) := {
  agg_init : StoredEvent Init → result AErr A;
  agg_version : A → N;
  agg_apply : A → StoredEvent Evt → A;
  agg_process_command : A → AEnv → SentCommand Cmd → result AErr (list (StoredEvent Evt));
  agg_store : Cmd → Storable;
  agg_label : Storable → string;
  agg_err_display : AErr → string;
}.

Definition apply_all `{Aggregate A Cmd Storable Evt Init AErr AEnv} (self : A)
    (events : list (StoredEvent Evt)) : A := foldl agg_apply self events.

Record StoredValueInfo := mkInfo {
  snapshot_version : N;
  last_event : N;
  last_command : N;
  info_last_update : Instant;
}.

(** [StoredCommandBuilder] *)
Record StoredCommandBuilder (Storable : Type) := mkBuilder {
  b_actor : string;
  b_time : Instant;
  b_handle : string;
  b_version : N;
  b_sequence : N;
  b_details : Storable;
}.
Arguments mkBuilder {Storable}.
Arguments b_actor {Storable}.
Arguments b_time {Storable}.
Arguments b_handle {Storable}.
Arguments b_version {Storable}.
Arguments b_sequence {Storable}.
Arguments b_details {Storable}.

Definition builder_finish {S} (self : StoredCommandBuilder S) (effect : StoredEffect) : StoredCommand S :=
  mkStoredCommand (b_actor self) (b_time self) (b_handle self) (b_version self) (b_sequence self)
    (b_details self) effect.

Definition finish_with_events {S E} (self : StoredCommandBuilder S) (events : list (StoredEvent E))
    : StoredCommand S :=
  builder_finish self (EffectSuccess (ev_version <$> events)).

Definition finish_with_error {S} (self : StoredCommandBuilder S) (msg : string) : StoredCommand S :=
  builder_finish self (EffectError msg).

Inductive AggregateStoreError :=
| AKeyStoreError (e : KeyValueError)
| UnknownAggregate (h : string)
| InitError (h : string)
| ReplayError (h : string) (version fail_version : N)
| InfoMissing (h : string)
| InfoCorrupt (h : string)
| WrongEventForAggregate (expected found : string) (expected_v found_v : N)
| ConcurrentModification (h : string)
| WarmupFailed (h : string)
| CouldNotRecover (h : string)
| CommandCorrupt (h : string) (k : CommandKey)
| CommandNotFound (h : string) (k : CommandKey)
| EventCorrupt (h : string) (version : N).

(** Keys of the store. *)
Definition key_for_info (agg : string) : KeyStoreKey := key_scoped agg "info.json".
Definition key_for_snapshot (agg : string) : KeyStoreKey := key_scoped agg "snapshot.json".
Definition key_for_backup_snapshot (agg : string) : KeyStoreKey := key_scoped agg "snapshot-bk.json".
Definition key_for_new_snapshot (agg : string) : KeyStoreKey := key_scoped agg "snapshot-new.json".
Definition key_for_event (agg : string) (version : N) : KeyStoreKey :=
  key_scoped agg ("delta-" +:+ pretty version +:+ ".json").
Definition key_for_command (agg : string) (k : CommandKey) : KeyStoreKey :=
  key_scoped agg (command_key_display k +:+ ".json").

(** The version in the name of an event's key, as [archive_surplus_events] reads it. *)
Definition version_of_event_name (nm : string) : option N :=
  rest ← strip_prefix "delta-" nm;
  number ← strip_suffix ".json" rest;
  if bool_decide (number = "") then None else parse_u64 number.

Section store.
Context `{HO : !HashOrder} `{Ag : Aggregate A Cmd Storable Evt Init AErr AEnv}.
Context {V : Type} `{JA : !Json V A} `{JE : !Json V (StoredEvent Evt)} `{JI : !Json V (StoredEvent Init)}
  `{JC : !Json V (StoredCommand Storable)} `{JInfo : !Json V StoredValueInfo}.

Record AggregateStore := mkAggStore {
  as_kv : KeyValueStore V;
  as_cache : gmap string A;
  (** [PreSaveEventListener]s, which may refuse, and what the post-save listeners were sent. *)
  as_pre_save : list (A → list (StoredEvent Evt) → result AErr unit);
  as_post_saved : list (A * list (StoredEvent Evt));
}.

Abbreviation M := (StE AggregateStore AggregateStoreError).

Definition as_with_kv (self : AggregateStore) (kv : KeyValueStore V) : AggregateStore :=
  mkAggStore kv (as_cache self) (as_pre_save self) (as_post_saved self).
Definition cache_update (id : string) (a : A) : M unit := λ self,
  Some (mkAggStore (as_kv self) (<[id := a]> (as_cache self)) (as_pre_save self) (as_post_saved self), Ok tt).
Definition cache_get (self : AggregateStore) (id : string) : option A := as_cache self !! id.
Definition cache_remove (id : string) : M unit := λ self,
  Some (mkAggStore (as_kv self) (delete id (as_cache self)) (as_pre_save self) (as_post_saved self), Ok tt).

(** Listeners are told in the order in which they were added. *)
Definition add_pre_save_listener (self : AggregateStore) (listener : A → list (StoredEvent Evt) → result AErr unit)
    : AggregateStore :=
  mkAggStore (as_kv self) (as_cache self) (as_pre_save self ++ [listener]) (as_post_saved self).

(** Operations of the key-value store. *)
Definition on_kv (f : KeyValueStore V → result KeyValueError (KeyValueStore V)) : M unit :=
  ste_update (λ self, map_err AKeyStoreError (as_with_kv self <$> f (as_kv self))).
Definition read_kv {X} (f : KeyValueStore V → result KeyValueError X) : M X :=
  ste_gets (λ self, map_err AKeyStoreError (f (as_kv self))).

Definition get_info (id : string) : M StoredValueInfo :=
  ste_gets (λ self,
    match kv_get (as_kv self) (key_for_info id) with
    | Err _ => Err (InfoCorrupt id)
    | Ok None => Err (InfoMissing id)
    | Ok (Some info) => Ok info
    end).

Definition save_info (id : string) (info : StoredValueInfo) : M unit :=
  on_kv (λ kv, store kv (key_for_info id) info).

Definition get_event (id : string) (version : N) : M (option (StoredEvent Evt)) := λ self,
  let key := key_for_event id version in
  match kv_get (as_kv self) key with
  | Ok res_opt => Some (self, Ok res_opt)
  | Err _ => (on_kv (λ kv, archive_corrupt kv key) ≫= λ _, ste_err (EventCorrupt id version)) self
  end.

Definition get_command (id : string) (k : CommandKey) : M (StoredCommand Storable) := λ self,
  let key := key_for_command id k in
  match kv_get (as_kv self) key with
  | Ok (Some cmd) => Some (self, Ok cmd)
  | Ok None => Some (self, Err (CommandNotFound id k))
  | Err _ => (on_kv (λ kv, archive_corrupt kv key) ≫= λ _, ste_err (CommandCorrupt id k)) self
  end.

Definition store_event (event : StoredEvent Evt) : M unit :=
  on_kv (λ kv, store_new kv (key_for_event (ev_id event) (ev_version event)) event).

Definition store_init_event (event : StoredEvent Init) : M unit :=
  on_kv (λ kv, store_new kv (key_for_event (ev_id event) (ev_version event)) event).

Definition key_for_stored (command : StoredCommand Storable) : CommandKey :=
  command_key_new (cmd_sequence command) (cmd_time command) (agg_label (cmd_details command)).

Definition store_command (command : StoredCommand Storable) : M unit :=
  on_kv (λ kv, store_new kv (key_for_command (cmd_handle command) (key_for_stored command)) command).

Definition store_snapshot (id : string) (aggregate : A) : M unit :=
  let snapshot_new := key_for_new_snapshot id in
  let snapshot_current := key_for_snapshot id in
  let snapshot_backup := key_for_backup_snapshot id in
  on_kv (λ kv, store kv snapshot_new aggregate) ≫= λ _,
  on_kv (λ kv, if kv_has kv snapshot_backup then drop_key kv snapshot_backup else Ok kv) ≫= λ _,
  on_kv (λ kv, if kv_has kv snapshot_current then move_key kv snapshot_current snapshot_backup else Ok kv) ≫= λ _,
  on_kv (λ kv, move_key kv snapshot_new snapshot_current).

(** ** Loading an aggregate *)

(** The loop of [update_aggregate]. *)
Fixpoint update_aggregate_loop (fuel : nat) (id : string) (aggregate : A) (limit : option N) : M A :=
  match fuel with
  | 0 => λ _, None
  | S fuel =>
      let version := agg_version aggregate in
      if match limit with Some limit => bool_decide (limit = u64_pred version) | None => false end
      then mret aggregate
      else
        get_event id version ≫= λ e_opt,
        match e_opt with
        | Some e =>
            if negb (bool_decide (version = ev_version e))
            then ste_err (ReplayError id version (ev_version e))
            else update_aggregate_loop fuel id (agg_apply aggregate e) limit
        | None => mret aggregate
        end
  end.

(** One more than the number of files: every iteration reads another event. *)
Definition update_aggregate (id : string) (aggregate : A) (limit : option N) : M A := λ self,
  update_aggregate_loop (S (size (kv_files (as_kv self)))) id aggregate limit self.

(** A snapshot, or [None] if it is missing, corrupt (then it is archived) or, with a limit,
    past the limit (archived too). *)
Definition try_snapshot (key : KeyStoreKey) (limit : option N) : M (option A) := λ self,
  match kv_get (as_kv self) key with
  | Err _ => (on_kv (λ kv, archive_corrupt kv key) ≫= λ _, mret None) self
  | Ok (Some agg) =>
      match limit with
      | Some limit =>
          if bool_decide (u64_pred (agg_version agg) ≤ limit)%N then Some (self, Ok (Some agg))
          else (on_kv (λ kv, archive_surplus kv key) ≫= λ _, mret None) self
      | None => Some (self, Ok (Some agg))
      end
  | Ok None => Some (self, Ok None)
  end.

Definition get_aggregate (id : string) (limit : option N) : M (option A) :=
  aggregate_opt ← try_snapshot (key_for_snapshot id) limit;
  aggregate_opt ← match aggregate_opt with
                  | Some _ => mret aggregate_opt
                  | None => try_snapshot (key_for_backup_snapshot id) limit
                  end;
  aggregate_opt ← match aggregate_opt with
                  | Some _ => mret aggregate_opt
                  | None =>
                      init_opt ← read_kv (λ kv, kv_get (A := StoredEvent Init) kv (key_for_event id 0));
                      match init_opt with
                      | Some e => match agg_init e with
                                  | Ok a => mret (Some a)
                                  | Err _ => ste_err (InitError id)
                                  end
                      | None => mret None
                      end
                  end;
  match aggregate_opt with
  | None => mret None
  | Some aggregate => update_aggregate id aggregate limit ≫= λ a, mret (Some a)
  end.

Definition has_updates (id : string) (aggregate : A) : M bool :=
  get_event id (agg_version aggregate) ≫= λ e, mret (bool_decide (is_Some e)).

Definition get_latest_no_lock (handle : string) : M A := λ self,
  match cache_get self handle with
  | None =>
      (get_aggregate handle None ≫= λ o,
       match o with
       | None => ste_err (UnknownAggregate handle)
       | Some agg => cache_update handle agg ≫= λ _, mret agg
       end) self
  | Some arc =>
      (has_updates handle arc ≫= λ b, if (b : bool) then update_aggregate handle arc None else mret arc) self
  end.

(** ** Adding aggregates and processing commands *)

Definition agg_add (init : StoredEvent Init) (now : Instant) : M A :=
  let handle := ev_id init in
  store_init_event init ≫= λ _,
  match agg_init init with
  | Err _ => ste_err (InitError handle)
  | Ok aggregate =>
      store_snapshot handle aggregate ≫= λ _,
      save_info handle (mkInfo 0 0 0 now) ≫= λ _,
      cache_update handle aggregate ≫= λ _,
      mret aggregate
  end.

(** The first event that is not the next one for this aggregate. *)
Fixpoint check_events (handle : string) (expected_version : N) (events : list (StoredEvent Evt))
    : result AggregateStoreError unit :=
  match events with
  | [] => Ok tt
  | event :: events =>
      if negb (bool_decide (ev_version event = expected_version)) || negb (bool_decide (ev_id event = handle))
      then Err (WrongEventForAggregate handle (ev_id event) expected_version (ev_version event))
      else check_events handle (u64_succ expected_version) events
  end.

(** A command ends with the aggregate, an error, or the exit of the process. *)
Inductive CommandReply :=
| CrOk (a : A)
| CrStoreError (e : AggregateStoreError)
| CrError (e : AErr)
| CrExit.

Definition reply_of (m : M CommandReply) : AggregateStore → option (AggregateStore * CommandReply) := λ self,
  match m self with
  | Some (self', Ok r) => Some (self', r)
  | Some (self', Err e) => Some (self', CrStoreError e)
  | None => None
  end.

(** The pre-save listeners in turn, up to the first that refuses; telling the post-save ones. *)
Definition pre_save (agg : A) (events : list (StoredEvent Evt)) : M (result AErr unit) := λ self,
  Some (self, Ok (for_each (λ listener, listener agg events) (as_pre_save self))).
Definition post_save (agg : A) (events : list (StoredEvent Evt)) : M unit := λ self,
  Some (mkAggStore (as_kv self) (as_cache self) (as_pre_save self)
          (as_post_saved self ++ [(agg, events)]), Ok tt).

(** Persisting the events of a successful command and telling the listeners. *)
Definition save_events (handle : string) (agg : A) (events : list (StoredEvent Evt)) (info : StoredValueInfo)
    : M CommandReply :=
  ste_for events store_event ≫= λ _,
  let info := mkInfo (agg_version agg) (last_event info) (last_command info) (info_last_update info) in
  store_snapshot handle agg ≫= λ _,
  cache_update handle agg ≫= λ _,
  save_info handle info ≫= λ _,
  post_save agg events ≫= λ _,
  mret (CrOk agg).

Definition process_events (handle : string) (latest : A) (builder : StoredCommandBuilder Storable)
    (info : StoredValueInfo) (events : list (StoredEvent Evt)) : M CommandReply :=
  let version_before := agg_version latest in
  let nr_events := N.of_nat (length events) in
  let info := mkInfo (snapshot_version info) ((version_before + nr_events - 1) mod u64_modulus)%N (last_command info)
                (info_last_update info) in
  match check_events handle version_before events with
  | Err e => ste_err e
  | Ok _ =>
      let stored_command := finish_with_events builder events in
      ste_try (store_command stored_command) ≫= λ r,
      match r with
      | Err _ => mret CrExit
      | Ok _ =>
          let agg := apply_all latest events in
          pre_save agg events ≫= λ refused,
          match refused with
          | Err e => mret (CrError e)
          | Ok _ => save_events handle agg events info
          end
      end
  end.

Definition command_body (env : AEnv) (now : Instant) (cmd : SentCommand Cmd) : M CommandReply :=
  let handle := sc_handle cmd in
  info ← get_info handle;
  let info := mkInfo (snapshot_version info) (last_event info) (u64_succ (last_command info)) now in
  latest ← get_latest_no_lock handle;
  if match sc_version cmd with Some version => negb (bool_decide (version = agg_version latest)) | None => false end
  then ste_err (ConcurrentModification handle)
  else
    let builder := mkBuilder (sc_actor cmd) now (sc_handle cmd) (agg_version latest) (last_command info)
                     (agg_store (sc_details cmd)) in
    match agg_process_command latest env cmd with
    | Err e =>
        store_command (finish_with_error builder (agg_err_display e)) ≫= λ _,
        save_info handle info ≫= λ _,
        mret (CrError e)
    | Ok events =>
        if bool_decide (length events = 0) then mret (CrOk latest)
        else process_events handle latest builder info events
    end.

Definition agg_command (env : AEnv) (now : Instant) (cmd : SentCommand Cmd) (self : AggregateStore)
    : option (AggregateStore * CommandReply) := reply_of (command_body env now cmd) self.

Definition drop_aggregate (id : string) : M unit :=
  cache_remove id ≫= λ _, on_kv (λ kv, drop_scope kv id).

(** ** Command history *)

Definition command_keys_ascending (id : string) (crit : CommandHistoryCriteria) : M (list CommandKey) :=
  ks ← read_kv (λ kv, keys kv (Some id) "command--");
  mret (merge_sort ck_le
    (omap (λ key : KeyStoreKey,
             match command_key_from_str (name key) with
             | Ok k => if matches_crit k crit then Some k else None
             | Err _ => None
             end) (ks : list KeyStoreKey))).

(** The loop of [command_history]: skip, then take, and count all. *)
Fixpoint history_loop (kv : KeyValueStore V) (id : string) (offset rows skipped total : nat)
    (commands : list (StoredCommand Storable)) (ks : list CommandKey)
    : result AggregateStoreError (nat * list (StoredCommand Storable)) :=
  match ks with
  | [] => Ok (total, commands)
  | k :: ks =>
      let total := S total in
      if bool_decide (skipped < offset) then history_loop kv id offset rows (S skipped) total commands ks
      else if bool_decide (length commands < rows) then
        match kv_get kv (key_for_command id k) with
        | Err e => Err (AKeyStoreError e)
        | Ok None => Err (CommandNotFound id k)
        | Ok (Some stored) => history_loop kv id offset rows skipped total (commands ++ [stored]) ks
        end
      else history_loop kv id offset rows skipped total commands ks
  end.

(** Offset, total and the stored commands of the page. *)
Definition command_history (id : string) (crit : CommandHistoryCriteria)
    : M (nat * nat * list (StoredCommand Storable)) :=
  command_keys ← command_keys_ascending id crit;
  let rows := match crit_rows_limit crit with Some limit => limit | None => length (command_keys : list CommandKey) end in
  ste_gets (λ self, (λ tc, (crit_offset crit, tc.1, tc.2)) <$>
                      history_loop (as_kv self) id (crit_offset crit) rows 0 0 [] command_keys).

(** ** Starting up *)

Definition archive_surplus_command (id : string) (k : CommandKey) : M unit :=
  on_kv (λ kv, archive_surplus kv (key_for_command id k)).

Definition archive_surplus_events (id : string) (from : N) : M unit :=
  ks ← read_kv (λ kv, keys kv (Some id) "delta-");
  ste_for (ks : list KeyStoreKey) (λ key,
    match version_of_event_name (name key) with
    | Some v => if bool_decide (from ≤ v)%N then on_kv (λ kv, archive_surplus kv (key_for_event id v)) else mret tt
    | None => mret tt
    end).

Definition warm_aggregate (handle : string) : M unit :=
  agg_res ← ste_try (get_latest_no_lock handle);
  match agg_res with
  | Err _ => ste_err (WarmupFailed handle)
  | Ok agg =>
      info ← get_info handle;
      surplus ← get_event handle (u64_succ (last_event info));
      (if bool_decide (is_Some surplus)
       then archive_surplus_events handle (u64_succ (last_event info)) else mret tt) ≫= λ _,
      surplus_commands ← command_keys_ascending handle (set_after_sequence default_criteria (last_command info));
      ste_for (surplus_commands : list CommandKey) (archive_surplus_command handle) ≫= λ _,
      if negb (bool_decide (snapshot_version info = agg_version agg)) then store_snapshot handle agg else mret tt
  end.

Definition aggregates (is_handle : string → bool) : M (list string) :=
  read_kv (λ kv, (λ l : list string, filter (λ s, is_handle s = true) l) <$> scopes kv).

Definition agg_warm (is_handle : string → bool) : M unit :=
  handles ← aggregates is_handle;
  ste_for (handles : list string) warm_aggregate.

Definition agg_has (self : AggregateStore) (id : string) : bool := has_scope (as_kv self) id.

(** *** Recovery *)

Record RecoverState := mkRecover {
  last_good_cmd : N;
  last_good_evt : N;
  rec_last_update : Instant;
  all_ok : bool;
}.

(** The events of one command, as far as they can be loaded. *)
Fixpoint recover_events (id : string) (rs : RecoverState) (versions : list N) : M RecoverState :=
  match versions with
  | [] => mret rs
  | version :: versions =>
      r ← ste_try (get_event id version);
      recover_events id
        match r with
        | Ok (Some _) => mkRecover (last_good_cmd rs) version (rec_last_update rs) (all_ok rs)
        | _ => mkRecover (last_good_cmd rs) (last_good_evt rs) (rec_last_update rs) false
        end versions
  end.

Fixpoint recover_commands (id : string) (rs : RecoverState) (ks : list CommandKey) : M RecoverState :=
  match ks with
  | [] => mret rs
  | k :: ks =>
      rs ← (if all_ok rs then
              r ← ste_try (get_command id k);
              match r with
              | Ok cmd =>
                  rs ← match effect_events (cmd_effect cmd) with
                       | Some events => recover_events id rs events
                       | None => mret rs
                       end;
                  mret (mkRecover (cmd_sequence cmd) (last_good_evt rs) (cmd_time cmd) (all_ok rs))
              | Err _ => mret (mkRecover (last_good_cmd rs) (last_good_evt rs) (rec_last_update rs) false)
              end
            else mret rs);
      (if negb (all_ok rs) then archive_surplus_command id k else mret tt) ≫= λ _,
      recover_commands id rs ks
  end.

Definition recover_handle (now : Instant) (handle : string) : M unit :=
  command_keys ← command_keys_ascending handle default_criteria;
  rs ← recover_commands handle (mkRecover 0 0 now true) (command_keys : list CommandKey);
  archive_surplus_events handle (u64_succ (last_good_evt rs)) ≫= λ _,
  agg_opt ← get_aggregate handle (Some (last_good_evt rs));
  match agg_opt with
  | None => ste_err (CouldNotRecover handle)
  | Some agg =>
      let info := mkInfo (agg_version agg) (last_good_evt rs) (last_good_cmd rs) (rec_last_update rs) in
      store_snapshot handle agg ≫= λ _,
      cache_update handle agg ≫= λ _,
      save_info handle info
  end.

Definition agg_recover (is_handle : string → bool) (now : Instant) : M unit :=
  handles ← aggregates is_handle;
  ste_for (handles : list string) (recover_handle now).

(** Stopping the process: the disk stays, the cache is gone. *)
Definition agg_restart (self : AggregateStore) : AggregateStore :=
  mkAggStore (as_kv self) ∅ (as_pre_save self) (as_post_saved self).
End store.
Arguments AggregateStore : clear implicits.
