(* ===== verification/EventFacts.v ===== *)
(** * Correctness of the aggregate store

    [agg_inv st h a info] says that the store holds aggregate [a] for handle [h]: the stored
    events lead from the init event to [a], each snapshot that can be read lies on that way,
    and no command is stored with a sequence number that is still to be given out. *)

From stdpp Require Import base gmap strings list pretty fin_maps sorting.
From Stdlib Require Import Ascii.
From S2P Require Import Prelude Text Kv LogPath EventSourcing.

(** ** Keys *)

(** A label that can be part of a command key. *)
Definition label_ok (label : string) : Prop := split_dashes label = [label].

Lemma command_key_parts k suffix :
  label_ok (ck_label k) → no_dash suffix = true →
  split_dashes (command_key_display k +:+ suffix)
  = ["command"; pretty (ck_timestamp_secs k); pretty (ck_sequence k); ck_label k +:+ suffix].
Proof.
  intros Hl Hs. unfold command_key_display. rewrite !string_app_assoc.
  change "command--" with ("command" +:+ "--"). rewrite string_app_assoc.
  rewrite split_dashes_app by done. rewrite split_dashes_app by apply clean_pretty_Z.
  rewrite split_dashes_app by apply clean_pretty_N. by rewrite split_single_app.
Qed.

Lemma command_key_from_parts k suffix :
  (i64_min ≤ ck_timestamp_secs k ≤ i64_max)%Z → (ck_sequence k ≤ u64_max)%N →
  label_ok (ck_label k) → no_dash suffix = true →
  match strip_suffix ".json" (ck_label k +:+ suffix) with Some l => l | None => ck_label k +:+ suffix end = ck_label k →
  command_key_from_str (command_key_display k +:+ suffix) = Ok k.
Proof.
  intros Hts Hseq Hl Hs Hlabel. unfold command_key_from_str. rewrite command_key_parts by done.
  rewrite bool_decide_true by done. simpl. rewrite parse_i64_pretty by done. simpl.
  rewrite parse_u64_pretty by done. simpl. rewrite Hlabel. by destruct k.
Qed.

Lemma key_for_command_inj h k k' :
  label_ok (ck_label k) → label_ok (ck_label k') →
  key_for_command h k = key_for_command h k' → k = k'.
Proof.
  unfold key_for_command, key_scoped. intros Hl Hl' Heq.
  assert (command_key_display k +:+ ".json" = command_key_display k' +:+ ".json") as Hs by congruence.
  apply (f_equal split_dashes) in Hs. rewrite !command_key_parts in Hs by done.
  injection Hs as Hts Hseq Hlab. apply (inj pretty) in Hts, Hseq.
  apply (f_equal (strip_suffix ".json")) in Hlab. rewrite !strip_suffix_app in Hlab.
  destruct k, k'; simpl in *; congruence.
Qed.

Lemma key_for_event_inj h v v' : key_for_event h v = key_for_event h v' → v = v'.
Proof.
  unfold key_for_event, key_scoped. intros Heq.
  assert ("delta-" +:+ pretty v +:+ ".json" = "delta-" +:+ pretty v' +:+ ".json") as Hs by congruence.
  apply string_app_inj in Hs. apply (f_equal (strip_suffix ".json")) in Hs.
  rewrite !strip_suffix_app in Hs. injection Hs as Hs. by apply (inj pretty).
Qed.

(** The laws of an aggregate that the store relies on. *)
Class AggregateLaws `{Ag : Aggregate A Cmd Storable Evt Init AErr AEnv} : Prop := {
  agg_init_version : ∀ i a, agg_init i = Ok a → agg_version a = 1%N;
  agg_apply_version : ∀ a e, agg_version (agg_apply a e) = u64_succ (agg_version a);
  agg_label_ok : ∀ s, label_ok (agg_label s);
}.

Section facts.
Context `{HO : !HashOrder} `{Ag : Aggregate A Cmd Storable Evt Init AErr AEnv} `{AL : !AggregateLaws}.
Context {V : Type} `{JA : !Json V A} `{JE : !Json V (StoredEvent Evt)} `{JI : !Json V (StoredEvent Init)}
  `{JC : !Json V (StoredCommand Storable)} `{JInfo : !Json V StoredValueInfo}.
Implicit Types (kv : KeyValueStore V) (st : AggregateStore A Evt AErr V) (h : string) (a : A).

Abbreviation files st := (kv_files (as_kv st)).

Definition event_fits a (e : StoredEvent Evt) : Prop := ev_version e = agg_version a.

(** The stored events lead from one state of the aggregate to another. *)
Abbreviation epath h := (log_path (key_for_event h) agg_version agg_apply event_fits).

(** A snapshot is missing, cannot be read, or is a state on the way to [a]. *)
Definition snapshot_ok kv h a (key : KeyStoreKey) : Prop :=
  match kv_get kv key with Ok (Some s) => epath h kv s a | _ => True end.

(** The keys for commands that have not been processed yet. *)
Definition next_commands_free kv h (last : N) : Prop :=
  ∀ k, (last < ck_sequence k)%N → label_ok (ck_label k) → kv_files kv !! key_for_command h k = None.

(** ... and one command that is kept. *)
Definition commands_ok kv h (last : N) (kept : option (CommandKey * V)) : Prop :=
  next_commands_free kv h last
  ∧ match kept with Some (k, v) => kv_files kv !! key_for_command h k = Some v | None => True end.

(** The store holds the aggregate; [last] is the last number under which commands are stored. *)
Record agg_log st h a (info : StoredValueInfo) (last : N) (kept : option (CommandKey * V)) : Prop := {
  ai_init : ∃ i a0, kv_get (as_kv st) (key_for_event h 0) = Ok (Some i) ∧ agg_init i = Ok a0 ∧
              epath h (as_kv st) a0 a;
  ai_snapshot : snapshot_ok (as_kv st) h a (key_for_snapshot h);
  ai_backup : snapshot_ok (as_kv st) h a (key_for_backup_snapshot h);
  ai_cache : ∀ c, as_cache st !! h = Some c → epath h (as_kv st) c a;
  ai_end : ∀ v, is_Some (files st !! key_for_event h v) → (v < agg_version a)%N;
  ai_info : kv_get (as_kv st) (key_for_info h) = Ok (Some info);
  ai_commands : commands_ok (as_kv st) h last kept;
  ai_dir : is_Some (kv_dirs (as_kv st) !! h);
}.
(** ... which is the number in the information on the aggregate. *)
Definition agg_inv st h a (info : StoredValueInfo) : Prop := agg_log st h a info (last_command info) None.

(** ** Changes that leave the events alone *)

Lemma epath_frame kv kv' h s a :
  (∀ v, kv_files kv' !! key_for_event h v = kv_files kv !! key_for_event h v) →
  epath h kv s a → epath h kv' s a.
Proof. intros H Hp. eapply path_frame; [apply agg_apply_version|done|]. intros. apply H. Qed.

(** What a replay reads is not touched. *)
Record same_log kv kv' h : Prop := {
  sl_events : ∀ v, kv_files kv' !! key_for_event h v = kv_files kv !! key_for_event h v;
  sl_info : kv_files kv' !! key_for_info h = kv_files kv !! key_for_info h;
  sl_commands : ∀ k, kv_files kv' !! key_for_command h k = kv_files kv !! key_for_command h k;
  sl_dir : is_Some (kv_dirs kv !! h) → is_Some (kv_dirs kv' !! h);
}.

(** Only snapshots (to readable states on the way, or away) and the cache have changed. *)
Lemma agg_inv_same_log st st' h a info last kept :
  agg_log st h a info last kept → same_log (as_kv st) (as_kv st') h →
  (∀ key, key = key_for_snapshot h ∨ key = key_for_backup_snapshot h → snapshot_ok (as_kv st') h a key) →
  (∀ c, as_cache st' !! h = Some c → epath h (as_kv st') c a) →
  agg_log st' h a info last kept.
Proof.
  intros Hinv [He Hi Hc Hd] Hsnap Hcache. destruct Hinv as [(i&a0&Hi0&Ha0&Hp) _ _ _ Hend Hinfo Hcmd Hdir].
  split; auto.
  - exists i, a0. unfold kv_get in *. rewrite He. split; [done|]. split; [done|]. by eapply epath_frame.
  - intros v. rewrite He. apply Hend.
  - unfold kv_get in *. by rewrite Hi.
  - destruct Hcmd as [Hfree Hkept]. split; [intros k Hk Hl; rewrite Hc; by apply Hfree|]. destruct kept as [[k v]|]; [by rewrite Hc|done].
Qed.

Definition listeners st := (as_pre_save st, as_post_saved st).

(** ** Loading *)

Lemma ste_bind_Some {S E X Y} (m : StE S E X) (f : X → StE S E Y) s s' x :
  m s = Some (s', Ok x) → (m ≫= f) s = f x s'.
Proof. intros H. unfold mbind, ste_bind. by rewrite H. Qed.

Lemma update_loop_path st h s a fuel :
  epath h (as_kv st) s a → files st !! key_for_event h (agg_version a) = None →
  N.to_nat (agg_version a - agg_version s) < fuel →
  update_aggregate_loop fuel h s None st = Some (st, Ok a).
Proof.
  intros Hp Hend. revert fuel. induction Hp as [a|s a e Hlt He Hf Hp IH]; intros [|fuel] Hfu; [lia| |lia|]; simpl.
  - erewrite ste_bind_Some; [|unfold get_event, kv_get; by rewrite Hend]. done.
  - erewrite ste_bind_Some; [|unfold get_event; unfold item_at in He; by rewrite He].
    cbv beta iota. rewrite Hf, bool_decide_true by done. simpl. apply IH; [done|].
    pose proof (path_revision _ _ _ _ agg_apply_version _ _ _ Hp) as Hle.
    rewrite agg_apply_version, u64_succ_small in Hle |- * by done. lia.
Qed.

Lemma agg_inv_no_next st h a info last kept :
  agg_log st h a info last kept → files st !! key_for_event h (agg_version a) = None.
Proof. intros Hinv. apply eq_None_not_Some. intros H%(ai_end _ _ _ _ _ _ Hinv). lia. Qed.

Lemma update_aggregate_path st h s a info last kept :
  agg_log st h a info last kept → epath h (as_kv st) s a → update_aggregate h s None st = Some (st, Ok a).
Proof.
  intros Hinv Hp. unfold update_aggregate. apply update_loop_path; [done|by eapply agg_inv_no_next|].
  pose proof (path_files _ _ _ _ (key_for_event_inj h) agg_apply_version _ _ _ Hp). lia.
Qed.

(** A snapshot that is tried either gives a state on the way, or is out of the way. *)
Lemma try_snapshot_inv st h a info key last kept :
  agg_log st h a info last kept → key = key_for_snapshot h ∨ key = key_for_backup_snapshot h →
  ∃ st' o, try_snapshot key None st = Some (st', Ok o) ∧ agg_log st' h a info last kept ∧
    as_cache st' = as_cache st ∧ listeners st' = listeners st ∧
    match o with Some s => epath h (as_kv st') s a | None => True end.
Proof.
  intros Hinv Hkey. unfold try_snapshot.
  assert (snapshot_ok (as_kv st) h a key) as Hok by (destruct Hkey as [->| ->]; apply Hinv).
  unfold snapshot_ok in Hok. destruct (kv_get (as_kv st) key) as [[s|]|e] eqn:Hget.
  - by eexists _, _.
  - by eexists _, _.
  - unfold kv_get in Hget. destruct (files st !! key) as [v|] eqn:Hv; [|done].
    assert (scope key = Some h) as Hsc by (by destruct Hkey as [->| ->]).
    destruct (move_sub_Ok (as_kv st) h key v "corrupt" ltac:(done) ltac:(done) Hsc Hv (ai_dir _ _ _ _ _ _ Hinv)) as (dirs&Hmv&Hd).
    assert (∀ k, scope k = Some h → sub_scope key "corrupt" ≠ k) as Hne.
    { intros k Hk <-. by apply (sub_scope_ne h key "corrupt"). }
    unfold mbind at 1, ste_bind at 1, on_kv, ste_update, archive_corrupt, key_corrupt. rewrite Hmv. simpl.
    eexists _, None. split; [done|]. split; [|done].
    assert (∀ v, kv_files (mkKv (<[sub_scope key "corrupt" := v]> (delete key (files st))) dirs) !! key = None) as Hgone.
    { intros v'. simpl. rewrite lookup_insert_ne by auto. apply lookup_delete_eq. }
    assert (same_log (as_kv st) (mkKv (<[sub_scope key "corrupt" := v]> (delete key (files st))) dirs) h) as Hsame.
    { assert (∀ k, scope k = Some h → k ≠ key → <[sub_scope key "corrupt" := v]> (delete key (files st)) !! k = files st !! k) as Hkeep.
      { intros k Hk Hkne. by rewrite lookup_insert_ne, lookup_delete_ne by auto. }
      split; simpl; [intros; apply Hkeep; [done|by destruct Hkey as [->| ->]]..|done]. }
    eapply agg_inv_same_log; [done|done| |].
    + intros key' Hkey'. destruct (decide (key' = key)) as [->|Hkne].
      { unfold snapshot_ok, kv_get. simpl. simpl in Hgone. by rewrite Hgone. }
      assert (snapshot_ok (as_kv st) h a key') as Hok' by (destruct Hkey' as [->| ->]; apply Hinv).
      assert (scope key' = Some h) as Hsc' by (by destruct Hkey' as [->| ->]).
      unfold snapshot_ok, kv_get in *. simpl. rewrite lookup_insert_ne, lookup_delete_ne by auto.
      destruct (files st !! key') as [w|]; [|done]. destruct (from_json w); simpl in *; [|done].
      eapply epath_frame; [apply Hsame|done].
    + intros c Hc. eapply epath_frame; [apply Hsame|]. by apply (ai_cache _ _ _ _ _ _ Hinv).
Qed.

(** The first state that can be loaded: a snapshot, the back-up, or the init event's. *)
Lemma get_aggregate_inv st h a info last kept :
  agg_log st h a info last kept →
  ∃ st', get_aggregate h None st = Some (st', Ok (Some a)) ∧ agg_log st' h a info last kept ∧
    listeners st' = listeners st.
Proof.
  intros Hinv. unfold get_aggregate.
  destruct (try_snapshot_inv _ _ _ _ (key_for_snapshot h) _ _ Hinv ltac:(by left)) as (st1&o1&H1&Hinv1&Hc1&Hl1&Ho1).
  rewrite (ste_bind_Some _ _ _ _ _ H1). clear H1.
  assert (∃ st2 o2, (match o1 with Some _ => mret o1 | None => try_snapshot (key_for_backup_snapshot h) None end :
      StE _ _ _) st1 = Some (st2, Ok o2) ∧ agg_log st2 h a info last kept ∧ listeners st2 = listeners st1 ∧
      match o2 with Some s => epath h (as_kv st2) s a | None => True end) as (st2&o2&H2&Hinv2&Hl2&Ho2).
  { destruct o1 as [s|]; [by exists st1, (Some s)|].
    destruct (try_snapshot_inv _ _ _ _ (key_for_backup_snapshot h) _ _ Hinv1 ltac:(by right)) as (st2&o2&?&?&_&?&?).
    by exists st2, o2. }
  rewrite (ste_bind_Some _ _ _ _ _ H2). clear H2.
  assert (∃ s, (match o2 with Some _ => mret o2 | None =>
      init_opt ← read_kv (λ kv, kv_get (A := StoredEvent Init) kv (key_for_event h 0));
      match init_opt with
      | Some e => match agg_init e with Ok a => mret (Some a) | Err _ => ste_err (InitError h) end
      | None => mret None end end : StE _ _ _) st2 = Some (st2, Ok (Some s)) ∧ epath h (as_kv st2) s a) as (s&H3&Hs).
  { destruct o2 as [s|]; [by exists s|]. destruct (ai_init _ _ _ _ _ _ Hinv2) as (i&a0&Hi&Ha0&Hp). exists a0.
    split; [|done]. erewrite ste_bind_Some; [|unfold read_kv, ste_gets; by rewrite Hi].
    cbv beta iota. by rewrite Ha0. }
  rewrite (ste_bind_Some _ _ _ _ _ H3). clear H3. cbv beta iota.
  rewrite (ste_bind_Some _ _ _ _ _ (update_aggregate_path _ _ _ _ _ _ _ Hinv2 Hs)).
  exists st2. split; [done|]. split; [done|]. congruence.
Qed.

Lemma agg_inv_cache st h a info last kept :
  agg_log st h a info last kept →
  agg_log (mkAggStore (as_kv st) (<[h := a]> (as_cache st)) (as_pre_save st) (as_post_saved st)) h a info last kept.
Proof.
  intros [? ? ? ? ? ? ? ?]. split; try done. simpl. intros c. rewrite lookup_insert_eq.
  intros [= <-]. constructor.
Qed.

Lemma agg_latest_inv st h a info last kept :
  agg_log st h a info last kept →
  ∃ st', get_latest_no_lock h st = Some (st', Ok a) ∧ agg_log st' h a info last kept ∧ listeners st' = listeners st.
Proof.
  intros Hinv. unfold get_latest_no_lock, cache_get. destruct (as_cache st !! h) as [c|] eqn:Hc.
  - pose proof (ai_cache _ _ _ _ _ _ Hinv c Hc) as Hp. exists st. split; [|done].
    unfold has_updates. destruct Hp as [|c a e Hlt He Hf Hp].
    + erewrite ste_bind_Some.
      2: { erewrite ste_bind_Some; [done|]. unfold get_event, kv_get.
           by rewrite (agg_inv_no_next _ _ _ _ _ _ Hinv). }
      done.
    + erewrite ste_bind_Some.
      2: { erewrite ste_bind_Some; [done|]. unfold get_event. unfold item_at in He. by rewrite He. }
      simpl. eapply update_aggregate_path; [done|]. by econstructor.
  - destruct (get_aggregate_inv _ _ _ _ _ _ Hinv) as (st1&Hg&Hinv1&Hl1). rewrite (ste_bind_Some _ _ _ _ _ Hg).
    eexists. split; [done|]. split; [by apply agg_inv_cache|exact Hl1].
Qed.

(** ** Storing *)

Definition put st (key : KeyStoreKey) (v : V) : AggregateStore A Evt AErr V :=
  as_with_kv st (mkKv (<[key := v]> (files st)) (make_dirs (kv_dirs (as_kv st)) (scope key))).

Lemma on_kv_store_new {X} `{!Json V X} st key (x : X) :
  files st !! key = None →
  on_kv (λ kv, store_new kv key x) st = Some (put st key (to_json x), Ok tt).
Proof.
  intros Hn. unfold on_kv, ste_update, store_new, kv_has. rewrite bool_decide_false; [done|].
  rewrite Hn. by intros [].
Qed.

(** Storing a snapshot: it becomes the current one, the current one the back-up. *)
Lemma store_snapshot_Ok st h a :
  ∃ st', store_snapshot h a st = Some (st', Ok tt) ∧
    as_cache st' = as_cache st ∧ listeners st' = listeners st ∧
    files st' !! key_for_snapshot h = Some (to_json a) ∧
    files st' !! key_for_backup_snapshot h = files st !! key_for_snapshot h ∧
    (∀ k, k ≠ key_for_new_snapshot h → k ≠ key_for_snapshot h → k ≠ key_for_backup_snapshot h →
      files st' !! k = files st !! k) ∧
    (∀ d, is_Some (kv_dirs (as_kv st) !! d) → is_Some (kv_dirs (as_kv st') !! d)).
Proof.
  set (nk := key_for_new_snapshot h). set (ck := key_for_snapshot h). set (bk := key_for_backup_snapshot h).
  assert (nk ≠ ck ∧ nk ≠ bk ∧ ck ≠ bk) as (Hnc&Hnb&Hcb) by done.
  set (dirs := make_dirs (kv_dirs (as_kv st)) (Some h)).
  assert (is_Some (dirs !! h)) as Hd by apply make_dirs_self.
  set (f1 := <[nk := to_json a]> (files st)).
  set (f2 := if kv_has (mkKv f1 dirs) bk then delete bk f1 else f1).
  assert (f2 = delete bk f1) as Hf2.
  { unfold f2, kv_has. case_bool_decide as Hb; [done|]. symmetry. apply delete_id.
    by apply eq_None_not_Some. }
  set (f3 := match f2 !! ck with Some v => <[bk := v]> (delete ck f2) | None => f2 end).
  assert (f2 !! ck = files st !! ck) as Hck.
  { rewrite Hf2. unfold f1. by rewrite lookup_delete_ne, lookup_insert_ne by done. }
  assert (f3 !! nk = Some (to_json a)) as Hnk.
  { unfold f3. destruct (f2 !! ck).
    - rewrite lookup_insert_ne, lookup_delete_ne, Hf2, lookup_delete_ne by done. apply lookup_insert_eq.
    - rewrite Hf2, lookup_delete_ne by done. apply lookup_insert_eq. }
  exists (as_with_kv st (mkKv (<[ck := to_json a]> (delete nk f3)) dirs)). split.
  { unfold store_snapshot. erewrite ste_bind_Some; [|done]. fold nk ck bk.
    erewrite ste_bind_Some with (s' := as_with_kv st (mkKv f2 dirs)); [|unfold on_kv, ste_update; simpl;
      unfold f2; by destruct (kv_has _ _)].
    erewrite ste_bind_Some with (s' := as_with_kv st (mkKv f3 dirs)).
    2: { unfold on_kv, ste_update, kv_has. simpl. unfold f3. destruct (f2 !! ck) as [v|] eqn:Hv.
         - rewrite bool_decide_true by eauto. unfold move_key. simpl. rewrite Hv.
           by rewrite bool_decide_true by done.
         - rewrite bool_decide_false; [done|]. by intros []. }
    unfold on_kv, ste_update, move_key. simpl. rewrite Hnk. by rewrite bool_decide_true by done. }
  simpl. split; [done|]. split; [done|]. split; [apply lookup_insert_eq|]. split; [|split].
  - rewrite lookup_insert_ne, lookup_delete_ne by done. unfold f3. rewrite <-Hck.
    destruct (f2 !! ck); [apply lookup_insert_eq|]. rewrite Hf2. apply lookup_delete_eq.
  - intros k H1 H2 H3. rewrite lookup_insert_ne, lookup_delete_ne by done. unfold f3.
    destruct (f2 !! ck); rewrite ?lookup_insert_ne, ?lookup_delete_ne, Hf2, lookup_delete_ne by done;
      unfold f1; by rewrite lookup_insert_ne.
  - intros d. by apply make_dirs_mono.
Qed.

(** ** Events *)

Lemma apply_all_version a evs :
  (agg_version a + N.of_nat (length evs) ≤ u64_max)%N →
  agg_version (apply_all a evs) = (agg_version a + N.of_nat (length evs))%N.
Proof.
  revert a. induction evs as [|e evs IH]; intros a Hle; simpl in *; [lia|].
  change (agg_version (apply_all (agg_apply a e) evs) = agg_version a + N.of_nat (S (length evs)))%N.
  rewrite IH; rewrite agg_apply_version, u64_succ_small by lia; lia.
Qed.

(** Events that follow on from version [v], all stored, lead from a state to the next. *)
Lemma events_path kv h a evs :
  check_events h (agg_version a) evs = Ok tt → (agg_version a + N.of_nat (length evs) ≤ u64_max)%N →
  (∀ i e, evs !! i = Some e →
    kv_files kv !! key_for_event h (agg_version a + N.of_nat i) = Some (to_json e)) →
  epath h kv a (apply_all a evs).
Proof.
  revert a. induction evs as [|e evs IH]; intros a Hck Hle Hst; simpl in *; [constructor|].
  destruct (bool_decide (ev_version e = agg_version a)) eqn:Hv; [|done].
  destruct (bool_decide (ev_id e = h)); [|done]. simpl in Hck. apply bool_decide_eq_true in Hv.
  assert (agg_version a < u64_max)%N by lia.
  econstructor; [done| |exact Hv|].
  - unfold item_at, kv_get. specialize (Hst 0 e eq_refl). rewrite N.add_0_r in Hst.
    by rewrite Hst, from_to_json.
  - apply IH; rewrite agg_apply_version, u64_succ_small by done; [by rewrite <-u64_succ_small|lia|].
    intros i e' Hi. specialize (Hst (S i) e' Hi).
    by replace (agg_version a + 1 + N.of_nat i)%N with (agg_version a + N.of_nat (S i))%N by lia.
Qed.

Lemma store_events_Ok st h v evs :
  check_events h v evs = Ok tt → (v + N.of_nat (length evs) ≤ u64_max)%N →
  (∀ v', (v ≤ v')%N → files st !! key_for_event h v' = None) →
  ∃ st', ste_for evs store_event st = Some (st', Ok tt) ∧
    as_cache st' = as_cache st ∧ listeners st' = listeners st ∧
    (∀ i e, evs !! i = Some e → files st' !! key_for_event h (v + N.of_nat i) = Some (to_json e)) ∧
    (∀ k, (∀ v', (v ≤ v' < v + N.of_nat (length evs))%N → k ≠ key_for_event h v') → files st' !! k = files st !! k) ∧
    (∀ d, is_Some (kv_dirs (as_kv st) !! d) → is_Some (kv_dirs (as_kv st') !! d)).
Proof.
  revert st v. induction evs as [|e evs IH]; intros st v Hck Hle Hfree; simpl in *; [by exists st|].
  destruct (bool_decide (ev_version e = v)) eqn:Hv; [|done].
  destruct (bool_decide (ev_id e = h)) eqn:Hh; [|done]. simpl in Hck.
  apply bool_decide_eq_true in Hv, Hh.
  erewrite ste_bind_Some; [|unfold store_event; rewrite Hv, Hh; apply on_kv_store_new, Hfree; lia].
  rewrite u64_succ_small in Hck by lia.
  destruct (IH (put st (key_for_event h v) (to_json e)) (v + 1)%N Hck) as (st'&Hs&Hc&Hl&Hev&Hk&Hd); [lia| |].
  { intros v' Hv'. simpl. rewrite lookup_insert_ne; [apply Hfree; lia|]. intros Heq%key_for_event_inj. lia. }
  exists st'. split; [done|]. split; [done|]. split; [done|]. split; [|split].
  - intros [|i] e' Hi; simpl in Hi.
    + injection Hi as <-. rewrite N.add_0_r, Hk; [simpl; apply lookup_insert_eq|].
      intros v' Hv' Heq%key_for_event_inj. lia.
    + specialize (Hev i e' Hi). by replace (v + N.of_nat (S i))%N with (v + 1 + N.of_nat i)%N by lia.
  - intros k Hne. rewrite Hk by (intros v' Hv'; apply Hne; lia). simpl. apply lookup_insert_ne.
    apply not_eq_sym, Hne. lia.
  - intros d Hd'. apply Hd. simpl. by apply make_dirs_mono.
Qed.

(** ** Commands *)

Definition version_conflict a (cmd : SentCommand Cmd) : bool :=
  match sc_version cmd with Some version => negb (bool_decide (version = agg_version a)) | None => false end.

(** The aggregate the store stands for: what a command does to it, and the reply. *)
Definition agg_spec h a (env : AEnv) (cmd : SentCommand Cmd) : A * CommandReply (A := A) (AErr := AErr) :=
  if version_conflict a cmd then (a, CrStoreError (ConcurrentModification h))
  else match agg_process_command a env cmd with
       | Err e => (a, CrError e)
       | Ok [] => (a, CrOk a)
       | Ok evs => match check_events h (agg_version a) evs with
                   | Err e => (a, CrStoreError e)
                   | Ok _ => (apply_all a evs, CrOk (apply_all a evs))
                   end
       end.

Definition builder_for (now : Instant) a (last : N) (cmd : SentCommand Cmd) : StoredCommandBuilder Storable :=
  mkBuilder (sc_actor cmd) now (sc_handle cmd) (agg_version a) last (agg_store (sc_details cmd)).

Lemma key_for_stored_ok (c : StoredCommand Storable) : label_ok (ck_label (key_for_stored c)).
Proof. apply agg_label_ok. Qed.

(** Recording a processed command: its key is free, and stays the only one used. *)
Lemma store_command_Ok st h a info (c : StoredCommand Storable) :
  agg_inv st h a info → cmd_handle c = h → cmd_sequence c = (last_command info + 1)%N →
  store_command c st = Some (put st (key_for_command h (key_for_stored c)) (to_json c), Ok tt).
Proof.
  intros Hinv <- Hseq. apply on_kv_store_new. apply (proj1 (ai_commands _ _ _ _ _ _ Hinv)).
  - simpl. lia.
  - apply key_for_stored_ok.
Qed.

Lemma next_commands_put kv kv' h last c :
  next_commands_free kv h last → label_ok (ck_label c) → ck_sequence c = (last + 1)%N →
  (∀ k, k ≠ c → label_ok (ck_label k) → kv_files kv' !! key_for_command h k = kv_files kv !! key_for_command h k) →
  next_commands_free kv' h (last + 1).
Proof.
  intros Hfree Hl Hseq Hk k Hlt Hlk. rewrite Hk; [apply Hfree; [lia|done]|intros ->; lia|done].
Qed.

(** A command that fails is recorded, and nothing else changes. *)
Lemma failed_command_inv st h a info (c : StoredCommand Storable) info' :
  agg_inv st h a info → cmd_sequence c = (last_command info + 1)%N →
  last_command info' = (last_command info + 1)%N →
  agg_inv (put (put st (key_for_command h (key_for_stored c)) (to_json c)) (key_for_info h) (to_json info')) h a info'.
Proof.
  intros Hinv Hseq Hlast. set (ck := key_for_command h (key_for_stored c)).
  assert (∀ k, k ≠ ck → k ≠ key_for_info h →
    <[key_for_info h := to_json info']> (<[ck := to_json c]> (files st)) !! k = files st !! k) as Hk.
  { intros k H1 H2. by rewrite !lookup_insert_ne by done. }
  destruct Hinv as [(i&a0&Hi0&Ha0&Hp) Hs Hb Hc Hend Hinfo Hcmd Hdir]. split; simpl.
  - exists i, a0. unfold kv_get in *. simpl. rewrite Hk by done. split; [done|]. split; [done|].
    eapply epath_frame; [|exact Hp]. intros v. simpl. by rewrite Hk.
  - unfold snapshot_ok, kv_get in *. simpl. rewrite Hk by done.
    destruct (files st !! key_for_snapshot h) as [w|]; [|done]. destruct (from_json w); simpl in *; [|done].
    eapply epath_frame; [|done]. intros v. simpl. by rewrite Hk.
  - unfold snapshot_ok, kv_get in *. simpl. rewrite Hk by done.
    destruct (files st !! key_for_backup_snapshot h) as [w|]; [|done]. destruct (from_json w); simpl in *; [|done].
    eapply epath_frame; [|done]. intros v. simpl. by rewrite Hk.
  - intros x Hx. eapply epath_frame; [|by apply Hc]. intros v. simpl. by rewrite Hk.
  - intros v. rewrite Hk by done. apply Hend.
  - unfold kv_get. simpl. by rewrite lookup_insert_eq, from_to_json.
  - split; [|done]. rewrite Hlast. eapply next_commands_put; [apply Hcmd|apply key_for_stored_ok|exact Hseq|].
    intros k Hne Hlk. simpl. apply Hk; [|done]. intros Heq%key_for_command_inj; [done..|apply key_for_stored_ok].
  - by apply make_dirs_mono, make_dirs_mono.
Qed.

(** The store after a successful command, in terms of its files. *)
Lemma successful_command_inv st st' h a info evs (c : CommandKey) info' :
  agg_inv st h a info → check_events h (agg_version a) evs = Ok tt →
  (agg_version a + N.of_nat (length evs) ≤ u64_max)%N →
  label_ok (ck_label c) → ck_sequence c = (last_command info + 1)%N →
  last_command info' = (last_command info + 1)%N →
  (∀ i e, evs !! i = Some e → files st' !! key_for_event h (agg_version a + N.of_nat i) = Some (to_json e)) →
  (∀ v, ¬ (agg_version a ≤ v < agg_version a + N.of_nat (length evs))%N →
    files st' !! key_for_event h v = files st !! key_for_event h v) →
  files st' !! key_for_snapshot h = Some (to_json (apply_all a evs)) →
  files st' !! key_for_backup_snapshot h = files st !! key_for_snapshot h →
  files st' !! key_for_info h = Some (to_json info') →
  (∀ k, k ≠ c → label_ok (ck_label k) → files st' !! key_for_command h k = files st !! key_for_command h k) →
  as_cache st' !! h = Some (apply_all a evs) →
  (is_Some (kv_dirs (as_kv st) !! h) → is_Some (kv_dirs (as_kv st') !! h)) →
  agg_inv st' h (apply_all a evs) info'.
Proof.
  intros Hinv Hck Hle Hl Hseq Hlast Hev Hold Hsn Hbk Hif Hcm Hca Hdi.
  pose proof (events_path (as_kv st') h a evs Hck Hle Hev) as Hnew.
  assert (∀ s, epath h (as_kv st) s a → epath h (as_kv st') s (apply_all a evs)) as Hext.
  { intros s Hp. eapply path_trans; [|exact Hnew]. eapply path_frame; [apply agg_apply_version|exact Hp|].
    intros r Hr _. apply Hold. lia. }
  destruct Hinv as [(i&a0&Hi0&Ha0&Hp) Hs Hb Hc Hend Hinfo Hcmd Hdir]. split.
  - exists i, a0. split; [|by auto]. unfold kv_get in *. rewrite Hold; [done|].
    pose proof (path_revision _ _ _ _ agg_apply_version _ _ _ Hp).
    rewrite (agg_init_version _ _ Ha0) in *. lia.
  - unfold snapshot_ok, kv_get. rewrite Hsn, from_to_json. simpl. constructor.
  - unfold snapshot_ok, kv_get in *. rewrite Hbk.
    destruct (files st !! key_for_snapshot h) as [w|]; [|done]. destruct (from_json w); simpl in *; auto.
  - rewrite Hca. intros x [= <-]. constructor.
  - intros v Hv. rewrite apply_all_version by done.
    destruct (decide (agg_version a ≤ v < agg_version a + N.of_nat (length evs))%N) as [Hin|Hout]; [lia|].
    rewrite Hold in Hv by done. apply Hend in Hv. lia.
  - unfold kv_get. by rewrite Hif, from_to_json.
  - split; [|done]. rewrite Hlast. by eapply next_commands_put; [apply Hcmd|..].
  - auto.
Qed.

Lemma save_events_Ok st h a info evs (c : StoredCommand Storable) info' :
  agg_inv st h a info → check_events h (agg_version a) evs = Ok tt →
  (agg_version a + N.of_nat (length evs) ≤ u64_max)%N →
  cmd_sequence c = (last_command info + 1)%N → last_command info' = (last_command info + 1)%N →
  ∃ st' info'', save_events h (apply_all a evs) evs info' (put st (key_for_command h (key_for_stored c)) (to_json c))
      = Some (st', Ok (CrOk (apply_all a evs))) ∧
    agg_inv st' h (apply_all a evs) info'' ∧ last_command info'' = last_command info' ∧
    as_pre_save st' = as_pre_save st ∧ as_post_saved st' = as_post_saved st ++ [(apply_all a evs, evs)] ∧
    kv_get (as_kv st') (key_for_command h (key_for_stored c)) = Ok (Some c).
Proof.
  intros Hinv Hck Hle Hseq Hlast. set (st1 := put _ _ _). unfold save_events.
  destruct (store_events_Ok st1 h (agg_version a) evs Hck Hle) as (st2&He&Hc2&Hl2&Hev2&Hk2&Hd2).
  { intros v Hv. simpl. rewrite lookup_insert_ne by done. apply eq_None_not_Some.
    intros Hx%(ai_end _ _ _ _ _ _ Hinv). lia. }
  rewrite (ste_bind_Some _ _ _ _ _ He).
  destruct (store_snapshot_Ok st2 h (apply_all a evs)) as (st3&Hsn&Hc3&Hl3&Hcur&Hbk&Hk3&Hd3).
  rewrite (ste_bind_Some _ _ _ _ _ Hsn).
  erewrite ste_bind_Some; [|done]. erewrite ste_bind_Some; [|done]. erewrite ste_bind_Some; [|done].
  eexists _, (mkInfo (agg_version (apply_all a evs)) (last_event info') (last_command info') (info_last_update info')).
  split; [done|]. simpl.
  assert (∀ k, k ≠ key_for_info h → k ≠ key_for_new_snapshot h → k ≠ key_for_snapshot h →
    k ≠ key_for_backup_snapshot h → k ≠ key_for_command h (key_for_stored c) →
    (∀ v', (agg_version a ≤ v' < agg_version a + N.of_nat (length evs))%N → k ≠ key_for_event h v') →
    ∀ w, <[key_for_info h := w]> (files st3) !! k = files st !! k) as Hkeep.
  { intros k H1 H2 H3 H4 H5 H6 w. rewrite lookup_insert_ne, Hk3, Hk2 by done. simpl.
    by rewrite lookup_insert_ne. }
  unfold listeners in *. injection Hl2 as Hp2 Hs2. injection Hl3 as Hp3 Hs3. simpl in Hp2, Hs2.
  split; [|split; [done|split; [congruence|split]]].
  - apply (successful_command_inv st _ h a info evs (key_for_stored c)); [done|done|done|apply key_for_stored_ok|exact Hseq|..].
    + exact Hlast.
    + intros i e Hi. simpl. rewrite lookup_insert_ne, Hk3 by done. by apply Hev2.
    + intros v Hv. simpl. apply Hkeep; [done..|]. intros v' Hv' Heq%key_for_event_inj. by subst.
    + simpl. by rewrite lookup_insert_ne.
    + simpl. rewrite lookup_insert_ne, Hbk, Hk2 by done. simpl. by rewrite lookup_insert_ne.
    + simpl. apply lookup_insert_eq.
    + intros k Hne Hlk. simpl. apply Hkeep; try done.
      intros Heq%key_for_command_inj; [done..|apply key_for_stored_ok].
    + simpl. apply lookup_insert_eq.
    + intros Hd. simpl. apply make_dirs_mono, Hd3, Hd2. simpl. by apply make_dirs_mono.
  - simpl. by rewrite Hs3, Hs2.
  - unfold kv_get. simpl. rewrite lookup_insert_ne, Hk3, Hk2 by done. simpl.
    by rewrite lookup_insert_eq, from_to_json.
Qed.

(** Listeners that refuse nothing. *)
Definition accepting (ls : list (A → list (StoredEvent Evt) → result AErr unit)) : Prop :=
  ∀ a evs, for_each (λ listener, listener a evs) ls = Ok tt.

Lemma agg_command_inv st h a info env now cmd :
  agg_inv st h a info → sc_handle cmd = h → accepting (as_pre_save st) →
  (last_command info < u64_max)%N →
  (∀ evs, agg_process_command a env cmd = Ok evs → (agg_version a + N.of_nat (length evs) ≤ u64_max)%N) →
  ∃ st' info', agg_command env now cmd st = Some (st', (agg_spec h a env cmd).2) ∧
    agg_inv st' h (agg_spec h a env cmd).1 info' ∧ as_pre_save st' = as_pre_save st ∧
    (last_command info' ≤ last_command info + 1)%N.
Proof.
  intros Hinv Hh Hpre Hlast Hwidth. unfold agg_command, reply_of, command_body.
  rewrite (ste_bind_Some _ _ _ st info).
  2: { unfold get_info, ste_gets. rewrite Hh. by rewrite (ai_info _ _ _ _ _ _ Hinv). }
  destruct (agg_latest_inv _ _ _ _ _ _ Hinv) as (st1&Hg&Hinv1&Hl1). injection Hl1 as Hp1 Hs1.
  rewrite <-Hh in Hg. rewrite (ste_bind_Some _ _ _ _ _ Hg). rewrite Hh.
  unfold agg_spec. fold (version_conflict a cmd).
  destruct (version_conflict a cmd); [exists st1, info; split; [done|split; [done|split; [done|lia]]]|].
  specialize (Hwidth). rewrite u64_succ_small by done.
  fold (builder_for now a (last_command info + 1) cmd).
  destruct (agg_process_command a env cmd) as [evs|e] eqn:Hproc.
  - destruct evs as [|ev evs]; [exists st1, info; split; [done|split; [done|split; [done|lia]]]|].
    rewrite bool_decide_false by done. unfold process_events.
    destruct (check_events h (agg_version a) (ev :: evs)) as [[]|e] eqn:Hck;
      [|exists st1, info; split; [done|split; [done|split; [done|lia]]]].
    set (c := finish_with_events _ _). set (i' := mkInfo _ _ _ _).
    erewrite ste_bind_Some.
    2: { unfold ste_try. erewrite store_command_Ok; [done|exact Hinv1|done|done]. }
    cbv beta iota. erewrite ste_bind_Some; [|unfold pre_save; simpl; rewrite Hp1; by rewrite (Hpre _ _)].
    cbv beta iota.
    destruct (save_events_Ok st1 h a info (ev :: evs) c i' Hinv1 Hck) as (st'&i''&Hsave&Hinv'&Hlast'&Hpre'&_).
    { by apply Hwidth. }
    { done. }
    { done. }
    rewrite Hsave. exists st', i''. split; [done|]. split; [done|]. split; [congruence|]. rewrite Hlast'. done.
  - erewrite ste_bind_Some; [|eapply store_command_Ok; [exact Hinv1|done|done]].
    erewrite ste_bind_Some; [|done]. eexists _, _. split; [done|]. split; [|split; [done|]].
    + eapply failed_command_inv; [done|done|done].
    + simpl. lia.
Qed.

(** ** Commands that a listener refuses *)

(** Recording a command takes its key and leaves the rest. *)
Lemma recorded_command_log st h a info (c : StoredCommand Storable) :
  agg_inv st h a info → cmd_sequence c = (last_command info + 1)%N →
  agg_log (put st (key_for_command h (key_for_stored c)) (to_json c)) h a info (last_command info + 1)
    (Some (key_for_stored c, to_json c)).
Proof.
  intros Hinv Hseq. set (ck := key_for_command h (key_for_stored c)).
  assert (∀ k, k ≠ ck → <[ck := to_json c]> (files st) !! k = files st !! k) as Hk by (intros k H1; by rewrite lookup_insert_ne).
  destruct Hinv as [(i&a0&Hi0&Ha0&Hp) Hs Hb Hc Hend Hinfo [Hcmd _] Hdir]. split; simpl.
  - exists i, a0. unfold kv_get in *. simpl. rewrite Hk by done. split; [done|]. split; [done|].
    eapply epath_frame; [|exact Hp]. intros v. simpl. by rewrite Hk.
  - unfold snapshot_ok, kv_get in *. simpl. rewrite Hk by done.
    destruct (files st !! key_for_snapshot h) as [w|]; [|done]. destruct (from_json w); simpl in *; [|done].
    eapply epath_frame; [|done]. intros v. simpl. by rewrite Hk.
  - unfold snapshot_ok, kv_get in *. simpl. rewrite Hk by done.
    destruct (files st !! key_for_backup_snapshot h) as [w|]; [|done]. destruct (from_json w); simpl in *; [|done].
    eapply epath_frame; [|done]. intros v. simpl. by rewrite Hk.
  - intros x Hx. eapply epath_frame; [|by apply Hc]. intros v. simpl. by rewrite Hk.
  - intros v. rewrite Hk by done. apply Hend.
  - unfold kv_get. simpl. by rewrite Hk.
  - split; [|simpl; by rewrite lookup_insert_eq]. eapply next_commands_put; [done|apply key_for_stored_ok|exact Hseq|].
    intros k Hne Hlk. simpl. apply Hk. intros Heq%key_for_command_inj; [done..|apply key_for_stored_ok].
  - by apply make_dirs_mono.
Qed.

(** The steps of a command up to the recording of its events, in a store that holds the aggregate. *)
Lemma command_until_recorded st h a info last kept env now cmd ev evs :
  agg_log st h a info last kept → sc_handle cmd = h → (last_command info < u64_max)%N → version_conflict a cmd = false →
  agg_process_command a env cmd = Ok (ev :: evs) → check_events h (agg_version a) (ev :: evs) = Ok tt →
  let c := finish_with_events (builder_for now a (last_command info + 1) cmd) (ev :: evs) in
  ∃ st1 info', agg_log st1 h a info last kept ∧ listeners st1 = listeners st ∧
    agg_command env now cmd st
    = reply_of (ste_try (store_command c) ≫= λ r,
        match r with
        | Err _ => mret CrExit
        | Ok _ => pre_save (apply_all a (ev :: evs)) (ev :: evs) ≫= λ refused,
                  match refused with Err e => mret (CrError e) | Ok _ => save_events h (apply_all a (ev :: evs)) (ev :: evs) info' end
        end) st1.
Proof.
  intros Hinv <- Hlast Hconf Hproc Hck c.
  destruct (agg_latest_inv _ _ _ _ _ _ Hinv) as (st1&Hg&Hinv1&Hl1).
  exists st1, (mkInfo (snapshot_version info) ((agg_version a + N.of_nat (length (ev :: evs)) - 1) mod u64_modulus)%N
                 (last_command info + 1) now).
  split; [done|]. split; [done|].
  unfold agg_command, reply_of, command_body.
  rewrite (ste_bind_Some _ _ _ st info).
  2: { unfold get_info, ste_gets. by rewrite (ai_info _ _ _ _ _ _ Hinv). }
  rewrite (ste_bind_Some _ _ _ _ _ Hg). fold (version_conflict a cmd). rewrite Hconf.
  rewrite u64_succ_small by done. fold (builder_for now a (last_command info + 1) cmd). rewrite Hproc.
  rewrite bool_decide_false by done. unfold process_events. rewrite Hck. fold c. reflexivity.
Qed.

Lemma refused_command st h a info env now cmd ev evs e :
  agg_inv st h a info → sc_handle cmd = h → (last_command info < u64_max)%N → version_conflict a cmd = false →
  agg_process_command a env cmd = Ok (ev :: evs) → check_events h (agg_version a) (ev :: evs) = Ok tt →
  for_each (λ listener, listener (apply_all a (ev :: evs)) (ev :: evs)) (as_pre_save st) = Err e →
  let c := finish_with_events (builder_for now a (last_command info + 1) cmd) (ev :: evs) in
  ∃ st', agg_command env now cmd st = Some (st', CrError e) ∧
    agg_log st' h a info (last_command info + 1) (Some (key_for_stored c, to_json c)).
Proof.
  intros Hinv Hh Hlast Hconf Hproc Hck Hrefused c.
  destruct (command_until_recorded st h a info (last_command info) None env now cmd ev evs) as (st1&info'&Hinv1&Hl1&->); [done..|].
  fold c. injection Hl1 as Hp1 Hs1. eexists. split; [|apply recorded_command_log; [exact Hinv1|done]].
  unfold reply_of. erewrite ste_bind_Some.
  2: { unfold ste_try. erewrite store_command_Ok; [done|exact Hinv1|done|done]. }
  cbv beta iota. erewrite ste_bind_Some; [|unfold pre_save; cbn [as_pre_save put as_with_kv]; by rewrite Hp1, Hrefused]. done.
Qed.

(** The key of a command that was recorded is taken, for commands with its label in that second. *)
Lemma repeated_command_exits st h a info last k v env now cmd ev evs :
  agg_log st h a info last (Some (k, v)) → sc_handle cmd = h → (last_command info < u64_max)%N →
  version_conflict a cmd = false → agg_process_command a env cmd = Ok (ev :: evs) →
  check_events h (agg_version a) (ev :: evs) = Ok tt →
  command_key_new (last_command info + 1) now (agg_label (agg_store (sc_details cmd))) = k →
  ∃ st', agg_command env now cmd st = Some (st', CrExit).
Proof.
  intros Hinv Hh Hlast Hconf Hproc Hck Hkey.
  destruct (command_until_recorded st h a info last (Some (k, v)) env now cmd ev evs)
    as (st1&info'&Hinv1&_&->); [done..|]. set (c := finish_with_events _ _). change (key_for_stored c = k) in Hkey.
  destruct (ai_commands _ _ _ _ _ _ Hinv1) as [_ Htaken]. exists st1.
  assert (∃ e, ste_try (store_command c) st1 = Some (st1, Ok (Err e))) as [e Htry].
  { unfold ste_try, store_command, on_kv, ste_update, store_new, kv_has. change (cmd_handle c) with (sc_handle cmd).
    rewrite Hkey, Hh, Htaken, bool_decide_true by done. by eexists. }
  unfold reply_of. by rewrite (ste_bind_Some _ _ _ _ _ Htry).
Qed.

(** The events of a command continue the log. *)
Lemma check_events_versions h v (evs : list (StoredEvent Evt)) e :
  check_events h v evs = Ok tt → (v + N.of_nat (length evs) ≤ u64_max)%N → e ∈ evs → (v ≤ ev_version e)%N.
Proof.
  revert v. induction evs as [|x evs IH]; intros v Hck Hle Hin; [by apply elem_of_nil in Hin|]. simpl in *.
  destruct (bool_decide (ev_version x = v)) eqn:Hv; [|done]. destruct (bool_decide (ev_id x = h)); [|done].
  simpl in Hck. apply bool_decide_eq_true in Hv. apply elem_of_cons in Hin as [->|Hin]; [lia|].
  rewrite u64_succ_small in Hck by lia. specialize (IH _ Hck ltac:(lia) Hin). lia.
Qed.

Lemma no_event_past_end st h a info last kept v :
  agg_log st h a info last kept → (agg_version a ≤ v)%N → get_event h v st = Some (st, Ok None).
Proof.
  intros Hinv Hv. unfold get_event, kv_get.
  assert (files st !! key_for_event h v = None) as ->; [|done].
  apply eq_None_not_Some. intros H%(ai_end _ _ _ _ _ _ Hinv). lia.
Qed.

(** One more listener leaves the log as it is, and its refusal is the refusal of all. *)
Lemma agg_inv_add_listener st h a info l : agg_inv st h a info → agg_inv (add_pre_save_listener st l) h a info.
Proof. intros [? ? ? ? ? ? ? ?]. by split. Qed.

Lemma for_each_accepting ls l a evs :
  accepting ls → for_each (λ listener, listener a evs) (ls ++ [l]) = l a evs.
Proof.
  intros Hacc. specialize (Hacc a evs). induction ls as [|l' ls IH]; simpl in *.
  - by destruct (l a evs) as [[]|].
  - destruct (l' a evs) as [[]|]; [by apply IH|done].
Qed.

(** ** Adding, restarting, losing snapshots *)

Lemma agg_add_inv st i a now :
  (∀ k, scope k = Some (ev_id i) → files st !! k = None) → ev_version i = 0%N → agg_init i = Ok a →
  ∃ st', agg_add i now st = Some (st', Ok a) ∧ agg_inv st' (ev_id i) a (mkInfo 0 0 0 now) ∧
    listeners st' = listeners st.
Proof.
  intros Hnone Hv Hi. unfold agg_add, store_init_event. set (h := ev_id i) in *.
  erewrite ste_bind_Some; [|apply on_kv_store_new; by apply Hnone]. rewrite Hi.
  set (st1 := put _ _ _).
  destruct (store_snapshot_Ok st1 h a) as (st2&Hs&Hc2&Hl2&Hcur&Hbk&Hk&Hd).
  rewrite (ste_bind_Some _ _ _ _ _ Hs).
  erewrite ste_bind_Some; [|done]. erewrite ste_bind_Some; [|done]. eexists. split; [done|].
  assert (∀ k, scope k = Some h → k ≠ key_for_event h 0 → k ≠ key_for_info h → k ≠ key_for_snapshot h →
    k ≠ key_for_new_snapshot h → ∀ w, <[key_for_info h := w]> (files st2) !! k = None) as Hother.
  { intros k Hsc H1 H2 H3 H4 w. rewrite lookup_insert_ne by done.
    destruct (decide (k = key_for_backup_snapshot h)) as [->|Hkb].
    - rewrite Hbk. simpl. rewrite lookup_insert_ne by done. by apply Hnone.
    - rewrite Hk by done. simpl. rewrite Hv, lookup_insert_ne by done. by apply Hnone. }
  split; [|exact Hl2]. split; simpl.
  - exists i, a. split; [|split; [done|constructor]]. unfold kv_get. simpl.
    rewrite lookup_insert_ne, Hk by done. simpl. by rewrite Hv, lookup_insert_eq, from_to_json.
  - unfold snapshot_ok, kv_get. simpl. rewrite lookup_insert_ne, Hcur, from_to_json by done. constructor.
  - unfold snapshot_ok, kv_get. simpl. by rewrite Hother.
  - intros c. rewrite lookup_insert_eq. intros [= <-]. constructor.
  - intros v Hsome. rewrite (agg_init_version _ _ Hi).
    destruct (decide (v = 0%N)) as [->|Hne]; [lia|]. rewrite Hother in Hsome; [by destruct Hsome|done|..|done|done|done].
    intros Heq%key_for_event_inj. done.
  - unfold kv_get. simpl. by rewrite lookup_insert_eq, from_to_json.
  - split; [|done]. intros k Hlt Hlk. simpl. by apply Hother.
  - apply make_dirs_mono, Hd. apply make_dirs_self.
Qed.

(** A snapshot file disappears, or its content can no longer be read. *)
Inductive snapshot_lost h : KeyValueStore V → KeyValueStore V → Prop :=
| lost_missing kv key :
    key = key_for_snapshot h ∨ key = key_for_backup_snapshot h →
    snapshot_lost h kv (mkKv (delete key (kv_files kv)) (kv_dirs kv))
| lost_corrupt kv key v :
    key = key_for_snapshot h ∨ key = key_for_backup_snapshot h → from_json (A := A) v = None →
    snapshot_lost h kv (mkKv (<[key := v]> (kv_files kv)) (kv_dirs kv)).

Lemma snapshot_lost_inv st h a info kv' :
  agg_inv st h a info → snapshot_lost h (as_kv st) kv' → agg_inv (as_with_kv st kv') h a info.
Proof.
  intros Hinv Hlost.
  assert (∃ key, (key = key_for_snapshot h ∨ key = key_for_backup_snapshot h) ∧
    (∀ k, k ≠ key → kv_files kv' !! k = files st !! k) ∧ kv_dirs kv' = kv_dirs (as_kv st) ∧
    snapshot_ok kv' h a key) as (key&Hkey&Hk&Hd&Hok).
  { destruct Hlost as [kv key Hkey|kv key v Hkey Hv]; exists key; (split; [done|]); simpl;
      (split; [intros k Hne|split; [done|unfold snapshot_ok, kv_get; simpl]]).
    - by apply lookup_delete_ne.
    - by rewrite lookup_delete_eq.
    - by apply lookup_insert_ne.
    - by rewrite lookup_insert_eq, Hv. }
  assert (same_log (as_kv st) kv' h) as Hsame.
  { split; [intros; apply Hk; by destruct Hkey as [->| ->]..|by rewrite Hd]. }
  eapply agg_inv_same_log; [done|done| |].
  - intros key' Hkey'. destruct (decide (key' = key)) as [->|Hne]; [done|].
    assert (snapshot_ok (as_kv st) h a key') as Hok' by (destruct Hkey' as [->| ->]; apply Hinv).
    unfold snapshot_ok, kv_get in *. simpl. rewrite Hk by done.
    destruct (files st !! key') as [w|]; [|done]. destruct (from_json w); simpl in *; [|done].
    eapply epath_frame; [apply Hsame|done].
  - intros c Hc. eapply epath_frame; [apply Hsame|]. by apply (ai_cache _ _ _ _ _ _ Hinv).
Qed.

Lemma agg_restart_inv st h a info : agg_inv st h a info → agg_inv (agg_restart st) h a info.
Proof. intros [? ? ? ? ? ? ? ?]. by split. Qed.

(** ** Runs *)

Inductive agg_step h : option (AEnv * SentCommand Cmd) →
    AggregateStore A Evt AErr V → AggregateStore A Evt AErr V → Prop :=
| ag_command st st' env now cmd r :
    sc_handle cmd = h → agg_command env now cmd st = Some (st', r) → agg_step h (Some (env, cmd)) st st'
| ag_read st st' r : get_latest_no_lock h st = Some (st', r) → agg_step h None st st'
| ag_restart st : agg_step h None st (agg_restart st)
| ag_lose st kv' : snapshot_lost h (as_kv st) kv' → agg_step h None st (as_with_kv st kv').

Inductive agg_steps h : list (option (AEnv * SentCommand Cmd)) →
    AggregateStore A Evt AErr V → AggregateStore A Evt AErr V → Prop :=
| ags_nil st : agg_steps h [] st st
| ags_cons lab labs st1 st2 st3 :
    agg_step h lab st1 st2 → agg_steps h labs st2 st3 → agg_steps h (lab :: labs) st1 st3.

Definition agg_spec_label h a (lab : option (AEnv * SentCommand Cmd)) : A :=
  match lab with Some (env, cmd) => (agg_spec h a env cmd).1 | None => a end.

Context (max_events : N)
  (few_events : ∀ a env cmd evs, agg_process_command a env cmd = Ok evs → (N.of_nat (length evs) ≤ max_events)%N).

Lemma agg_spec_label_version h a lab :
  (agg_version a + max_events ≤ u64_max)%N →
  (agg_version (agg_spec_label h a lab) ≤ agg_version a + max_events)%N.
Proof.
  intros Hle. destruct lab as [[env cmd]|]; simpl; [|lia]. unfold agg_spec.
  destruct (version_conflict a cmd); simpl; [lia|].
  destruct (agg_process_command a env cmd) as [evs|e] eqn:Hp; simpl; [|lia]. apply few_events in Hp.
  destruct evs as [|ev evs]; [simpl; lia|]. destruct (check_events _ _ _); simpl; [|lia].
  change (apply_all (agg_apply a ev) evs) with (apply_all a (ev :: evs)).
  rewrite (apply_all_version a (ev :: evs)) by lia. lia.
Qed.

Lemma agg_step_inv h lab st st' a info :
  agg_step h lab st st' → agg_inv st h a info → accepting (as_pre_save st) →
  (last_command info < u64_max)%N → (agg_version a + max_events ≤ u64_max)%N →
  ∃ info', agg_inv st' h (agg_spec_label h a lab) info' ∧ as_pre_save st' = as_pre_save st ∧
    (last_command info' ≤ last_command info + 1)%N.
Proof.
  intros Hstep Hinv Hpre Hlast Hle. destruct Hstep as [st st' env now cmd r Hh Hc|st st' r Hg|st|st kv' Hl]; simpl.
  - destruct (agg_command_inv _ _ _ _ env now cmd Hinv Hh Hpre Hlast) as (st1&info1&Hc1&Hinv1&Hpre1&Hl1).
    { intros evs Hp%few_events. lia. }
    rewrite Hc in Hc1. injection Hc1 as -> _. eauto.
  - destruct (agg_latest_inv _ _ _ _ _ _ Hinv) as (st1&Hg1&Hinv1&Hl1). rewrite Hg in Hg1. injection Hg1 as -> _.
    injection Hl1 as Hp1 _. exists info. split; [done|]. split; [congruence|lia].
  - exists info. split; [by apply agg_restart_inv|]. split; [done|lia].
  - exists info. split; [by apply snapshot_lost_inv|]. split; [done|lia].
Qed.

Lemma agg_steps_inv h labs st st' a info :
  agg_steps h labs st st' → agg_inv st h a info → accepting (as_pre_save st) →
  (last_command info + N.of_nat (length labs) ≤ u64_max)%N →
  (agg_version a + max_events * N.of_nat (length labs) ≤ u64_max)%N →
  ∃ info', agg_inv st' h (foldl (agg_spec_label h) a labs) info' ∧ as_pre_save st' = as_pre_save st ∧
    (last_command info' ≤ last_command info + N.of_nat (length labs))%N ∧
    (agg_version (foldl (agg_spec_label h) a labs) ≤ agg_version a + max_events * N.of_nat (length labs))%N.
Proof.
  intros Hsteps. revert a info. induction Hsteps as [st|lab labs st1 st2 st3 Hstep _ IH];
    intros a info Hinv Hpre Hlast Hle; simpl in *.
  - exists info. split; [done|]. split; [done|]. lia.
  - rewrite Nat2N.inj_succ, N.mul_succ_r in Hle.
    destruct (agg_step_inv _ _ _ _ _ _ Hstep Hinv Hpre ltac:(lia) ltac:(lia)) as (info'&Hinv'&Hpre'&Hl').
    pose proof (agg_spec_label_version h a lab ltac:(lia)) as Hv.
    destruct (IH _ _ Hinv' ltac:(by rewrite Hpre') ltac:(lia) ltac:(lia)) as (info''&Hi&Hp&Hlc&Hve).
    exists info''. split; [done|]. split; [congruence|]. rewrite Nat2N.inj_succ, N.mul_succ_r. split; lia.
Qed.
End facts.
