(* ===== verification/Rpki.v ===== *)
(** * Interface to the [rpki] crate

    Krill builds on the [rpki] crate, which is not part of this repository.  What the
    modelled code uses of it is collected here as a class of types and operations, with
    no laws: a theorem that needs one states it as a named hypothesis.  A concrete
    instance over strings is used to evaluate the model on examples. *)

From stdpp Require Import base gmap strings pretty.
From S2P Require Import Prelude Text.

Class Rpki : Type := {
  (** [rpki::uri::Rsync], with [is_parent_of], [from_str] and [Display]. *)
  Rsync : Type;
  Rsync_eq_dec :: EqDecision Rsync;
  Rsync_countable :: Countable Rsync;
  is_parent_of : Rsync → Rsync → bool;
  rsync_from_str : string → option Rsync;
  rsync_to_string : Rsync → string;
  (** [rpki::ca::publication::Base64]: object content, its hash and its size. *)
  Base64 : Type;
  Base64_eq_dec :: EqDecision Base64;
  Hash : Type;
  Hash_eq_dec :: EqDecision Hash;
  Hash_countable :: Countable Hash;
  to_hash : Base64 → Hash;
  size_approx : Base64 → N;
  (** [uuid::Uuid], as used for an RRDP session. *)
  Uuid : Type;
  Uuid_eq_dec :: EqDecision Uuid;
  uuid_hyphenated : Uuid → string;
}.

(** URIs, contents, hashes and session ids as strings: a hash is the tagged content, so
    distinct contents have distinct hashes, and a URI is a parent of those it prefixes. *)
#[export] Instance string_rpki : Rpki := {|
  Rsync := string;
  is_parent_of a b := starts_with b a;
  rsync_from_str := Some;
  rsync_to_string s := s;
  Base64 := string;
  Hash := string;
  to_hash c := ("sha256:" +:+ c)%string;
  size_approx c := N.of_nat (String.length c);
  Uuid := string;
  uuid_hyphenated u := u;
|}.
