(* ===== verification/RrdpFacts.v ===== *)
(** * What relying parties see: hash-keyed objects as a map from URI to content

    [CurrentObjects] is keyed by content hash.  The relation [represents] connects it with
    the map from URI to content that an RRDP client builds, and the lemmas show when
    applying a delta to the one is applying it to the other.  A delta (and the staged
    elements of the RRDP server) is read as a sequence of operations on distinct URIs. *)

From stdpp Require Import base gmap strings list.
From S2P Require Import Prelude Rpki Rrdp.

Section facts.
Context `{RP : !Rpki, HO : !HashOrder}.
Implicit Types (co : CurrentObjects) (m : gmap Rsync Base64) (u : Rsync) (c : Base64).

(** The URI view: [co] holds exactly the objects of [m], each under its content's hash. *)
Definition represents co m : Prop :=
  ∀ h e, co !! h = Some e ↔ h = to_hash (pe_base64 e) ∧ m !! pe_uri e = Some (pe_base64 e).

(** No object of [m] has the same hash as content [c]. *)
Definition fresh_content m c : Prop :=
  ∀ u c', m !! u = Some c' → to_hash c' ≠ to_hash c.

(** Every content of [m] is published at one URI only. *)
Definition content_unique m : Prop :=
  ∀ u1 u2 c1 c2, m !! u1 = Some c1 → m !! u2 = Some c2 → to_hash c1 = to_hash c2 → u1 = u2.

Lemma represents_empty : represents ∅ ∅.
Proof. intros h e. rewrite !lookup_empty. naive_solver. Qed.

Lemma represents_lookup co m u c :
  represents co m → m !! u = Some c → co !! to_hash c = Some (mkPublishElement c u).
Proof. intros Hrep Hu. by apply Hrep. Qed.

Lemma represents_content_unique co m : represents co m → content_unique m.
Proof.
  intros Hrep u1 u2 c1 c2 H1 H2 Heq.
  apply (represents_lookup co) in H1, H2; [|done..]. rewrite Heq in H1. congruence.
Qed.

Lemma represents_fresh co m c :
  represents co m → co !! to_hash c = None → fresh_content m c.
Proof.
  intros Hrep Hc u c' Hu Heq. apply (represents_lookup co) in Hu; [|done].
  rewrite Heq in Hu. congruence.
Qed.

Lemma represents_fresh_None co m c :
  represents co m → fresh_content m c → co !! to_hash c = None.
Proof.
  intros Hrep Hf. apply eq_None_not_Some. intros [e He].
  destruct (proj1 (Hrep _ _) He) as [Heq Hu]. by eapply Hf.
Qed.

Lemma represents_functional co1 co2 m : represents co1 m → represents co2 m → co1 = co2.
Proof.
  intros H1 H2. apply map_eq. intros h. apply option_eq. intros e.
  by rewrite (H1 h e), (H2 h e).
Qed.

Lemma represents_view_functional co m1 m2 : represents co m1 → represents co m2 → m1 = m2.
Proof.
  intros H1 H2. apply map_eq. intros u. apply option_eq. intros c. split; intros Hu.
  - destruct (proj1 (H2 _ _) (represents_lookup _ _ _ _ H1 Hu)). done.
  - destruct (proj1 (H1 _ _) (represents_lookup _ _ _ _ H2 Hu)). done.
Qed.

Lemma represents_insert co m u c :
  represents co m → m !! u = None → fresh_content m c →
  represents (<[to_hash c := mkPublishElement c u]> co) (<[u := c]> m).
Proof.
  intros Hrep Hu Hc h e. rewrite !lookup_insert. repeat case_decide; simplify_eq.
  - destruct e; naive_solver.
  - split; [by intros [= <-]|]. intros [? ?]. exfalso. by eapply Hc.
  - split; [|naive_solver]. intros Hh. apply Hrep in Hh as [-> ?]. congruence.
  - apply Hrep.
Qed.

Lemma represents_delete co m u c :
  represents co m → m !! u = Some c → represents (delete (to_hash c) co) (delete u m).
Proof.
  intros Hrep Hu h e. rewrite !lookup_delete.
  pose proof (represents_lookup _ _ _ _ Hrep Hu) as Hc.
  repeat case_decide; simplify_eq; [naive_solver| | |apply Hrep].
  - split; [done|]. intros [Heq He]. apply (represents_lookup co) in He; [|done].
    rewrite <-Heq, Hc in He. destruct e; simplify_eq/=.
  - split; [|naive_solver]. intros Hh. apply Hrep in Hh as [-> ?]. congruence.
Qed.

(** ** Operations: one element of a delta or of the staged elements *)

Inductive DeltaElement :=
| DPublish (p : PublishElement)
| DUpdate (u : UpdateElement)
| DWithdraw (w : WithdrawElement).

Definition el_uri (el : DeltaElement) : Rsync :=
  match el with DPublish p => pe_uri p | DUpdate u => ue_uri u | DWithdraw w => we_uri w end.

(** The content the element leaves at its URI. *)
Definition el_new (el : DeltaElement) : option Base64 :=
  match el with
  | DPublish p => Some (pe_base64 p) | DUpdate u => Some (ue_base64 u) | DWithdraw _ => None
  end.

Definition apply_el co (el : DeltaElement) : CurrentObjects :=
  match el with
  | DPublish p => apply_publish co p
  | DUpdate u => apply_update co u
  | DWithdraw w => apply_withdraw co w
  end.

(** What the element does to the URI view. *)
Definition spec_el m (el : DeltaElement) : gmap Rsync Base64 :=
  partial_alter (λ _, el_new el) (el_uri el) m.

(** When the element may be applied to the view: a publish to a free URI, an update or a
    withdraw of the object its hash names, and no other object with the new content. *)
Definition el_ok m (el : DeltaElement) : Prop :=
  match el with
  | DPublish p => m !! pe_uri p = None ∧ fresh_content m (pe_base64 p)
  | DUpdate u => (∃ c, m !! ue_uri u = Some c ∧ ue_hash u = to_hash c)
                 ∧ fresh_content (delete (ue_uri u) m) (ue_base64 u)
  | DWithdraw w => ∃ c, m !! we_uri w = Some c ∧ we_hash w = to_hash c
  end.

Lemma spec_el_lookup m el u :
  spec_el m el !! u = if decide (el_uri el = u) then el_new el else m !! u.
Proof. unfold spec_el. rewrite lookup_partial_alter. done. Qed.

Lemma represents_step co m el :
  represents co m → el_ok m el → represents (apply_el co el) (spec_el m el).
Proof.
  intros Hrep Hok. destruct el as [[c u]|[u h c]|[u h]]; simpl in *.
  - destruct Hok. by apply represents_insert.
  - destruct Hok as [(c0&Hu&->) Hf]. unfold apply_update, into_publish, spec_el; simpl.
    replace (partial_alter _ u m) with (<[u:=c]> (delete u m)).
    { apply represents_insert; [by apply represents_delete| |done]. by rewrite lookup_delete_eq. }
    rewrite insert_delete_eq. done.
  - destruct Hok as (c0&Hu&->). by apply represents_delete.
Qed.

(** Whether two elements leave the same content hash behind. *)
Definition same_content (el el' : DeltaElement) : Prop :=
  ∃ c c', el_new el = Some c ∧ el_new el' = Some c' ∧ to_hash c = to_hash c'.

Lemma fresh_content_step m el c :
  fresh_content m c → (∀ c', el_new el = Some c' → to_hash c' ≠ to_hash c) →
  fresh_content (spec_el m el) c.
Proof.
  intros Hf Hne u c'. rewrite spec_el_lookup. case_decide; [apply Hne|apply Hf].
Qed.

(** An element stays applicable after another one at a different URI, unless the two
    introduce the same content. *)
Lemma el_ok_frame m el el' :
  el_uri el ≠ el_uri el' → ¬ same_content el el' → el_ok m el' → el_ok (spec_el m el) el'.
Proof.
  intros Hu Hs Hok.
  assert (∀ v, v = el_uri el' → spec_el m el !! v = m !! v) as Hlook.
  { intros v ->. rewrite spec_el_lookup. by case_decide. }
  destruct el' as [p|v|w]; simpl in *.
  - rewrite Hlook by done. destruct Hok. split; [done|].
    apply fresh_content_step; [done|]. intros c' Hc' Heq. apply Hs. by exists c', (pe_base64 p).
  - destruct Hok as [(c&Hc&?) Hf]. split; [exists c; by rewrite Hlook|].
    assert (delete (ue_uri v) (spec_el m el) = spec_el (delete (ue_uri v) m) el) as ->.
    { apply map_eq. intros x. rewrite spec_el_lookup, !lookup_delete, spec_el_lookup.
      repeat case_decide; simplify_eq/=; done. }
    apply fresh_content_step; [done|]. intros c' Hc' Heq. apply Hs. by exists c', (ue_base64 v).
  - destruct Hok as (c&Hc&?). exists c. by rewrite Hlook.
Qed.

(** Pairwise different URIs, and pairwise different new contents. *)
Definition independent (els : list DeltaElement) : Prop :=
  ∀ i j el el', els !! i = Some el → els !! j = Some el' → i ≠ j →
    el_uri el ≠ el_uri el' ∧ ¬ same_content el el'.

Lemma independent_cons el els :
  independent (el :: els) ↔
  (∀ el', el' ∈ els → el_uri el ≠ el_uri el' ∧ ¬ same_content el el') ∧ independent els.
Proof.
  split.
  - intros H. split.
    + intros el' [j Hj]%list_elem_of_lookup. by apply (H 0 (S j)).
    + intros i j e e' Hi Hj Hne. apply (H (S i) (S j)); [done..|congruence].
  - intros [H1 H2] [|i] [|j] e e' Hi Hj Hne; simplify_eq/=.
    + apply H1. by apply list_elem_of_lookup_2 in Hj.
    + apply list_elem_of_lookup_2 in Hi. destruct (H1 e Hi) as [? Hs].
      split; [done|]. intros (c&c'&?&?&?). apply Hs. by exists c', c.
    + eapply H2; [done..|congruence].
Qed.

Lemma independent_perm els els' : els ≡ₚ els' → independent els → independent els'.
Proof.
  intros Hp. induction Hp as [|x l l' Hp IH|x y l|l1 l2 l3 _ IH1 _ IH2]; [done| | |eauto].
  - rewrite !independent_cons. intros [H1 H2]. split; [|by apply IH].
    intros el' Hin. apply H1. by rewrite Hp.
  - rewrite !independent_cons. intros (H1&H2&H3).
    destruct (H1 x) as [? Hs]; [left|]. split; [|split; [|done]].
    + intros el' [->|Hin]%elem_of_cons; [|by apply H2].
      split; [done|]. intros (c&c'&?&?&?). apply Hs. by exists c', c.
    + intros el' Hin. apply H1. by right.
Qed.

Lemma el_ok_steps m el els :
  independent (el :: els) → Forall (el_ok m) els → Forall (el_ok (spec_el m el)) els.
Proof.
  rewrite independent_cons, !Forall_forall. intros [H _] Hok el' Hin.
  destruct (H el' Hin). apply el_ok_frame; auto.
Qed.

(** A sequence of independent applicable elements updates the view element by element. *)
Lemma represents_steps co m els :
  represents co m → independent els → Forall (el_ok m) els →
  represents (foldl apply_el co els) (foldl spec_el m els).
Proof.
  revert co m. induction els as [|el els IH]; simpl; intros co m Hrep Hind Hok; [done|].
  apply Forall_cons in Hok as Hok'. destruct Hok' as [Hel Hels].
  apply IH; [by apply represents_step|by apply independent_cons in Hind as []|].
  by apply el_ok_steps.
Qed.

Lemma spec_els_lookup_notin m els u :
  (∀ el, el ∈ els → el_uri el ≠ u) → foldl spec_el m els !! u = m !! u.
Proof.
  revert m. induction els as [|el els IH]; simpl; intros m H; [done|].
  rewrite IH by (intros; apply H; by right). rewrite spec_el_lookup.
  case_decide; [|done]. exfalso. by apply (H el); [left|].
Qed.

(** The view after the sequence: at the URI of an element its content, elsewhere as before. *)
Lemma spec_els_lookup m els el :
  independent els → el ∈ els → foldl spec_el m els !! el_uri el = el_new el.
Proof.
  revert m. induction els as [|x els IH]; simpl; intros m Hind Hin; [set_solver|].
  apply independent_cons in Hind as [Hx Hind]. apply elem_of_cons in Hin as [->|Hin]; [|by apply IH].
  rewrite spec_els_lookup_notin.
  - rewrite spec_el_lookup. by case_decide.
  - intros el' Hel' Heq. by destruct (Hx el' Hel') as [[] _].
Qed.

(** ** Deltas as sequences *)

Definition delta_ops (d : DeltaElements) : list DeltaElement :=
  (DPublish <$> publishes d) ++ (DUpdate <$> updates d) ++ (DWithdraw <$> withdraws d).

Lemma apply_delta_ops co d : apply_delta co d = foldl apply_el co (delta_ops d).
Proof.
  unfold apply_delta, delta_ops. rewrite !foldl_app.
  assert (∀ {A} (f : A → DeltaElement) (l : list A) (a : CurrentObjects),
    foldl apply_el a (f <$> l) = foldl (λ co x, apply_el co (f x)) a l) as Hf.
  { intros A f l. induction l as [|x l IH]; simpl; [done|]. intros a. apply IH. }
  by rewrite !Hf.
Qed.

(** The view after a delta. *)
Definition spec_delta m (d : DeltaElements) : gmap Rsync Base64 := foldl spec_el m (delta_ops d).

Lemma represents_delta co m d :
  represents co m → independent (delta_ops d) → Forall (el_ok m) (delta_ops d) →
  represents (apply_delta co d) (spec_delta m d).
Proof. rewrite apply_delta_ops. apply represents_steps. Qed.

Lemma content_unique_step m el : content_unique m → el_ok m el → content_unique (spec_el m el).
Proof.
  intros Hm Hok.
  assert (∀ u c c', el_new el = Some c → m !! u = Some c' → u ≠ el_uri el → to_hash c' ≠ to_hash c)
    as Hfr.
  { destruct el as [p|v|w]; simpl in *; intros u c c' [= <-] Hu Hne; destruct Hok as [_ Hf].
    - by eapply Hf.
    - eapply Hf. by rewrite lookup_delete_ne. }
  intros u1 u2 c1 c2. rewrite !spec_el_lookup. repeat case_decide; intros H1 H2 Heq; simplify_eq/=.
  - done.
  - exfalso. by eapply (Hfr u2).
  - exfalso. by eapply (Hfr u1).
  - by eapply Hm.
Qed.
End facts.
