(* ===== verification/Repository.v ===== *)
(** * The publication server's content ([src/src/pubd/repository.rs])

    [RepositoryContent] holds the current objects of every publisher and the RRDP server
    (session, serial, snapshot, deltas, staged elements).  Commands produce changes and
    changes are applied to the content; values the code draws from the environment
    ([Time::now], random file names, a new session id) are arguments. *)

From stdpp Require Import base gmap strings list pretty.
From S2P Require Import Prelude WalStore Rpki Rrdp RrdpFacts.

(** ** Configuration ([src/src/daemon/config.rs]) *)

Record RrdpUpdatesConfig := mkRrdpUpdatesConfig {
  rrdp_delta_files_min_nr : N;
  rrdp_delta_files_min_seconds : N;
  rrdp_delta_files_max_nr : N;
  rrdp_delta_files_max_seconds : N;
  rrdp_delta_interval_min_seconds : N;
  rrdp_files_archive : bool;
}.

(** The [dflt_*] functions of [RrdpUpdatesConfig]. *)
Definition dflt_rrdp_updates_config : RrdpUpdatesConfig :=
  mkRrdpUpdatesConfig 5 1200 50 7200 0 false.

Definition RRDP_FIRST_SERIAL : N := 1.

Section repository.
Context `{RP : !Rpki, HO : !HashOrder}.

(** ** RRDP server *)

Record RrdpServer := mkRrdpServer {
  rrdp_base_uri : string;
  rrdp_base_dir : string;
  rrdp_archive_dir : string;
  session : Uuid;
  serial : N;
  last_update : Instant;
  snapshot : SnapshotData;
  deltas : list DeltaData;
  staged_elements : gmap Rsync DeltaElement;
}.

Record RrdpSessionReset := mkRrdpSessionReset {
  reset_last_update : Instant;
  reset_session_id : Uuid;
  reset_snapshot : SnapshotData;
}.

Record RrdpUpdated := mkRrdpUpdated {
  upd_time : Instant;
  upd_random : string;
  upd_deltas_truncate : N;
}.

Inductive RrdpUpdateNeeded := UpdateYes | UpdateNo | UpdateLater (t : Instant).

Definition rrdp_create (base_uri repo_dir : string) (sess : Uuid) (now : Instant) (random : string)
    : RrdpServer :=
  mkRrdpServer base_uri (repo_dir +:+ "/rrdp") (repo_dir +:+ "/archive") sess RRDP_FIRST_SERIAL
    now (snapshot_create random) [] ∅.

Definition rrdp_reset_session (self : RrdpServer) (now : Instant) (new_session : Uuid) (random : string)
    : RrdpSessionReset :=
  mkRrdpSessionReset now new_session (with_new_random (snapshot self) random).

Definition apply_session_reset (self : RrdpServer) (reset : RrdpSessionReset) : RrdpServer :=
  mkRrdpServer (rrdp_base_uri self) (rrdp_base_dir self) (rrdp_archive_dir self)
    (reset_session_id reset) RRDP_FIRST_SERIAL (reset_last_update reset) (reset_snapshot reset)
    [] (staged_elements self).

(** *** Staging: one publish, update or withdraw of an accepted delta *)

Definition stage_publish (st : gmap Rsync DeltaElement) (pbl : PublishElement)
    : gmap Rsync DeltaElement :=
  let uri := pe_uri pbl in
  match st !! uri with
  | Some (DWithdraw staged_withdraw) =>
      <[uri := DUpdate (mkUpdateElement uri (we_hash staged_withdraw) (pe_base64 pbl))]> st
  | _ => <[uri := DPublish pbl]> st
  end.

Definition stage_update (st : gmap Rsync DeltaElement) (upd : UpdateElement)
    : gmap Rsync DeltaElement :=
  let uri := ue_uri upd in
  match st !! uri with
  | Some (DPublish _) => <[uri := DPublish (into_publish upd)]> st
  | Some (DUpdate staged_update) => <[uri := DUpdate (updates_staged upd staged_update)]> st
  | _ => <[uri := DUpdate upd]> st
  end.

Definition stage_withdraw (st : gmap Rsync DeltaElement) (wdr : WithdrawElement)
    : gmap Rsync DeltaElement :=
  <[we_uri wdr := DWithdraw wdr]> st.

Definition stage_delta (st : gmap Rsync DeltaElement) (d : DeltaElements) : gmap Rsync DeltaElement :=
  let st := foldl stage_publish st (publishes d) in
  let st := foldl stage_update st (updates d) in
  foldl stage_withdraw st (withdraws d).

Definition apply_rrdp_staged (self : RrdpServer) (d : DeltaElements) : RrdpServer :=
  mkRrdpServer (rrdp_base_uri self) (rrdp_base_dir self) (rrdp_archive_dir self) (session self)
    (serial self) (last_update self) (snapshot self) (deltas self)
    (stage_delta (staged_elements self) d).

(** *** Truncating deltas *)

(** The number of deltas to keep so that their total size stays within the snapshot's. *)
Fixpoint keep_by_size (snapshot_size total : N) (ds : list DeltaData) : nat :=
  match ds with
  | [] => 0
  | d :: ds =>
      let total := (total + delta_size (dd_elements d))%N in
      if bool_decide (snapshot_size < total)%N then 0 else S (keep_by_size snapshot_size total ds)
  end.

Definition deltas_truncate_size (snap : SnapshotData) (ds : list DeltaData) : list DeltaData :=
  take (keep_by_size (snapshot_size snap) 0 ds) ds.

(** The loop of [find_deltas_truncate_age], from the newest delta on. *)
Fixpoint find_deltas_truncate_age_from (keep : N) (now : Instant) (cfg : RrdpUpdatesConfig)
    (ds : list DeltaData) : N :=
  match ds with
  | [] => keep
  | d :: ds =>
      if bool_decide (keep < rrdp_delta_files_min_nr cfg)%N
         || younger_than_seconds d now (Z.of_N (rrdp_delta_files_min_seconds cfg))
      then find_deltas_truncate_age_from (keep + 1)%N now cfg ds
      else if bool_decide (keep = u64_pred (rrdp_delta_files_max_nr cfg))
              || older_than_seconds d now (Z.of_N (rrdp_delta_files_max_seconds cfg))
      then keep
      else find_deltas_truncate_age_from (keep + 1)%N now cfg ds
  end.

Definition find_deltas_truncate_age (self : RrdpServer) (now : Instant) (cfg : RrdpUpdatesConfig) : N :=
  find_deltas_truncate_age_from 0 now cfg (deltas self).

(** *** RRDP update *)

Definition push_staged (d : DeltaElements) (el : DeltaElement) : DeltaElements :=
  match el with
  | DPublish pbl => mkDeltaElements (publishes d ++ [pbl]) (updates d) (withdraws d)
  | DUpdate upd => mkDeltaElements (publishes d) (updates d ++ [upd]) (withdraws d)
  | DWithdraw wdr => mkDeltaElements (publishes d) (updates d) (withdraws d ++ [wdr])
  end.

Definition staged_delta (st : gmap Rsync DeltaElement) : DeltaElements :=
  foldl push_staged (mkDeltaElements [] [] []) (hm_values st).

Definition apply_rrdp_updated (self : RrdpServer) (update : RrdpUpdated) : RrdpServer :=
  let serial := u64_succ (serial self) in
  let delta := mkDeltaData (upd_random update) serial (upd_time update)
                 (staged_delta (staged_elements self)) in
  let snapshot := with_delta (snapshot self) (dd_random delta) (dd_elements delta) in
  let deltas := delta :: take (N.to_nat (upd_deltas_truncate update)) (deltas self) in
  let deltas := deltas_truncate_size snapshot deltas in
  mkRrdpServer (rrdp_base_uri self) (rrdp_base_dir self) (rrdp_archive_dir self) (session self)
    serial (upd_time update) snapshot deltas ∅.

Definition update_rrdp_needed (self : RrdpServer) (now : Instant) (cfg : RrdpUpdatesConfig)
    : RrdpUpdateNeeded :=
  if bool_decide (staged_elements self = ∅) then UpdateNo
  else
    let interval := seconds (Z.of_N (rrdp_delta_interval_min_seconds cfg)) in
    let next_update_time := (last_update self + interval)%Z in
    if bool_decide (next_update_time > now)%Z then UpdateLater next_update_time else UpdateYes.

Definition update_rrdp (self : RrdpServer) (now : Instant) (random : string) (cfg : RrdpUpdatesConfig)
    : RrdpUpdated :=
  mkRrdpUpdated now random (find_deltas_truncate_age self now cfg).

(** ** Repository content *)

Record RsyncdStore := mkRsyncdStore {
  rs_base_uri : Rsync;
  rs_rsync_dir : string;
}.

Record RepositoryContent := mkRepositoryContent {
  revision : N;
  publishers : gmap string CurrentObjects;
  rrdp : RrdpServer;
  rsync : RsyncdStore;
}.

Inductive RepositoryContentCommand :=
| ResetSession (handle : string)
| AddPublisher (handle publisher : string)
| RemovePublisher (handle publisher : string)
| Publish (handle publisher : string) (delta : DeltaElements)
| CreateRrdpDelta (handle : string) (cfg : RrdpUpdatesConfig).

Inductive RepositoryContentChange :=
| SessionReset (reset : RrdpSessionReset)
| PublisherAdded (publisher : string)
| PublisherRemoved (publisher : string)
| PublishedObjects (publisher : string) (current_objects : CurrentObjects)
| RrdpDeltaStaged (delta : DeltaElements)
| RrdpUpdatedChange (update : RrdpUpdated).

Inductive RepositoryError :=
| PublisherUnknown (publisher : string)
| DeltaError (e : PublicationDeltaError).

(** What a command reads from its environment. *)
Record Env := mkEnv { env_now : Instant; env_random : string; env_session : Uuid }.

Definition command_handle (cmd : RepositoryContentCommand) : string :=
  match cmd with
  | ResetSession handle | AddPublisher handle _ | RemovePublisher handle _
  | Publish handle _ _ | CreateRrdpDelta handle _ => handle
  end.

Definition command_summary (cmd : RepositoryContentCommand) : string :=
  match cmd with
  | ResetSession handle => "reset session for repository " +:+ handle
  | CreateRrdpDelta handle _ => "create next RRDP delta for repository " +:+ handle
  | AddPublisher handle publisher =>
      "add publisher '" +:+ publisher +:+ "' to repository " +:+ handle
  | RemovePublisher handle publisher =>
      "remove publisher '" +:+ publisher +:+ "' from repository " +:+ handle
  | Publish handle publisher _ =>
      "publish for publisher '" +:+ publisher +:+ "' under repository " +:+ handle
  end.

Definition content_init (base_uri : string) (rsync_jail : Rsync) (sess : Uuid) (repo_dir : string)
    (now : Instant) (random : string) : RepositoryContent :=
  mkRepositoryContent 0 ∅ (rrdp_create base_uri repo_dir sess now random)
    (mkRsyncdStore rsync_jail (repo_dir +:+ "/rsync")).

Definition with_rrdp (self : RepositoryContent) (r : RrdpServer) : RepositoryContent :=
  mkRepositoryContent (revision self) (publishers self) r (rsync self).
Definition with_publishers (self : RepositoryContent) (p : gmap string CurrentObjects)
    : RepositoryContent :=
  mkRepositoryContent (revision self) p (rrdp self) (rsync self).

Definition apply_change (self : RepositoryContent) (change : RepositoryContentChange)
    : RepositoryContent :=
  match change with
  | SessionReset reset => with_rrdp self (apply_session_reset (rrdp self) reset)
  | RrdpUpdatedChange update => with_rrdp self (apply_rrdp_updated (rrdp self) update)
  | RrdpDeltaStaged delta => with_rrdp self (apply_rrdp_staged (rrdp self) delta)
  | PublisherAdded publisher => with_publishers self (<[publisher := ∅]> (publishers self))
  | PublisherRemoved publisher => with_publishers self (delete publisher (publishers self))
  | PublishedObjects publisher current_objects =>
      with_publishers self (<[publisher := current_objects]> (publishers self))
  end.

(** [WalSupport::apply]: all changes of a set, then one revision further. *)
Definition content_apply (self : RepositoryContent) (changes : list RepositoryContentChange)
    : RepositoryContent :=
  let self := foldl apply_change self changes in
  mkRepositoryContent (u64_succ (revision self)) (publishers self) (rrdp self) (rsync self).

Definition objects_for_publisher (self : RepositoryContent) (publisher : string)
    : result RepositoryError CurrentObjects :=
  ok_or (publishers self !! publisher) (PublisherUnknown publisher).

Definition list_reply (self : RepositoryContent) (publisher : string)
    : result RepositoryError (list (Rsync * Hash)) :=
  to_list_reply <$> objects_for_publisher self publisher.

Definition reset_session (self : RepositoryContent) (env : Env)
    : result RepositoryError (list RepositoryContentChange) :=
  Ok [SessionReset (rrdp_reset_session (rrdp self) (env_now env) (env_session env) (env_random env))].

Definition add_publisher (self : RepositoryContent) (publisher : string)
    : result RepositoryError (list RepositoryContentChange) :=
  Ok [PublisherAdded publisher].

Definition remove_publisher (self : RepositoryContent) (publisher : string)
    : result RepositoryError (list RepositoryContentChange) :=
  let res :=
    match objects_for_publisher self publisher with
    | Ok objects => [RrdpDeltaStaged (mkDeltaElements [] [] (as_withdraw <$> elements objects))]
    | Err _ => []
    end in
  let res :=
    if bool_decide (is_Some (publishers self !! publisher)) then res ++ [PublisherRemoved publisher]
    else res in
  Ok res.

Definition publish (self : RepositoryContent) (publisher : string) (delta : DeltaElements)
    : result RepositoryError (list RepositoryContentChange) :=
  current_objects ← ok_or (publishers self !! publisher) (PublisherUnknown publisher);
  Ok [PublishedObjects publisher (apply_delta current_objects delta); RrdpDeltaStaged delta].

Definition create_rrdp_delta (self : RepositoryContent) (env : Env) (cfg : RrdpUpdatesConfig)
    : result RepositoryError (list RepositoryContentChange) :=
  match update_rrdp_needed (rrdp self) (env_now env) cfg with
  | UpdateYes => Ok [RrdpUpdatedChange (update_rrdp (rrdp self) (env_now env) (env_random env) cfg)]
  | _ => Ok []
  end.

Definition process_command (self : RepositoryContent) (env : Env) (cmd : RepositoryContentCommand)
    : result RepositoryError (list RepositoryContentChange) :=
  match cmd with
  | ResetSession _ => reset_session self env
  | CreateRrdpDelta _ cfg => create_rrdp_delta self env cfg
  | AddPublisher _ publisher => add_publisher self publisher
  | RemovePublisher _ publisher => remove_publisher self publisher
  | Publish _ publisher delta => publish self publisher delta
  end.

(** [RepositoryContentProxy::publish] up to the command it sends: the delta is verified
    against the publisher's current objects and its jail. *)
Definition proxy_publish (self : RepositoryContent) (handle publisher : string)
    (query : list PublishDeltaElement) (jail : Rsync)
    : result RepositoryError RepositoryContentCommand :=
  current_objects ← objects_for_publisher self publisher;
  let delta := delta_elements_from query in
  _ ← map_err DeltaError (verify_delta current_objects delta jail);
  Ok (Publish handle publisher delta).

(** The content as a type that the write-ahead log store manages. *)
#[export] Instance repository_wal :
  WalSupport RepositoryContent RepositoryContentCommand RepositoryContentChange RepositoryError Env := {|
  wal_revision := revision;
  wal_apply self set := content_apply self (ws_changes set);
  wal_process_command := process_command;
  wal_handle := command_handle;
  wal_summary := command_summary;
|}.

Lemma apply_changes_revision self cs : revision (foldl apply_change self cs) = revision self.
Proof.
  revert self. induction cs as [|c cs IH]; intros self; simpl; [done|]. rewrite IH. by destruct c.
Qed.

#[export] Instance repository_wal_laws : WalLaws (W := repository_wal).
Proof. intros t set. simpl. by rewrite apply_changes_revision. Qed.
End repository.
