(* ===== verification/RepositoryFacts.v ===== *)
(** * Correctness of the publication server's content

    Staging merges accepted deltas per URI until the next RRDP update.  The invariant
    [staged_inv] says that the staged elements turn the view of the snapshot into the view
    of what publishers have published; it is kept by every admissible operation, and gives
    that an RRDP update publishes exactly the publishers' objects. *)

From stdpp Require Import base gmap strings list relations.
From S2P Require Import Prelude Rpki Rrdp RrdpFacts Repository.

Section staging.
Context `{RP : !Rpki, HO : !HashOrder}.
Implicit Types (st : gmap Rsync DeltaElement) (mS mP : gmap Rsync Base64).

(** Staged elements [st] turn the snapshot view [mS] into the published view [mP]. *)
Definition staged_inv mS st mP : Prop :=
  (∀ u el, st !! u = Some el → el_uri el = u ∧ el_ok mS el ∧ mP !! u = el_new el) ∧
  (∀ u, st !! u = None → mP !! u = mS !! u).

Definition stage_el st (el : DeltaElement) : gmap Rsync DeltaElement :=
  match el with
  | DPublish p => stage_publish st p
  | DUpdate u => stage_update st u
  | DWithdraw w => stage_withdraw st w
  end.

(** A publish or update is staged: its object is not in the snapshot yet. *)
Definition staged_change (o : option DeltaElement) : Prop :=
  match o with Some (DPublish _) | Some (DUpdate _) => True | _ => False end.

(** When staging an element keeps the invariant: new content is not in the snapshot at
    another URI, and a withdraw does not hit an object that is only staged. *)
Definition stage_ok mS st (el : DeltaElement) : Prop :=
  match el with
  | DPublish p => fresh_content (delete (pe_uri p) mS) (pe_base64 p)
  | DUpdate u => fresh_content (delete (ue_uri u) mS) (ue_base64 u)
  | DWithdraw w => ¬ staged_change (st !! we_uri w)
  end.

Lemma stage_el_new mS st mP el :
  staged_inv mS st mP → el_ok mP el → stage_ok mS st el →
  ∃ new, stage_el st el = <[el_uri el := new]> st ∧
    el_uri new = el_uri el ∧ el_ok mS new ∧ el_new new = el_new el.
Proof.
  intros [Hs Hn] Hok Hst. destruct el as [[c u]|[u h c]|[u h]]; simpl in *.
  - destruct Hok as [HmP _]. unfold stage_publish; simpl.
    destruct (st !! u) as [el|] eqn:Hu.
    + destruct (Hs _ _ Hu) as (Heq&Hel&Hnew). rewrite HmP in Hnew.
      destruct el as [p|v|w]; simplify_eq/=. by eexists.
    + eexists. split; [done|]. specialize (Hn _ Hu) as HmS.
      rewrite delete_id in Hst by congruence. simpl. repeat split; [congruence|done].
  - destruct Hok as [(c0&HmP&->) _]. unfold stage_update; simpl.
    destruct (st !! u) as [el|] eqn:Hu.
    + destruct (Hs _ _ Hu) as (Heq&Hel&Hnew). rewrite HmP in Hnew.
      destruct el as [p|v|w]; simplify_eq/=.
      * eexists. split; [done|]. destruct Hel as [Hnone _].
        rewrite delete_id in Hst by done. by repeat split.
      * eexists. split; [done|]. by destruct Hel as [? _].
    + eexists. split; [done|]. specialize (Hn _ Hu) as HmS. simpl.
      repeat split; [exists c0; by rewrite <-HmS|done].
  - destruct Hok as (c0&HmP&->). eexists. split; [done|]. simpl. split; [done|].
    destruct (st !! u) as [el|] eqn:Hu.
    + destruct (Hs _ _ Hu) as (Heq&Hel&Hnew). rewrite HmP in Hnew.
      destruct el as [p|v|w]; simplify_eq/=; by destruct Hst.
    + specialize (Hn _ Hu) as HmS. split; [exists c0; by rewrite <-HmS|done].
Qed.

Lemma stage_el_inv mS st mP el :
  staged_inv mS st mP → el_ok mP el → stage_ok mS st el →
  staged_inv mS (stage_el st el) (spec_el mP el).
Proof.
  intros Hinv Hok Hst. destruct (stage_el_new _ _ _ _ Hinv Hok Hst) as (new&->&Hu&Hnok&Hnew).
  destruct Hinv as [Hs Hn]. split.
  - intros v el'. rewrite lookup_insert, spec_el_lookup. case_decide; simplify_eq/=; [|by apply Hs].
    intros [= <-]. by rewrite Hnew.
  - intros v. rewrite lookup_insert, spec_el_lookup. case_decide; [done|]. apply Hn.
Qed.

Lemma stage_el_other st el u : u ≠ el_uri el → stage_el st el !! u = st !! u.
Proof.
  intros Hne.
  destruct el as [p|v|w]; simpl in *; unfold stage_publish, stage_update, stage_withdraw;
    repeat case_match; by rewrite lookup_insert_ne.
Qed.

Lemma stage_ok_frame mS st el el' :
  el_uri el ≠ el_uri el' → stage_ok mS st el' → stage_ok mS (stage_el st el) el'.
Proof.
  intros Hne. destruct el' as [p|v|w]; simpl in *; [done..|]. by rewrite stage_el_other.
Qed.

Lemma stage_els_inv mS st mP els :
  staged_inv mS st mP → independent els → Forall (el_ok mP) els → Forall (stage_ok mS st) els →
  staged_inv mS (foldl stage_el st els) (foldl spec_el mP els).
Proof.
  revert st mP. induction els as [|el els IH]; simpl; intros st mP Hinv Hind Hok Hst; [done|].
  apply Forall_cons in Hok as Hok'. destruct Hok' as [Hel Hels].
  apply Forall_cons in Hst as [Hsel Hsels].
  apply IH; [by apply stage_el_inv|by apply independent_cons in Hind as []|by apply el_ok_steps|].
  apply independent_cons in Hind as [Hind _].
  apply Forall_forall. intros el' Hin. apply stage_ok_frame; [by apply Hind|].
  by eapply Forall_forall in Hsels.
Qed.

Lemma stage_delta_ops st d : stage_delta st d = foldl stage_el st (delta_ops d).
Proof.
  unfold stage_delta, delta_ops. rewrite !foldl_app.
  assert (∀ {A} (f : A → DeltaElement) (l : list A) (a : gmap Rsync DeltaElement),
    foldl stage_el a (f <$> l) = foldl (λ st x, stage_el st (f x)) a l) as Hf.
  { intros A f l. induction l as [|x l IH]; simpl; [done|]. intros a. apply IH. }
  by rewrite !Hf.
Qed.

(** ** The delta made from the staged elements *)

Lemma push_staged_perm d els : delta_ops (foldl push_staged d els) ≡ₚ delta_ops d ++ els.
Proof.
  revert d. induction els as [|el els IH]; intros d; simpl; [by rewrite app_nil_r|].
  rewrite IH. unfold delta_ops. destruct el as [p|u|w]; simpl; rewrite !fmap_app; simpl;
    rewrite <-!(assoc_L (++)); simpl; solve_Permutation.
Qed.

Lemma staged_delta_perm st : delta_ops (staged_delta st) ≡ₚ hm_values st.
Proof. apply push_staged_perm. Qed.

Lemma staged_independent mS st mP :
  staged_inv mS st mP → content_unique mP → independent (delta_ops (staged_delta st)).
Proof.
  intros [Hs _] Hcu. eapply independent_perm; [symmetry; apply staged_delta_perm|].
  intros i j el el' Hi Hj Hne. unfold hm_values in *.
  apply list_lookup_fmap_Some in Hi as ([u e]&->&Hi), Hj as ([u' e']&->&Hj).
  assert (st !! u = Some e ∧ st !! u' = Some e') as [Hu Hu'].
  { split; apply elem_of_hm_iter; by eapply list_elem_of_lookup_2. }
  assert (u ≠ u') as Huu.
  { intros ->. apply Hne. eapply (NoDup_lookup (hm_keys st)); [apply NoDup_hm_keys|..];
      unfold hm_keys; by rewrite list_lookup_fmap, ?Hi, ?Hj. }
  destruct (Hs _ _ Hu) as (?&_&HP), (Hs _ _ Hu') as (?&_&HP'); simplify_eq/=. split; [done|].
  intros (c&c'&Hc&Hc'&?). apply Huu. eapply Hcu; [..|done]; congruence.
Qed.

Lemma staged_inv_applicable mS st mP :
  staged_inv mS st mP → Forall (el_ok mS) (delta_ops (staged_delta st)).
Proof.
  intros [Hs _]. apply Forall_forall. intros el. rewrite staged_delta_perm, elem_of_hm_values.
  intros [u Hu]. by destruct (Hs _ _ Hu) as (?&?&?).
Qed.

(** The staged delta takes the view of the snapshot to the published view. *)
Lemma staged_delta_spec mS st mP :
  staged_inv mS st mP → content_unique mP → spec_delta mS (staged_delta st) = mP.
Proof.
  intros Hinv Hcu. pose proof (staged_independent _ _ _ Hinv Hcu) as Hind.
  apply map_eq. intros u. destruct Hinv as [Hs Hn]. destruct (st !! u) as [el|] eqn:Hu.
  - destruct (Hs _ _ Hu) as (<-&_&->). apply spec_els_lookup; [done|].
    rewrite staged_delta_perm, elem_of_hm_values. eauto.
  - rewrite (Hn _ Hu). apply spec_els_lookup_notin. intros el.
    rewrite staged_delta_perm, elem_of_hm_values. intros [v Hv] <-.
    destruct (Hs _ _ Hv) as (Hv'&_&_). congruence.
Qed.

(** Applying the staged delta to the snapshot gives the published objects. *)
Lemma staged_delta_represents mS st mP co :
  represents co mS → staged_inv mS st mP → content_unique mP →
  represents (apply_delta co (staged_delta st)) mP.
Proof.
  intros Hrep Hinv Hcu. rewrite <-(staged_delta_spec _ _ _ Hinv Hcu).
  apply represents_delta; [done|by eapply staged_independent|by eapply staged_inv_applicable].
Qed.

Lemma staged_inv_empty mS : staged_inv mS ∅ mS.
Proof. split; intros u; rewrite lookup_empty; naive_solver. Qed.

(** ** A verified delta is applicable to the publisher's own objects *)

Lemma has_match_represents co m h u :
  represents co m → has_match co h u = true → ∃ c, m !! u = Some c ∧ h = to_hash c.
Proof.
  unfold has_match. intros Hrep. case_match eqn:Hh; [|done]. intros <-%bool_decide_eq_true.
  apply Hrep in Hh as [-> ?]. eauto.
Qed.

(** What [verify_delta] has checked of one element. *)
Definition verified co (jail : Rsync) (el : DeltaElement) : Prop :=
  is_parent_of jail (el_uri el) = true ∧
  match el with
  | DPublish p => co !! to_hash (pe_base64 p) = None
  | DUpdate u => has_match co (ue_hash u) (ue_uri u) = true
  | DWithdraw w => has_match co (we_hash w) (we_uri w) = true
  end.

Lemma verify_delta_Ok (co : CurrentObjects) d jail :
  verify_delta co d jail = Ok tt ↔ Forall (verified co jail) (delta_ops d).
Proof.
  assert (verify_delta co d jail = Ok tt ↔
    for_each (verify_publish co jail) (publishes d) = Ok tt ∧
    for_each (verify_update co jail) (updates d) = Ok tt ∧
    for_each (verify_withdraw co jail) (withdraws d) = Ok tt) as ->.
  { unfold verify_delta.
    destruct (for_each (verify_publish _ _) _) as [[]|]; simpl; [|naive_solver].
    destruct (for_each (verify_update _ _) _) as [[]|]; simpl; naive_solver. }
  unfold delta_ops. rewrite !for_each_Ok, !Forall_app, !Forall_fmap.
  f_equiv; [|f_equiv]; apply Forall_iff; intros x; unfold compose, verified; simpl;
    unfold verify_publish, verify_update, verify_withdraw;
    (destruct (is_parent_of _ _); simpl; [|split; [done|by intros []]]).
  - destruct (co !! _); split; try done; by intros [].
  - destruct (has_match _ _ _); split; try done; by intros [].
  - destruct (has_match _ _ _); split; try done; by intros [].
Qed.
End staging.

(** ** Truncating deltas *)

Section truncation.
Context `{RP : !Rpki, HO : !HashOrder}.
Implicit Types (ds : list DeltaData) (cfg : RrdpUpdatesConfig).

Definition total_size ds : N := foldr (λ d n, delta_size (dd_elements d) + n)%N 0%N ds.

Lemma total_size_mono i j ds : i ≤ j → (total_size (take i ds) ≤ total_size (take j ds))%N.
Proof.
  revert i j. induction ds as [|d ds IH]; intros [|i] [|j] Hle; simpl; try lia.
  specialize (IH i j). lia.
Qed.

Lemma keep_by_size_bound (size total : N) ds :
  (total ≤ size)%N → (total + total_size (take (keep_by_size size total ds) ds) ≤ size)%N.
Proof.
  revert total. induction ds as [|d ds IH]; simpl; intros total Hle; [lia|].
  case_bool_decide; simpl; [lia|]. rewrite N.add_assoc. apply IH. lia.
Qed.

Lemma keep_by_size_maximal (size total : N) ds :
  keep_by_size size total ds < length ds →
  (size < total + total_size (take (S (keep_by_size size total ds)) ds))%N.
Proof.
  revert total. induction ds as [|d ds IH]; simpl; intros total Hlt; [lia|].
  case_bool_decide; simpl in *; [lia|]. rewrite N.add_assoc. apply IH. lia.
Qed.

(** The position at which deltas are cut off by age and number. *)
Definition age_stop cfg (now : Instant) (i : N) (d : DeltaData) : Prop :=
  (rrdp_delta_files_min_nr cfg ≤ i)%N ∧
  younger_than_seconds d now (Z.of_N (rrdp_delta_files_min_seconds cfg)) = false ∧
  (i = u64_pred (rrdp_delta_files_max_nr cfg) ∨
   older_than_seconds d now (Z.of_N (rrdp_delta_files_max_seconds cfg)) = true).

Lemma truncate_age_from_spec cfg now ds k0 :
  let k := find_deltas_truncate_age_from k0 now cfg ds in
  (k0 ≤ k ≤ k0 + N.of_nat (length ds))%N ∧
  (∀ i d, (k0 + N.of_nat i < k)%N → ds !! i = Some d → ¬ age_stop cfg now (k0 + N.of_nat i) d) ∧
  (∀ d, ds !! N.to_nat (k - k0) = Some d → age_stop cfg now k d).
Proof.
  revert k0. induction ds as [|d ds IH]; intros k0; simpl.
  { split; [lia|]. split; [by intros i|by intros]. }
  assert (∀ (P : Prop), ¬ age_stop cfg now k0 d →
    let k := find_deltas_truncate_age_from (k0 + 1) now cfg ds in
    (k0 ≤ k ≤ k0 + N.of_nat (S (length ds)))%N ∧
    (∀ i d', (k0 + N.of_nat i < k)%N → (d :: ds) !! i = Some d' → ¬ age_stop cfg now (k0 + N.of_nat i) d') ∧
    (∀ d', (d :: ds) !! N.to_nat (k - k0) = Some d' → age_stop cfg now k d')) as Hgo.
  { intros _ Hns. destruct (IH (k0 + 1)%N) as (H1&H2&H3). split; [lia|]. split.
    - intros [|i] d' Hi Hl; simpl in Hl; [simplify_eq; by rewrite N.add_0_r|].
      replace (k0 + N.of_nat (S i))%N with (k0 + 1 + N.of_nat i)%N by lia. apply H2; [lia|done].
    - intros d'. set (k := find_deltas_truncate_age_from _ _ _ _) in *.
      replace (N.to_nat (k - k0)) with (S (N.to_nat (k - (k0 + 1)))) by lia. apply H3. }
  case_bool_decide as Hmin; simpl; [apply (Hgo True); unfold age_stop; lia|].
  destruct (younger_than_seconds d now _) eqn:Hy; [apply (Hgo True); unfold age_stop; intuition congruence|].
  case_bool_decide as Hmax; simpl.
  { split; [lia|]. split; [lia|]. rewrite N.sub_diag. intros d' [= <-].
    split; [lia|]. split; [done|]. by left. }
  destruct (older_than_seconds d now _) eqn:Ho; [|apply (Hgo True); unfold age_stop; intuition congruence].
  split; [lia|]. split; [lia|]. rewrite N.sub_diag. intros d' [= <-]. split; [lia|]. split; [done|]. by right.
Qed.
End truncation.
