(* ===== verification/RepositoryInv.v ===== *)
(** * The publication server as a state machine

    Steps of the content (publishers added and removed, verified deltas published, RRDP
    updates, session resets), and the invariant that ties the objects of the publishers,
    the staged elements and the RRDP snapshot together. *)

From stdpp Require Import base gmap strings list relations.
From S2P Require Import Prelude WalStore WalFacts Rpki Rrdp RrdpFacts Repository RepositoryFacts.

Section repo_inv.
Context `{RP : !Rpki, HO : !HashOrder}.
(** The base URI of each publisher, and the handles that publishers can have. *)
Context (jail : string → Rsync) (valid_handle : string → Prop).
Implicit Types (c : RepositoryContent) (m mS mP : gmap Rsync Base64) (co : CurrentObjects).

(** What a command sent to the content leaves behind. *)
Definition exec c (env : Env) (cmd : RepositoryContentCommand) : RepositoryContent :=
  (spec_send c env cmd).1.

(** The objects a publisher, or the snapshot, has. *)
Definition holds co (u : Rsync) (x : Base64) : Prop := ∃ h, co !! h = Some (mkPublishElement x u).

Definition published c (u : Rsync) (x : Base64) : Prop :=
  ∃ p co, publishers c !! p = Some co ∧ holds co u x.

Abbreviation snap c := (sd_current_objects (snapshot (rrdp c))).

(** The condition on a delta under which the content stays exact: operations on distinct
    URIs with distinct new contents, no publish to a URI in use, no new content that is in
    use at another URI (by any publisher, or still in the snapshot), and no withdraw of an
    object of which an earlier change is still staged. *)
Record admissible c (p : string) (d : DeltaElements) : Prop := {
  adm_indep : independent (delta_ops d);
  adm_free : ∀ pe x, pe ∈ publishes d → ¬ ∃ co, publishers c !! p = Some co ∧ holds co (pe_uri pe) x;
  adm_fresh : ∀ el x u y, el ∈ delta_ops d → el_new el = Some x → published c u y ∨ holds (snap c) u y →
    to_hash y = to_hash x → u = el_uri el;
  adm_unstaged : ∀ w, w ∈ withdraws d → ¬ staged_change (staged_elements (rrdp c) !! we_uri w);
}.

(** None of the changes of a publisher's objects is still staged.  The code does not check this:
    [RemovePublisher] is executed in any state.  A publisher that is removed while a change of one
    of its objects is staged leaves the old object in the snapshot, so that the theorems on exact
    snapshots and on clients ask for it of the removals in a run. *)
Definition removable c (p : string) : Prop :=
  ∀ co u x, publishers c !! p = Some co → holds co u x →
    ¬ staged_change (staged_elements (rrdp c) !! u).

(** The steps; [strict] asks for the conditions above, [resets] allows session resets. *)
Inductive repo_step (strict resets : bool) : RepositoryContent → RepositoryContent → Prop :=
| rs_add c env hdl p :
    valid_handle p → publishers c !! p = None → repo_step strict resets c (exec c env (AddPublisher hdl p))
| rs_remove c env hdl p :
    (strict = true → removable c p) → repo_step strict resets c (exec c env (RemovePublisher hdl p))
| rs_publish c env hdl p query cmd :
    proxy_publish c hdl p query (jail p) = Ok cmd →
    (strict = true → admissible c p (delta_elements_from query)) →
    repo_step strict resets c (exec c env cmd)
| rs_rrdp c env hdl cfg :
    (serial (rrdp c) < u64_max)%N →
    repo_step strict resets c (exec c env (CreateRrdpDelta hdl cfg))
| rs_reset c env hdl :
    resets = true → repo_step strict resets c (exec c env (ResetSession hdl)).

Definition initial c : Prop :=
  ∃ base_uri rsync_jail sess repo_dir now random,
    c = content_init base_uri rsync_jail sess repo_dir now random.

Definition reachable (strict resets : bool) c : Prop :=
  ∃ c0, initial c0 ∧ rtc (repo_step strict resets) c0 c.

(** ** What each command does *)

Lemma exec_changes c env cmd cs :
  process_command c env cmd = Ok cs → cs ≠ [] → exec c env cmd = content_apply c cs.
Proof. intros Hp Hne. unfold exec, spec_send. simpl. rewrite Hp. by destruct cs. Qed.

Lemma exec_none c env cmd : process_command c env cmd = Ok [] → exec c env cmd = c.
Proof. intros Hp. unfold exec, spec_send. simpl. by rewrite Hp. Qed.

Lemma proxy_publish_Ok c hdl p query j cmd :
  proxy_publish c hdl p query j = Ok cmd →
  ∃ co, publishers c !! p = Some co ∧ cmd = Publish hdl p (delta_elements_from query) ∧
    Forall (verified co j) (delta_ops (delta_elements_from query)).
Proof.
  unfold proxy_publish, objects_for_publisher. destruct (publishers c !! p) as [co|]; simpl; [|done].
  destruct (verify_delta _ _ _) as [[]|e] eqn:Hv; simpl; [|done]. intros [= <-].
  exists co. split; [done|]. split; [done|]. by apply verify_delta_Ok.
Qed.

Lemma exec_publish c env hdl p d co :
  publishers c !! p = Some co →
  exec c env (Publish hdl p d) =
  content_apply c [PublishedObjects p (apply_delta co d); RrdpDeltaStaged d].
Proof. intros Hp. apply exec_changes; [|done]. simpl. unfold publish. by rewrite Hp. Qed.

Lemma exec_rrdp c env hdl cfg :
  exec c env (CreateRrdpDelta hdl cfg) = c ∨
  staged_elements (rrdp c) ≠ ∅ ∧
  exec c env (CreateRrdpDelta hdl cfg) =
  content_apply c [RrdpUpdatedChange (update_rrdp (rrdp c) (env_now env) (env_random env) cfg)].
Proof.
  destruct (update_rrdp_needed (rrdp c) (env_now env) cfg) eqn:Hn.
  - right. split.
    + unfold update_rrdp_needed in Hn. by case_bool_decide.
    + apply exec_changes; [|done]. simpl. unfold create_rrdp_delta. by rewrite Hn.
  - left. apply exec_none. simpl. unfold create_rrdp_delta. by rewrite Hn.
  - left. apply exec_none. simpl. unfold create_rrdp_delta. by rewrite Hn.
Qed.

Lemma exec_remove c env hdl p :
  exec c env (RemovePublisher hdl p) =
  match publishers c !! p with
  | None => c
  | Some co => content_apply c
      [RrdpDeltaStaged (mkDeltaElements [] [] (as_withdraw <$> elements co)); PublisherRemoved p]
  end.
Proof.
  destruct (publishers c !! p) as [co|] eqn:Hp.
  - apply exec_changes; [|done]. simpl. unfold remove_publisher, objects_for_publisher.
    by rewrite Hp.
  - apply exec_none. simpl. unfold remove_publisher, objects_for_publisher. by rewrite Hp.
Qed.

(** ** Jail: holds without any condition on deltas *)

(** Every publisher's objects are in its jail, and filed under the hash of their content. *)
Definition jailed c : Prop :=
  ∀ p co h e, publishers c !! p = Some co → co !! h = Some e →
    is_parent_of (jail p) (pe_uri e) = true ∧ h = to_hash (pe_base64 e).

Lemma jailed_apply_el (P : Hash → PublishElement → Prop) co el :
  (∀ h e, co !! h = Some e → P h e) →
  (∀ x, el_new el = Some x → P (to_hash x) (mkPublishElement x (el_uri el))) →
  ∀ h e, apply_el co el !! h = Some e → P h e.
Proof.
  intros Hco Hel h e. destruct el as [[x u]|[u h0 x]|[u h0]]; simpl in *.
  - unfold apply_publish; simpl. rewrite lookup_insert. case_decide; [|auto].
    subst. intros [= <-]. by apply Hel.
  - unfold apply_update; simpl. rewrite lookup_insert. case_decide; [subst; intros [= <-]; by apply Hel|].
    rewrite lookup_delete. case_decide; [done|auto].
  - unfold apply_withdraw; simpl. rewrite lookup_delete. case_decide; [done|auto].
Qed.

Lemma jailed_apply_delta j co d :
  (∀ h e, co !! h = Some e → is_parent_of j (pe_uri e) = true ∧ h = to_hash (pe_base64 e)) →
  Forall (λ el, is_parent_of j (el_uri el) = true) (delta_ops d) →
  ∀ h e, apply_delta co d !! h = Some e →
    is_parent_of j (pe_uri e) = true ∧ h = to_hash (pe_base64 e).
Proof.
  rewrite apply_delta_ops. intros Hco Hall. revert co Hco.
  induction Hall as [|el els Hel Hels IH]; simpl; intros co Hco; [done|].
  apply IH. intros h e. revert h e. apply jailed_apply_el; [done|]. naive_solver.
Qed.

Lemma jailed_step strict resets c c' : repo_step strict resets c c' → jailed c → jailed c'.
Proof.
  intros Hstep Hj. destruct Hstep as [c env hdl p Hh Hp|c env hdl p _|c env hdl p query cmd Hv _|c env hdl cfg _|c env hdl _].
  - intros q co h e. unfold exec; simpl. rewrite lookup_insert. case_decide; [|apply Hj].
    intros [= <-]. by rewrite lookup_empty.
  - rewrite exec_remove. destruct (publishers c !! p) as [co|]; [|done].
    intros q co' h e. simpl. rewrite lookup_delete. case_decide; [done|]. apply Hj.
  - apply proxy_publish_Ok in Hv as (co&Hp&->&Hv). rewrite (exec_publish _ _ _ _ _ _ Hp).
    intros q co' h e. simpl. rewrite lookup_insert. case_decide; [|apply Hj].
    subst. intros [= <-]. apply jailed_apply_delta; [intros; by eapply Hj|].
    eapply Forall_impl; [done|]. by intros el [? _].
  - destruct (exec_rrdp c env hdl cfg) as [->|[_ ->]]; [done|]. intros q co h e. simpl. apply Hj.
  - intros q co h e. unfold exec; simpl. apply Hj.
Qed.

Lemma jailed_reachable strict resets c : reachable strict resets c → jailed c.
Proof.
  intros (c0&(?&?&?&?&?&?&->)&Hrtc).
  assert (∀ c c', rtc (repo_step strict resets) c c' → jailed c → jailed c') as H.
  { induction 1; eauto using jailed_step. }
  apply (H _ _ Hrtc). intros p co h e. simpl. by rewrite lookup_empty.
Qed.

(** ** Exactness: the invariant *)

Abbreviation Views := (gmap string (gmap Rsync Base64)).

Definition union_of (vs : Views) mP : Prop :=
  ∀ u x, mP !! u = Some x ↔ ∃ p v, vs !! p = Some v ∧ v !! u = Some x.

(** [vs] are the views of the publishers, [mS] that of the snapshot, [mP] their union. *)
Record repo_inv c (vs : Views) mS mP : Prop := {
  ri_views : ∀ p, option_relation represents (λ _, False) (λ _, False) (publishers c !! p) (vs !! p);
  ri_handle : ∀ p v, vs !! p = Some v → valid_handle p;
  ri_jailed : ∀ p v u x, vs !! p = Some v → v !! u = Some x → is_parent_of (jail p) u = true;
  ri_union : union_of vs mP;
  ri_unique : content_unique mP;
  ri_snapshot : represents (snap c) mS;
  ri_staged : staged_inv mS (staged_elements (rrdp c)) mP;
}.

Lemma represents_holds co m u x : represents co m → holds co u x ↔ m !! u = Some x.
Proof.
  intros Hrep. split.
  - intros [h Hh]. by apply Hrep in Hh as [_ ?].
  - intros Hu. exists (to_hash x). by apply represents_lookup with m.
Qed.

Lemma ri_publisher c vs mS mP p co :
  repo_inv c vs mS mP → publishers c !! p = Some co → ∃ v, vs !! p = Some v ∧ represents co v.
Proof.
  intros Hinv Hp. pose proof (ri_views _ _ _ _ Hinv p) as H. rewrite Hp in H.
  destruct (vs !! p); [|done]. eauto.
Qed.

Lemma ri_view c vs mS mP p v :
  repo_inv c vs mS mP → vs !! p = Some v → ∃ co, publishers c !! p = Some co ∧ represents co v.
Proof.
  intros Hinv Hp. pose proof (ri_views _ _ _ _ Hinv p) as H. rewrite Hp in H.
  destruct (publishers c !! p); [|done]. eauto.
Qed.

Lemma ri_published c vs mS mP u x : repo_inv c vs mS mP → published c u x ↔ mP !! u = Some x.
Proof.
  intros Hinv. rewrite (ri_union _ _ _ _ Hinv u x). split.
  - intros (p&co&Hp&Hh). destruct (ri_publisher _ _ _ _ _ _ Hinv Hp) as (v&Hv&Hrep).
    exists p, v. split; [done|]. by eapply represents_holds.
  - intros (p&v&Hv&Hu). destruct (ri_view _ _ _ _ _ _ Hinv Hv) as (co&Hp&Hrep).
    exists p, co. split; [done|]. by eapply represents_holds.
Qed.

Lemma content_init_inv c : initial c → repo_inv c ∅ ∅ ∅.
Proof.
  intros (?&?&?&?&?&?&->). split; simpl.
  - intros p. by rewrite !lookup_empty.
  - intros p v. by rewrite lookup_empty.
  - intros p v u y. by rewrite lookup_empty.
  - intros u y. rewrite lookup_empty. split; [done|]. intros (p&v&Hv&_). by rewrite lookup_empty in Hv.
  - intros u1 u2 c1 c2. by rewrite lookup_empty.
  - apply represents_empty.
  - apply staged_inv_empty.
Qed.

(** Jails of different publishers have no URI in common. *)
Hypothesis jails_disjoint :
  ∀ p q u, valid_handle p → valid_handle q →
    is_parent_of (jail p) u = true → is_parent_of (jail q) u = true → p = q.

(** The elements of a verified, admissible delta can be applied to the publisher's view, to
    the union of all views, and can be staged. *)
Lemma admissible_el_ok c vs mS mP p co v d el :
  repo_inv c vs mS mP → admissible c p d → publishers c !! p = Some co →
  vs !! p = Some v → represents co v → verified co (jail p) el → el ∈ delta_ops d →
  el_ok v el ∧ el_ok mP el ∧ stage_ok mS (staged_elements (rrdp c)) el.
Proof.
  intros Hinv [_ Hfree Hfresh Hunst] Hp Hv Hrep [Hj Hver] Hin.
  assert (∀ u x, v !! u = Some x → mP !! u = Some x) as HvP.
  { intros u x Hu. apply (ri_union _ _ _ _ Hinv). eauto. }
  assert (∀ x u y, el_new el = Some x → mP !! u = Some y → to_hash y = to_hash x → u = el_uri el) as HfP.
  { intros x u y Hx Hu Heq. eapply Hfresh; [done..| |done]. left. by eapply ri_published. }
  assert (∀ x u y, el_new el = Some x → mS !! u = Some y → to_hash y = to_hash x → u = el_uri el) as HfS.
  { intros x u y Hx Hu Heq. eapply Hfresh; [done..| |done]. right.
    apply (represents_holds _ mS); [apply Hinv|done]. }
  assert (∀ m x, el_new el = Some x → (∀ u y, m !! u = Some y → to_hash y = to_hash x → u = el_uri el) →
    fresh_content (delete (el_uri el) m) x) as Hdel.
  { intros m x Hx H u y. rewrite lookup_delete. case_decide; [done|]. intros Hu Heq.
    by destruct (H u y Hu Heq). }
  destruct el as [pe|ue|we]; simpl in *.
  - assert (mP !! pe_uri pe = None) as HnP.
    { apply eq_None_not_Some. intros [x Hx]. apply (ri_union _ _ _ _ Hinv) in Hx as (q&vq&Hq&Hx).
      assert (q = p) as -> by (eapply jails_disjoint; [by eapply (ri_handle _ _ _ _ Hinv)..|by eapply ri_jailed|done]).
      apply (Hfree pe x). { unfold delta_ops in Hin. set_solver. }
      exists co. split; [done|]. rewrite Hv in Hq. simplify_eq. by eapply represents_holds. }
    assert (v !! pe_uri pe = None) as Hnv.
    { apply eq_None_not_Some. intros [x Hx%HvP]. congruence. }
    split; [split; [done|by eapply represents_fresh]|]. split; [split; [done|]|].
    + intros u y Hu Heq. rewrite (HfP _ _ _ eq_refl Hu Heq) in Hu. congruence.
    + apply (Hdel _ _ eq_refl). intros u y. by apply HfS.
  - destruct (has_match_represents _ _ _ _ Hrep Hver) as (x&Hx&->).
    split; [|split].
    + split; [eauto|]. apply (Hdel _ _ eq_refl). intros u y Hu%HvP. by apply HfP.
    + split; [eauto|]. apply (Hdel _ _ eq_refl). intros u y. by apply HfP.
    + apply (Hdel _ _ eq_refl). intros u y. by apply HfS.
  - destruct (has_match_represents _ _ _ _ Hrep Hver) as (x&Hx&->).
    split; [eauto|]. split; [eauto|]. apply Hunst. unfold delta_ops in Hin. set_solver.
Qed.

Lemma content_unique_steps m els :
  content_unique m → independent els → Forall (el_ok m) els → content_unique (foldl spec_el m els).
Proof.
  revert m. induction els as [|el els IH]; simpl; intros m Hm Hind Hok; [done|].
  apply Forall_cons in Hok as Hok'. destruct Hok' as [Hel Hels].
  apply IH; [by apply content_unique_step|by apply independent_cons in Hind as []|by apply el_ok_steps].
Qed.

(** Applying independent elements within one jail to a view and to the union. *)
Lemma union_of_els vs mP p v els :
  union_of vs mP → vs !! p = Some v → independent els →
  (∀ q w, vs !! q = Some w → valid_handle q) →
  (∀ q w u x, vs !! q = Some w → w !! u = Some x → is_parent_of (jail q) u = true) →
  Forall (λ el, is_parent_of (jail p) (el_uri el) = true) els →
  union_of (<[p := foldl spec_el v els]> vs) (foldl spec_el mP els).
Proof.
  intros Hun Hp Hind Hvh Hj Hall u x.
  assert ((∃ el, el ∈ els ∧ el_uri el = u) ∨ ∀ el, el ∈ els → el_uri el ≠ u) as [(el&Hin&<-)|Hnin].
  { destruct (decide (u ∈ (el_uri <$> els))) as [(el&->&?)%list_elem_of_fmap|Hn]; [left; eauto|].
    right. intros el Hin <-. apply Hn. by apply list_elem_of_fmap_2. }
  - rewrite spec_els_lookup by done. split.
    + intros Hx. exists p, (foldl spec_el v els). rewrite lookup_insert_eq. split; [done|].
      by rewrite spec_els_lookup.
    + intros (q&w&Hq&Hw). rewrite lookup_insert in Hq. case_decide; simplify_eq.
      { by rewrite spec_els_lookup in Hw. }
      exfalso. pose proof (Hj _ _ _ _ Hq Hw). rewrite Forall_forall in Hall.
      apply Hall in Hin. eauto.
  - rewrite spec_els_lookup_notin by done. rewrite (Hun u x). split.
    + intros (q&w&Hq&Hw). destruct (decide (q = p)) as [->|Hne].
      * exists p, (foldl spec_el v els). rewrite lookup_insert_eq, spec_els_lookup_notin by done.
        split; [done|]. congruence.
      * exists q, w. by rewrite lookup_insert_ne.
    + intros (q&w&Hq&Hw). rewrite lookup_insert in Hq. case_decide; simplify_eq; [|eauto].
      rewrite spec_els_lookup_notin in Hw by done. eauto.
Qed.

Lemma ri_publish c vs mS mP env hdl p query cmd :
  repo_inv c vs mS mP → proxy_publish c hdl p query (jail p) = Ok cmd →
  admissible c p (delta_elements_from query) →
  ∃ v, repo_inv (exec c env cmd) (<[p := spec_delta v (delta_elements_from query)]> vs) mS
    (spec_delta mP (delta_elements_from query)).
Proof.
  intros Hinv Hv Hadm. apply proxy_publish_Ok in Hv as (co&Hp&->&Hv).
  set (d := delta_elements_from query) in *. rewrite (exec_publish _ _ _ _ _ _ Hp).
  destruct (ri_publisher _ _ _ _ _ _ Hinv Hp) as (v&Hvs&Hrep). exists v.
  assert (∀ el, el ∈ delta_ops d → el_ok v el ∧ el_ok mP el ∧ stage_ok mS (staged_elements (rrdp c)) el) as Hok.
  { intros el Hin. eapply admissible_el_ok; [done..| |done]. by eapply Forall_forall in Hv. }
  pose proof (adm_indep _ _ _ Hadm) as Hind.
  assert (Forall (el_ok v) (delta_ops d) ∧ Forall (el_ok mP) (delta_ops d) ∧
    Forall (stage_ok mS (staged_elements (rrdp c))) (delta_ops d)) as (Hokv&HokP&HokS).
  { rewrite !Forall_forall. naive_solver. }
  assert (Forall (λ el, is_parent_of (jail p) (el_uri el) = true) (delta_ops d)) as Hjail.
  { eapply Forall_impl; [exact Hv|]. by intros el [? _]. }
  split; simpl.
  - intros q. rewrite !lookup_insert. case_decide; [|apply Hinv]. by apply represents_delta.
  - intros q w. rewrite lookup_insert. case_decide; [|apply (ri_handle _ _ _ _ Hinv)].
    subst. intros _. by eapply (ri_handle _ _ _ _ Hinv).
  - intros q w u x. rewrite lookup_insert. case_decide; [|by apply (ri_jailed _ _ _ _ Hinv)].
    subst. intros [= <-] Hu. unfold spec_delta in Hu.
    destruct (decide (u ∈ (el_uri <$> delta_ops d))) as [(el&->&Hin)%list_elem_of_fmap|Hn].
    + by eapply Forall_forall in Hjail.
    + rewrite spec_els_lookup_notin in Hu; [by eapply (ri_jailed _ _ _ _ Hinv)|].
      intros el Hin <-. apply Hn. by apply list_elem_of_fmap_2.
  - apply union_of_els; [apply Hinv|done..|apply (ri_handle _ _ _ _ Hinv)|apply (ri_jailed _ _ _ _ Hinv)|done].
  - apply content_unique_steps; [apply Hinv|done..].
  - apply Hinv.
  - rewrite stage_delta_ops. apply stage_els_inv; [apply Hinv|done..].
Qed.

Lemma ri_add c vs mS mP env hdl p :
  repo_inv c vs mS mP → valid_handle p → publishers c !! p = None →
  repo_inv (exec c env (AddPublisher hdl p)) (<[p := ∅]> vs) mS mP.
Proof.
  intros Hinv Hh Hp. assert (vs !! p = None) as Hvs.
  { pose proof (ri_views _ _ _ _ Hinv p) as H. rewrite Hp in H. by destruct (vs !! p). }
  unfold exec; split; simpl; [| | | |apply Hinv..].
  - intros q. rewrite !lookup_insert. case_decide; [apply represents_empty|apply Hinv].
  - intros q w. rewrite lookup_insert. case_decide; [by subst|apply (ri_handle _ _ _ _ Hinv)].
  - intros q w u x. rewrite lookup_insert. case_decide; [|by apply (ri_jailed _ _ _ _ Hinv)].
    intros [= <-]. by rewrite lookup_empty.
  - intros u x. rewrite (ri_union _ _ _ _ Hinv u x). split; intros (q&w&Hq&Hw); exists q, w.
    + rewrite lookup_insert_ne; [done|congruence].
    + rewrite lookup_insert in Hq. by case_decide; simplify_eq.
Qed.

Definition withdraw_all co : DeltaElements := mkDeltaElements [] [] (as_withdraw <$> elements co).

Lemma withdraw_all_ops co :
  delta_ops (withdraw_all co) = (λ e, DWithdraw (as_withdraw e)) <$> hm_values co.
Proof. unfold withdraw_all, delta_ops; simpl. by rewrite <-list_fmap_compose. Qed.

Lemma withdraw_all_independent co v : represents co v → independent (delta_ops (withdraw_all co)).
Proof.
  intros Hrep. rewrite withdraw_all_ops. unfold hm_values.
  intros i j el el' Hi Hj Hne. rewrite !list_lookup_fmap in Hi, Hj.
  destruct (hm_iter co !! i) as [[h e]|] eqn:Hhi; simplify_eq/=.
  destruct (hm_iter co !! j) as [[h' e']|] eqn:Hhj; simplify_eq/=.
  split; [|by intros (?&?&?&_)]. intros Hu. apply Hne.
  eapply (NoDup_lookup (hm_iter co)); [apply NoDup_hm_iter|done|]. rewrite Hhj. f_equal.
  apply list_elem_of_lookup_2 in Hhi, Hhj. apply elem_of_hm_iter in Hhi, Hhj.
  apply Hrep in Hhi as [-> Hv], Hhj as [-> Hv']. destruct e as [x u], e' as [x' u']; simpl in *.
  congruence.
Qed.

Lemma withdraw_all_elem co v el :
  represents co v → el ∈ delta_ops (withdraw_all co) ↔
  ∃ u x, v !! u = Some x ∧ el = DWithdraw (mkWithdrawElement u (to_hash x)).
Proof.
  intros Hrep. rewrite withdraw_all_ops, list_elem_of_fmap. setoid_rewrite elem_of_hm_values. split.
  - intros (e&->&h&Hh%Hrep). destruct Hh as [_ Hv]. by exists (pe_uri e), (pe_base64 e).
  - intros (u&x&Hv&->). exists (mkPublishElement x u). split; [done|].
    exists (to_hash x). by apply represents_lookup with v.
Qed.

Lemma withdraw_all_view co v : represents co v → spec_delta v (withdraw_all co) = ∅.
Proof.
  intros Hrep. apply map_eq. intros u. rewrite lookup_empty. unfold spec_delta.
  destruct (v !! u) as [x|] eqn:Hu.
  - apply (spec_els_lookup v _ (DWithdraw (mkWithdrawElement u (to_hash x)))).
    + by eapply withdraw_all_independent.
    + apply (withdraw_all_elem _ _ _ Hrep). eauto.
  - rewrite spec_els_lookup_notin; [done|].
    intros el (u'&x&Hu'&->)%(withdraw_all_elem _ _ _ Hrep) <-. simpl in Hu. congruence.
Qed.

Lemma ri_remove c vs mS mP env hdl p :
  repo_inv c vs mS mP → removable c p →
  ∃ mP', repo_inv (exec c env (RemovePublisher hdl p)) (delete p vs) mS mP'.
Proof.
  intros Hinv Hrem. rewrite exec_remove. destruct (publishers c !! p) as [co|] eqn:Hp.
  2: { exists mP. rewrite delete_id; [done|].
       pose proof (ri_views _ _ _ _ Hinv p) as H. rewrite Hp in H. by destruct (vs !! p). }
  destruct (ri_publisher _ _ _ _ _ _ Hinv Hp) as (v&Hvs&Hrep).
  exists (spec_delta mP (withdraw_all co)).
  assert (Forall (el_ok mP) (delta_ops (withdraw_all co))) as Hok.
  { apply Forall_forall. intros el (u&x&Hu&->)%(withdraw_all_elem _ _ _ Hrep). simpl.
    exists x. split; [|done]. apply (ri_union _ _ _ _ Hinv). eauto. }
  pose proof (withdraw_all_independent _ _ Hrep) as Hind.
  assert (union_of (<[p := ∅]> vs) (spec_delta mP (withdraw_all co))) as Hun.
  { rewrite <-(withdraw_all_view _ _ Hrep). apply union_of_els; [apply Hinv|done..| | |].
    - apply (ri_handle _ _ _ _ Hinv).
    - apply (ri_jailed _ _ _ _ Hinv).
    - apply Forall_forall. intros el (u&x&Hu&->)%(withdraw_all_elem _ _ _ Hrep). simpl.
      by eapply (ri_jailed _ _ _ _ Hinv). }
  split; simpl.
  - intros q. rewrite !lookup_delete. case_decide; [done|apply Hinv].
  - intros q w. rewrite lookup_delete. case_decide; [done|]. apply (ri_handle _ _ _ _ Hinv).
  - intros q w u x. rewrite lookup_delete. case_decide; [done|]. by apply (ri_jailed _ _ _ _ Hinv).
  - intros u x. rewrite (Hun u x). split; intros (q&w&Hq&Hw); exists q, w.
    + rewrite lookup_insert in Hq. rewrite lookup_delete.
      by case_decide; simplify_eq.
    + rewrite lookup_delete in Hq. rewrite lookup_insert. by case_decide.
  - apply content_unique_steps; [apply Hinv|done..].
  - apply Hinv.
  - change (mkDeltaElements [] [] _) with (withdraw_all co). rewrite stage_delta_ops.
    apply stage_els_inv; [apply Hinv|done..|].
    apply Forall_forall. intros el (u&x&Hu&->)%(withdraw_all_elem _ _ _ Hrep). simpl.
    apply (Hrem co u x); [done|]. by eapply represents_holds.
Qed.

(** An RRDP update makes the published objects the snapshot. *)
Lemma ri_rrdp_updated c vs mS mP upd :
  repo_inv c vs mS mP → repo_inv (content_apply c [RrdpUpdatedChange upd]) vs mP mP.
Proof.
  intros Hinv. split; simpl; try apply Hinv.
  - eapply staged_delta_represents; apply Hinv.
  - apply staged_inv_empty.
Qed.

Lemma ri_reset c vs mS mP env hdl :
  repo_inv c vs mS mP → repo_inv (exec c env (ResetSession hdl)) vs mS mP.
Proof. intros Hinv. unfold exec. split; simpl; apply Hinv. Qed.

Lemma repo_step_inv resets c c' vs mS mP :
  repo_step true resets c c' → repo_inv c vs mS mP → ∃ vs' mS' mP', repo_inv c' vs' mS' mP'.
Proof.
  intros Hstep Hinv. destruct Hstep as [c env hdl p Hh Hp|c env hdl p Hr|c env hdl p query cmd Hv Ha|c env hdl cfg _|c env hdl _].
  - eauto using ri_add.
  - destruct (ri_remove _ _ _ _ env hdl p Hinv (Hr eq_refl)). eauto.
  - destruct (ri_publish _ _ _ _ env _ _ _ _ Hinv Hv (Ha eq_refl)). eauto.
  - destruct (exec_rrdp c env hdl cfg) as [->|[_ ->]]; eauto using ri_rrdp_updated.
  - eauto using ri_reset.
Qed.

Lemma reachable_inv resets c : reachable true resets c → ∃ vs mS mP, repo_inv c vs mS mP.
Proof.
  intros (c0&H0&Hrtc). pose proof (content_init_inv _ H0) as Hinv.
  assert (∃ vs mS mP, repo_inv c0 vs mS mP) as Hex by eauto. clear H0 Hinv.
  induction Hrtc as [|c0 c1 c Hstep _ IH]; [done|].
  destruct Hex as (vs&mS&mP&Hinv). eauto using repo_step_inv.
Qed.
End repo_inv.

(** ** Deciding the conditions *)

Section decide.
Context `{RP : !Rpki, HO : !HashOrder}.
Implicit Types (c : RepositoryContent) (co : CurrentObjects).

Definition same_contentb (el el' : DeltaElement) : bool :=
  match el_new el, el_new el' with
  | Some x, Some y => bool_decide (to_hash x = to_hash y)
  | _, _ => false
  end.

Fixpoint independentb (els : list DeltaElement) : bool :=
  match els with
  | [] => true
  | el :: els =>
      forallb (λ el', negb (bool_decide (el_uri el = el_uri el')) && negb (same_contentb el el')) els
      && independentb els
  end.

Definition all_objects c : list PublishElement := mjoin (elements <$> hm_values (publishers c)).

Definition staged_changeb (o : option DeltaElement) : bool :=
  match o with Some (DPublish _) | Some (DUpdate _) => true | _ => false end.

Definition admissibleb c (p : string) (d : DeltaElements) : bool :=
  independentb (delta_ops d)
  && forallb (λ pe, match publishers c !! p with
                    | None => true
                    | Some co => forallb (λ e, negb (bool_decide (pe_uri e = pe_uri pe))) (elements co)
                    end) (publishes d)
  && forallb (λ el, match el_new el with
                    | None => true
                    | Some x => forallb (λ e, negb (bool_decide (to_hash (pe_base64 e) = to_hash x))
                                              || bool_decide (pe_uri e = el_uri el))
                                  (all_objects c ++ elements (sd_current_objects (snapshot (rrdp c))))
                    end) (delta_ops d)
  && forallb (λ w, negb (staged_changeb (staged_elements (rrdp c) !! we_uri w))) (withdraws d).

Lemma independentb_sound els : independentb els = true → independent els.
Proof.
  induction els as [|el els IH]; simpl; [by intros _ i j|].
  rewrite andb_true_iff, forallb_forall. intros [H Hi]. apply independent_cons. split; [|auto].
  intros el' Hin. apply list_elem_of_In in Hin. apply H, andb_true_iff in Hin as [Hu Hs].
  rewrite negb_true_iff, bool_decide_eq_false in Hu. rewrite negb_true_iff in Hs. split; [done|].
  intros (x&y&Hx&Hy&Heq). unfold same_contentb in Hs. rewrite Hx, Hy, bool_decide_eq_false in Hs. done.
Qed.

Lemma elem_of_elements co e : e ∈ elements co ↔ ∃ h, co !! h = Some e.
Proof. apply elem_of_hm_values. Qed.

Lemma published_all_objects c u x : published c u x → mkPublishElement x u ∈ all_objects c.
Proof.
  intros (p&co&Hp&h&Hh). unfold all_objects. apply list_elem_of_join. exists (elements co).
  split; [apply elem_of_elements; eauto|]. apply list_elem_of_fmap_2, elem_of_hm_values. eauto.
Qed.

Lemma admissibleb_sound c p d : admissibleb c p d = true → admissible c p d.
Proof.
  unfold admissibleb. rewrite !andb_true_iff, !forallb_forall. intros [[[Hi Hf] Hc] Hs]. split.
  - by apply independentb_sound.
  - intros pe x Hpe%list_elem_of_In (co&Hp&h&Hh). specialize (Hf pe Hpe). rewrite Hp, forallb_forall in Hf.
    specialize (Hf (mkPublishElement x (pe_uri pe))). rewrite bool_decide_true in Hf by done.
    apply diff_false_true, Hf, list_elem_of_In, elem_of_elements. eauto.
  - intros el x u y Hel%list_elem_of_In Hx Hu Heq. specialize (Hc el Hel). rewrite Hx, forallb_forall in Hc.
    specialize (Hc (mkPublishElement y u)). simpl in Hc. rewrite bool_decide_true in Hc by done. simpl in Hc.
    apply (proj1 (bool_decide_eq_true _)), Hc, list_elem_of_In, elem_of_app. destruct Hu as [Hpub|[h Hh]].
    + left. by apply published_all_objects.
    + right. apply elem_of_elements. eauto.
  - intros w Hw%list_elem_of_In. specialize (Hs w Hw). rewrite negb_true_iff in Hs.
    destruct (staged_elements _ !! _) as [[]|]; naive_solver.
Qed.
End decide.
