(* ===== verification/RrdpClient.v ===== *)
(** * Relying parties: an RFC 8182 client against the publication server

    The client of RFC 8182 builds its objects from a snapshot file and follows delta files;
    it rejects a delta that publishes to a URI it already has, or that updates or withdraws
    an object whose hash it does not have.  The lemmas show that the deltas the RRDP server
    keeps take a client from an earlier snapshot to the current one. *)

From stdpp Require Import base gmap strings list relations.
From S2P Require Import Prelude WalStore WalFacts Rpki Rrdp RrdpFacts Repository RepositoryFacts RepositoryInv.

Section client.
Context `{RP : !Rpki, HO : !HashOrder}.
Implicit Types (c : RepositoryContent) (m mS mP : gmap Rsync Base64) (co : CurrentObjects).

(** ** The client *)

(** The objects in a snapshot file. *)
Definition client_view co : gmap Rsync Base64 :=
  list_to_map ((λ e, (pe_uri e, pe_base64 e)) <$> elements co).

Definition client_el m (el : DeltaElement) : option (gmap Rsync Base64) :=
  match el, m !! el_uri el with
  | DPublish p, None => Some (<[pe_uri p := pe_base64 p]> m)
  | DUpdate u, Some x => if decide (to_hash x = ue_hash u) then Some (<[ue_uri u := ue_base64 u]> m) else None
  | DWithdraw w, Some x => if decide (to_hash x = we_hash w) then Some (delete (we_uri w) m) else None
  | _, _ => None
  end.

Definition client_els m (els : list DeltaElement) : option (gmap Rsync Base64) :=
  foldl (λ acc el, m ← acc; client_el m el) (Some m) els.

(** One delta file; several in the order of their serials. *)
Definition client_delta m (d : DeltaElements) : option (gmap Rsync Base64) := client_els m (delta_ops d).

Definition client_run m (ds : list DeltaElements) : option (gmap Rsync Base64) :=
  foldl (λ acc d, m ← acc; client_delta m d) (Some m) ds.

Lemma client_run_snoc m ds d : client_run m (ds ++ [d]) = m' ← client_run m ds; client_delta m' d.
Proof. unfold client_run. by rewrite foldl_app. Qed.

Lemma client_view_represents co m : represents co m → client_view co = m.
Proof.
  intros Hrep. apply map_eq. intros u. apply option_eq. intros x. unfold client_view.
  assert ((u, x) ∈ (λ e, (pe_uri e, pe_base64 e)) <$> elements co ↔ m !! u = Some x) as Hin.
  { rewrite list_elem_of_fmap. unfold elements. setoid_rewrite elem_of_hm_values. split.
    - intros (e&[= -> ->]&h&Hh). by apply Hrep in Hh as [_ ?].
    - intros Hu. exists (mkPublishElement x u). split; [done|]. exists (to_hash x).
      by apply represents_lookup with m. }
  rewrite <-Hin. symmetry. apply elem_of_list_to_map.
  unfold elements, hm_values. rewrite <-!list_fmap_compose.
  apply NoDup_fmap_2_strong; [|apply NoDup_hm_iter].
  intros [h1 e1] [h2 e2] H1%elem_of_hm_iter H2%elem_of_hm_iter Heq. unfold compose in Heq; simpl in Heq.
  apply Hrep in H1 as [-> H1], H2 as [-> H2]. destruct e1, e2; simpl in *. congruence.
Qed.

Lemma client_el_ok m el : el_ok m el → client_el m el = Some (spec_el m el).
Proof.
  destruct el as [p|u|w]; unfold client_el, spec_el; simpl.
  - by intros [-> _].
  - intros [(x&->&->) _]. by rewrite decide_True.
  - intros (x&->&->). by rewrite decide_True.
Qed.

(** The client accepts independent applicable elements. *)
Lemma client_els_ok m els :
  independent els → Forall (el_ok m) els → client_els m els = Some (foldl spec_el m els).
Proof.
  unfold client_els. revert m. induction els as [|el els IH]; intros m Hind Hok; simpl; [done|].
  apply Forall_cons in Hok as Hok'. destruct Hok' as [Hel Hels].
  rewrite client_el_ok by done. apply IH; [by apply independent_cons in Hind as []|by apply el_ok_steps].
Qed.

Lemma staged_view mS st mP :
  staged_inv mS st mP → content_unique mP → client_delta mS (staged_delta st) = Some mP.
Proof.
  intros Hinv Hcu. unfold client_delta.
  rewrite client_els_ok; [|by eapply staged_independent|by eapply staged_inv_applicable].
  f_equal. by eapply staged_delta_spec.
Qed.

(** ** The deltas of the server *)

Definition delta_list c : list DeltaElements := dd_elements <$> deltas (rrdp c).

(** Serials count down from the current one. *)
Definition serials_ok (r : RrdpServer) : Prop :=
  (1 ≤ serial r)%N ∧ ∀ i d, deltas r !! i = Some d → (dd_serial d + N.of_nat i = serial r)%N.

Context (jail : string → Rsync) (valid_handle : string → Prop).

Lemma rrdp_update_serial c upd :
  (serial (rrdp c) < u64_max)%N →
  serial (rrdp (content_apply c [RrdpUpdatedChange upd])) = (serial (rrdp c) + 1)%N.
Proof. intros H. simpl. by apply u64_succ_small. Qed.

(** The new deltas are the fresh one and a prefix of the old ones. *)
Lemma rrdp_update_deltas c upd :
  ∃ n, delta_list (content_apply c [RrdpUpdatedChange upd]) =
    take n (staged_delta (staged_elements (rrdp c)) :: delta_list c).
Proof.
  unfold delta_list. simpl. unfold deltas_truncate_size. set (k := keep_by_size _ _ _). clearbody k.
  exists (Nat.min k (S (N.to_nat (upd_deltas_truncate upd)))).
  rewrite fmap_take, fmap_cons, fmap_take. destruct k as [|k]; [done|]. simpl.
  by rewrite take_take.
Qed.

Lemma serials_step strict resets c c' :
  repo_step jail valid_handle strict resets c c' → serials_ok (rrdp c) → serials_ok (rrdp c').
Proof.
  intros Hstep Hs. destruct Hstep as [c env hdl p Hh Hp|c env hdl p _|c env hdl p query cmd Hv _|c env hdl cfg Hlt|c env hdl _].
  - exact Hs.
  - rewrite exec_remove. destruct (publishers c !! p); exact Hs.
  - apply proxy_publish_Ok in Hv as (co&Hp&->&Hv). rewrite (exec_publish _ _ _ _ _ _ Hp). exact Hs.
  - destruct (exec_rrdp c env hdl cfg) as [->|[_ ->]]; [done|]. destruct Hs as [H1 Hs].
    split; rewrite rrdp_update_serial by done; [lia|]. simpl.
    intros i d [Hi _]%lookup_take_Some. destruct i as [|i]; simpl in Hi.
    + simplify_eq. simpl. rewrite u64_succ_small by done. lia.
    + apply lookup_take_Some in Hi as [Hi _]. apply Hs in Hi. lia.
  - split; simpl; [unfold RRDP_FIRST_SERIAL; lia|]. by intros i d.
Qed.

Lemma serials_reachable strict resets c : reachable jail valid_handle strict resets c → serials_ok (rrdp c).
Proof.
  intros (c0&(?&?&?&?&?&?&->)&Hrtc).
  assert (∀ c c', rtc (repo_step jail valid_handle strict resets) c c' → serials_ok (rrdp c) → serials_ok (rrdp c')) as H.
  { induction 1; eauto using serials_step. }
  apply (H _ _ Hrtc). split; simpl; [unfold RRDP_FIRST_SERIAL; lia|]. by intros i d.
Qed.

(** ** Catching up *)

(** A client that has [m0] from serial [s0] and follows the deltas gets [mS]. *)
Definition catches_up (s0 : N) m0 (r : RrdpServer) mS : Prop :=
  (s0 ≤ serial r)%N ∧
  let k := N.to_nat (serial r - s0) in
  k ≤ length (deltas r) →
  client_run m0 (reverse (take k (dd_elements <$> deltas r))) = Some mS.

Lemma catches_up_refl r mS : catches_up (serial r) mS r mS.
Proof. split; [done|]. rewrite N.sub_diag. done. Qed.

Lemma catches_up_rrdp s0 m0 c vs mS mP upd :
  repo_inv jail valid_handle c vs mS mP → (serial (rrdp c) < u64_max)%N → catches_up s0 m0 (rrdp c) mS →
  catches_up s0 m0 (rrdp (content_apply c [RrdpUpdatedChange upd])) mP.
Proof.
  intros Hinv Hlt [Hle Hk]. destruct (rrdp_update_deltas c upd) as [n Hn].
  unfold delta_list in Hn. unfold catches_up.
  rewrite rrdp_update_serial, Hn by done. split; [lia|].
  rewrite <-(length_fmap dd_elements), Hn.
  replace (N.to_nat (serial (rrdp c) + 1 - s0)) with (S (N.to_nat (serial (rrdp c) - s0))) by lia.
  rewrite length_take. intros Hlen. rewrite take_take, Nat.min_l by lia. simpl in *.
  rewrite length_fmap in Hlen. rewrite reverse_cons, client_run_snoc, Hk by lia. simpl.
  apply staged_view; apply Hinv.
Qed.

Hypothesis jails_disjoint :
  ∀ p q u, valid_handle p → valid_handle q →
    is_parent_of (jail p) u = true → is_parent_of (jail q) u = true → p = q.

Lemma catches_up_step s0 m0 c c' vs mS mP :
  repo_step jail valid_handle true false c c' → repo_inv jail valid_handle c vs mS mP →
  catches_up s0 m0 (rrdp c) mS →
  ∃ vs' mS' mP', repo_inv jail valid_handle c' vs' mS' mP' ∧ catches_up s0 m0 (rrdp c') mS'.
Proof.
  intros Hstep Hinv Hcu. destruct Hstep as [c env hdl p Hh Hp|c env hdl p Hr|c env hdl p query cmd Hv Ha|c env hdl cfg Hlt|c env hdl ?].
  - exists (<[p := ∅]> vs), mS, mP. split; [by apply ri_add|exact Hcu].
  - destruct (ri_remove _ _ jails_disjoint _ _ _ _ env hdl p Hinv (Hr eq_refl)) as [mP' Hinv'].
    exists (delete p vs), mS, mP'. split; [done|].
    rewrite exec_remove. destruct (publishers c !! p); exact Hcu.
  - destruct (ri_publish _ _ jails_disjoint _ _ _ _ env _ _ _ _ Hinv Hv (Ha eq_refl)) as [v Hinv'].
    eexists _, mS, _. split; [done|].
    apply proxy_publish_Ok in Hv as (co&Hp&->&Hv). rewrite (exec_publish _ _ _ _ _ _ Hp). exact Hcu.
  - destruct (exec_rrdp c env hdl cfg) as [->|[_ ->]]; [by exists vs, mS, mP|].
    exists vs, mP, mP. split; [by eapply ri_rrdp_updated|by eapply catches_up_rrdp].
  - done.
Qed.

Lemma catches_up_steps c c' vs mS mP :
  repo_inv jail valid_handle c vs mS mP → rtc (repo_step jail valid_handle true false) c c' →
  ∃ vs' mS' mP', repo_inv jail valid_handle c' vs' mS' mP' ∧
    catches_up (serial (rrdp c)) mS (rrdp c') mS'.
Proof.
  intros Hinv Hrtc. pose proof (catches_up_refl (rrdp c) mS) as Hcu.
  revert Hcu. generalize (serial (rrdp c)) as s0. generalize mS at 1 3 as m0. intros m0 s0 Hcu.
  revert vs mS mP Hinv Hcu. induction Hrtc as [c|c c1 c' Hstep _ IH]; intros vs mS mP Hinv Hcu; [eauto 10|].
  destruct (catches_up_step _ _ _ _ _ _ _ Hstep Hinv Hcu) as (vs1&mS1&mP1&Hinv1&Hcu1). eauto.
Qed.
End client.
