(* ===== verification/RepositoryAccess.v ===== *)
(** * Access to the publication server ([src/src/pubd/{repository,commands,events,publishers,manager}.rs])

    [RepositoryAccess] is the event-sourced list of publishers with their identity
    certificate and base URI.  [RepositoryManager] combines it with the content: it checks who
    may publish, and where. *)

From stdpp Require Import base gmap strings list.
From S2P Require Import Prelude Text Kv EventSourcing EventFacts Rpki Rrdp RrdpFacts Repository.

Section access.
Context `{RP : !Rpki, HO : !HashOrder}.
(** Identity certificates come from the [rpki] crate and are only passed on. *)
Context {IdCertInfo : Type}.

Record Publisher := mkPublisher { pub_id_cert : IdCertInfo; pub_base_uri : Rsync }.

Record RepositoryAccess := mkRepositoryAccess {
  ra_handle : string;
  ra_version : N;
  ra_id_cert : IdCertInfo;
  ra_publishers : gmap string Publisher;
  ra_rsync_base : Rsync;
  ra_rrdp_base : string;
}.

(** ** Commands and events *)

Inductive RepoAccessCmdDet :=
| RacAddPublisher (id_cert : IdCertInfo) (name : string) (base_uri : Rsync)
| RacRemovePublisher (name : string).

Inductive StorableRepositoryCommand :=
| SrcAddPublisher (name : string)
| SrcRemovePublisher (name : string).

Inductive RepositoryAccessEventDetails :=
| RaePublisherAdded (name : string) (publisher : Publisher)
| RaePublisherRemoved (name : string).

Record RepositoryAccessInitDetails := mkRaInit {
  rai_id_cert : IdCertInfo;
  rai_rrdp_base_uri : string;
  rai_rsync_jail : Rsync;
}.

Inductive AccessError :=
| AePublisherDuplicate (name : string)
| AePublisherUnknown (name : string)
| AeCannotDeriveBaseUri (name : string).

Definition rac_store (cmd : RepoAccessCmdDet) : StorableRepositoryCommand :=
  match cmd with
  | RacAddPublisher _ name _ => SrcAddPublisher name
  | RacRemovePublisher name => SrcRemovePublisher name
  end.

Definition src_label (s : StorableRepositoryCommand) : string :=
  match s with SrcAddPublisher _ => "pubd-publisher-add" | SrcRemovePublisher _ => "pubd-publisher-remove" end.

Definition access_error_display (e : AccessError) : string :=
  match e with
  | AePublisherDuplicate name => "Duplicate publisher '" +:+ name +:+ "'"
  | AePublisherUnknown name => "Unknown publisher '" +:+ name +:+ "'"
  | AeCannotDeriveBaseUri name => "Cannot derive base uri for " +:+ name
  end.

(** ** The aggregate *)

Definition ra_init (event : StoredEvent RepositoryAccessInitDetails) : result AccessError RepositoryAccess :=
  let details := ev_details event in
  Ok (mkRepositoryAccess (ev_id event) 1 (rai_id_cert details) ∅ (rai_rsync_jail details)
        (rai_rrdp_base_uri details)).

Definition ra_apply (self : RepositoryAccess) (event : StoredEvent RepositoryAccessEventDetails)
    : RepositoryAccess :=
  mkRepositoryAccess (ra_handle self) (u64_succ (ra_version self)) (ra_id_cert self)
    match ev_details event with
    | RaePublisherAdded name publisher => <[name := publisher]> (ra_publishers self)
    | RaePublisherRemoved name => delete name (ra_publishers self)
    end (ra_rsync_base self) (ra_rrdp_base self).

Definition has_publisher (self : RepositoryAccess) (name : string) : bool :=
  bool_decide (is_Some (ra_publishers self !! name)).

Definition get_publisher (self : RepositoryAccess) (name : string) : result AccessError Publisher :=
  ok_or (ra_publishers self !! name) (AePublisherUnknown name).

Definition ra_publisher_handles (self : RepositoryAccess) : list string := hm_keys (ra_publishers self).

Definition ra_add_publisher (self : RepositoryAccess) (id_cert : IdCertInfo) (name : string) (base_uri : Rsync)
    : result AccessError (list (StoredEvent RepositoryAccessEventDetails)) :=
  if has_publisher self name then Err (AePublisherDuplicate name)
  else Ok [mkStoredEvent (ra_handle self) (ra_version self) (RaePublisherAdded name (mkPublisher id_cert base_uri))].

Definition ra_remove_publisher (self : RepositoryAccess) (name : string)
    : result AccessError (list (StoredEvent RepositoryAccessEventDetails)) :=
  if negb (has_publisher self name) then Err (AePublisherUnknown name)
  else Ok [mkStoredEvent (ra_handle self) (ra_version self) (RaePublisherRemoved name)].

Definition ra_process_command (self : RepositoryAccess) (env : unit) (cmd : SentCommand RepoAccessCmdDet)
    : result AccessError (list (StoredEvent RepositoryAccessEventDetails)) :=
  match sc_details cmd with
  | RacAddPublisher id_cert name base_uri => ra_add_publisher self id_cert name base_uri
  | RacRemovePublisher name => ra_remove_publisher self name
  end.

Definition base_uri_for (self : RepositoryAccess) (name : string) : result AccessError Rsync :=
  ok_or (rsync_from_str (rsync_to_string (ra_rsync_base self) +:+ name +:+ "/")) (AeCannotDeriveBaseUri name).

#[export] Instance repository_access_aggregate :
  Aggregate RepositoryAccess RepoAccessCmdDet StorableRepositoryCommand RepositoryAccessEventDetails
    RepositoryAccessInitDetails AccessError unit := {|
  agg_init := ra_init;
  agg_version := ra_version;
  agg_apply := ra_apply;
  agg_process_command := ra_process_command;
  agg_store := rac_store;
  agg_label := src_label;
  agg_err_display := access_error_display;
|}.

#[export] Instance repository_access_laws : AggregateLaws (Ag := repository_access_aggregate).
Proof.
  split; simpl.
  - intros i a [= <-]. done.
  - done.
  - by intros [].
Qed.

(** ** The manager: access and content together *)

Record RepositoryManager := mkManager {
  rm_access : RepositoryAccess;
  rm_content : RepositoryContent;
  (** The times at which an RRDP update was scheduled. *)
  rm_tasks : list Instant;
}.

Inductive ManagerError :=
| MeAccess (e : AccessError)
| MeContent (e : RepositoryError).

(** What a command leaves of the content: [WalStore::send_command], and the access
    aggregate after a command: [AggregateStore::command], both on success. *)
Definition send_content (c : RepositoryContent) (env : Env) (cmd : RepositoryContentCommand)
    : result ManagerError RepositoryContent :=
  match process_command c env cmd with
  | Err e => Err (MeContent e)
  | Ok [] => Ok c
  | Ok changes => Ok (content_apply c changes)
  end.

Definition send_access (a : RepositoryAccess) (details : RepoAccessCmdDet) (actor : Actor)
    : result ManagerError RepositoryAccess :=
  match ra_process_command a tt (sent_command_new (ra_handle a) None details actor) with
  | Err e => Err (MeAccess e)
  | Ok events => Ok (apply_all a events)
  end.

Definition default_handle : string := "0".

Definition create_publisher (self : RepositoryManager) (env : Env) (id_cert : IdCertInfo) (name : string)
    (actor : Actor) : RepositoryManager * result ManagerError unit :=
  match base_uri_for (rm_access self) name with
  | Err e => (self, Err (MeAccess e))
  | Ok base_uri =>
      match send_access (rm_access self) (RacAddPublisher id_cert name base_uri) actor with
      | Err e => (self, Err e)
      | Ok access =>
          let self := mkManager access (rm_content self) (rm_tasks self) in
          match send_content (rm_content self) env (AddPublisher default_handle name) with
          | Err e => (self, Err e)
          | Ok content => (mkManager access content (rm_tasks self), Ok tt)
          end
      end
  end.

Definition manager_remove_publisher (self : RepositoryManager) (env : Env) (name : string) (actor : Actor)
    : RepositoryManager * result ManagerError unit :=
  match send_content (rm_content self) env (RemovePublisher default_handle name) with
  | Err e => (self, Err e)
  | Ok content =>
      let self := mkManager (rm_access self) content (rm_tasks self) in
      match send_access (rm_access self) (RacRemovePublisher name) actor with
      | Err e => (self, Err e)
      | Ok access => (mkManager access content (rm_tasks self ++ [env_now env]), Ok tt)
      end
  end.

Definition manager_publish (self : RepositoryManager) (env : Env) (name : string)
    (query : list PublishDeltaElement) : RepositoryManager * result ManagerError unit :=
  match get_publisher (rm_access self) name with
  | Err e => (self, Err (MeAccess e))
  | Ok publisher =>
      match proxy_publish (rm_content self) default_handle name query (pub_base_uri publisher) with
      | Err e => (self, Err (MeContent e))
      | Ok cmd =>
          match send_content (rm_content self) env cmd with
          | Err e => (self, Err e)
          | Ok content => (mkManager (rm_access self) content (rm_tasks self ++ [env_now env]), Ok tt)
          end
      end
  end.

(** The part of [update_rrdp_if_needed] that changes state; writing the files follows it. *)
Definition manager_update_rrdp_if_needed (self : RepositoryManager) (env : Env) (cfg : RrdpUpdatesConfig)
    : RepositoryManager * result ManagerError (option Instant) :=
  match update_rrdp_needed (rrdp (rm_content self)) (env_now env) cfg with
  | UpdateNo => (self, Ok None)
  | UpdateLater time => (self, Ok (Some time))
  | UpdateYes =>
      match send_content (rm_content self) env (CreateRrdpDelta default_handle cfg) with
      | Err e => (self, Err e)
      | Ok content => (mkManager (rm_access self) content (rm_tasks self), Ok None)
      end
  end.

Definition rrdp_session_reset (self : RepositoryManager) (env : Env)
    : RepositoryManager * result ManagerError unit :=
  match send_content (rm_content self) env (ResetSession default_handle) with
  | Err e => (self, Err e)
  | Ok content => (mkManager (rm_access self) content (rm_tasks self), Ok tt)
  end.

Definition manager_list (self : RepositoryManager) (name : string)
    : result ManagerError (list (Rsync * Hash)) :=
  map_err MeContent (list_reply (rm_content self) name).

(** RFC 8181: a query is a list request or a delta. *)
Inductive Query := QueryList | QueryDelta (delta : list PublishDeltaElement).
Inductive Reply := ReplyList (l : list (Rsync * Hash)) | ReplySuccess.

Definition rfc8181_message (self : RepositoryManager) (env : Env) (name : string) (query : Query)
    : RepositoryManager * result ManagerError Reply :=
  match query with
  | QueryList => (self, ReplyList <$> manager_list self name)
  | QueryDelta delta =>
      let '(self, r) := manager_publish self env name delta in (self, (λ _, ReplySuccess) <$> r)
  end.
End access.
