(* ===== verification/AccessFacts.v ===== *)
(** * The repository manager keeps access and content in step

    Runs of the manager's operations are runs of the content as a state machine, in which
    every publisher's jail is the base URI that the access side derives for it. *)

From stdpp Require Import base gmap strings list relations.
From S2P Require Import Prelude Text WalStore WalFacts EventSourcing EventFacts Rpki Rrdp RrdpFacts Repository RepositoryFacts RepositoryInv RepositoryAccess.

Section manager.
Context `{RP : !Rpki, HO : !HashOrder} {IdCertInfo : Type}.
Implicit Types (m : RepositoryManager (IdCertInfo := IdCertInfo)) (a : RepositoryAccess (IdCertInfo := IdCertInfo)).

(** The base URI below [rsync_base] for a publisher. *)
Definition jail_of (rsync_base : Rsync) (name : string) : Rsync :=
  match rsync_from_str (rsync_to_string rsync_base +:+ name +:+ "/") with
  | Some u => u
  | None => rsync_base
  end.

Record in_step (rsync_base : Rsync) m : Prop := {
  is_base : ra_rsync_base (rm_access m) = rsync_base;
  is_both : ∀ p, is_Some (ra_publishers (rm_access m) !! p) ↔ is_Some (publishers (rm_content m) !! p);
  is_jail : ∀ p pub, ra_publishers (rm_access m) !! p = Some pub → pub_base_uri pub = jail_of rsync_base p;
}.

(** A fresh publication server. *)
Definition manager_initial (rsync_base : Rsync) m : Prop :=
  ra_rsync_base (rm_access m) = rsync_base ∧ ra_publishers (rm_access m) = ∅ ∧ initial (rm_content m).

Inductive manager_step : RepositoryManager (IdCertInfo := IdCertInfo) → RepositoryManager (IdCertInfo := IdCertInfo) → Prop :=
| ms_create m m' env id_cert name actor r :
    create_publisher m env id_cert name actor = (m', r) → manager_step m m'
| ms_remove m m' env name actor r :
    manager_remove_publisher m env name actor = (m', r) → manager_step m m'
| ms_message m m' env name query r :
    rfc8181_message m env name query = (m', r) → manager_step m m'
| ms_rrdp m m' env cfg r :
    (serial (rrdp (rm_content m)) < u64_max)%N →
    manager_update_rrdp_if_needed m env cfg = (m', r) → manager_step m m'
| ms_reset m m' env r : rrdp_session_reset m env = (m', r) → manager_step m m'.

Lemma send_content_exec c env cmd c' : send_content c env cmd = Ok c' → c' = exec c env cmd.
Proof.
  unfold send_content, exec, spec_send. simpl.
  destruct (process_command c env cmd) as [[|ch cs]|e]; simpl; congruence.
Qed.

Abbreviation any_handle := (λ _ : string, True).
Abbreviation content_steps b := (rtc (repo_step (jail_of b) any_handle false true)).

Lemma publish_keys c env hdl p d co :
  publishers c !! p = Some co → ∀ q, is_Some (publishers (exec c env (Publish hdl p d)) !! q) ↔ is_Some (publishers c !! q).
Proof.
  intros Hp q. rewrite (exec_publish _ _ _ _ _ _ Hp). simpl. rewrite lookup_insert.
  case_decide; [subst; rewrite Hp; split; eauto|done].
Qed.

Lemma create_publisher_step b m m' env id_cert name actor r :
  in_step b m → create_publisher m env id_cert name actor = (m', r) →
  in_step b m' ∧ content_steps b (rm_content m) (rm_content m').
Proof.
  intros Hin. pose proof Hin as [Hb Hboth Hj]. unfold create_publisher, base_uri_for.
  destruct (rsync_from_str _) as [u|] eqn:Hu; simpl; [|by intros [= <- _]].
  unfold send_access, ra_process_command, ra_add_publisher, has_publisher. cbn [sc_details sent_command_new].
  case_bool_decide as Hhas; [by intros [= <- _]|].
  simpl. intros [= <- _].
  assert (publishers (rm_content m) !! name = None) as Hnone.
  { apply eq_None_not_Some. by rewrite <-Hboth. }
  split; [split; simpl|].
  - done.
  - intros p. rewrite !lookup_insert. case_decide; [split; eauto|apply Hboth].
  - intros p pub. rewrite lookup_insert. case_decide; [|apply Hj]. subst. intros [= <-]. simpl.
    unfold jail_of. by rewrite Hu.
  - apply rtc_once. by apply (rs_add _ _ _ _ (rm_content m) env default_handle name).
Qed.

Lemma remove_publisher_step b m m' env name actor r :
  in_step b m → manager_remove_publisher m env name actor = (m', r) →
  in_step b m' ∧ content_steps b (rm_content m) (rm_content m').
Proof.
  intros Hin. pose proof Hin as [Hb Hboth Hj]. unfold manager_remove_publisher.
  destruct (send_content _ _ _) as [c|e] eqn:Hs; [|by intros [= <- _]].
  apply send_content_exec in Hs. rewrite exec_remove in Hs.
  unfold send_access, ra_process_command, ra_remove_publisher, has_publisher. cbn [sc_details sent_command_new rm_access].
  case_bool_decide as Hhas; simpl.
  - intros [= <- _]. simpl. apply Hboth in Hhas as [co Hco]. rewrite Hco in Hs. split; [split; simpl|].
    + done.
    + intros p. rewrite Hs. simpl. rewrite !lookup_delete. case_decide; [split; by intros []|apply Hboth].
    + intros p pub. rewrite lookup_delete. case_decide; [done|apply Hj].
    + rewrite Hs. apply rtc_once. pose proof (exec_remove (rm_content m) env default_handle name) as He.
      rewrite Hco in He. rewrite <-He. by apply rs_remove.
  - intros [= <- _]. simpl. assert (publishers (rm_content m) !! name = None) as Hnone.
    { apply eq_None_not_Some. by rewrite <-Hboth. }
    rewrite Hnone in Hs. subst c. split; [|done]. by destruct m.
Qed.

Lemma message_step b m m' env name query r :
  in_step b m → rfc8181_message m env name query = (m', r) →
  in_step b m' ∧ content_steps b (rm_content m) (rm_content m').
Proof.
  intros Hin. pose proof Hin as [Hb Hboth Hj]. destruct query as [|delta]; simpl; [by intros [= <- _]|].
  unfold manager_publish, get_publisher.
  destruct (ra_publishers (rm_access m) !! name) as [pub|] eqn:Hpub; simpl; [|by intros [= <- _]].
  destruct (proxy_publish _ _ _ _ _) as [cmd|e] eqn:Hv; [|by intros [= <- _]].
  destruct (send_content _ _ _) as [c|e] eqn:Hs; [|by intros [= <- _]].
  intros [= <- _]. apply send_content_exec in Hs. subst c. rewrite (Hj _ _ Hpub) in Hv.
  split; [split; simpl; [done| |done]|].
  - intros p. apply proxy_publish_Ok in Hv as (co&Hp&->&_). rewrite Hboth. symmetry. by eapply publish_keys.
  - apply rtc_once. by eapply rs_publish.
Qed.

Lemma update_rrdp_step b m m' env cfg r :
  in_step b m → (serial (rrdp (rm_content m)) < u64_max)%N →
  manager_update_rrdp_if_needed m env cfg = (m', r) →
  in_step b m' ∧ content_steps b (rm_content m) (rm_content m').
Proof.
  intros Hin Hlt. pose proof Hin as [Hb Hboth Hj]. unfold manager_update_rrdp_if_needed.
  destruct (update_rrdp_needed _ _ _); [|by intros [= <- _]..].
  destruct (send_content _ _ _) as [c|e] eqn:Hs; [|by intros [= <- _]]. intros [= <- _].
  apply send_content_exec in Hs. split; [split; simpl; [done| |done]|].
  - intros p. rewrite Hboth, Hs. destruct (exec_rrdp (rm_content m) env default_handle cfg) as [->|[_ ->]]; done.
  - simpl. rewrite Hs. by apply rtc_once, rs_rrdp.
Qed.

Lemma session_reset_step b m m' env r :
  in_step b m → rrdp_session_reset m env = (m', r) →
  in_step b m' ∧ content_steps b (rm_content m) (rm_content m').
Proof.
  intros Hin. pose proof Hin as [Hb Hboth Hj]. unfold rrdp_session_reset. simpl. intros [= <- _].
  split; [by split|]. apply rtc_once. by apply (rs_reset _ _ _ _ (rm_content m) env default_handle).
Qed.

Lemma manager_step_in_step b m m' :
  manager_step m m' → in_step b m → in_step b m' ∧ content_steps b (rm_content m) (rm_content m').
Proof.
  intros Hstep Hin. destruct Hstep;
    eauto using create_publisher_step, remove_publisher_step, message_step, update_rrdp_step, session_reset_step.
Qed.

Lemma manager_run b m m' :
  manager_initial b m → rtc manager_step m m' →
  in_step b m' ∧ reachable (jail_of b) any_handle false true (rm_content m').
Proof.
  intros (Hb&Hp&Hi) Hrtc.
  assert (in_step b m) as Hin.
  { split; [done| |by rewrite Hp]. intros p. rewrite Hp. destruct Hi as (?&?&?&?&?&?&->). simpl.
    rewrite !lookup_empty. split; by intros []. }
  assert (in_step b m' ∧ content_steps b (rm_content m) (rm_content m')) as [Hin' Hsteps].
  { clear Hb Hp Hi. induction Hrtc as [m|m m1 m' Hstep _ IH]; [done|].
    destruct (manager_step_in_step b _ _ Hstep Hin) as [Hin1 Hs1]. destruct (IH Hin1) as [? Hs2].
    split; [done|]. by eapply rtc_trans. }
  split; [done|]. exists (rm_content m). done.
Qed.
End manager.
