(* ===== verification/Roas.v ===== *)
(** * ROA payloads and configurations ([src/src/commons/api/roas.rs])

    Prefixes, AS numbers, ROA payloads and configurations and the updates submitted through
    the API, with their text forms and the relations between them. *)

From stdpp Require Import base gmap strings list pretty.
From Stdlib Require Import Ascii.
From S2P Require Import Prelude Text.

(** What is used of the [rpki] crate: prefixes of either family, their bounds, length and texts,
    and resource sets. *)
Class PrefixApi : Type := {
  Prefix : Type;
  Prefix_eq_dec :: EqDecision Prefix;
  Prefix_countable :: Countable Prefix;
  addr : Prefix → N;
  addr_len : Prefix → N;
  pfx_min : Prefix → N;
  pfx_max : Prefix → N;
  (** [Prefix::from_v4_str] and [from_v6_str]; the texts of the address with [to_v4] and [to_v6]. *)
  from_v4_str : string → option Prefix;
  from_v6_str : string → option Prefix;
  addr_v4_str : Prefix → string;
  addr_v6_str : Prefix → string;
  ResourceSet : Type;
  contains_roa_address : ResourceSet → Prefix → option N → bool;
}.

Section roas.
Context `{PA : !PrefixApi}.

(** ** Prefixes and AS numbers *)

Inductive TypedPrefix := V4 (p : Prefix) | V6 (p : Prefix).

#[export] Instance TypedPrefix_eq_dec : EqDecision TypedPrefix.
Proof. solve_decision. Defined.
#[export] Instance TypedPrefix_countable : Countable TypedPrefix.
Proof.
  refine (inj_countable' (λ t, match t with V4 p => (true, p) | V6 p => (false, p) end)
    (λ '(b, p), if b : bool then V4 p else V6 p) _). by intros [].
Defined.

Definition prefix (self : TypedPrefix) : Prefix := match self with V4 p | V6 p => p end.
Definition tp_addr_len (self : TypedPrefix) : N := addr_len (prefix self).

Definition matches_type (self other : TypedPrefix) : bool :=
  match self, other with V4 _, V4 _ | V6 _, V6 _ => true | _, _ => false end.

Definition matching_or_less_specific (self other : TypedPrefix) : bool :=
  matches_type self other && (pfx_min (prefix self) <=? pfx_min (prefix other))%N
  && (pfx_max (prefix other) <=? pfx_max (prefix self))%N.

Definition typed_prefix_cmp (self other : TypedPrefix) : comparison :=
  match N.compare (addr (prefix self)) (addr (prefix other)) with
  | Eq => N.compare (tp_addr_len self) (tp_addr_len other)
  | o => o
  end.

Definition AsNumber : Type := N.

Inductive AuthorizationFmtError := FmtPfx (s : string) | FmtAsn (s : string) | FmtAuth (s : string) | FmtDelta (s : string).

Definition typed_prefix_display (self : TypedPrefix) : string :=
  match self with
  | V4 p => addr_v4_str p +:+ "/" +:+ pretty (addr_len p)
  | V6 p => addr_v6_str p +:+ "/" +:+ pretty (addr_len p)
  end.

Definition typed_prefix_from_str (s : string) : result AuthorizationFmtError TypedPrefix :=
  if contains s "." then V4 <$> ok_or (from_v4_str (trim s)) (FmtPfx s)
  else V6 <$> ok_or (from_v6_str (trim s)) (FmtPfx s).

Definition as_number_from_str (s : string) : result AuthorizationFmtError AsNumber :=
  let s := trim s in ok_or (parse_u32 s) (FmtAsn s).

(** ** Aggregate keys *)

Record RoaAggregateKey := mkAggregateKey { ak_asn : AsNumber; ak_group : option N }.

#[export] Instance RoaAggregateKey_eq_dec : EqDecision RoaAggregateKey.
Proof. unfold AsNumber. solve_decision. Defined.
#[export] Instance RoaAggregateKey_countable : Countable RoaAggregateKey.
Proof.
  refine (inj_countable' (λ k, (ak_asn k : N, ak_group k)) (λ '(a, g), mkAggregateKey a g) _). by intros [].
Defined.

Definition aggregate_key_display (self : RoaAggregateKey) : string :=
  match ak_group self with
  | None => "AS" +:+ pretty (ak_asn self)
  | Some nr => "AS" +:+ pretty (ak_asn self) +:+ "-" +:+ pretty nr
  end.

Definition aggregate_key_from_str (s : string) : result string RoaAggregateKey :=
  match split_on "-"%char s with
  | asn_part :: parts =>
      match strip_prefix "AS" asn_part with
      | None | Some EmptyString => Err s
      | Some asn_str =>
          asn ← map_err (λ _, s) (as_number_from_str asn_str);
          group ← match parts with
                  | group :: _ => Some <$> ok_or (parse_u32 group) s
                  | [] => Ok None
                  end;
          match parts with
          | _ :: _ :: _ => Err s
          | _ => Ok (mkAggregateKey asn group)
          end
      end
  | [] => Err s
  end.

(** ** Payloads *)

Record RoaPayload := mkRoaPayload { rp_asn : AsNumber; rp_prefix : TypedPrefix; rp_max_length : option N }.

#[export] Instance RoaPayload_eq_dec : EqDecision RoaPayload.
Proof. unfold AsNumber. solve_decision. Defined.
#[export] Instance RoaPayload_countable : Countable RoaPayload.
Proof.
  refine (inj_countable' (λ r, (rp_asn r : N, rp_prefix r, rp_max_length r))
    (λ '(a, p, m), mkRoaPayload a p m) _). by intros [].
Defined.

Definition effective_max_length (self : RoaPayload) : N :=
  match rp_max_length self with None => tp_addr_len (rp_prefix self) | Some len => len end.

Definition into_explicit_max_length (self : RoaPayload) : RoaPayload :=
  mkRoaPayload (rp_asn self) (rp_prefix self) (Some (effective_max_length self)).

(** [1u128 << (max_len - pfx_len)]: [None] when an operation overflows, on which the program
    panics unless overflow checks are off. *)
Definition nr_of_specific_prefixes (self : RoaPayload) : option N :=
  let pfx_len := tp_addr_len (rp_prefix self) in
  let max_len := effective_max_length self in
  if (max_len <? pfx_len)%N then None
  else if (128 <=? max_len - pfx_len)%N then None
  else Some (N.shiftl 1 (max_len - pfx_len)).

Definition max_length_valid (self : RoaPayload) : bool :=
  match rp_max_length self with
  | Some max_length =>
      match rp_prefix self with
      | V4 _ => (tp_addr_len (rp_prefix self) <=? max_length)%N && (max_length <=? 32)%N
      | V6 _ => (tp_addr_len (rp_prefix self) <=? max_length)%N && (max_length <=? 128)%N
      end
  | None => true
  end.

Definition roa_includes (self other : RoaPayload) : bool :=
  bool_decide (rp_asn self = rp_asn other)
  && matching_or_less_specific (rp_prefix self) (rp_prefix other)
  && (effective_max_length other <=? effective_max_length self)%N.

Definition overlaps (self other : RoaPayload) : bool :=
  matching_or_less_specific (rp_prefix self) (rp_prefix other)
  || matching_or_less_specific (rp_prefix other) (rp_prefix self).

Definition roa_payload_cmp (self other : RoaPayload) : comparison :=
  match typed_prefix_cmp (rp_prefix self) (rp_prefix other) with
  | Eq => match N.compare (effective_max_length self) (effective_max_length other) with
          | Eq => N.compare (rp_asn self) (rp_asn other)
          | o => o
          end
  | o => o
  end.

Definition roa_payload_display (self : RoaPayload) : string :=
  match rp_max_length self with
  | None => typed_prefix_display (rp_prefix self) +:+ " => " +:+ pretty (rp_asn self)
  | Some length =>
      typed_prefix_display (rp_prefix self) +:+ "-" +:+ pretty length +:+ " => " +:+ pretty (rp_asn self)
  end.

Definition roa_payload_from_str (s : string) : result AuthorizationFmtError RoaPayload :=
  let parts := split_on2 "="%char ">"%char s in
  prefix_part ← ok_or (head parts) (FmtAuth s);
  let prefix_parts := split_on "-"%char prefix_part in
  prefix_str ← ok_or (head prefix_parts) (FmtAuth s);
  prefix ← typed_prefix_from_str (trim prefix_str);
  max_length ← match prefix_parts with
               | _ :: length_str :: _ => Some <$> ok_or (parse_u8 (trim length_str)) (FmtAuth s)
               | _ => Ok None
               end;
  asn_str ← ok_or (parts !! 1) (FmtAuth s);
  if bool_decide (is_Some (parts !! 2)) then Err (FmtAuth s)
  else origin ← as_number_from_str (trim asn_str); Ok (mkRoaPayload origin prefix max_length).

(** ** Configurations and updates *)

Record RoaConfiguration := mkRoaConfiguration { rc_payload : RoaPayload; rc_comment : option string }.

Definition roa_configuration_display (self : RoaConfiguration) : string :=
  roa_payload_display (rc_payload self) +:+ match rc_comment self with Some c => " # " +:+ c | None => "" end.

Definition roa_configuration_from_str (s : string) : result AuthorizationFmtError RoaConfiguration :=
  let '(payload_part, rest) := split_once_on "#"%char s in
  payload ← roa_payload_from_str payload_part;
  Ok (mkRoaConfiguration payload (trim <$> rest)).

Definition config_explicit_max_length (self : RoaConfiguration) : RoaConfiguration :=
  mkRoaConfiguration (into_explicit_max_length (rc_payload self)) (rc_comment self).

Record RoaConfigurationUpdates := mkUpdates { upd_added : list RoaConfiguration; upd_removed : list RoaPayload }.

Definition updates_explicit_max_length (self : RoaConfigurationUpdates) : RoaConfigurationUpdates :=
  mkUpdates (config_explicit_max_length <$> upd_added self) (into_explicit_max_length <$> upd_removed self).

(** One line of the text form of updates. *)
Definition updates_line (acc : RoaConfigurationUpdates) (line : string)
    : result AuthorizationFmtError RoaConfigurationUpdates :=
  let line := trim line in
  if bool_decide (line = "") || starts_with line "#" then Ok acc
  else match strip_prefix "A:" line with
       | Some stripped =>
           auth ← roa_configuration_from_str (trim stripped);
           Ok (mkUpdates (upd_added acc ++ [auth]) (upd_removed acc))
       | None =>
           match strip_prefix "R:" line with
           | Some stripped =>
               auth ← roa_payload_from_str (trim (split_once_on "#"%char stripped).1);
               Ok (mkUpdates (upd_added acc) (upd_removed acc ++ [auth]))
           | None => Err (FmtDelta line)
           end
       end.

(** [lines()]: at line feeds, without the carriage return before them; a line feed at the end of
    the text does not start another line. *)
Definition text_lines (s : string) : list string :=
  let parts := split_on "010"%char s in
  ((λ l, default l (strip_suffix (String "013" "") l)) <$> removelast parts)
  ++ match last parts with Some EmptyString | None => [] | Some l => [l] end.

Definition updates_from_str (s : string) : result AuthorizationFmtError RoaConfigurationUpdates :=
  fold_each updates_line (mkUpdates [] []) (text_lines s).
End roas.

(** ** Text forms are read back *)

Section text.
Context `{PA : !PrefixApi}.

Definition plain_char (a : ascii) : bool :=
  negb (bool_decide (a ∈ ["-"; "="; "#"]%char)) && negb (is_space a).

(** The text of a prefix can be read, and is one word without separators. *)
Definition prefix_text_ok (t : TypedPrefix) : Prop :=
  all_chars plain_char (typed_prefix_display t) = true ∧
  typed_prefix_from_str (typed_prefix_display t) = Ok t.

Lemma plain_without c s :
  c ∈ ["-"; "="; "#"]%char → all_chars plain_char s = true → without c s = true.
Proof.
  intros Hc. apply all_chars_impl. intros a [Ha _]%andb_true_iff. apply negb_true_iff, bool_decide_eq_false in Ha.
  apply negb_true_iff, bool_decide_eq_false. by intros ->.
Qed.

Lemma plain_no_space s : all_chars plain_char s = true → no_space s = true.
Proof. apply all_chars_impl. by intros a [_ Ha]%andb_true_iff. Qed.

Lemma as_number_pretty (n : N) : (n ≤ 4294967295)%N → as_number_from_str (pretty n) = Ok n.
Proof.
  intros Hn. unfold as_number_from_str. rewrite trim_no_space by apply pretty_no_space.
  unfold parse_u32. by rewrite parse_unsigned_pretty.
Qed.

Lemma aggregate_key_read_back k :
  (ak_asn k ≤ 4294967295)%N → (∀ g, ak_group k = Some g → g ≤ 4294967295)%N →
  aggregate_key_from_str (aggregate_key_display k) = Ok k.
Proof.
  intros Ha Hg. assert (∀ n : N, pretty n ≠ "") as Hne.
  { intros n Hn. pose proof (pretty_N_digits n) as [H _]. by rewrite Hn in H. }
  assert (∀ c (n : N), without c ("AS" +:+ pretty n) = negb (bool_decide ("A"%char = c)) &&
    (negb (bool_decide ("S"%char = c)) && without c (pretty n))) as Hw.
  { intros c n. rewrite without_app. unfold without at 1. simpl. by rewrite andb_true_r, andb_assoc. }
  unfold aggregate_key_display, aggregate_key_from_str. destruct k as [asn [g|]]; cbn [ak_asn ak_group] in *.
  - rewrite <-(string_app_assoc "AS" (pretty asn)). change ("-" +:+ pretty g) with (String "-" (pretty g)).
    rewrite split_on_app by (rewrite Hw; simpl; by apply pretty_without).
    rewrite split_on_none by (by apply pretty_without). rewrite strip_prefix_app.
    destruct (pretty asn) as [|b s] eqn:Hp; [by apply Hne in Hp|]. rewrite <-Hp, as_number_pretty by done. simpl.
    unfold parse_u32. by rewrite parse_unsigned_pretty by auto.
  - rewrite split_on_none by (rewrite Hw; simpl; by apply pretty_without). rewrite strip_prefix_app.
    destruct (pretty asn) as [|b s] eqn:Hp; [by apply Hne in Hp|]. by rewrite <-Hp, as_number_pretty.
Qed.

(** The payload and what may follow it: blanks are allowed after the AS number. *)
Lemma roa_payload_read_back p (pad : string) :
  prefix_text_ok (rp_prefix p) → (rp_asn p ≤ 4294967295)%N →
  (∀ m, rp_max_length p = Some m → m ≤ 255)%N → pad = "" ∨ pad = " " →
  roa_payload_from_str (roa_payload_display p +:+ pad) = Ok p.
Proof.
  intros [Hplain Hread] Hasn Hmax Hpad. unfold roa_payload_from_str.
  set (px := typed_prefix_display (rp_prefix p)) in *.
  set (left := px +:+ match rp_max_length p with Some m => "-" +:+ pretty m | None => "" end).
  assert (roa_payload_display p +:+ pad = (left +:+ " ") +:+ String "=" (String ">" (" " +:+ pretty (rp_asn p) +:+ pad))) as Heq.
  { unfold roa_payload_display, left. fold px. destruct (rp_max_length p);
      rewrite ?string_app_assoc, ?string_app_empty; done. }
  assert (without "=" (left +:+ " ") = true) as Hleft.
  { unfold left. rewrite !without_app. rewrite (plain_without _ px) by (done || set_solver).
    destruct (rp_max_length p); [|done]. rewrite without_app, pretty_without by done. done. }
  assert (without "=" (" " +:+ pretty (rp_asn p) +:+ pad) = true) as Hright.
  { rewrite !without_app, pretty_without by done. by destruct Hpad as [->| ->]. }
  rewrite Heq, split_on2_app, split_on2_none by done. simpl.
  assert (as_number_from_str (trim (" " +:+ pretty (rp_asn p) +:+ pad)) = Ok (rp_asn p)) as Has.
  { change (" " +:+ pretty (rp_asn p) +:+ pad) with (String " " (pretty (rp_asn p) +:+ pad)). rewrite trim_leading.
    assert (trim (pretty (rp_asn p) +:+ pad) = pretty (rp_asn p)) as ->.
    { destruct Hpad as [->| ->]; [rewrite string_app_empty|rewrite trim_trailing]; apply trim_no_space, pretty_no_space. }
    by apply as_number_pretty. }
  assert (∀ s, no_space s = true → trim (s +:+ " ") = s) as Htrim.
  { intros s Hs. by rewrite trim_trailing, trim_no_space. }
  pose proof (plain_no_space px Hplain) as Hns. unfold left. destruct (rp_max_length p) as [m|] eqn:Hm.
  - rewrite string_app_assoc. change (("-" +:+ pretty m) +:+ " ") with (String "-" (pretty m +:+ " ")).
    rewrite split_on_app by (apply plain_without; [set_solver|done]).
    rewrite split_on_none.
    2: { rewrite without_app, pretty_without by done. done. }
    simpl. rewrite (trim_no_space px Hns), Hread. simpl. rewrite Htrim by apply pretty_no_space.
    unfold parse_u8. rewrite parse_unsigned_pretty by auto. simpl. rewrite Has. simpl.
    by destruct p; simpl in *; subst.
  - rewrite string_app_empty, split_on_none.
    2: { rewrite without_app, (plain_without "-" px) by (done || set_solver). done. }
    simpl. rewrite Htrim, Hread by done. simpl. rewrite Has. simpl. by destruct p; simpl in *; subst.
Qed.

Lemma roa_payload_display_plain p :
  prefix_text_ok (rp_prefix p) → without "#" (roa_payload_display p) = true.
Proof.
  intros [Hplain _]. unfold roa_payload_display.
  destruct (rp_max_length p); rewrite !without_app;
    rewrite (plain_without "#") by (done || set_solver); rewrite !pretty_without by done; done.
Qed.

Lemma roa_configuration_read_back c :
  prefix_text_ok (rp_prefix (rc_payload c)) → (rp_asn (rc_payload c) ≤ 4294967295)%N →
  (∀ m, rp_max_length (rc_payload c) = Some m → m ≤ 255)%N → (∀ s, rc_comment c = Some s → trim s = s) →
  roa_configuration_from_str (roa_configuration_display c) = Ok c.
Proof.
  intros Hp Ha Hm Hc. unfold roa_configuration_from_str, roa_configuration_display.
  pose proof (roa_payload_display_plain _ Hp) as Hplain. destruct c as [p [s|]]; simpl in *.
  - change (" # " +:+ s) with (" " +:+ String "#" (String " " s)). rewrite <-string_app_assoc, split_once_on_app.
    + rewrite roa_payload_read_back by auto. simpl. rewrite trim_leading. by rewrite (Hc s).
    + by rewrite without_app, Hplain.
  - rewrite string_app_empty, split_once_on_none by done.
    rewrite <-(string_app_empty (roa_payload_display p)). by rewrite roa_payload_read_back by auto.
Qed.
End text.
