(* ===== verification/Routes.v ===== *)
(** * Route authorizations and ROA objects ([src/src/daemon/ca/routes.rs], [ca/events.rs], [ca/certauth.rs])

    A CA keeps the authorizations its operator configured ([Routes]) and, per resource class,
    the ROA objects issued for those that it holds the prefix of ([Roas]): one object per
    authorization or, above a threshold, one object per AS number. *)

From stdpp Require Import base gmap strings list pretty.
From S2P Require Import Prelude Text Roas.

(** ** The authorizations *)

Record RouteInfo := mkRouteInfo {
  route_since : Instant;
  route_comment : option string;
  route_group : option N;
}.

Section routes.
Context `{PA : !PrefixApi, HO : !HashOrder}.

(** Errors found in an update of the authorizations. *)
Record RoaDeltaError := mkDeltaError {
  de_duplicates : list RoaConfiguration;
  de_notheld : list RoaConfiguration;
  de_unknowns : list RoaPayload;
  de_invalid_length : list RoaConfiguration;
}.

Inductive CaEvtDet :=
| RouteAuthorizationAdded (auth : RoaPayload)
| RouteAuthorizationComment (auth : RoaPayload) (comment : option string)
| RouteAuthorizationRemoved (auth : RoaPayload).

Definition Routes : Type := gmap RoaPayload RouteInfo.

Definition holds (resources : ResourceSet) (auth : RoaPayload) : bool :=
  contains_roa_address resources (prefix (rp_prefix auth)) (rp_max_length auth).

Definition routes_filter (self : Routes) (resources : ResourceSet) : Routes :=
  filter (λ kv, holds resources kv.1 = true) self.

Definition roa_configurations (self : Routes) : list RoaConfiguration :=
  (λ '(payload, info), mkRoaConfiguration payload (route_comment info)) <$> hm_iter self.

Definition routes_has (self : Routes) (auth : RoaPayload) : bool := bool_decide (is_Some (self !! auth)).
Definition routes_info (self : Routes) (auth : RoaPayload) : option RouteInfo := self !! auth.

Definition routes_add (self : Routes) (now : Instant) (auth : RoaPayload) : Routes :=
  <[auth := mkRouteInfo now None None]> self.

Definition set_comment (comment : option string) (info : RouteInfo) : RouteInfo :=
  mkRouteInfo (route_since info) comment (route_group info).

Definition routes_comment (self : Routes) (auth : RoaPayload) (comment : option string) : Routes :=
  match self !! auth with
  | Some info => <[auth := set_comment comment info]> self
  | None => self
  end.

Definition routes_remove (self : Routes) (auth : RoaPayload) : Routes * bool :=
  (delete auth self, bool_decide (is_Some (self !! auth))).

(** [sort] on payloads: stable, by [roa_payload_cmp]. *)
Fixpoint insert_payload (auth : RoaPayload) (l : list RoaPayload) : list RoaPayload :=
  match l with
  | [] => [auth]
  | b :: l => match roa_payload_cmp auth b with
              | Gt => b :: insert_payload auth l
              | _ => auth :: b :: l
              end
  end.
Definition sort_payloads (l : list RoaPayload) : list RoaPayload := foldr insert_payload [] l.

(** Adding an authorization to the aggregate of its AS number. *)
Definition push_aggregate (map : gmap RoaAggregateKey (list RoaPayload)) (auth : RoaPayload)
    : gmap RoaAggregateKey (list RoaPayload) :=
  let key := mkAggregateKey (rp_asn auth) None in
  match map !! key with
  | Some authorizations => <[key := sort_payloads (authorizations ++ [auth])]> map
  | None => <[key := [auth]]> map
  end.

Definition as_aggregates (self : Routes) : gmap RoaAggregateKey (list RoaPayload) :=
  foldl push_aggregate ∅ (hm_keys self).

(** ** Updating the authorizations *)

Definition no_delta_errors : RoaDeltaError := mkDeltaError [] [] [] [].

Definition delta_errors_is_empty (self : RoaDeltaError) : bool :=
  bool_decide (de_duplicates self = [] ∧ de_notheld self = [] ∧ de_unknowns self = [] ∧ de_invalid_length self = []).

(** The state of [update_authorizations]: desired routes, errors and event details. *)
Record UpdateState := mkUpdateState {
  us_routes : Routes;
  us_errors : RoaDeltaError;
  us_events : list CaEvtDet;
}.

Definition update_removed (st : UpdateState) (auth : RoaPayload) : UpdateState :=
  let '(routes, removed) := routes_remove (us_routes st) auth in
  if removed : bool
  then mkUpdateState routes (us_errors st) (us_events st ++ [RouteAuthorizationRemoved auth])
  else
    let e := us_errors st in
    mkUpdateState routes
      (mkDeltaError (de_duplicates e) (de_notheld e) (de_unknowns e ++ [auth]) (de_invalid_length e)) (us_events st).

Definition update_added (all_resources : ResourceSet) (now : Instant) (st : UpdateState) (c : RoaConfiguration)
    : UpdateState :=
  let auth := rc_payload c in
  let comment := rc_comment c in
  let e := us_errors st in
  let with_errors e := mkUpdateState (us_routes st) e (us_events st) in
  if negb (max_length_valid auth)
  then with_errors (mkDeltaError (de_duplicates e) (de_notheld e) (de_unknowns e) (de_invalid_length e ++ [c]))
  else if negb (holds all_resources auth)
  then with_errors (mkDeltaError (de_duplicates e) (de_notheld e ++ [c]) (de_unknowns e) (de_invalid_length e))
  else match routes_info (us_routes st) auth with
       | Some info =>
           if negb (bool_decide (route_comment info = comment))
           then mkUpdateState (us_routes st) e (us_events st ++ [RouteAuthorizationComment auth comment])
           else with_errors (mkDeltaError (de_duplicates e ++ [c]) (de_notheld e) (de_unknowns e) (de_invalid_length e))
       | None =>
           let events := us_events st ++ [RouteAuthorizationAdded auth] in
           let routes := routes_add (us_routes st) now auth in
           match comment with
           | Some _ =>
               mkUpdateState (routes_comment routes auth comment) e (events ++ [RouteAuthorizationComment auth comment])
           | None => mkUpdateState routes e events
           end
       end.

Definition update_authorizations (self : Routes) (all_resources : ResourceSet) (now : Instant)
    (updates : RoaConfigurationUpdates) : result RoaDeltaError (Routes * list CaEvtDet) :=
  let st := mkUpdateState self no_delta_errors [] in
  let st := foldl update_removed st (upd_removed updates) in
  let st := foldl (update_added all_resources now) st (upd_added updates) in
  if negb (delta_errors_is_empty (us_errors st)) then Err (us_errors st) else Ok (us_routes st, us_events st).

(** [route_authorizations_update], as far as the authorizations go; ROAs are then issued for the
    desired routes in every resource class ([roas_update]). *)
Definition route_authorizations_update (self : Routes) (all_resources : ResourceSet) (now : Instant)
    (route_auth_updates : RoaConfigurationUpdates) : result RoaDeltaError (Routes * list CaEvtDet) :=
  update_authorizations self all_resources now (updates_explicit_max_length route_auth_updates).

(** What the events do to the CA's authorizations ([CertAuth::apply]). *)
Definition apply_route_event (now : Instant) (self : Routes) (e : CaEvtDet) : Routes :=
  match e with
  | RouteAuthorizationAdded auth => routes_add self now auth
  | RouteAuthorizationComment auth comment => routes_comment self auth comment
  | RouteAuthorizationRemoved auth => (routes_remove self auth).1
  end.
End routes.

(** ** ROA objects *)

Section objects.
Context `{PA : !PrefixApi, HO : !HashOrder}.
(** A signed ROA with its certificate, and when that expires. *)
Context {Roa : Type} (roa_expires : Roa → Instant) {SignError : Type}.
(** [KrillSigner::sign_roa]: the AS number, the addresses and the name of the object. *)
Variable sign_roa : AsNumber → list (TypedPrefix * option N) → string → result SignError Roa.
(** [hex::encode] *)
Variable hex_encode : string → string.

Record RoaInfo := mkRoaInfo { ri_authorizations : list RoaPayload; ri_roa : Roa }.

Record Roas := mkRoas { simple : gmap RoaPayload RoaInfo; aggregate : gmap RoaAggregateKey RoaInfo }.

Record RoaUpdates := mkRoaUpdates {
  ru_updated : gmap RoaPayload RoaInfo;
  ru_removed : list RoaPayload;
  ru_aggregate_updated : gmap RoaAggregateKey RoaInfo;
  ru_aggregate_removed : list RoaAggregateKey;
}.

Definition no_roa_updates : RoaUpdates := mkRoaUpdates ∅ [] ∅ [].
Definition contains_changes (u : RoaUpdates) : bool :=
  negb (bool_decide (ru_updated u = ∅ ∧ ru_removed u = [] ∧ ru_aggregate_updated u = ∅ ∧ ru_aggregate_removed u = [])).

(** [ObjectName] of a ROA. *)
Definition roa_name (auth : RoaPayload) : string := hex_encode (roa_payload_display auth) +:+ ".roa".
Definition aggregate_name (key : RoaAggregateKey) : string :=
  match ak_group key with
  | None => "AS" +:+ pretty (ak_asn key) +:+ ".roa"
  | Some number => "AS" +:+ pretty (ak_asn key) +:+ "-" +:+ pretty number +:+ ".roa"
  end.

Inductive RoaError := NoPrefixes | MultipleAsns | CannotSign (e : SignError).

(** What is put on the object for an authorization. *)
Definition roa_address (auth : RoaPayload) : TypedPrefix * option N :=
  if (tp_addr_len (rp_prefix auth) <? effective_max_length auth)%N
  then (rp_prefix auth, rp_max_length auth) else (rp_prefix auth, None).

Definition make_roa (authorizations : list RoaPayload) (name : string) : result RoaError Roa :=
  match authorizations with
  | [] => Err NoPrefixes
  | first :: _ =>
      if forallb (λ auth, bool_decide (rp_asn auth = rp_asn first)) authorizations
      then map_err CannotSign (sign_roa (rp_asn first) (roa_address <$> authorizations) name)
      else Err MultipleAsns
  end.

Definition make_roa_info (authorizations : list RoaPayload) (name : string) : result RoaError RoaInfo :=
  mkRoaInfo authorizations <$> make_roa authorizations name.

Definition roa_update (u : RoaUpdates) (auth : RoaPayload) (info : RoaInfo) : RoaUpdates :=
  mkRoaUpdates (<[auth := info]> (ru_updated u)) (ru_removed u) (ru_aggregate_updated u) (ru_aggregate_removed u).
Definition roa_remove (u : RoaUpdates) (auth : RoaPayload) : RoaUpdates :=
  mkRoaUpdates (ru_updated u) (ru_removed u ++ [auth]) (ru_aggregate_updated u) (ru_aggregate_removed u).
Definition roa_update_aggregate (u : RoaUpdates) (key : RoaAggregateKey) (info : RoaInfo) : RoaUpdates :=
  mkRoaUpdates (ru_updated u) (ru_removed u) (<[key := info]> (ru_aggregate_updated u)) (ru_aggregate_removed u).
Definition roa_remove_aggregate (u : RoaUpdates) (key : RoaAggregateKey) : RoaUpdates :=
  mkRoaUpdates (ru_updated u) (ru_removed u) (ru_aggregate_updated u) (ru_aggregate_removed u ++ [key]).

(** [Roas::updated] *)
Definition roas_updated (self : Roas) (u : RoaUpdates) : Roas :=
  let s := foldl (λ m '(auth, info), <[auth := info]> m) (simple self) (hm_iter (ru_updated u)) in
  let s := foldl (λ m auth, delete auth m) s (ru_removed u) in
  let a := foldl (λ m '(key, info), <[key := info]> m) (aggregate self) (hm_iter (ru_aggregate_updated u)) in
  let a := foldl (λ m key, delete key m) a (ru_aggregate_removed u) in
  mkRoas s a.

(** ROAs on which a configured authorization appears. *)
Definition matching_roa_infos (self : Roas) (config : RoaConfiguration) : list RoaInfo :=
  let payload := into_explicit_max_length (rc_payload config) in
  filter (λ info, payload ∈ ri_authorizations info) (hm_values (simple self))
  ++ filter (λ info, payload ∈ ri_authorizations info) (hm_values (aggregate self)).

Inductive RoaMode := Simple | StopAggregating | StartAggregating | Aggregate.

Definition is_currently_aggregating (self : Roas) : bool :=
  existsb (λ k, bool_decide (ak_group k = None)) (hm_keys (aggregate self)).

Definition roa_mode (self : Roas) (total de_aggregation_threshold aggregation_threshold : nat) : RoaMode :=
  if bool_decide (total = 0) then
    if is_currently_aggregating self then Aggregate else Simple
  else if is_currently_aggregating self then
    if bool_decide (total < de_aggregation_threshold) then StopAggregating else Aggregate
  else if bool_decide (aggregation_threshold < total) then StartAggregating else Simple.

(** Issuing a ROA for an authorization that has none. *)
Definition add_simple (self : Roas) (u : RoaUpdates) (auth : RoaPayload) : result RoaError RoaUpdates :=
  if bool_decide (is_Some (simple self !! auth)) then Ok u
  else info ← make_roa_info [auth] (roa_name auth); Ok (roa_update u auth info).

Definition update_simple (self : Roas) (relevant_routes : Routes) : result RoaError RoaUpdates :=
  u ← fold_each (add_simple self) no_roa_updates (hm_keys relevant_routes);
  Ok (foldl (λ u auth, if routes_has relevant_routes auth then u else roa_remove u auth) u (hm_keys (simple self))).

Definition update_stop_aggregating (self : Roas) (relevant_routes : Routes) : result RoaError RoaUpdates :=
  u ← update_simple self relevant_routes;
  Ok (foldl roa_remove_aggregate u (hm_keys (aggregate self))).

(** Issuing or replacing the ROA of an aggregate, unless it has the same authorizations. *)
Definition add_aggregate (self : Roas) (u : RoaUpdates) (ka : RoaAggregateKey * list RoaPayload)
    : result RoaError RoaUpdates :=
  let '(key, authorizations) := ka in
  let issue := info ← make_roa_info authorizations (aggregate_name key); Ok (roa_update_aggregate u key info) in
  match aggregate self !! key with
  | Some existing =>
      if negb (bool_decide (authorizations = sort_payloads (ri_authorizations existing))) then issue else Ok u
  | None => issue
  end.

Definition update_aggregate (self : Roas) (relevant_routes : Routes) : result RoaError RoaUpdates :=
  let desired_aggregates := as_aggregates relevant_routes in
  u ← fold_each (add_aggregate self) no_roa_updates (hm_iter desired_aggregates);
  Ok (foldl (λ u key, if bool_decide (is_Some (desired_aggregates !! key)) then u else roa_remove_aggregate u key) u
        (hm_keys (aggregate self))).

Definition update_start_aggregating (self : Roas) (relevant_routes : Routes) : result RoaError RoaUpdates :=
  u ← update_aggregate self relevant_routes;
  Ok (foldl roa_remove u (hm_keys (simple self))).

Definition roas_update (self : Roas) (all_routes : Routes) (resources : ResourceSet)
    (roa_deaggregate_threshold roa_aggregate_threshold : nat) : result RoaError RoaUpdates :=
  let relevant_routes := routes_filter all_routes resources in
  match roa_mode self (size relevant_routes) roa_deaggregate_threshold roa_aggregate_threshold with
  | Simple => update_simple self relevant_routes
  | StopAggregating => update_stop_aggregating self relevant_routes
  | StartAggregating => update_start_aggregating self relevant_routes
  | Aggregate => update_aggregate self relevant_routes
  end.

(** Renewing one ROA. *)
Definition renew_simple (force : bool) (threshold : Instant) (u : RoaUpdates) (ai : RoaPayload * RoaInfo)
    : result RoaError RoaUpdates :=
  let '(auth, info) := ai in
  if force || bool_decide (roa_expires (ri_roa info) < threshold)%Z
  then info ← make_roa_info [auth] (roa_name auth); Ok (roa_update u auth info)
  else Ok u.
Definition renew_aggregate (force : bool) (threshold : Instant) (u : RoaUpdates) (ki : RoaAggregateKey * RoaInfo)
    : result RoaError RoaUpdates :=
  let '(key, info) := ki in
  if force || bool_decide (roa_expires (ri_roa info) < threshold)%Z
  then info ← make_roa_info (ri_authorizations info) (aggregate_name key); Ok (roa_update_aggregate u key info)
  else Ok u.

Definition roas_renew (self : Roas) (force : bool) (renew_threshold : Instant) : result RoaError RoaUpdates :=
  u ← fold_each (renew_simple force renew_threshold) no_roa_updates (hm_iter (simple self));
  fold_each (renew_aggregate force renew_threshold) u (hm_iter (aggregate self)).
End objects.
