(* ===== verification/RouteFacts.v ===== *)
(** * Facts about route authorizations and ROA objects

    What updating authorizations and issuing ROAs do, in terms of the maps. *)

From stdpp Require Import base gmap strings list sorting.
From S2P Require Import Prelude Text Roas Routes.

(** ** Folds over maps *)

Section folds.
Context `{HO : !HashOrder} `{Countable K} {V : Type}.
Implicit Types (m : gmap K V).

Lemma foldl_insert_lookup (l : list (K * V)) m k :
  NoDup l.*1 →
  foldl (λ m '(k, v), <[k := v]> m) m l !! k =
    match (list_to_map l : gmap K V) !! k with Some v => Some v | None => m !! k end.
Proof.
  revert m. induction l as [|[k0 v0] l IH]; intros m Hnd; simpl; [by rewrite lookup_empty|].
  apply NoDup_cons in Hnd as [Hn Hnd]. rewrite IH by done. rewrite lookup_insert. case_decide as Hk.
  - subst. assert ((list_to_map l : gmap K V) !! k = None) as -> by (by apply not_elem_of_list_to_map_1).
    by rewrite lookup_insert_eq.
  - by rewrite lookup_insert_ne.
Qed.

Lemma foldl_insert_hm (u m : gmap K V) k :
  foldl (λ m '(k, v), <[k := v]> m) m (hm_iter u) !! k = match u !! k with Some v => Some v | None => m !! k end.
Proof.
  rewrite foldl_insert_lookup by apply NoDup_hm_keys.
  rewrite (list_to_map_proper _ (map_to_list u)); [by rewrite list_to_map_to_list|apply NoDup_hm_keys|apply hm_iter_perm].
Qed.

End folds.

(** The result of a fold that may fail, when each step can be done. *)
Lemma fold_each_total {E A S} (f : S → A → result E S) l s :
  (∀ s x, x ∈ l → ∃ s', f s x = Ok s') → ∃ s', fold_each f s l = Ok s'.
Proof.
  revert s. induction l as [|x l IH]; intros s Hf; simpl; [eauto|].
  destruct (Hf s x) as [s' ->]; [by left|]. apply IH. intros s0 y Hy. apply Hf. by right.
Qed.

(** ** Sorting *)

Section sorting.
Context `{PA : !PrefixApi, HO : !HashOrder}.

Lemma insert_payload_perm a l : insert_payload a l ≡ₚ a :: l.
Proof.
  induction l as [|b l IH]; simpl; [done|]. destruct (roa_payload_cmp a b); [done|done|].
  rewrite IH. apply Permutation_swap.
Qed.

Lemma sort_payloads_perm l : sort_payloads l ≡ₚ l.
Proof. induction l as [|a l IH]; simpl; [done|]. by rewrite insert_payload_perm, IH. Qed.

(** The order of payloads; payloads that are not equal may compare as equal. *)
Definition payload_le (a b : RoaPayload) : Prop := roa_payload_cmp a b ≠ Gt.

Lemma roa_payload_cmp_opp a b : roa_payload_cmp b a = CompOpp (roa_payload_cmp a b).
Proof.
  unfold roa_payload_cmp, typed_prefix_cmp.
  rewrite (N.compare_antisym (addr (prefix (rp_prefix a)))), (N.compare_antisym (tp_addr_len (rp_prefix a))),
    (N.compare_antisym (effective_max_length a)), (N.compare_antisym (rp_asn a)).
  by repeat match goal with |- context [N.compare ?x ?y] => destruct (N.compare x y) end.
Qed.

#[export] Instance payload_le_trans : Transitive payload_le.
Proof.
  intros a b c. unfold payload_le, roa_payload_cmp, typed_prefix_cmp.
  repeat match goal with |- context [N.compare ?x ?y] => destruct (N.compare_spec x y) end; intros; try done; lia.
Qed.

Lemma payload_le_antisym a b : payload_le a b → payload_le b a → roa_payload_cmp a b = Eq.
Proof. unfold payload_le. rewrite (roa_payload_cmp_opp a b). by destruct (roa_payload_cmp a b). Qed.

Lemma insert_payload_sorted a l : Sorted payload_le l → Sorted payload_le (insert_payload a l).
Proof.
  induction l as [|b l IH]; intros Hl; simpl; [by repeat constructor|].
  destruct (roa_payload_cmp a b) eqn:Hab;
    [by constructor; [|constructor; unfold payload_le; rewrite Hab]..|].
  apply Sorted_inv in Hl as [Hl Hb]. constructor; [by apply IH|].
  assert (payload_le b a) as Hba by (unfold payload_le; by rewrite (roa_payload_cmp_opp a b), Hab).
  destruct l as [|c l]; simpl; [by constructor|]. apply HdRel_inv in Hb. by destruct (roa_payload_cmp a c); constructor.
Qed.

Lemma sort_payloads_sorted l : StronglySorted payload_le (sort_payloads l).
Proof.
  apply Sorted_StronglySorted; [apply payload_le_trans|].
  induction l as [|a l IH]; simpl; [constructor|by apply insert_payload_sorted].
Qed.

(** Sorted lists of the same payloads are equal when no two of the payloads compare as equal. *)
Lemma payloads_sorted_unique l l' :
  (∀ a b, a ∈ l → b ∈ l → roa_payload_cmp a b = Eq → a = b) →
  StronglySorted payload_le l → StronglySorted payload_le l' → l ≡ₚ l' → l = l'.
Proof.
  intros Heq Hl Hl' Hp. apply (StronglySorted_unique_strong payload_le); try done.
  intros a b Ha Hb ? ?. apply Heq; [done|by rewrite Hp|by apply payload_le_antisym].
Qed.

(** ** Aggregates *)

Definition same_asn (asn : AsNumber) (a : RoaPayload) : Prop := rp_asn a = asn.
#[local] Instance same_asn_dec asn a : Decision (same_asn asn a).
Proof. unfold same_asn, AsNumber in *. apply _. Defined.

(** The authorizations of each AS number among those in a list. *)
Definition aggregates_of (l : list RoaPayload) (m : gmap RoaAggregateKey (list RoaPayload)) : Prop :=
  ∀ key, match m !! key with
         | Some auths => ak_group key = None ∧ auths ≡ₚ filter (same_asn (ak_asn key)) l ∧ auths ≠ []
         | None => ak_group key = None → filter (same_asn (ak_asn key)) l = []
         end.

Lemma push_aggregate_of l m a :
  aggregates_of l m → aggregates_of (l ++ [a]) (push_aggregate m a).
Proof.
  intros Hm key. pose proof (Hm key) as Hkey. unfold push_aggregate.
  set (k := mkAggregateKey (rp_asn a) None). pose proof (Hm k) as Hk.
  rewrite filter_app, filter_cons, filter_nil.
  destruct (decide (key = k)) as [->|Hne].
  - simpl. rewrite decide_True by done. destruct (m !! k) as [auths|] eqn:Hl; rewrite lookup_insert_eq.
    + destruct Hk as (_&Hp&_). split; [done|]. split; [|].
      * rewrite sort_payloads_perm, Hp. done.
      * intros Hn%(f_equal length). rewrite (Permutation_length (sort_payloads_perm _)), length_app in Hn. simpl in Hn. lia.
    + split; [done|]. simpl in Hk. rewrite Hk by done. by split.
  - assert (match m !! k with Some au => <[k := sort_payloads (au ++ [a])]> m | None => <[k := [a]]> m end !! key
      = m !! key) as ->.
    { destruct (m !! k); rewrite lookup_insert_ne; congruence. }
    destruct (m !! key) as [auths|] eqn:Hl.
    + destruct Hkey as (Hg&Hp&Hn). rewrite decide_False; [by rewrite app_nil_r|].
      intros Hs. apply Hne. unfold k. rewrite Hs. destruct key; simpl in *; by subst.
    + intros Hg. rewrite (Hkey Hg). rewrite decide_False; [done|].
      intros Hs. apply Hne. unfold k. rewrite Hs. destruct key; simpl in *; by subst.
Qed.

Lemma push_aggregates_of l l0 m :
  aggregates_of l0 m → aggregates_of (l0 ++ l) (foldl push_aggregate m l).
Proof.
  revert l0 m. induction l as [|a l IH]; intros l0 m Hm; simpl; [by rewrite app_nil_r|].
  rewrite cons_middle, app_assoc. apply IH. by apply push_aggregate_of.
Qed.

Lemma as_aggregates_of (r : Routes) : aggregates_of (hm_keys r) (as_aggregates r).
Proof. apply (push_aggregates_of _ []). intros key. by rewrite lookup_empty. Qed.

Lemma as_aggregates_sorted r k auths : as_aggregates r !! k = Some auths → StronglySorted payload_le auths.
Proof.
  unfold as_aggregates. cut (map_Forall (λ _, StronglySorted payload_le) (foldl push_aggregate ∅ (hm_keys r))).
  { intros H. apply H. }
  assert (map_Forall (λ (_ : RoaAggregateKey), StronglySorted payload_le) ∅) as H by apply map_Forall_empty.
  revert H. generalize (∅ : gmap RoaAggregateKey (list RoaPayload)).
  induction (hm_keys r) as [|a l IH]; intros m Hm; simpl; [done|]. apply IH. unfold push_aggregate.
  destruct (m !! _); apply map_Forall_insert_2; try done; [apply sort_payloads_sorted|by repeat constructor].
Qed.

Lemma routes_filter_is_Some all resources x :
  is_Some (routes_filter all resources !! x) ↔ is_Some (all !! x) ∧ holds resources x = true.
Proof.
  pose proof (λ i, map_lookup_filter_Some (λ kv, holds resources kv.1 = true) all x i) as Hl. simpl in Hl.
  unfold routes_filter. split.
  - intros [i Hi]. apply Hl in Hi as [? ?]. eauto.
  - intros [[i Hi] ?]. exists i. by apply Hl.
Qed.

(** The aggregate of a key holds exactly the routes of its AS number. *)
Lemma as_aggregates_Some r key auths :
  as_aggregates r !! key = Some auths →
  ak_group key = None ∧ auths ≠ [] ∧ ∀ a, a ∈ auths ↔ is_Some (r !! a) ∧ rp_asn a = ak_asn key.
Proof.
  intros Hl. pose proof (as_aggregates_of r key) as Hk. rewrite Hl in Hk. destruct Hk as (Hg&Hp&Hn).
  split; [done|]. split; [done|]. intros a. rewrite Hp, list_elem_of_filter, elem_of_hm_keys. unfold same_asn. tauto.
Qed.

Lemma as_aggregates_route r a : is_Some (r !! a) → is_Some (as_aggregates r !! mkAggregateKey (rp_asn a) None).
Proof.
  intros Ha. pose proof (as_aggregates_of r (mkAggregateKey (rp_asn a) None)) as Hk.
  destruct (as_aggregates r !! _); [by eexists|]. exfalso. simpl in Hk. specialize (Hk eq_refl).
  assert (a ∈ filter (same_asn (rp_asn a)) (hm_keys r)) as Hin.
  { apply list_elem_of_filter. split; [done|]. by apply elem_of_hm_keys. }
  rewrite Hk in Hin. by apply elem_of_nil in Hin.
Qed.
End sorting.

(** ** Issuing ROAs *)

Lemma fold_each_ind {E A S} (P : list A → S → Prop) (f : S → A → result E S) l s s' :
  (∀ l s x s', P l s → f s x = Ok s' → P (l ++ [x]) s') →
  P [] s → fold_each f s l = Ok s' → P l s'.
Proof.
  intros Hstep. cut (∀ l0 s, P l0 s → fold_each f s l = Ok s' → P (l0 ++ l) s').
  { intros H. apply (H []). }
  induction l as [|x l IH]; intros l0 s0 H0 Hf; simpl in Hf; [inv_ok; by rewrite app_nil_r|].
  destruct (f s0 x) eqn:Hx; [|done]. rewrite cons_middle, app_assoc. eapply IH; eauto.
Qed.

Section objects.
Context `{PA : !PrefixApi, HO : !HashOrder}.
Context {Roa : Type} {SignError : Type}.
Variable sign_roa : AsNumber → list (TypedPrefix * option N) → string → result SignError Roa.
Variable hex_encode : string → string.
(** What a ROA attests: its AS number and addresses. *)
Variable roa_content : Roa → AsNumber * list (TypedPrefix * option N).
Hypothesis sign_roa_content : ∀ asn addrs name roa,
  sign_roa asn addrs name = Ok roa → roa_content roa = (asn, addrs).

Local Abbreviation RoaInfo := (@RoaInfo PA Roa).
Local Abbreviation Roas := (@Roas PA Roa).
Local Abbreviation RoaUpdates := (@RoaUpdates PA Roa).

Local Ltac ru_simpl := cbn [ru_updated ru_removed ru_aggregate_updated ru_aggregate_removed].

(** A ROA object attests the authorizations recorded with it, which are of one AS number. *)
Definition info_ok (asn : AsNumber) (info : RoaInfo) : Prop :=
  ri_authorizations info ≠ [] ∧ (∀ a, a ∈ ri_authorizations info → rp_asn a = asn) ∧
  roa_content (ri_roa info) = (asn, roa_address <$> ri_authorizations info).

Definition simple_ok (auth : RoaPayload) (info : RoaInfo) : Prop :=
  ri_authorizations info = [auth] ∧ info_ok (rp_asn auth) info.
Definition aggregate_ok (key : RoaAggregateKey) (info : RoaInfo) : Prop :=
  ak_group key = None ∧ info_ok (ak_asn key) info.

(** Well-formed ROA objects: an object is kept under what it attests, and objects per
    authorization and per AS number are not mixed. *)
Definition roas_inv (self : Roas) : Prop :=
  map_Forall simple_ok (simple self) ∧ map_Forall aggregate_ok (aggregate self) ∧
  (simple self = ∅ ∨ aggregate self = ∅).

Lemma make_roa_info_ok auths name info asn :
  make_roa_info sign_roa auths name = Ok info → (∀ a, a ∈ auths → rp_asn a = asn) →
  ri_authorizations info = auths ∧ info_ok asn info.
Proof.
  unfold make_roa_info, make_roa. intros Hi Hasn. destruct auths as [|a0 auths]; [done|].
  destruct (forallb _ _); [|done].
  destruct (sign_roa _ _ _) as [roa|] eqn:Hs; simpl in Hi; simplify_eq. simpl. split; [done|].
  split_and!; [done|done|]. simpl. rewrite (sign_roa_content _ _ _ _ Hs). by rewrite (Hasn a0) by (by left).
Qed.

Lemma make_roa_info_total auths name :
  (∀ asn addrs name, ∃ roa, sign_roa asn addrs name = Ok roa) →
  auths ≠ [] → (∀ a b, a ∈ auths → b ∈ auths → rp_asn a = rp_asn b) →
  ∃ info, make_roa_info sign_roa auths name = Ok info.
Proof.
  intros Hs Hn Hasn. unfold make_roa_info, make_roa. destruct auths as [|a0 auths]; [done|].
  assert (forallb (λ auth, bool_decide (rp_asn auth = rp_asn a0)) (a0 :: auths) = true) as ->.
  { apply forallb_forall. intros a Ha%list_elem_of_In. apply bool_decide_eq_true, Hasn; [done|by left]. }
  destruct (Hs (rp_asn a0) (roa_address <$> a0 :: auths) name) as [roa ->]. simpl. eauto.
Qed.

(** What [roas_updated] does to each entry. *)
Lemma updated_simple (self : Roas) u a :
  simple (roas_updated self u) !! a =
    if decide (a ∈ ru_removed u) then None
    else match ru_updated u !! a with Some i => Some i | None => simple self !! a end.
Proof. unfold roas_updated. simpl. by rewrite foldl_delete_lookup, foldl_insert_hm. Qed.

Lemma updated_aggregate (self : Roas) u k :
  aggregate (roas_updated self u) !! k =
    if decide (k ∈ ru_aggregate_removed u) then None
    else match ru_aggregate_updated u !! k with Some i => Some i | None => aggregate self !! k end.
Proof. unfold roas_updated. simpl. by rewrite foldl_delete_lookup, foldl_insert_hm. Qed.

Lemma foldl_roa_remove (P : RoaPayload → bool) l (u : RoaUpdates) :
  foldl (λ u a, if P a then u else roa_remove u a) u l =
    mkRoaUpdates (ru_updated u) (ru_removed u ++ filter (λ a, P a = false) l)
      (ru_aggregate_updated u) (ru_aggregate_removed u).
Proof.
  revert u. induction l as [|a l IH]; intros u; simpl; [by destruct u; rewrite app_nil_r|].
  rewrite IH, filter_cons. destruct (P a); simpl; [done|]. by rewrite <-app_assoc.
Qed.

Lemma foldl_roa_remove_aggregate (P : RoaAggregateKey → bool) l (u : RoaUpdates) :
  foldl (λ u a, if P a then u else roa_remove_aggregate u a) u l =
    mkRoaUpdates (ru_updated u) (ru_removed u)
      (ru_aggregate_updated u) (ru_aggregate_removed u ++ filter (λ a, P a = false) l).
Proof.
  revert u. induction l as [|a l IH]; intros u; simpl; [by destruct u; rewrite app_nil_r|].
  rewrite IH, filter_cons. destruct (P a); simpl; [done|]. by rewrite <-app_assoc.
Qed.

(** What the loop over the routes has done when it got through [l]: a ROA for each route that
    had none. *)
Definition simple_issued (self : Roas) (l : list RoaPayload) (u : RoaUpdates) : Prop :=
  ru_removed u = [] ∧ ru_aggregate_updated u = ∅ ∧ ru_aggregate_removed u = [] ∧
  ∀ a, match ru_updated u !! a with
       | Some i => a ∈ l ∧ simple self !! a = None ∧ simple_ok a i
       | None => a ∈ l → is_Some (simple self !! a)
       end.

Lemma add_simple_fold (self : Roas) l u :
  fold_each (add_simple sign_roa hex_encode self) no_roa_updates l = Ok u → simple_issued self l u.
Proof.
  apply fold_each_ind; [|split_and!; try done; intros a; simpl; rewrite lookup_empty; set_solver].
  clear -sign_roa_content. intros l0 u0 x u' (Hr&Hau&Har&Hu) Hx. unfold add_simple in Hx. case_bool_decide as Hs; inv_ok.
  - split_and!; try done. intros a. specialize (Hu a). destruct (ru_updated u' !! a); [set_solver|].
    intros [?| ->%list_elem_of_singleton]%elem_of_app; auto.
  - split_and!; try done. intros a. simpl. rewrite lookup_insert. case_decide as Ha.
    + subst. split; [set_solver|]. split; [by apply eq_None_not_Some|].
      apply (make_roa_info_ok _ _ _ (rp_asn a)) in H; [by destruct H|set_solver].
    + specialize (Hu a). destruct (ru_updated u0 !! a); [set_solver|].
      intros [?| ?%list_elem_of_singleton]%elem_of_app; [auto|congruence].
Qed.

Lemma update_simple_spec (self : Roas) r u :
  map_Forall simple_ok (simple self) → update_simple sign_roa hex_encode self r = Ok u →
  let self' := roas_updated self u in
  ru_aggregate_updated u = ∅ ∧ ru_aggregate_removed u = [] ∧
  map_Forall simple_ok (simple self') ∧ ∀ a, is_Some (simple self' !! a) ↔ is_Some (r !! a).
Proof.
  intros Hok Hf self'. unfold update_simple in Hf. inv_ok. destruct (add_simple_fold _ _ _ H) as (Hr&Hau&Har&Hu).
  subst self'. rewrite foldl_roa_remove. ru_simpl. rewrite Hr, Hau, Har. split_and!; [done|done| |].
  - intros a i. rewrite updated_simple. ru_simpl. case_decide; [done|]. specialize (Hu a).
    destruct (ru_updated x !! a); [naive_solver|]. apply Hok.
  - intros a. rewrite updated_simple. ru_simpl. specialize (Hu a). case_decide as Hin.
    + apply list_elem_of_filter in Hin as [Hn _]. unfold routes_has in Hn. apply bool_decide_eq_false in Hn.
      split; [by intros []|done].
    + destruct (ru_updated x !! a); rewrite elem_of_hm_keys in Hu; [split; [naive_solver|done]|]. split; [|auto]. intros Hs.
      destruct (decide (is_Some (r !! a))) as [|Hn]; [done|]. destruct Hin. apply list_elem_of_filter. split.
      * by apply bool_decide_eq_false.
      * by apply elem_of_hm_keys.
Qed.
(** The loop over the aggregates: a ROA for each that had none for these authorizations. *)
Definition aggregates_issued (self : Roas) (l : list (RoaAggregateKey * list RoaPayload)) (u : RoaUpdates) : Prop :=
  ru_updated u = ∅ ∧ ru_removed u = [] ∧ ru_aggregate_removed u = [] ∧
  ∀ k, match ru_aggregate_updated u !! k with
       | Some i => (k, ri_authorizations i) ∈ l ∧ ∃ name, make_roa_info sign_roa (ri_authorizations i) name = Ok i
       | None => ∀ auths, (k, auths) ∈ l →
           ∃ e, aggregate self !! k = Some e ∧ auths = sort_payloads (ri_authorizations e)
       end.

Lemma make_roa_info_auths auths name i : make_roa_info sign_roa auths name = Ok i → ri_authorizations i = auths.
Proof. unfold make_roa_info. destruct (make_roa _ _ _); simpl; intros; by simplify_eq. Qed.

(** Recording the new ROA of an aggregate keeps the loop's progress. *)
Lemma aggregates_issued_one self l u k auths name i :
  aggregates_issued self l u → make_roa_info sign_roa auths name = Ok i →
  aggregates_issued self (l ++ [(k, auths)]) (roa_update_aggregate u k i).
Proof.
  intros (Hu&Hr&Har&Hk) Hi. split_and!; try done. intros k'. simpl. rewrite lookup_insert. case_decide as Hd.
  - subst k'. rewrite (make_roa_info_auths _ _ _ Hi). split; [set_solver|eauto].
  - specialize (Hk k'). destruct (ru_aggregate_updated u !! k') as [i'|]; [set_solver|].
    intros auths' [?|?%list_elem_of_singleton]%elem_of_app; [auto|congruence].
Qed.

Lemma add_aggregate_fold (self : Roas) l u :
  fold_each (add_aggregate sign_roa self) no_roa_updates l = Ok u → aggregates_issued self l u.
Proof.
  apply fold_each_ind; [|split_and!; try done; intros a; simpl; rewrite lookup_empty; set_solver].
  intros l0 u0 [k auths] u' Hl0 Hx. unfold add_aggregate in Hx.
  destruct (aggregate self !! k) as [e|] eqn:He; [case_bool_decide as Hs; simpl in Hx|]; inv_ok;
    try (by eapply aggregates_issued_one).
  destruct Hl0 as (Hu&Hr&Har&Hk). split_and!; try done. intros k'. specialize (Hk k').
  destruct (ru_aggregate_updated u' !! k') as [i'|]; [set_solver|].
  intros auths' [?|?%list_elem_of_singleton]%elem_of_app; [auto|]. simplify_eq. eauto.
Qed.

Lemma update_aggregate_spec (self : Roas) r u :
  map_Forall aggregate_ok (aggregate self) → update_aggregate sign_roa self r = Ok u →
  let self' := roas_updated self u in
  ru_updated u = ∅ ∧ ru_removed u = [] ∧ map_Forall aggregate_ok (aggregate self') ∧
  ∀ k, match as_aggregates r !! k with
       | Some auths => ∃ i, aggregate self' !! k = Some i ∧
           (auths = ri_authorizations i ∨ auths = sort_payloads (ri_authorizations i))
       | None => aggregate self' !! k = None
       end.
Proof.
  intros Hok Hf self'. unfold update_aggregate in Hf. inv_ok. destruct (add_aggregate_fold _ _ _ H) as (Hu&Hr&Har&Hk).
  subst self'. rewrite foldl_roa_remove_aggregate. ru_simpl. rewrite Hr, Hu, Har. split_and!; [done|done| |].
  - intros k i. rewrite updated_aggregate. ru_simpl. case_decide; [done|]. specialize (Hk k).
    destruct (ru_aggregate_updated x !! k) as [i'|]; [|apply Hok]. intros [= ->].
    destruct Hk as [Hin%elem_of_hm_iter [name Hi]].
    apply as_aggregates_Some in Hin as (Hg&_&Hin). split; [done|].
    eapply (make_roa_info_ok _ _ _ (ak_asn k)) in Hi; [by destruct Hi|]. intros a Ha. by apply Hin.
  - intros k. rewrite updated_aggregate. ru_simpl. specialize (Hk k). rewrite app_nil_l.
    destruct (as_aggregates r !! k) as [auths|] eqn:Ha.
    + rewrite decide_False.
      2: { intros [Hn _]%list_elem_of_filter. rewrite Ha in Hn. by rewrite bool_decide_true in Hn. }
      destruct (ru_aggregate_updated x !! k) as [i'|].
      * destruct Hk as [Hin%elem_of_hm_iter _]. exists i'. split; [done|]. left. congruence.
      * destruct (Hk auths) as (e&He&->); [by apply elem_of_hm_iter|]. eauto.
    + case_decide as Hd; [done|]. destruct (ru_aggregate_updated x !! k) as [i'|].
      * destruct Hk as [Hin%elem_of_hm_iter _]. congruence.
      * apply eq_None_not_Some. intros Hs. apply Hd, list_elem_of_filter. split.
        { rewrite Ha. by apply bool_decide_eq_false, is_Some_None. }
        by apply elem_of_hm_keys.
Qed.
(** ** The two arrangements of ROA objects for some routes *)

Definition simple_for (r : Routes) (self : Roas) : Prop :=
  aggregate self = ∅ ∧ map_Forall simple_ok (simple self) ∧ ∀ a, is_Some (simple self !! a) ↔ is_Some (r !! a).

Definition aggregate_for (r : Routes) (self : Roas) : Prop :=
  simple self = ∅ ∧ map_Forall aggregate_ok (aggregate self) ∧
  ∀ k, match as_aggregates r !! k with
       | Some auths => ∃ i, aggregate self !! k = Some i ∧
           (auths = ri_authorizations i ∨ auths = sort_payloads (ri_authorizations i))
       | None => aggregate self !! k = None
       end.

(** The authorization is on some ROA. *)
Definition on_roa (self : Roas) (a : RoaPayload) : Prop :=
  (∃ k i, simple self !! k = Some i ∧ a ∈ ri_authorizations i) ∨
  (∃ k i, aggregate self !! k = Some i ∧ a ∈ ri_authorizations i).

Lemma simple_for_spec r self : simple_for r self → roas_inv self ∧ ∀ a, on_roa self a ↔ is_Some (r !! a).
Proof.
  intros (Hag&Hok&Hr). split.
  { split_and!; [done| |by right]. rewrite Hag. apply map_Forall_empty. }
  intros a. unfold on_roa. rewrite <-Hr, Hag. split.
  - intros [(k&i&Hk&Hin)|(k&i&Hk&_)]; [|by rewrite lookup_empty in Hk].
    destruct (Hok _ _ Hk) as [Ha _]. rewrite Ha in Hin. apply list_elem_of_singleton in Hin as ->. eauto.
  - intros [i Hi]. left. exists a, i. split; [done|]. destruct (Hok _ _ Hi) as [-> _]. by left.
Qed.

Lemma aggregate_for_spec r self : aggregate_for r self → roas_inv self ∧ ∀ a, on_roa self a ↔ is_Some (r !! a).
Proof.
  intros (Hs&Hok&Hr). split.
  { split_and!; [|done|by left]. rewrite Hs. apply map_Forall_empty. }
  assert (∀ k auths i, as_aggregates r !! k = Some auths → aggregate self !! k = Some i →
    ∀ a, a ∈ ri_authorizations i ↔ is_Some (r !! a) ∧ rp_asn a = ak_asn k) as Hin.
  { intros k auths i Ha Hi a. pose proof (Hr k) as Hk. rewrite Ha in Hk. destruct Hk as (i'&Hi'&Hau).
    rewrite Hi in Hi'. injection Hi' as <-. apply as_aggregates_Some in Ha as (_&_&Ha). rewrite <-Ha.
    destruct Hau as [->| ->]; [done|by rewrite sort_payloads_perm]. }
  intros a. unfold on_roa. rewrite Hs. split.
  - intros [(k&i&Hk&_)|(k&i&Hk&Ha)]; [by rewrite lookup_empty in Hk|].
    destruct (as_aggregates r !! k) as [auths|] eqn:Hd.
    + by apply (Hin k auths i Hd Hk) in Ha as [? _].
    + pose proof (Hr k) as Hrk. rewrite Hd in Hrk. congruence.
  - intros Ha. right. exists (mkAggregateKey (rp_asn a) None).
    destruct (as_aggregates_route r a Ha) as [auths Hd]. pose proof (Hr (mkAggregateKey (rp_asn a) None)) as Hk.
    rewrite Hd in Hk. destruct Hk as (i&Hi&_). exists i. split; [done|]. by apply (Hin _ _ _ Hd Hi).
Qed.

(** ** The modes *)

Lemma aggregating_iff self :
  map_Forall aggregate_ok (aggregate self) → is_currently_aggregating self = true ↔ aggregate self ≠ ∅.
Proof.
  intros Hok. unfold is_currently_aggregating. rewrite existsb_exists. split.
  - intros (k&Hk%list_elem_of_In%elem_of_hm_keys&_) He. rewrite He, lookup_empty in Hk. by destruct Hk.
  - intros (k&i&Hk)%map_choose. exists k. split; [apply list_elem_of_In, elem_of_hm_keys; eauto|].
    apply bool_decide_eq_true. by destruct (Hok _ _ Hk).
Qed.

Lemma roa_mode_arrangement self total d a :
  roas_inv self →
  match roa_mode self total d a with
  | Simple => aggregate self = ∅ ∧ (total = 0 ∨ total ≤ a)
  | StopAggregating => aggregate self ≠ ∅ ∧ simple self = ∅ ∧ 0 < total < d
  | StartAggregating => aggregate self = ∅ ∧ a < total
  | Aggregate => simple self = ∅ ∧ (total = 0 ∨ d ≤ total)
  end.
Proof.
  intros (_&Hok&Hmix). pose proof (aggregating_iff self Hok) as Hag. unfold roa_mode.
  destruct (decide (aggregate self = ∅)) as [He|He], (is_currently_aggregating self);
    try (exfalso; naive_solver congruence); repeat case_bool_decide; try destruct Hmix; naive_solver lia.
Qed.

Lemma removed_all_simple (self : Roas) u :
  ru_updated u = ∅ → ru_removed u = [] → simple (roas_updated self (foldl roa_remove u (hm_keys (simple self)))) = ∅.
Proof.
  intros Hu Hr. apply map_eq. intros k. rewrite (foldl_roa_remove (λ _, false)), updated_simple. ru_simpl.
  rewrite Hr, Hu, !lookup_empty, app_nil_l. case_decide as Hd; [done|]. apply eq_None_not_Some. intros Hs.
  apply Hd, list_elem_of_filter. by rewrite elem_of_hm_keys.
Qed.

Lemma removed_all_aggregate (self : Roas) u :
  ru_aggregate_updated u = ∅ → ru_aggregate_removed u = [] →
  aggregate (roas_updated self (foldl roa_remove_aggregate u (hm_keys (aggregate self)))) = ∅.
Proof.
  intros Hu Hr. apply map_eq. intros k. rewrite (foldl_roa_remove_aggregate (λ _, false)), updated_aggregate. ru_simpl.
  rewrite Hr, Hu, !lookup_empty, app_nil_l. case_decide as Hd; [done|]. apply eq_None_not_Some. intros Hs.
  apply Hd, list_elem_of_filter. by rewrite elem_of_hm_keys.
Qed.
Lemma simple_fold_untouched (self : Roas) u : ru_updated u = ∅ → ru_removed u = [] → simple (roas_updated self u) = simple self.
Proof. intros Hu Hr. apply map_eq. intros k. rewrite updated_simple, Hu, Hr, lookup_empty. by rewrite decide_False by set_solver. Qed.

Lemma aggregate_fold_untouched (self : Roas) u :
  ru_aggregate_updated u = ∅ → ru_aggregate_removed u = [] → aggregate (roas_updated self u) = aggregate self.
Proof. intros Hu Hr. apply map_eq. intros k. rewrite updated_aggregate, Hu, Hr, lookup_empty. by rewrite decide_False by set_solver. Qed.

(** The arrangement after an update, in each mode. *)
Lemma roas_update_arrangement self all resources d a u :
  roas_inv self → roas_update sign_roa hex_encode self all resources d a = Ok u →
  let relevant := routes_filter all resources in
  match roa_mode self (size relevant) d a with
  | Simple | StopAggregating => simple_for relevant (roas_updated self u)
  | StartAggregating | Aggregate => aggregate_for relevant (roas_updated self u)
  end.
Proof.
  intros Hinv Hf relevant. pose proof (roa_mode_arrangement self (size relevant) d a Hinv) as Hmode.
  destruct Hinv as (Hs&Ha&_). unfold roas_update in Hf. fold relevant in Hf. destruct (roa_mode _ _ _ _).
  - destruct (update_simple_spec _ _ _ Hs Hf) as (Hu&Hr&Hok&Hk). split; [|done]. rewrite aggregate_fold_untouched by done. apply Hmode.
  - unfold update_stop_aggregating in Hf. inv_ok. destruct (update_simple_spec _ _ _ Hs H) as (Hu&Hr&Hok&Hk).
    split; [by apply removed_all_aggregate|].
    assert (simple (roas_updated self (foldl roa_remove_aggregate x (hm_keys (aggregate self)))) =
      simple (roas_updated self x)) as ->; [|done].
    by rewrite (foldl_roa_remove_aggregate (λ _, false)).
  - unfold update_start_aggregating in Hf. inv_ok. destruct (update_aggregate_spec _ _ _ Ha H) as (Hu&Hr&Hok&Hk).
    split; [by apply removed_all_simple|].
    assert (aggregate (roas_updated self (foldl roa_remove x (hm_keys (simple self)))) =
      aggregate (roas_updated self x)) as ->; [|done].
    by rewrite (foldl_roa_remove (λ _, false)).
  - destruct (update_aggregate_spec _ _ _ Ha Hf) as (Hu&Hr&Hok&Hk). split; [|done]. rewrite simple_fold_untouched by done. apply Hmode.
Qed.

Lemma roas_update_on_roa self all resources d a u :
  roas_inv self → roas_update sign_roa hex_encode self all resources d a = Ok u →
  roas_inv (roas_updated self u) ∧
  ∀ x, on_roa (roas_updated self u) x ↔ is_Some (all !! x) ∧ holds resources x = true.
Proof.
  intros Hinv Hf.
  assert (roas_inv (roas_updated self u) ∧
    ∀ x, on_roa (roas_updated self u) x ↔ is_Some (routes_filter all resources !! x)) as [Hinv' Hon].
  { pose proof (roas_update_arrangement _ _ _ _ _ _ Hinv Hf) as H. simpl in H.
    destruct (roa_mode _ _ _ _); first [by apply simple_for_spec|by apply aggregate_for_spec]. }
  split; [done|]. intros x. by rewrite Hon, routes_filter_is_Some.
Qed.

(** ** Issuing succeeds when signing does *)

Section total.
Hypothesis signs : ∀ asn addrs name, ∃ roa, sign_roa asn addrs name = Ok roa.

Lemma update_simple_total (self : Roas) r : ∃ u, update_simple sign_roa hex_encode self r = Ok u.
Proof.
  unfold update_simple. destruct (fold_each_total (add_simple sign_roa hex_encode self) (hm_keys r) no_roa_updates) as [u ->];
    [|by eexists]. intros u x _. unfold add_simple. case_bool_decide; [eauto|].
  destruct (make_roa_info_total [x] (roa_name hex_encode x) signs) as [i ->]; [done| |simpl; eauto].
  by intros ? ? ->%list_elem_of_singleton ->%list_elem_of_singleton.
Qed.

Lemma update_aggregate_total (self : Roas) r : ∃ u, update_aggregate sign_roa self r = Ok u.
Proof.
  unfold update_aggregate.
  destruct (fold_each_total (add_aggregate sign_roa self) (hm_iter (as_aggregates r)) no_roa_updates) as [u ->];
    [|by eexists]. intros u [k auths] Hk%elem_of_hm_iter. apply as_aggregates_Some in Hk as (_&Hn&Hin).
  unfold add_aggregate. destruct (make_roa_info_total auths (aggregate_name k) signs) as [i ->]; [done| |].
  { intros x y [_ ->]%Hin [_ ->]%Hin. done. }
  simpl. destruct (aggregate self !! k); [destruct (negb _)|]; eauto.
Qed.

Lemma roas_update_total self all resources d a : ∃ u, roas_update sign_roa hex_encode self all resources d a = Ok u.
Proof.
  unfold roas_update, update_stop_aggregating, update_start_aggregating. set (r := routes_filter all resources).
  destruct (update_simple_total self r) as [u1 ->], (update_aggregate_total self r) as [u2 ->].
  destruct (roa_mode _ _ _ _); simpl; eauto.
Qed.
End total.
End objects.

(** ** Updating again changes nothing *)

Lemma fold_each_skip {E A S} (f : S → A → result E S) s l :
  (∀ x, x ∈ l → f s x = Ok s) → fold_each f s l = Ok s.
Proof.
  induction l as [|x l IH]; intros Hf; simpl; [done|]. rewrite (Hf x) by (by left). apply IH. intros y Hy. apply Hf. by right.
Qed.

#[local] Existing Instance same_asn_dec.

Section again.
Context `{PA : !PrefixApi} (HO HO2 : HashOrder) {Roa SignError : Type}.
Variable sign_roa : AsNumber → list (TypedPrefix * option N) → string → result SignError Roa.
Variable hex_encode : string → string.
Variable roa_content : Roa → AsNumber * list (TypedPrefix * option N).

(** The aggregates of some routes do not depend on the order in which these are visited, when no
    two of them compare as equal. *)
Lemma as_aggregates_order r k :
  (∀ a b, is_Some (r !! a) → is_Some (r !! b) → roa_payload_cmp a b = Eq → a = b) →
  as_aggregates (HO:=HO) r !! k = as_aggregates (HO:=HO2) r !! k.
Proof.
  intros Heq. pose proof (as_aggregates_of (HO:=HO) r k) as H1. pose proof (as_aggregates_of (HO:=HO2) r k) as H2.
  assert (hm_keys (HO:=HO) r ≡ₚ hm_keys (HO:=HO2) r) as Hkeys by (unfold hm_keys; by rewrite !hm_iter_perm).
  assert (filter (same_asn (ak_asn k)) (hm_keys (HO:=HO) r) ≡ₚ filter (same_asn (ak_asn k)) (hm_keys (HO:=HO2) r))
    as Hf by (by rewrite Hkeys).
  destruct (as_aggregates (HO:=HO) r !! k) as [l1|] eqn:E1, (as_aggregates (HO:=HO2) r !! k) as [l2|] eqn:E2; [| | |done].
  - f_equal. apply payloads_sorted_unique.
    + apply (as_aggregates_Some (HO:=HO)) in E1 as (_&_&E1). intros a b [? _]%E1 [? _]%E1. auto.
    + exact (as_aggregates_sorted (HO:=HO) _ _ _ E1).
    + exact (as_aggregates_sorted (HO:=HO2) _ _ _ E2).
    + destruct H1 as (_&P1&_), H2 as (_&P2&_). by rewrite P1, P2.
  - destruct H1 as (Hg&Hp&Hn). rewrite Hf, (H2 Hg) in Hp. by apply Permutation_nil_r in Hp.
  - destruct H2 as (Hg&Hp&Hn). rewrite <-Hf, (H1 Hg) in Hp. by apply Permutation_nil_r in Hp.
Qed.

Lemma update_simple_again r (self : Roas) :
  simple_for roa_content r self → update_simple (HO:=HO2) sign_roa hex_encode self r = Ok no_roa_updates.
Proof.
  intros (_&_&Hr). unfold update_simple. rewrite fold_each_skip.
  2: { intros a Ha%elem_of_hm_keys. unfold add_simple. by rewrite bool_decide_true by (by apply Hr). }
  simpl. rewrite foldl_roa_remove, filter_none; [done|]. intros a Ha%elem_of_hm_keys Hn.
  apply bool_decide_eq_false in Hn. by apply Hn, Hr.
Qed.

Lemma update_aggregate_again r (self : Roas) :
  (∀ a b, is_Some (r !! a) → is_Some (r !! b) → roa_payload_cmp a b = Eq → a = b) →
  aggregate_for (HO:=HO) roa_content r self → update_aggregate (HO:=HO2) sign_roa self r = Ok no_roa_updates.
Proof.
  intros Heq (_&_&Hr). unfold update_aggregate. rewrite fold_each_skip.
  2: { intros [k auths] Hk%elem_of_hm_iter. unfold add_aggregate. specialize (Hr k).
    rewrite (as_aggregates_order r k Heq), Hk in Hr. destruct Hr as (i&->&Hi).
    rewrite bool_decide_true; [done|]. destruct Hi as [->|Hi]; [|done].
    apply payloads_sorted_unique.
    - apply as_aggregates_Some in Hk as (_&_&Hk). intros a b [? _]%Hk [? _]%Hk. auto.
    - by eapply as_aggregates_sorted.
    - apply sort_payloads_sorted.
    - by rewrite sort_payloads_perm. }
  simpl. rewrite foldl_roa_remove_aggregate, filter_none; [done|]. intros k Hk%elem_of_hm_keys Hn.
  apply bool_decide_eq_false in Hn. specialize (Hr k). rewrite (as_aggregates_order r k Heq) in Hr.
  destruct (as_aggregates (HO:=HO2) r !! k); [by destruct Hn|]. rewrite Hr in Hk. by destruct Hk.
Qed.

(** The mode an update picks on what the previous one left. *)
Lemma simple_for_mode r (self : Roas) d a :
  simple_for roa_content r self → size r = 0 ∨ size r ≤ a → roa_mode (HO:=HO2) self (size r) d a = Simple.
Proof.
  intros (Ha&_&_) Hs. assert (is_currently_aggregating (HO:=HO2) self = false) as Hf.
  { apply not_true_iff_false. rewrite (aggregating_iff (HO:=HO2) roa_content) by (rewrite Ha; apply map_Forall_empty). by intros []. }
  unfold roa_mode. rewrite Hf. repeat case_bool_decide; try done; lia.
Qed.

Lemma aggregate_for_mode r (self : Roas) d a :
  aggregate_for (HO:=HO) roa_content r self → size r ≠ 0 → d ≤ size r → roa_mode (HO:=HO2) self (size r) d a = Aggregate.
Proof.
  intros (_&Hok&Hr) Hn Hs. assert (is_currently_aggregating (HO:=HO2) self = true) as Hf.
  { apply (aggregating_iff (HO:=HO2) roa_content); [done|]. intros He.
    destruct (map_choose (M:=gmap RoaPayload) r) as (x&ri&Hx).
    { intros Hr0. apply Hn. rewrite Hr0. apply (map_size_empty (M:=gmap RoaPayload)). }
    destruct (as_aggregates_route (HO:=HO) r x) as [auths Hauths]; [eauto|]. specialize (Hr (mkAggregateKey (rp_asn x) None)).
    rewrite Hauths, He in Hr. destruct Hr as (i&Hi&_). by rewrite lookup_empty in Hi. }
  unfold roa_mode. rewrite Hf. repeat case_bool_decide; try done; lia.
Qed.

(** Without routes both arrangements are empty. *)
Lemma aggregate_for_empty r (self : Roas) :
  size r = 0 → aggregate_for (HO:=HO) roa_content r self → simple_for roa_content r self.
Proof.
  intros He%(map_size_empty_inv (M:=gmap RoaPayload)) (Hs&_&Hr).
  assert (∀ x, r !! x = None) as Hx by (rewrite He; apply (lookup_empty (M:=gmap RoaPayload))). split_and!.
  - apply map_eq. intros k. specialize (Hr k). rewrite lookup_empty.
    destruct (as_aggregates (HO:=HO) r !! k) as [auths|] eqn:Ha; [|done].
    apply (as_aggregates_Some (HO:=HO)) in Ha as (_&Hn&Ha). destruct auths as [|x auths]; [done|].
    destruct (proj1 (Ha x)) as [[i Hi] _]; [by left|]. congruence.
  - rewrite Hs. apply map_Forall_empty.
  - intros a. rewrite Hs, Hx, lookup_empty. done.
Qed.

Lemma roas_update_again (self : Roas) all resources d a u :
  (∀ asn addrs name roa, sign_roa asn addrs name = Ok roa → roa_content roa = (asn, addrs)) →
  roas_inv roa_content self → d ≤ a + 1 →
  (∀ x y, is_Some (all !! x) → is_Some (all !! y) → roa_payload_cmp x y = Eq → x = y) →
  roas_update (HO:=HO) sign_roa hex_encode self all resources d a = Ok u →
  roas_update (HO:=HO2) sign_roa hex_encode (roas_updated (HO:=HO) self u) all resources d a = Ok no_roa_updates.
Proof.
  intros Hsign Hinv Hd Heq Hf. set (r := routes_filter all resources).
  assert (∀ x y, is_Some (r !! x) → is_Some (r !! y) → roa_payload_cmp x y = Eq → x = y) as Heq'.
  { intros x y [? _]%routes_filter_is_Some [? _]%routes_filter_is_Some. auto. }
  pose proof (roa_mode_arrangement (HO:=HO) roa_content self (size r) d a Hinv) as Hmode.
  pose proof (roas_update_arrangement (HO:=HO) _ _ _ Hsign _ _ _ _ _ _ Hinv Hf) as Harr. simpl in Harr. fold r in Harr.
  assert ((simple_for roa_content r (roas_updated (HO:=HO) self u) ∧ (size r = 0 ∨ size r ≤ a)) ∨
    (aggregate_for (HO:=HO) roa_content r (roas_updated (HO:=HO) self u) ∧ size r ≠ 0 ∧ d ≤ size r)) as [[Hst Hsz]|(Hst&Hn&Hsz)].
  { destruct (roa_mode _ _ _ _).
    - left. split; [done|]. apply Hmode.
    - left. split; [done|]. destruct Hmode as (_&_&?). lia.
    - right. split; [done|]. destruct Hmode as (_&?). lia.
    - destruct (decide (size r = 0)) as [Hz|Hz]; [left; split; [by apply aggregate_for_empty|by left]|].
      right. split; [done|]. destruct Hmode as (_&?). lia. }
  - unfold roas_update. fold r. rewrite (simple_for_mode r _ d a Hst Hsz). by apply update_simple_again.
  - unfold roas_update. fold r. rewrite (aggregate_for_mode r _ d a Hst Hn Hsz). by apply update_aggregate_again.
Qed.
End again.
