(* ===== verification/RouteUpdateFacts.v ===== *)
(** * Facts about updates of route authorizations

    The two loops of [update_authorizations], each with an invariant that relates the desired
    routes, the errors and the routes that the events lead to. *)

From stdpp Require Import base gmap strings list.
From S2P Require Import Prelude Text Roas Routes RouteFacts.

Lemma foldl_ind {A S} (P : list A → S → Prop) (f : S → A → S) l s :
  (∀ l s x, P l s → P (l ++ [x]) (f s x)) → P [] s → P l (foldl f s l).
Proof.
  intros Hstep. cut (∀ l0 s, P l0 s → P (l0 ++ l) (foldl f s l)); [intros H; apply (H [])|].
  induction l as [|x l IH]; intros l0 s0 H0; simpl; [by rewrite app_nil_r|].
  rewrite cons_middle, app_assoc. apply IH. auto.
Qed.

Lemma snoc_split {A} (l : list A) x l1 c l2 :
  l ++ [x] = l1 ++ c :: l2 ↔ (l2 = [] ∧ l1 = l ∧ c = x) ∨ ∃ l2', l2 = l2' ++ [x] ∧ l = l1 ++ c :: l2'.
Proof.
  split.
  - intros Heq. destruct l2 as [|y l2 _] using rev_ind.
    + apply app_inj_tail in Heq as [-> ->]. by left.
    + rewrite app_comm_cons, app_assoc in Heq. apply app_inj_tail in Heq as [-> ->]. right. eauto.
  - intros [(->&->&->)|(l2'&->&->)]; [done|]. by rewrite <-app_assoc.
Qed.

Lemma NoDup_no_repeat {A} (l : list A) : (∀ l1 a l2, l = l1 ++ a :: l2 → a ∉ l1) → NoDup l.
Proof.
  induction l as [|x l IH] using rev_ind; intros Hr; [constructor|]. apply NoDup_app. split_and!.
  - apply IH. intros l1 a l2 ->. apply (Hr l1 a (l2 ++ [x])). by rewrite <-app_assoc.
  - intros a Ha ->%list_elem_of_singleton. by apply (Hr l x []).
  - apply NoDup_singleton.
Qed.

Section lookup.
Context `{PA : !PrefixApi}.
Implicit Types (r : Routes).

Lemma routes_remove_lookup r x a : (routes_remove r x).1 !! a = if decide (x = a) then None else r !! a.
Proof. apply (lookup_delete (M:=gmap RoaPayload)). Qed.

Lemma routes_remove_absent r x : r !! x = None → (routes_remove r x).1 = r.
Proof. apply (delete_id (M:=gmap RoaPayload)). Qed.

Lemma routes_add_lookup r now x a :
  routes_add r now x !! a = if decide (x = a) then Some (mkRouteInfo now None None) else r !! a.
Proof. apply (lookup_insert (M:=gmap RoaPayload)). Qed.

Lemma routes_comment_lookup r x c a :
  routes_comment r x c !! a = if decide (x = a) then set_comment c <$> r !! a else r !! a.
Proof.
  unfold routes_comment. destruct (r !! x) as [i|] eqn:Hx.
  - etrans; [apply (lookup_insert (M:=gmap RoaPayload))|]. case_decide; [subst|done]. by rewrite Hx.
  - case_decide; [subst|done]. by rewrite Hx.
Qed.
End lookup.

Section update.
Context `{PA : !PrefixApi, HO : !HashOrder}.
Variables (self : Routes) (all_resources : ResourceSet) (now now' : Instant).

(** The CA's authorizations once the events are applied. *)
Definition applied (events : list CaEvtDet) : Routes := foldl (apply_route_event now') self events.

(** An addition that passes the first two checks. *)
Definition admissible (c : RoaConfiguration) : Prop :=
  max_length_valid (rc_payload c) = true ∧ holds all_resources (rc_payload c) = true.
Definition invalid_length (c : RoaConfiguration) : Prop := max_length_valid (rc_payload c) = false.
#[local] Instance invalid_length_dec c : Decision (invalid_length c).
Proof. unfold invalid_length. apply _. Defined.
Definition not_held (c : RoaConfiguration) : Prop :=
  max_length_valid (rc_payload c) = true ∧ holds all_resources (rc_payload c) = false.
#[local] Instance not_held_dec c : Decision (not_held c).
Proof. unfold not_held. apply _. Defined.

(** After removing [l]. *)
Definition removals_done (l : list RoaPayload) (st : UpdateState) : Prop :=
  us_routes st = applied (us_events st) ∧
  (∀ a, us_routes st !! a = if decide (a ∈ l) then None else self !! a) ∧
  de_duplicates (us_errors st) = [] ∧ de_notheld (us_errors st) = [] ∧ de_invalid_length (us_errors st) = [] ∧
  (∀ a, a ∈ de_unknowns (us_errors st) ↔ ∃ l1 l2, l = l1 ++ a :: l2 ∧ (self !! a = None ∨ a ∈ l1)).

(** After adding [l] to the desired routes [r0] that the removals leave. *)
Definition additions_done (r0 : Routes) (unknowns : list RoaPayload) (l : list RoaConfiguration) (st : UpdateState) : Prop :=
  (∀ a, is_Some (applied (us_events st) !! a) ↔ is_Some (us_routes st !! a)) ∧
  (∀ a, is_Some (us_routes st !! a) ↔ is_Some (r0 !! a) ∨ ∃ c, c ∈ l ∧ admissible c ∧ rc_payload c = a) ∧
  (∀ a, a ∉ rc_payload <$> l → us_routes st !! a = r0 !! a ∧ applied (us_events st) !! a = r0 !! a) ∧
  de_unknowns (us_errors st) = unknowns ∧
  de_invalid_length (us_errors st) = filter invalid_length l ∧
  de_notheld (us_errors st) = filter not_held l ∧
  (de_duplicates (us_errors st) = [] →
   ∀ l1 c l2, l = l1 ++ c :: l2 → rc_payload c ∉ rc_payload <$> l2 → admissible c →
   ∃ info, applied (us_events st) !! rc_payload c = Some info ∧ route_comment info = rc_comment c).

Lemma applied_snoc events e : applied (events ++ [e]) = apply_route_event now' (applied events) e.
Proof. unfold applied. by rewrite foldl_app. Qed.

Lemma removals_spec l : removals_done l (foldl update_removed (mkUpdateState self no_delta_errors []) l).
Proof.
  apply foldl_ind.
  2: { split_and!; try done. intros a. simpl. split; [by intros ?%elem_of_nil|]. intros ([]&?&?&_); simplify_eq. }
  clear l. intros l [r e ev] x (Hr&Hl&Hd&Hn&Hi&Hu). simpl in *. 
  assert (∀ a, (routes_remove r x).1 !! a = if decide (a ∈ l ++ [x]) then None else self !! a) as Hl'.
  { intros a. rewrite routes_remove_lookup, Hl. repeat case_decide; set_solver. }
  assert (∀ a, (∃ l1 l2, l ++ [x] = l1 ++ a :: l2 ∧ (self !! a = None ∨ a ∈ l1)) ↔
    (∃ l1 l2, l = l1 ++ a :: l2 ∧ (self !! a = None ∨ a ∈ l1)) ∨ (a = x ∧ (self !! x = None ∨ x ∈ l))) as Hsnoc.
  { intros a. setoid_rewrite snoc_split. naive_solver. }
  change (update_removed (mkUpdateState r e ev) x) with
    (if bool_decide (is_Some (r !! x)) then mkUpdateState (routes_remove r x).1 e (ev ++ [RouteAuthorizationRemoved x])
     else mkUpdateState (routes_remove r x).1 (mkDeltaError (de_duplicates e) (de_notheld e) (de_unknowns e ++ [x]) (de_invalid_length e)) ev).
  case_bool_decide as Hx; split_and!; simpl; try done.
  - rewrite applied_snoc, <-Hr. done.
  - intros a. rewrite Hsnoc, Hu. split; [by left|]. intros [?|[-> Hno]]; [done|]. exfalso.
    rewrite Hl in Hx. destruct Hno as [Hno|Hno]; [|by rewrite decide_True in Hx; destruct Hx].
    case_decide; [by destruct Hx|]. rewrite Hno in Hx. by destruct Hx.
  - rewrite <-Hr. apply routes_remove_absent. by apply eq_None_not_Some.
  - intros a. rewrite Hsnoc, elem_of_app, list_elem_of_singleton, Hu. split; [|naive_solver].
    intros [?| ->]; [by left|]. right. split; [done|]. apply eq_None_not_Some in Hx. rewrite Hl in Hx.
    case_decide; auto.
Qed.
Local Ltac st_simpl := cbn [us_routes us_events us_errors apply_route_event].

Lemma filter_invalid x : filter invalid_length [x] = if max_length_valid (rc_payload x) then [] else [x].
Proof. rewrite filter_cons. unfold invalid_length at 1. case_decide as H; [|apply not_false_iff_true in H]; by rewrite H. Qed.

Lemma filter_not_held x :
  filter not_held [x] = if max_length_valid (rc_payload x) && negb (holds all_resources (rc_payload x)) then [x] else [].
Proof.
  rewrite filter_cons. case_decide as H; [by destruct H as [-> ->]|]. unfold not_held in H.
  destruct (max_length_valid _), (holds _ _); try done. by destruct H.
Qed.

(** One addition: nothing changes for other payloads, and nothing at all unless it is
    admissible; then the payload is among the routes, with the comment unless it is a duplicate. *)
Lemma update_added_spec st x :
  let st' := update_added all_resources now st x in
  let a := rc_payload x in
  (is_Some (applied (us_events st) !! a) ↔ is_Some (us_routes st !! a)) →
  (∀ b, b ≠ a → us_routes st' !! b = us_routes st !! b ∧ applied (us_events st') !! b = applied (us_events st) !! b) ∧
  (¬ admissible x → us_routes st' = us_routes st ∧ us_events st' = us_events st) ∧
  (admissible x → is_Some (us_routes st' !! a) ∧ is_Some (applied (us_events st') !! a)) ∧
  (admissible x → de_duplicates (us_errors st') = [] →
   ∃ info, applied (us_events st') !! a = Some info ∧ route_comment info = rc_comment x) ∧
  de_unknowns (us_errors st') = de_unknowns (us_errors st) ∧
  de_invalid_length (us_errors st') = de_invalid_length (us_errors st) ++ filter invalid_length [x] ∧
  de_notheld (us_errors st') = de_notheld (us_errors st) ++ filter not_held [x] ∧
  (de_duplicates (us_errors st') = [] → de_duplicates (us_errors st) = []).
Proof.
  intros st' a Hdom. subst st'. unfold update_added, admissible. assert (rc_payload x = a) as Ha by done. clearbody a.
  rewrite Ha.
  rewrite filter_invalid, filter_not_held, Ha.
  destruct (max_length_valid a); simpl; [destruct (holds all_resources a); simpl|]; rewrite ?app_nil_r.
  2-3: by split_and!; try done; intros [].
  unfold routes_info. destruct (us_routes st !! a) as [info|] eqn:Hinfo.
  - destruct (proj2 Hdom) as [ai Hai]; [eauto|]. case_bool_decide as Hc; simpl.
    + split_and!; rewrite ?Hinfo, ?Hai; try naive_solver. all: by intros ? [_ ?]%app_eq_nil || intros [_ ?]%app_eq_nil.
    + rewrite applied_snoc. simpl. setoid_rewrite routes_comment_lookup. rewrite decide_True, Hai by done.
      split_and!; rewrite ?Hinfo; try naive_solver. intros b Hb. by rewrite decide_False.
  - destruct (rc_comment x) as [c|] eqn:Hc; st_simpl.
    + rewrite !applied_snoc. st_simpl.
      split_and!; try done; [intros b Hb; by rewrite !routes_comment_lookup, !routes_add_lookup, !decide_False|by intros []| |];
        intros; rewrite ?routes_comment_lookup, ?routes_add_lookup, ?decide_True by done; simpl; eauto.
    + rewrite applied_snoc. st_simpl.
      split_and!; try done; [intros b Hb; by rewrite !routes_add_lookup, !decide_False|by intros []| |];
        intros; rewrite ?routes_add_lookup, ?decide_True by done; eauto.
Qed.
Lemma additions_spec st0 l :
  us_routes st0 = applied (us_events st0) → de_invalid_length (us_errors st0) = [] → de_notheld (us_errors st0) = [] →
  additions_done (us_routes st0) (de_unknowns (us_errors st0)) l (foldl (update_added all_resources now) st0 l).
Proof.
  intros Hr0 Hi0 Hn0. apply foldl_ind.
  2: { split_and!; try done; [by rewrite <-Hr0|set_solver|by rewrite <-Hr0|]. intros _ [] ? ? ?; simplify_eq. }
  clear l. intros l st x (Hdom&Hin&Hout&Hu&Hi&Hn&Hc).
  destruct (update_added_spec st x (Hdom _)) as (Hoth&Hno&Hyes&Hcx&Hu'&Hi'&Hn'&Hd'). simpl in *.
  set (st' := update_added all_resources now st x) in *.
  assert (∀ a, is_Some (us_routes st' !! a) ↔ is_Some (us_routes st !! a) ∨ (admissible x ∧ rc_payload x = a)) as Hdom'.
  { intros a. destruct (decide (a = rc_payload x)) as [->|Ha]; [|rewrite (proj1 (Hoth a Ha)); naive_solver].
    destruct (decide (max_length_valid (rc_payload x) = true ∧ holds all_resources (rc_payload x) = true)) as [Ha|Ha].
    - split; [by right|]. intros _. by apply Hyes.
    - destruct (Hno Ha) as [-> _]. naive_solver. }
  split_and!.
  - intros a. destruct (decide (a = rc_payload x)) as [->|Ha]; [|destruct (Hoth a Ha) as [-> ->]; apply Hdom].
    destruct (decide (max_length_valid (rc_payload x) = true ∧ holds all_resources (rc_payload x) = true)) as [Ha|Ha].
    + split; intros _; by apply Hyes.
    + destruct (Hno Ha) as [-> ->]. apply Hdom.
  - intros a. rewrite Hdom', Hin. setoid_rewrite elem_of_app. setoid_rewrite list_elem_of_singleton. naive_solver.
  - intros a Ha. rewrite fmap_app in Ha. destruct (Hoth a) as [-> ->]; [set_solver|]. apply Hout. set_solver.
  - by rewrite Hu'.
  - by rewrite Hi', Hi, filter_app.
  - by rewrite Hn', Hn, filter_app.
  - intros Hd l1 c l2 [(->&->&->)|(l2'&->&->)]%snoc_split Hl2 Hadm; [auto|].
    rewrite fmap_app, not_elem_of_app in Hl2. destruct Hl2 as [Hl2 Hx].
    rewrite (proj2 (Hoth (rc_payload c) ltac:(set_solver))). by apply (Hc (Hd' Hd) l1 c l2').
Qed.

(** Additions among which none is reported for its length or prefix. *)
Lemma admissible_of l c : [] = filter invalid_length l → [] = filter not_held l → c ∈ l → admissible c.
Proof.
  intros Hi Hn Hc. unfold admissible.
  destruct (max_length_valid (rc_payload c)) eqn:Hv.
  - split; [done|]. destruct (holds all_resources (rc_payload c)) eqn:Hh; [done|]. exfalso.
    apply (not_elem_of_nil c). rewrite Hn. by apply list_elem_of_filter.
  - exfalso. apply (not_elem_of_nil c). rewrite Hi. by apply list_elem_of_filter.
Qed.

Lemma delta_errors_is_empty_iff e :
  delta_errors_is_empty e = true ↔
  de_duplicates e = [] ∧ de_notheld e = [] ∧ de_unknowns e = [] ∧ de_invalid_length e = [].
Proof. unfold delta_errors_is_empty. by rewrite bool_decide_eq_true. Qed.

(** Both loops. *)
Lemma update_loops upd :
  let st := foldl (update_added all_resources now)
    (foldl update_removed (mkUpdateState self no_delta_errors []) (upd_removed upd)) (upd_added upd) in
  ∃ r0 unknowns, additions_done r0 unknowns (upd_added upd) st ∧
    (∀ a, r0 !! a = if decide (a ∈ upd_removed upd) then None else self !! a) ∧
    (∀ a, a ∈ unknowns ↔ ∃ l1 l2, upd_removed upd = l1 ++ a :: l2 ∧ (self !! a = None ∨ a ∈ l1)).
Proof.
  intros st. destruct (removals_spec (upd_removed upd)) as (Hr&Hl&Hd&Hn&Hi&Hu).
  pose proof (additions_spec _ (upd_added upd) Hr Hi Hn) as Ha. by do 2 eexists.
Qed.
End update.
