(* ===== verification/RoaRenewFacts.v ===== *)
(** * Facts about renewing ROAs and finding them

    [Roas::renew] replaces objects without changing what they attest; [matching_roa_infos] finds
    the one object an authorization is on. *)

From stdpp Require Import base gmap strings list.
From S2P Require Import Prelude Text Roas Routes RouteFacts.

(** The loop over entries [(k, i)] of a map, which records a new value for those that are due. *)
Section renew_loop.
Context {E U V : Type} `{Countable K}.
Variables (due : V → bool) (renewed : K → V → result E V) (get : U → gmap K V) (set : U → K → V → U).
Variable step : U → K * V → result E U.
Hypothesis step_eq : ∀ u k i, step u (k, i) = if due i then i' ← renewed k i; Ok (set u k i') else Ok u.
Hypothesis get_set : ∀ u k i, get (set u k i) = <[k := i]> (get u).

Lemma renew_loop l u u' :
  get u = ∅ → fold_each step u l = Ok u' →
  (∀ k i', get u' !! k = Some i' → ∃ i, (k, i) ∈ l ∧ due i = true ∧ renewed k i = Ok i') ∧
  (∀ k i, (k, i) ∈ l → due i = true → is_Some (get u' !! k)).
Proof.
  intros Hu. apply (fold_each_ind (λ l u',
    (∀ k i', get u' !! k = Some i' → ∃ i, (k, i) ∈ l ∧ due i = true ∧ renewed k i = Ok i') ∧
    (∀ k i, (k, i) ∈ l → due i = true → is_Some (get u' !! k)))).
  - clear -step_eq get_set. intros l s [k i] s' [H1 H2]. rewrite step_eq. destruct (due i) eqn:Hd; intros Hs; inv_ok.
    + rewrite get_set. split.
      * intros k' i'. rewrite lookup_insert. case_decide; [intros ?; simplify_eq; exists i; set_solver|].
        intros (j&?&?)%H1. exists j. set_solver.
      * intros k' i' Hin Hdue. rewrite lookup_insert. case_decide; [eauto|].
        apply elem_of_app in Hin as [?| ?%list_elem_of_singleton]; [eauto|congruence].
    + split; [intros k' i' (j&?&?)%H1; exists j; set_solver|]. intros k' i' [?| ?%list_elem_of_singleton]%elem_of_app Hdue.
      * eauto.
      * congruence.
  - split; [intros k i'; by rewrite Hu, lookup_empty|set_solver].
Qed.
End renew_loop.

Section objects.
Context `{PA : !PrefixApi, HO : !HashOrder}.
Context {Roa : Type} (roa_expires : Roa → Instant) {SignError : Type}.
Variable sign_roa : AsNumber → list (TypedPrefix * option N) → string → result SignError Roa.
Variable hex_encode : string → string.
Variable roa_content : Roa → AsNumber * list (TypedPrefix * option N).
Hypothesis sign_roa_content : ∀ asn addrs name roa,
  sign_roa asn addrs name = Ok roa → roa_content roa = (asn, addrs).

Local Abbreviation RoaInfo := (@RoaInfo PA Roa).
Local Abbreviation Roas := (@Roas PA Roa).

Definition due (force : bool) (threshold : Instant) (info : RoaInfo) : bool :=
  force || bool_decide (roa_expires (ri_roa info) < threshold)%Z.

(** One entry before and after: kept when it is not due, else made again for the same
    authorizations. *)
Definition renewed_info (force : bool) (threshold : Instant) (name : string) (i : RoaInfo) (o : option RoaInfo) : Prop :=
  if due force threshold i then ∃ i', o = Some i' ∧ make_roa_info sign_roa (ri_authorizations i) name = Ok i'
  else o = Some i.

Lemma renew_updates (self : Roas) force threshold u :
  map_Forall (simple_ok roa_content) (simple self) →
  roas_renew roa_expires sign_roa hex_encode self force threshold = Ok u →
  ru_removed u = [] ∧ ru_aggregate_removed u = [] ∧
  (∀ k, is_Some (ru_updated u !! k) → is_Some (simple self !! k)) ∧
  (∀ k, is_Some (ru_aggregate_updated u !! k) → is_Some (aggregate self !! k)) ∧
  (∀ k i, simple self !! k = Some i →
    renewed_info force threshold (roa_name hex_encode k) i
      match ru_updated u !! k with Some i' => Some i' | None => Some i end) ∧
  (∀ k i, aggregate self !! k = Some i →
    renewed_info force threshold (aggregate_name k) i
      match ru_aggregate_updated u !! k with Some i' => Some i' | None => Some i end).
Proof.
  intros Hsimple Hf. unfold roas_renew in Hf. apply bind_Ok in Hf as (u1&Hf1&Hf2).
  destruct (renew_loop (due force threshold) (λ k _, make_roa_info sign_roa [k] (roa_name hex_encode k)) ru_updated roa_update
    (renew_simple roa_expires sign_roa hex_encode force threshold) (λ _ _ _, eq_refl) (λ _ _ _, eq_refl)
    _ no_roa_updates _ eq_refl Hf1) as [S1 S2].
  assert (ru_aggregate_updated u1 = ∅ ∧ ru_removed u1 = [] ∧ ru_aggregate_removed u1 = []) as (Ha1&Hr1&Har1).
  { revert Hf1. apply (fold_each_ind (λ _ u, ru_aggregate_updated u = ∅ ∧ ru_removed u = [] ∧ ru_aggregate_removed u = [])); [|done].
    intros ? ? [k i] ? ?. unfold renew_simple. destruct (force || _); intros; by inv_ok. }
  destruct (renew_loop (due force threshold) (λ k i, make_roa_info sign_roa (ri_authorizations i) (aggregate_name k))
    ru_aggregate_updated roa_update_aggregate
    (renew_aggregate roa_expires sign_roa force threshold) (λ _ _ _, eq_refl) (λ _ _ _, eq_refl)
    _ _ _ Ha1 Hf2) as [A1 A2].
  assert (ru_updated u = ru_updated u1 ∧ ru_removed u = [] ∧ ru_aggregate_removed u = []) as (Hu&->&->).
  { revert Hf2. apply (fold_each_ind (λ _ u, ru_updated u = ru_updated u1 ∧ ru_removed u = [] ∧ ru_aggregate_removed u = [])); [|done].
    intros ? ? [k i] ? ?. unfold renew_aggregate. destruct (force || _); intros; by inv_ok. }
  rewrite Hu. setoid_rewrite elem_of_hm_iter in S1. setoid_rewrite elem_of_hm_iter in S2.
  setoid_rewrite elem_of_hm_iter in A1. setoid_rewrite elem_of_hm_iter in A2.
  split_and!; [done|done|intros k [i (j&?&_)%S1]; eauto|intros k [i (j&?&_)%A1]; eauto| |].
  - intros k i Hi. unfold renewed_info. destruct (due force threshold i) eqn:Hd.
    + destruct (S2 _ _ Hi Hd) as [i' Hi']. rewrite Hi'. destruct (S1 _ _ Hi') as (j&Hj&_&Hmake).
      destruct (Hsimple _ _ Hi) as [-> _]. eauto.
    + destruct (ru_updated u1 !! k) as [i'|] eqn:Hi'; [|done]. apply S1 in Hi' as (j&Hj&Hdj&_). congruence.
  - intros k i Hi. unfold renewed_info. destruct (due force threshold i) eqn:Hd.
    + destruct (A2 _ _ Hi Hd) as [i' Hi']. rewrite Hi'. destruct (A1 _ _ Hi') as (j&Hj&_&Hmake).
      simplify_eq. eauto.
    + destruct (ru_aggregate_updated u !! k) as [i'|] eqn:Hi'; [|done]. apply A1 in Hi' as (j&Hj&Hdj&_). congruence.
Qed.
Lemma roas_renew_spec (self : Roas) force threshold u :
  roas_inv roa_content self → roas_renew roa_expires sign_roa hex_encode self force threshold = Ok u →
  let self' := roas_updated self u in
  (∀ k i, simple self !! k = Some i → renewed_info force threshold (roa_name hex_encode k) i (simple self' !! k)) ∧
  (∀ k i, aggregate self !! k = Some i → renewed_info force threshold (aggregate_name k) i (aggregate self' !! k)) ∧
  (∀ k, simple self !! k = None → simple self' !! k = None) ∧
  (∀ k, aggregate self !! k = None → aggregate self' !! k = None).
Proof.
  intros (Hs&_&_) Hf self'. destruct (renew_updates _ _ _ _ Hs Hf) as (Hr&Har&Hd&Had&HS&HA). subst self'.
  split_and!; intros k; rewrite ?updated_simple, ?updated_aggregate, ?Hr, ?Har; rewrite decide_False by set_solver.
  - intros i Hi. specialize (HS k i Hi). by rewrite Hi.
  - intros i Hi. specialize (HA k i Hi). by rewrite Hi.
  - intros Hn. rewrite Hn. specialize (Hd k). rewrite Hn in Hd. by destruct (ru_updated u !! k); [destruct Hd|].
  - intros Hn. rewrite Hn. specialize (Had k). rewrite Hn in Had. by destruct (ru_aggregate_updated u !! k); [destruct Had|].
Qed.

(** A renewed object is for the same authorizations and attests them. *)
Lemma renewed_info_ok force threshold name asn i o :
  info_ok roa_content asn i → renewed_info force threshold name i o →
  ∃ i', o = Some i' ∧ ri_authorizations i' = ri_authorizations i ∧ info_ok roa_content asn i'.
Proof.
  intros Hok. unfold renewed_info. destruct (due _ _ _); [|by intros ->; eauto].
  intros (i'&->&Hm). exists i'. split; [done|]. eapply make_roa_info_ok in Hm; [done|done|]. apply Hok.
Qed.

Lemma roas_renew_keeps (self : Roas) force threshold u :
  roas_inv roa_content self → roas_renew roa_expires sign_roa hex_encode self force threshold = Ok u →
  let self' := roas_updated self u in
  roas_inv roa_content self' ∧ ∀ a, on_roa self' a ↔ on_roa self a.
Proof.
  intros Hinv Hf self'. pose proof (roas_renew_spec _ _ _ _ Hinv Hf) as Hspec. cbv zeta in Hspec. fold self' in Hspec.
  clearbody self'. destruct Hspec as (HS&HA&Hs0&Ha0), Hinv as (Hs&Ha&Hmix).
  assert (∀ k i', simple self' !! k = Some i' → ∃ i, simple self !! k = Some i ∧
    ri_authorizations i' = ri_authorizations i ∧ simple_ok roa_content k i') as S.
  { intros k i' Hi'. destruct (simple self !! k) as [i|] eqn:Hi; [|rewrite Hs0 in Hi'; done].
    destruct (Hs _ _ Hi) as [Hau Hok].
    destruct (renewed_info_ok _ _ _ _ _ _ Hok (HS _ _ Hi)) as (j&Hj&Hauj&Hokj). simplify_eq.
    exists i. split_and!; [done|done|]. split; [congruence|done]. }
  assert (∀ k i', aggregate self' !! k = Some i' → ∃ i, aggregate self !! k = Some i ∧
    ri_authorizations i' = ri_authorizations i ∧ aggregate_ok roa_content k i') as A.
  { intros k i' Hi'. destruct (aggregate self !! k) as [i|] eqn:Hi; [|rewrite Ha0 in Hi'; done].
    destruct (Ha _ _ Hi) as [Hg Hok].
    destruct (renewed_info_ok _ _ _ _ _ _ Hok (HA _ _ Hi)) as (j&Hj&Hauj&Hokj). simplify_eq.
    exists i. by split_and!. }
  split.
  - split_and!; [intros k i' (?&_&_&?)%S; done|intros k i' (?&_&_&?)%A; done|].
    destruct Hmix as [He|He]; [left|right]; apply map_eq; intros k; rewrite lookup_empty; [apply Hs0|apply Ha0]; by rewrite He.
  - intros a. split.
    + intros [(k&i'&(i&Hi&Hau&_)%S&Hin)|(k&i'&(i&Hi&Hau&_)%A&Hin)]; rewrite Hau in Hin; [left|right]; eauto.
    + intros [(k&i&Hi&Hin)|(k&i&Hi&Hin)]; [left|right]; exists k.
      * destruct (Hs _ _ Hi) as [_ Hok]. destruct (renewed_info_ok _ _ _ _ _ _ Hok (HS _ _ Hi)) as (j&Hj&Hau&_). rewrite <-Hau in Hin. eauto.
      * destruct (Ha _ _ Hi) as [_ Hok]. destruct (renewed_info_ok _ _ _ _ _ _ Hok (HA _ _ Hi)) as (j&Hj&Hau&_). rewrite <-Hau in Hin. eauto.
Qed.
End objects.

(** ** Finding the ROA of an authorization *)

Section find.
Context `{HO : !HashOrder} `{Countable K} {V : Type}.

(** Values of a map that satisfy a property which only the value at [k] can have. *)
Lemma filter_hm_values_one (m : gmap K V) (P : V → Prop) `{∀ v, Decision (P v)} k :
  (∀ k' v, m !! k' = Some v → P v → k' = k) →
  filter P (hm_values m) = match m !! k with Some v => if decide (P v) then [v] else [] | None => [] end.
Proof.
  intros Honly. destruct (m !! k) as [v|] eqn:Hk.
  - assert (hm_values m ≡ₚ v :: (map_to_list (delete k m)).*2) as Hp.
    { unfold hm_values. rewrite hm_iter_perm, <-(map_to_list_delete m k v) by done. done. }
    assert (filter P (map_to_list (delete k m)).*2 = []) as Hrest.
    { apply filter_none. intros v' ([k' v'']&->&Hin)%list_elem_of_fmap Hv.
      apply elem_of_map_to_list, lookup_delete_Some in Hin as [Hne Hk']. by apply Hne, eq_sym, (Honly k' v''). }
    assert (filter P (hm_values m) ≡ₚ if decide (P v) then [v] else []) as Hf.
    { rewrite Hp, filter_cons, Hrest. done. }
    case_decide; [by apply Permutation_singleton_r in Hf|by apply Permutation_nil_r in Hf].
  - apply filter_none. intros v [k' Hk']%elem_of_hm_values Hv. rewrite (Honly k' v Hk' Hv) in Hk'. congruence.
Qed.
End find.

Section matching.
Context `{PA : !PrefixApi, HO : !HashOrder}.
Context {Roa : Type} (roa_content : Roa → AsNumber * list (TypedPrefix * option N)).

Lemma matching_roa_infos_spec (self : @Roas PA Roa) config :
  let payload := into_explicit_max_length (rc_payload config) in
  roas_inv roa_content self →
  (on_roa self payload → ∃ info, matching_roa_infos self config = [info] ∧ payload ∈ ri_authorizations info) ∧
  (¬ on_roa self payload → matching_roa_infos self config = []).
Proof.
  intros payload (Hs&Ha&Hmix). unfold matching_roa_infos. fold payload.
  rewrite (filter_hm_values_one (simple self) _ payload).
  2: { intros k i Hi Hin. destruct (Hs _ _ Hi) as [Hau _]. rewrite Hau in Hin. by apply list_elem_of_singleton in Hin. }
  rewrite (filter_hm_values_one (aggregate self) _ (mkAggregateKey (rp_asn payload) None)).
  2: { intros k i Hi Hin. destruct (Ha _ _ Hi) as (Hg&_&Hasn&_). rewrite (Hasn _ Hin). by destruct k; simpl in *; subst. }
  split.
  - intros [(k&i&Hi&Hin)|(k&i&Hi&Hin)].
    + destruct (Hs _ _ Hi) as [Hau _]. pose proof Hin as Hk. rewrite Hau in Hk. apply list_elem_of_singleton in Hk as <-.
      rewrite Hi, decide_True by done. destruct Hmix as [He|He]; [by rewrite He, lookup_empty in Hi|].
      rewrite He, lookup_empty. eauto.
    + destruct (Ha _ _ Hi) as (Hg&_&Hasn&_). assert (k = mkAggregateKey (rp_asn payload) None) as ->.
      { rewrite (Hasn _ Hin). by destruct k; simpl in *; subst. }
      rewrite Hi, decide_True by done. destruct Hmix as [He|He]; [|by rewrite He, lookup_empty in Hi].
      rewrite He, lookup_empty. eauto.
  - intros Hno.
    assert (∀ k i, simple self !! k = Some i → payload ∉ ri_authorizations i) as Hs' by (intros k i ? ?; apply Hno; left; eauto).
    assert (∀ k i, aggregate self !! k = Some i → payload ∉ ri_authorizations i) as Ha' by (intros k i ? ?; apply Hno; right; eauto).
    destruct (simple self !! _) eqn:E1, (aggregate self !! _) eqn:E2; rewrite ?decide_False; eauto.
Qed.
End matching.
