(* ===== verification/CaCerts.v ===== *)
(** * Certificates of CAs ([src/src/commons/api/ca.rs], [commons/crypto/signing/misc.rs], [daemon/config.rs])

    What the CAs use of the [rpki] crate and of the signer, and the certificates that they
    receive from their parents and issue to their children. *)

From stdpp Require Import base gmap strings list pretty.
From Stdlib Require Import Ascii.
From S2P Require Import Prelude Text Rpki Roas.

(** ** Interface to the [rpki] crate

    Keys, certificates, certificate requests and resource sets; no laws. *)
Class CaApi `{PA : !PrefixApi, RP : !Rpki} : Type := {
  KeyIdentifier : Type;
  KeyIdentifier_eq_dec :: EqDecision KeyIdentifier;
  KeyIdentifier_countable :: Countable KeyIdentifier;
  key_display : KeyIdentifier → string;
  PublicKey : Type;
  PublicKey_eq_dec :: EqDecision PublicKey;
  key_identifier : PublicKey → KeyIdentifier;
  (** [uri::Https], authorities, [Rsync::path] and [Rsync::join]; [IpAddr::from_str]. *)
  Https : Type;
  Https_eq_dec :: EqDecision Https;
  rsync_authority : Rsync → string;
  https_authority : Https → string;
  rsync_path : Rsync → string;
  rsync_join : Rsync → string → Rsync;
  is_ip_addr : string → bool;
  Serial : Type;
  Serial_eq_dec :: EqDecision Serial;
  serial_from : N → Serial;
  Name : Type;
  Name_eq_dec :: EqDecision Name;
  name_from_pub_key : PublicKey → Name;
  (** [ResourceSet]: [default], [all], the set of one AS number, and its operations; [is_empty] of
      a [difference]. *)
  ResourceSet_eq_dec :: EqDecision ResourceSet;
  rs_default : ResourceSet;
  rs_all : ResourceSet;
  rs_asn : AsNumber → ResourceSet;
  rs_is_empty : ResourceSet → bool;
  rs_contains : ResourceSet → ResourceSet → bool;
  rs_union : ResourceSet → ResourceSet → ResourceSet;
  rs_intersection : ResourceSet → ResourceSet → ResourceSet;
  rs_difference_is_empty : ResourceSet → ResourceSet → bool;
  rs_contains_asn : ResourceSet → AsNumber → bool;
  (** [RequestResourceLimit] *)
  ResourceLimit : Type;
  ResourceLimit_eq_dec :: EqDecision ResourceLimit;
  limit_default : ResourceLimit;
  limit_apply_to : ResourceLimit → ResourceSet → option ResourceSet;
  (** [RpkiCaCsr] *)
  Csr : Type;
  csr_verify_signature : Csr → bool;
  csr_ca_repository : Csr → option Rsync;
  csr_rpki_manifest : Csr → option Rsync;
  csr_rpki_notify : Csr → option Https;
  csr_public_key : Csr → PublicKey;
  (** [Cert] *)
  Cert : Type;
  cert_public_key : Cert → PublicKey;
  cert_ca_repository : Cert → option Rsync;
  cert_rpki_manifest : Cert → option Rsync;
  cert_rpki_notify : Cert → option Https;
  cert_subject : Cert → Name;
  cert_not_before : Cert → Instant;
  cert_not_after : Cert → Instant;
  cert_serial : Cert → Serial;
  cert_base64 : Cert → Base64;
  (** [Cert::decode] *)
  cert_decode : Base64 → option Cert;
  (** [RepoInfo] of [idexchange] *)
  RepoInfo : Type;
  RepoInfo_eq_dec :: EqDecision RepoInfo;
  repo_ca_repository : RepoInfo → string → Rsync;
  repo_resolve : RepoInfo → string → string → Rsync;
  repo_rpki_notify : RepoInfo → option Https;
  (** [ResourceClassName::default] and [Time::years_from_now] *)
  class_name_default : string;
  years_from : Instant → Z → Instant;
  (** Signed ROAs and ASPAs: content, serial number and expiry of the certificate. *)
  Roa : Type;
  roa_base64 : Roa → Base64;
  roa_serial : Roa → Serial;
  roa_expires : Roa → Instant;
  ProviderAs : Type;
  ProviderAs_eq_dec :: EqDecision ProviderAs;
  provider_asn : ProviderAs → AsNumber;
  AspaBuilder : Type;
  aspa_builder_new : AsNumber → list ProviderAs → option AspaBuilder;
  Aspa : Type;
  aspa_not_before : Aspa → Instant;
  aspa_not_after : Aspa → Instant;
  aspa_serial : Aspa → Serial;
  aspa_signed_object : Aspa → Rsync;
  aspa_base64 : Aspa → Base64;
  (** [BgpsecCsr] *)
  BgpsecCsr : Type;
  bgpsec_verify_signature : BgpsecCsr → bool;
  bgpsec_public_key : BgpsecCsr → PublicKey;
  bgpsec_base64 : BgpsecCsr → Base64;
  (** [IdCert] *)
  IdCert : Type;
  id_cert_public_key : IdCert → PublicKey;
  id_cert_base64 : IdCert → Base64;
  (** [hex::encode] *)
  hex_encode : string → string;
}.

Section errors.
Context `{PA : !PrefixApi, RP : !Rpki, CA : !CaApi}.

(** ** Errors ([commons/error.rs]) *)

Inductive CaError :=
| KeyUseNoMatch (ki : KeyIdentifier)
| KeyUseNoCurrentKey
| KeyUseNoNewKey
| KeyUseNoOldKey
| KeyUseNoIssuedCert
| KeyUseAttemptReuse
| KeyRollNotAllowed
| MissingResources
| LimitExceeded
| SignerError (e : string)
| InvalidCsr (e : string)
| CannotIssueRoa
| ResourceClassUnknown (rcn : string)
| CaChildUnknown (child : string)
| CaChildMustHaveResources (child : string)
| CaChildExtraResources (child : string)
| CaChildDuplicate (child : string)
| CaParentUnknown (parent : string)
| CaParentDuplicateName (parent : string)
| CaParentDuplicateInfo (parent : string)
| TaNotAllowed
| RepoNotSet
| CaRepoInUse
| RoaDeltaRejected
| AspaCustomerUnknown (customer : AsNumber)
| AspaCustomerAsNotEntitled (customer : AsNumber)
| AspaProvidersUpdateEmpty (customer : AsNumber)
| AspaProvidersUpdateConflict (duplicates unknowns : list ProviderAs)
| BgpSecDefinitionUnknown
| BgpSecDefinitionInvalidlySigned
| BgpSecDefinitionNotEntitled
| PublishingObjects (e : string)
| Custom (e : string).

Definition KrillResult : Type → Type := result CaError.
End errors.

Section certs.
Context `{PA : !PrefixApi, RP : !Rpki, CA : !CaApi}.

(** ** Timing of issuance ([IssuanceTimingConfig]) *)

Definition minutes (n : Z) : Z := seconds (n * 60).
Definition hours (n : Z) : Z := seconds (n * 3600).
Definition weeks (n : Z) : Z := seconds (n * 604800).

Record IssuanceTimingConfig := mkTiming {
  timing_publish_next_hours : Z;
  timing_publish_next_jitter_hours : Z;
  timing_publish_hours_before_next : Z;
  timing_child_certificate_valid_weeks : Z;
  timing_child_certificate_reissue_weeks_before : Z;
  timing_roa_reissue_weeks_before : Z;
  timing_aspa_valid_weeks : Z;
  timing_aspa_reissue_weeks_before : Z;
  timing_bgpsec_valid_weeks : Z;
  timing_bgpsec_reissue_weeks_before : Z;
}.

Record Validity := mkValidity { not_before : Instant; not_after : Instant }.
#[export] Instance Validity_eq_dec : EqDecision Validity.
Proof. unfold Instant. solve_decision. Defined.

Definition five_minutes_ago (now : Instant) : Instant := (now - minutes 5)%Z.
Definition sign_validity_weeks (now : Instant) (w : Z) : Validity :=
  mkValidity (five_minutes_ago now) (now + weeks w)%Z.

Section timing.
Variable (t : IssuanceTimingConfig) (now : Instant).
Definition new_child_cert_validity : Validity := sign_validity_weeks now (timing_child_certificate_valid_weeks t).
Definition new_child_cert_not_after : Instant := (now + weeks (timing_child_certificate_valid_weeks t))%Z.
Definition new_child_cert_issuance_threshold : Instant :=
  (now + weeks (timing_child_certificate_reissue_weeks_before t))%Z.
Definition new_roa_issuance_threshold : Instant := (now + weeks (timing_roa_reissue_weeks_before t))%Z.
Definition new_aspa_validity : Validity := sign_validity_weeks now (timing_aspa_valid_weeks t).
Definition new_aspa_issuance_threshold : Instant := (now + weeks (timing_aspa_reissue_weeks_before t))%Z.
Definition new_bgpsec_validity : Validity := sign_validity_weeks now (timing_bgpsec_valid_weeks t).
Definition new_bgpsec_issuance_threshold : Instant := (now + weeks (timing_bgpsec_reissue_weeks_before t))%Z.

(** The jitter in minutes is drawn at random and given here. *)
Definition publish_next (jitter : Z) : Instant :=
  let regular_mins := (timing_publish_next_hours t * 60)%Z in
  let random_mins := if decide (timing_publish_next_jitter_hours t = 0%Z) then 0%Z else jitter in
  (now + minutes (regular_mins + random_mins))%Z.
End timing.

Record Config := mkConfig {
  issuance_timing : IssuanceTimingConfig;
  roa_aggregate_threshold : nat;
  roa_deaggregate_threshold : nat;
  (** [test_mode_enabled()], a setting of the process *)
  test_mode : bool;
}.

(** ** Certificate requests *)

Record CsrInfo := mkCsrInfo {
  ci_ca_repository : Rsync;
  ci_rpki_manifest : Rsync;
  ci_rpki_notify : option Https;
  ci_key : PublicKey;
}.
#[export] Instance CsrInfo_eq_dec : EqDecision CsrInfo.
Proof. solve_decision. Defined.

Definition csr_key_id (self : CsrInfo) : KeyIdentifier := key_identifier (ci_key self).

(** [auth[0..i]] for the last colon. *)
Fixpoint before_last_colon (s : string) : option string :=
  match s with
  | EmptyString => None
  | String a s =>
      match before_last_colon s with
      | Some r => Some (String a r)
      | None => if Ascii.eqb a ":" then Some "" else None
      end
  end.

(** [str::to_lowercase] on ASCII text. *)
Definition lower_char (a : ascii) : ascii :=
  let n := N_of_ascii a in if (65 <=? n)%N && (n <=? 90)%N then ascii_of_N (n + 32) else a.
Fixpoint to_lowercase (s : string) : string :=
  match s with EmptyString => EmptyString | String a s => String (lower_char a) (to_lowercase s) end.

Definition seems_global_uri (auth : string) : bool :=
  if bool_decide (to_lowercase auth = "localhost") || starts_with auth "[" || is_ip_addr auth then false
  else match before_last_colon auth with
       | Some auth => negb (is_ip_addr auth)
       | None => true
       end.

Definition global_uris (self : CsrInfo) : bool :=
  seems_global_uri (rsync_authority (ci_ca_repository self))
  && seems_global_uri (rsync_authority (ci_rpki_manifest self))
  && match ci_rpki_notify self with Some uri => seems_global_uri (https_authority uri) | None => true end.

Definition csr_info_try_from (csr : Csr) : KrillResult CsrInfo :=
  if negb (csr_verify_signature csr) then Err (InvalidCsr "signature")
  else
    ca_repository ← ok_or (csr_ca_repository csr) (InvalidCsr "missing ca repository");
    rpki_manifest ← ok_or (csr_rpki_manifest csr) (InvalidCsr "missing rpki manifest");
    Ok (mkCsrInfo ca_repository rpki_manifest (csr_rpki_notify csr) (csr_public_key csr)).

(** ** Certificates: received, issued, suspended and unsuspended ones differ in a marker only *)

Record CertInfo := mkCertInfo {
  cert_uri : Rsync;
  cert_name : string;
  cert_resources : ResourceSet;
  cert_limit : ResourceLimit;
  cert_info_subject : Name;
  cert_validity : Validity;
  cert_info_serial : Serial;
  cert_csr_info : CsrInfo;
  cert_info_base64 : Base64;
  cert_hash : Hash;
}.
#[export] Instance CertInfo_eq_dec : EqDecision CertInfo.
Proof. solve_decision. Defined.

Definition cert_key_identifier (self : CertInfo) : KeyIdentifier := csr_key_id (cert_csr_info self).
Definition cert_expires (self : CertInfo) : Instant := not_after (cert_validity self).

(** [ObjectName] *)
Definition object_name (ki : KeyIdentifier) (extension : string) : string := key_display ki +:+ "." +:+ extension.
Definition cer_for_key (ki : KeyIdentifier) : string := object_name ki "cer".
Definition mft_for_key (ki : KeyIdentifier) : string := object_name ki "mft".
Definition crl_name (self : CertInfo) : string := object_name (cert_key_identifier self) "crl".
Definition mft_name (self : CertInfo) : string := object_name (cert_key_identifier self) "mft".
Definition uri_for_name (self : CertInfo) (name : string) : Rsync :=
  rsync_join (ci_ca_repository (cert_csr_info self)) name.
Definition crl_uri (self : CertInfo) : Rsync := uri_for_name self (crl_name self).
Definition mft_uri (self : CertInfo) : Rsync := uri_for_name self (mft_name self).

(** [ObjectName::aspa] and [ObjectName::bgpsec]; the AS number as eight upper-case hexadecimal
    digits. *)
Definition aspa_name (customer : AsNumber) : string := "AS" +:+ pretty customer +:+ ".asa".
Definition hex_char (n : N) : ascii := if (n <? 10)%N then ascii_of_N (48 + n) else ascii_of_N (55 + n).
Fixpoint hex_digits (w : nat) (n : N) : string :=
  match w with
  | O => ""
  | S w => hex_digits w (N.div n 16) +:+ String (hex_char (N.modulo n 16)) ""
  end.
Definition bgpsec_name (asn : AsNumber) (key : KeyIdentifier) : string :=
  "ROUTER-" +:+ hex_digits 8 asn +:+ "-" +:+ key_display key +:+ ".cer".

(** The part of a path after the last slash; all of it but the first character if there is none. *)
Fixpoint after_last_slash (s : string) : option string :=
  match s with
  | EmptyString => None
  | String a s =>
      match after_last_slash s with
      | Some r => Some r
      | None => if Ascii.eqb a "/" then Some s else None
      end
  end.
Definition file_name (path : string) : string :=
  match after_last_slash path with
  | Some s => s
  | None => match path with EmptyString => EmptyString | String _ s => s end
  end.

Definition cert_info_create (cert : Cert) (uri : Rsync) (resources : ResourceSet) (limit : ResourceLimit)
    : option CertInfo :=
  let path := rsync_path uri in
  let name := file_name path in
  if negb (ends_with path ".cer") || (String.length name <? 5)%nat then None
  else
    ca_repository ← cert_ca_repository cert;
    rpki_manifest ← cert_rpki_manifest cert;
    Some (mkCertInfo uri name resources limit (cert_subject cert)
            (mkValidity (cert_not_before cert) (cert_not_after cert)) (cert_serial cert)
            (mkCsrInfo ca_repository rpki_manifest (cert_rpki_notify cert) (cert_public_key cert))
            (cert_base64 cert) (to_hash (cert_base64 cert))).

Definition reduced_applicable_resources (self : CertInfo) (encompassing : ResourceSet) : option ResourceSet :=
  if rs_contains encompassing (cert_resources self) then None
  else Some (rs_intersection encompassing (cert_resources self)).

(** ** Identity certificates *)

Record IdCertInfo := mkIdCertInfo { idc_public_key : PublicKey; idc_base64 : Base64; idc_hash : Hash }.
#[export] Instance IdCertInfo_eq_dec : EqDecision IdCertInfo.
Proof. solve_decision. Defined.
Definition id_cert_info_from (cert : IdCert) : IdCertInfo :=
  mkIdCertInfo (id_cert_public_key cert) (id_cert_base64 cert) (to_hash (id_cert_base64 cert)).

(** ** The signer *)

Inductive KeyUsage := UsageCa | UsageEe | UsageRouter.

(** What is put on a certificate before it is signed. *)
Record TbsCert := mkTbsCert {
  tbs_serial : Serial;
  tbs_issuer : Name;
  tbs_validity : Validity;
  tbs_subject : option Name;
  tbs_public_key : PublicKey;
  tbs_key_usage : KeyUsage;
  tbs_resources : ResourceSet;
  tbs_authority_key_identifier : option KeyIdentifier;
  tbs_ca_issuer : option Rsync;
  tbs_crl_uri : option Rsync;
  tbs_ca_repository : option Rsync;
  tbs_rpki_manifest : option Rsync;
  tbs_rpki_notify : option Https;
}.

(** [SignedObjectBuilder]: the certificate of a signed object. *)
Record SignedObjectBuilder := mkObjectBuilder {
  sob_serial : Serial;
  sob_validity : Validity;
  sob_crl_uri : Rsync;
  sob_ca_issuer : Rsync;
  sob_signed_object : Rsync;
  sob_issuer : Name;
  sob_signing_time : Instant;
}.

Record AspaDefinition := mkAspaDefinition { aspa_customer : AsNumber; aspa_providers : list ProviderAs }.
#[export] Instance AspaDefinition_eq_dec : EqDecision AspaDefinition.
Proof. unfold AsNumber. solve_decision. Defined.

(** [KrillSigner], as used in one command: a key is created for a resource class (by its name),
    a serial number is drawn for an object (by the issuing key and the object's name). *)
Record Signer := mkSigner {
  create_key : string → result string KeyIdentifier;
  create_self_signed_id_cert : result string IdCert;
  get_key_info : KeyIdentifier → result string PublicKey;
  random_serial : KeyIdentifier → string → result string Serial;
  sign_csr : RepoInfo → string → KeyIdentifier → result string Csr;
  sign_cert : TbsCert → KeyIdentifier → result string Cert;
  sign_roa : KeyIdentifier → AsNumber → list (TypedPrefix * option N) → string → result string Roa;
  sign_aspa : AspaBuilder → SignedObjectBuilder → KeyIdentifier → result string Aspa;
}.

(** [make_tbs_cert] for a CA certificate. *)
Definition make_tbs_cert (resources : ResourceSet) (signing_cert : CertInfo) (csr : CsrInfo) (validity : Validity)
    (signer : Signer) : KrillResult TbsCert :=
  serial ← map_err SignerError (random_serial signer (cert_key_identifier signing_cert) (cer_for_key (csr_key_id csr)));
  Ok (mkTbsCert serial (cert_info_subject signing_cert) validity (Some (name_from_pub_key (ci_key csr))) (ci_key csr)
        UsageCa resources (Some (cert_key_identifier signing_cert)) (Some (cert_uri signing_cert)) (Some (crl_uri signing_cert))
        (Some (ci_ca_repository csr)) (Some (ci_rpki_manifest csr)) (ci_rpki_notify csr)).

(** [SignSupport::make_issued_cert]; the signing key by its identifier and certificate. *)
Definition make_issued_cert (csr : CsrInfo) (resources : ResourceSet) (limit : ResourceLimit)
    (signing_key : KeyIdentifier) (signing_cert : CertInfo) (validity : Validity) (signer : Signer)
    : KrillResult CertInfo :=
  resources ← ok_or (limit_apply_to limit resources) LimitExceeded;
  if negb (rs_contains (cert_resources signing_cert) resources) then Err MissingResources
  else
    tbs ← make_tbs_cert resources signing_cert csr validity signer;
    cert ← map_err SignerError (sign_cert signer tbs signing_key);
    let uri := uri_for_name signing_cert (cer_for_key (key_identifier (cert_public_key cert))) in
    ok_or (cert_info_create cert uri resources limit) (Custom "Signed certificate has issue").
End certs.
