(* ===== verification/CaEvents.v ===== *)
(** * Data and events of a CA ([src/src/daemon/ca/keys.rs], [child.rs], [aspa.rs], [bgpsec.rs], [events.rs], [commons/api])

    The keys of a resource class, the objects issued under it, the updates of these objects and
    the events by which a CA changes. *)

From stdpp Require Import base gmap strings list.
From S2P Require Import Prelude Rpki Roas Routes CaCerts.

Section data.
Context `{PA : !PrefixApi, RP : !Rpki, CA : !CaApi}.

(** ** Requests to a parent ([rpki::ca::provisioning]) *)

Record IssuanceRequest := mkIssuanceRequest {
  ir_class_name : string;
  ir_limit : ResourceLimit;
  ir_csr : Csr;
}.
Record RevocationRequest := mkRevocationRequest { rr_class_name : string; rr_key : KeyIdentifier }.
#[export] Instance RevocationRequest_eq_dec : EqDecision RevocationRequest.
Proof. solve_decision. Defined.

(** ** Keys *)

Record CertifiedKey := mkCertifiedKey {
  ck_key_id : KeyIdentifier;
  ck_incoming_cert : CertInfo;
  ck_request : option IssuanceRequest;
  ck_old_repo : option RepoInfo;
}.
Record PendingKey := mkPendingKey { pk_key_id : KeyIdentifier; pk_request : option IssuanceRequest }.
Record OldKey := mkOldKey { ok_key : CertifiedKey; ok_revoke_req : RevocationRequest }.

Inductive KeyState :=
| Pending (pending : PendingKey)
| Active (current : CertifiedKey)
| RollPending (pending : PendingKey) (current : CertifiedKey)
| RollNew (new current : CertifiedKey)
| RollOld (current : CertifiedKey) (old : OldKey).

(** ** Objects of a resource class *)

Record AspaInfo := mkAspaInfo {
  ai_definition : AspaDefinition;
  ai_validity : Validity;
  ai_serial : Serial;
  ai_uri : Rsync;
  ai_base64 : Base64;
  ai_hash : Hash;
}.

Record BgpSecAsnKey := mkAsnKey { ak_router_asn : AsNumber; ak_router_key : KeyIdentifier }.
#[export] Instance BgpSecAsnKey_eq_dec : EqDecision BgpSecAsnKey.
Proof. unfold AsNumber. solve_decision. Defined.
#[export] Instance BgpSecAsnKey_countable : Countable BgpSecAsnKey.
Proof.
  refine (inj_countable' (λ k, (ak_router_asn k, ak_router_key k)) (λ '(a, k), mkAsnKey a k) _); by intros [].
Defined.

Record BgpSecCertInfo := mkBgpSecCertInfo {
  bi_asn : AsNumber;
  bi_public_key : PublicKey;
  bi_serial : Serial;
  bi_expires : Instant;
  bi_base64 : Base64;
}.

Record StoredBgpSecCsr := mkStoredCsr { sc_since : Instant; sc_key : PublicKey; sc_csr : Base64 }.
#[export] Instance StoredBgpSecCsr_eq_dec : EqDecision StoredBgpSecCsr.
Proof. unfold Instant. solve_decision. Defined.

(** ** Updates of the objects *)

Record AspaProvidersUpdate := mkProvidersUpdate { pu_added : list ProviderAs; pu_removed : list ProviderAs }.

Record AspaObjectsUpdates := mkAspaUpdates { au_updated : list AspaInfo; au_removed : list AsNumber }.
Definition no_aspa_updates : AspaObjectsUpdates := mkAspaUpdates [] [].
Definition aspa_add_updated (u : AspaObjectsUpdates) (i : AspaInfo) : AspaObjectsUpdates :=
  mkAspaUpdates (au_updated u ++ [i]) (au_removed u).
Definition aspa_add_removed (u : AspaObjectsUpdates) (customer : AsNumber) : AspaObjectsUpdates :=
  mkAspaUpdates (au_updated u) (au_removed u ++ [customer]).
Definition aspa_updates_is_empty (u : AspaObjectsUpdates) : bool :=
  match au_updated u, au_removed u with [], [] => true | _, _ => false end.

Record BgpSecCertificateUpdates := mkBgpSecUpdates { bu_updated : list BgpSecCertInfo; bu_removed : list BgpSecAsnKey }.
Definition no_bgpsec_updates : BgpSecCertificateUpdates := mkBgpSecUpdates [] [].
Definition bgpsec_add_updated (u : BgpSecCertificateUpdates) (i : BgpSecCertInfo) : BgpSecCertificateUpdates :=
  mkBgpSecUpdates (bu_updated u ++ [i]) (bu_removed u).
Definition bgpsec_add_removed (u : BgpSecCertificateUpdates) (k : BgpSecAsnKey) : BgpSecCertificateUpdates :=
  mkBgpSecUpdates (bu_updated u) (bu_removed u ++ [k]).
Definition bgpsec_updates_is_empty (u : BgpSecCertificateUpdates) : bool :=
  match bu_updated u, bu_removed u with [], [] => true | _, _ => false end.

Record ChildCertificateUpdates := mkChildUpdates {
  cu_issued : list CertInfo;
  cu_removed : list KeyIdentifier;
  cu_suspended : list CertInfo;
  cu_unsuspended : list CertInfo;
}.
Definition no_child_updates : ChildCertificateUpdates := mkChildUpdates [] [] [] [].
Definition child_updates_is_empty (u : ChildCertificateUpdates) : bool :=
  match cu_issued u, cu_removed u, cu_suspended u, cu_unsuspended u with [], [], [], [] => true | _, _, _, _ => false end.
Definition upd_issue (u : ChildCertificateUpdates) (c : CertInfo) : ChildCertificateUpdates :=
  mkChildUpdates (cu_issued u ++ [c]) (cu_removed u) (cu_suspended u) (cu_unsuspended u).
Definition upd_remove (u : ChildCertificateUpdates) (ki : KeyIdentifier) : ChildCertificateUpdates :=
  mkChildUpdates (cu_issued u) (cu_removed u ++ [ki]) (cu_suspended u) (cu_unsuspended u).
Definition upd_suspend (u : ChildCertificateUpdates) (c : CertInfo) : ChildCertificateUpdates :=
  mkChildUpdates (cu_issued u) (cu_removed u) (cu_suspended u ++ [c]) (cu_unsuspended u).
Definition upd_unsuspend (u : ChildCertificateUpdates) (c : CertInfo) : ChildCertificateUpdates :=
  mkChildUpdates (cu_issued u) (cu_removed u) (cu_suspended u) (cu_unsuspended u ++ [c]).

(** ** Contacts *)

(** [TaCertDetails], without the trust anchor locator that is derived from the certificate; the
    contact of a parent is otherwise kept as it was entered. *)
Inductive ParentCaContact :=
| TaContact (cert : CertInfo) (tal_uris : list Https) (tal_rsync : Rsync)
| Rfc6492Contact (service_uri : string) (parent_handle child_handle : string) (id_cert : IdCertInfo).
#[export] Instance ParentCaContact_eq_dec : EqDecision ParentCaContact.
Proof. solve_decision. Defined.

Record RepositoryContact := mkRepoContact {
  rc_repo_info : RepoInfo;
  rc_server_key : PublicKey;
  rc_service_uri : string;
}.
#[export] Instance RepositoryContact_eq_dec : EqDecision RepositoryContact.
Proof. solve_decision. Defined.

(** ** Events *)

(** The events of the route authorizations are those of [Routes]. *)
Inductive CaEvent :=
| TrustAnchorMade (cert : CertInfo) (uris : list Https) (rsync_uri : Rsync)
| ChildAdded (child : string) (id_cert : IdCertInfo) (resources : ResourceSet)
| ChildCertificateIssued (child : string) (resource_class_name : string) (ki : KeyIdentifier)
| ChildKeyRevoked (child : string) (resource_class_name : string) (ki : KeyIdentifier)
| ChildCertificatesUpdated (resource_class_name : string) (updates : ChildCertificateUpdates)
| ChildUpdatedIdCert (child : string) (id_cert : IdCertInfo)
| ChildUpdatedResources (child : string) (resources : ResourceSet)
| ChildRemoved (child : string)
| ChildSuspended (child : string)
| ChildUnsuspended (child : string)
| IdUpdated (id : IdCertInfo)
| ParentAdded (parent : string) (contact : ParentCaContact)
| ParentUpdated (parent : string) (contact : ParentCaContact)
| ParentRemoved (parent : string)
| ResourceClassAdded (resource_class_name parent parent_resource_class_name : string) (pending_key : KeyIdentifier)
| ResourceClassRemoved (resource_class_name parent : string) (revoke_requests : list RevocationRequest)
| CertificateRequested (resource_class_name : string) (req : IssuanceRequest) (ki : KeyIdentifier)
| CertificateReceived (resource_class_name : string) (rcvd_cert : CertInfo) (ki : KeyIdentifier)
| KeyRollPendingKeyAdded (resource_class_name : string) (pending_key_id : KeyIdentifier)
| KeyPendingToNew (resource_class_name : string) (new_key : CertifiedKey)
| KeyPendingToActive (resource_class_name : string) (current_key : CertifiedKey)
| KeyRollActivated (resource_class_name : string) (revoke_req : RevocationRequest)
| KeyRollFinished (resource_class_name : string)
| UnexpectedKeyFound (resource_class_name : string) (revoke_req : RevocationRequest)
| RouteEvent (e : CaEvtDet)
| RoasUpdated (resource_class_name : string) (updates : RoaUpdates (Roa := Roa))
| AspaConfigAdded (aspa_config : AspaDefinition)
| AspaConfigUpdated (customer : AsNumber) (update : AspaProvidersUpdate)
| AspaConfigRemoved (customer : AsNumber)
| AspaObjectsUpdated (resource_class_name : string) (updates : AspaObjectsUpdates)
| BgpSecDefinitionAdded (key : BgpSecAsnKey) (csr : StoredBgpSecCsr)
| BgpSecDefinitionUpdated (key : BgpSecAsnKey) (csr : StoredBgpSecCsr)
| BgpSecDefinitionRemoved (key : BgpSecAsnKey)
| BgpSecCertificatesUpdated (resource_class_name : string) (updates : BgpSecCertificateUpdates)
| RepoUpdated (contact : RepositoryContact).
End data.
