(* ===== verification/CaKeys.v ===== *)
(** * Keys of a resource class ([src/src/daemon/ca/keys.rs])

    A resource class has a pending key until its first certificate arrives, then a current key,
    and a second key while a key is rolled. *)

From stdpp Require Import base gmap strings list.
From S2P Require Import Prelude Rpki Roas Routes CaCerts CaEvents.

Section keys.
Context `{PA : !PrefixApi, RP : !Rpki, CA : !CaApi}.

(** ** What a parent offers ([ResourceClassEntitlements]) *)

Record IssuedCert := mkIssuedCert { ic_uri : Rsync; ic_limit : ResourceLimit; ic_cert : Cert }.
Record Entitlement := mkEntitlement {
  ent_class_name : string;
  ent_resource_set : ResourceSet;
  ent_not_after : Instant;
  ent_issued_certs : list IssuedCert;
  ent_signing_uri : Rsync;
  ent_signing_cert : Cert;
}.

(** ** [CertifiedKey] *)

Definition certified_key_create (incoming_cert : CertInfo) : CertifiedKey :=
  mkCertifiedKey (cert_key_identifier incoming_cert) incoming_cert None None.
Definition set_incoming_cert (self : CertifiedKey) (incoming_cert : CertInfo) : CertifiedKey :=
  mkCertifiedKey (ck_key_id self) incoming_cert None (ck_old_repo self).
Definition certified_add_request (self : CertifiedKey) (req : IssuanceRequest) : CertifiedKey :=
  mkCertifiedKey (ck_key_id self) (ck_incoming_cert self) (Some req) (ck_old_repo self).
Definition certified_set_old_repo (self : CertifiedKey) (repo : RepoInfo) : CertifiedKey :=
  mkCertifiedKey (ck_key_id self) (ck_incoming_cert self) (ck_request self) (Some repo).

(** Whether a new certificate is wanted.  The quotients of remaining times are compared with 0.9
    and 1.1 as exact fractions: on times below [2^40] seconds, where neighbouring quotients are
    farther apart than the rounding of [f64] moves them, the outcome is the same. *)
Definition wants_update (self : CertifiedKey) (new_resources : ResourceSet) (new_not_after : Instant) (now : Instant)
    : bool :=
  if negb (rs_difference_is_empty new_resources (cert_resources (ck_incoming_cert self))) then true
  else
    let not_after := not_after (cert_validity (ck_incoming_cert self)) in
    let now := timestamp now in
    let remaining_on_current := (timestamp not_after - now)%Z in
    let remaining_on_eligible := (timestamp new_not_after - now)%Z in
    if (remaining_on_eligible <=? 0)%Z then false
    else if (remaining_on_current =? remaining_on_eligible)%Z then false
    else if (0 <? remaining_on_current)%Z && (10 * remaining_on_eligible <? 9 * remaining_on_current)%Z then true
    else (remaining_on_current <=? 0)%Z || (11 * remaining_on_current <? 10 * remaining_on_eligible)%Z.

(** ** [PendingKey] and [OldKey] *)

Definition pending_key_new (key_id : KeyIdentifier) : PendingKey := mkPendingKey key_id None.
Definition pending_add_request (self : PendingKey) (req : IssuanceRequest) : PendingKey :=
  mkPendingKey (pk_key_id self) (Some req).
Definition old_add_request (self : OldKey) (req : IssuanceRequest) : OldKey :=
  mkOldKey (certified_add_request (ok_key self) req) (ok_revoke_req self).
Definition old_key_id (self : OldKey) : KeyIdentifier := ck_key_id (ok_key self).

(** ** [KeyState] *)

Definition key_state_create (pending_key : KeyIdentifier) : KeyState := Pending (pending_key_new pending_key).

Definition key_add_request (self : KeyState) (key_id : KeyIdentifier) (req : IssuanceRequest) : KeyState :=
  match self with
  | Pending pending => Pending (pending_add_request pending req)
  | Active current => Active (certified_add_request current req)
  | RollPending pending current =>
      if decide (pk_key_id pending = key_id) then RollPending (pending_add_request pending req) current
      else RollPending pending (certified_add_request current req)
  | RollNew new current =>
      if decide (ck_key_id new = key_id) then RollNew (certified_add_request new req) current
      else RollNew new (certified_add_request current req)
  | RollOld current old =>
      if decide (ck_key_id current = key_id) then RollOld (certified_add_request current req) old
      else RollOld current (old_add_request old req)
  end.

Definition revoke_key (class_name : string) (key_id : KeyIdentifier) (signer : Signer) : KrillResult RevocationRequest :=
  public_key ← map_err SignerError (get_key_info signer key_id);
  Ok (mkRevocationRequest class_name (key_identifier public_key)).

Definition key_revoke (self : KeyState) (class_name : string) (signer : Signer) : KrillResult (list RevocationRequest) :=
  match self with
  | Pending _ => Ok []
  | Active current | RollPending _ current =>
      revoke_current ← revoke_key class_name (ck_key_id current) signer;
      Ok [revoke_current]
  | RollNew new current =>
      revoke_new ← revoke_key class_name (ck_key_id new) signer;
      revoke_current ← revoke_key class_name (ck_key_id current) signer;
      Ok [revoke_new; revoke_current]
  | RollOld current old =>
      revoke_current ← revoke_key class_name (ck_key_id current) signer;
      Ok [revoke_current; ok_revoke_req old]
  end.

Definition create_issuance_req (base_repo : RepoInfo) (name_space class_name : string) (key : KeyIdentifier)
    (signer : Signer) : KrillResult IssuanceRequest :=
  csr ← map_err SignerError (sign_csr signer base_repo name_space key);
  Ok (mkIssuanceRequest class_name limit_default csr).

Definition knows_key (self : KeyState) (key_id : KeyIdentifier) : bool :=
  match self with
  | Pending pending => bool_decide (pk_key_id pending = key_id)
  | Active current => bool_decide (ck_key_id current = key_id)
  | RollPending pending current => bool_decide (pk_key_id pending = key_id) || bool_decide (ck_key_id current = key_id)
  | RollNew new current => bool_decide (ck_key_id new = key_id) || bool_decide (ck_key_id current = key_id)
  | RollOld current old => bool_decide (ck_key_id current = key_id) || bool_decide (old_key_id old = key_id)
  end.

(** The request for a key under the repository it is published in, if a new certificate is wanted. *)
Definition key_for_request (base_repo : RepoInfo) (ent : Entitlement) (now : Instant) (key : CertifiedKey)
    (for_key : KeyIdentifier) : list (RepoInfo * KeyIdentifier) :=
  if wants_update key (ent_resource_set ent) (ent_not_after ent) now
  then [(default base_repo (ck_old_repo key), for_key)] else [].

(** The keys that need a request; with an old key that wants an update, the source requests for
    the current key. *)
Definition keys_for_requests (self : KeyState) (base_repo : RepoInfo) (ent : Entitlement) (now : Instant)
    : list (RepoInfo * KeyIdentifier) :=
  let wanted key for_key := key_for_request base_repo ent now key for_key in
  match self with
  | Pending pending => [(base_repo, pk_key_id pending)]
  | Active current => wanted current (ck_key_id current)
  | RollPending pending current => (base_repo, pk_key_id pending) :: wanted current (ck_key_id current)
  | RollNew new current => wanted new (ck_key_id new) ++ wanted current (ck_key_id current)
  | RollOld current old => wanted current (ck_key_id current) ++ wanted (ok_key old) (ck_key_id current)
  end.

(** Requests for a list of keys, as events. *)
Definition request_event (rcn name_space class_name : string) (signer : Signer) (res : list CaEvent)
    (rk : RepoInfo * KeyIdentifier) : KrillResult (list CaEvent) :=
  req ← create_issuance_req rk.1 name_space class_name rk.2 signer;
  Ok (res ++ [CertificateRequested rcn req rk.2]).

Definition key_entitlement_events (self : KeyState) (rcn : string) (ent : Entitlement) (base_repo : RepoInfo)
    (name_space : string) (now : Instant) (signer : Signer) : KrillResult (list CaEvent) :=
  res ← fold_each (request_event rcn name_space (ent_class_name ent) signer) []
          (keys_for_requests self base_repo ent now);
  Ok (foldl (λ res c,
        let key := key_identifier (cert_public_key (ic_cert c)) in
        if knows_key self key then res
        else res ++ [UnexpectedKeyFound rcn (mkRevocationRequest (ent_class_name ent) key)])
      res (ent_issued_certs ent)).

Definition request_certs_new_repo (self : KeyState) (rcn : string) (base_repo : RepoInfo) (name_space : string)
    (signer : Signer) : KrillResult (list CaEvent) :=
  let keys :=
    match self with
    | Pending pending => [pk_key_id pending]
    | Active current => [ck_key_id current]
    | RollPending pending current => [pk_key_id pending; ck_key_id current]
    | RollNew new current => [ck_key_id new; ck_key_id current]
    | RollOld current old => [ck_key_id current; old_key_id old]
    end in
  fold_each (request_event rcn name_space rcn signer) [] (pair base_repo <$> keys).

Definition key_cert_requests (self : KeyState) : list IssuanceRequest :=
  let open (r : option IssuanceRequest) := option_list r in
  match self with
  | Pending pending => open (pk_request pending)
  | Active current => open (ck_request current)
  | RollPending pending current => open (pk_request pending) ++ open (ck_request current)
  | RollNew new current => open (ck_request new) ++ open (ck_request current)
  | RollOld current old => open (ck_request current) ++ open (ck_request (ok_key old))
  end.

Definition key_revoke_request (self : KeyState) : option RevocationRequest :=
  match self with RollOld _ old => Some (ok_revoke_req old) | _ => None end.

(** ** Key life cycle *)

Definition key_keyroll_initiate (self : KeyState) (resource_class_name parent_class_name : string) (base_repo : RepoInfo)
    (name_space : string) (signer : Signer) : KrillResult (list CaEvent) :=
  match self with
  | Active _ =>
      pending_key_id ← map_err SignerError (create_key signer resource_class_name);
      req ← create_issuance_req base_repo name_space parent_class_name pending_key_id signer;
      Ok [KeyRollPendingKeyAdded resource_class_name pending_key_id;
          CertificateRequested resource_class_name req pending_key_id]
  | _ => Ok []
  end.

Definition key_keyroll_activate (self : KeyState) (resource_class_name parent_class_name : string) (signer : Signer)
    : KrillResult CaEvent :=
  match self with
  | RollNew _ current =>
      revoke_req ← revoke_key parent_class_name (ck_key_id current) signer;
      Ok (KeyRollActivated resource_class_name revoke_req)
  | _ => Err KeyUseNoNewKey
  end.

Definition new_key (self : KeyState) : option CertifiedKey :=
  match self with RollNew new _ => Some new | _ => None end.

Definition set_old_repo_if_in_active_state (self : KeyState) (repo : RepoInfo) : KeyState :=
  match self with Active current => Active (certified_set_old_repo current repo) | _ => self end.
End keys.
