(* ===== verification/CaChildren.v ===== *)
(** * Children of a CA and their certificates ([src/src/daemon/ca/child.rs]) *)

From stdpp Require Import base gmap strings list.
From S2P Require Import Prelude Rpki Roas Routes CaCerts CaEvents.

Section children.
Context `{PA : !PrefixApi, RP : !Rpki, CA : !CaApi, HO : !HashOrder}.

(** ** A child *)

Inductive UsedKeyState := InUse (rcn : string) | Revoked.
#[export] Instance UsedKeyState_eq_dec : EqDecision UsedKeyState.
Proof. solve_decision. Defined.

Inductive ChildState := ChildActive | ChildInactive.

Record ChildDetails := mkChild {
  cd_state : ChildState;
  cd_id_cert : IdCertInfo;
  cd_resources : ResourceSet;
  cd_used_keys : gmap KeyIdentifier UsedKeyState;
}.

Definition child_new (id_cert : IdCertInfo) (resources : ResourceSet) : ChildDetails :=
  mkChild ChildActive id_cert resources ∅.
Definition is_suspended (self : ChildDetails) : bool :=
  match cd_state self with ChildInactive => true | ChildActive => false end.
Definition set_state (st : ChildState) (self : ChildDetails) : ChildDetails :=
  mkChild st (cd_id_cert self) (cd_resources self) (cd_used_keys self).
Definition child_suspend : ChildDetails → ChildDetails := set_state ChildInactive.
Definition child_do_unsuspend : ChildDetails → ChildDetails := set_state ChildActive.
Definition set_id_cert (id_cert : IdCertInfo) (self : ChildDetails) : ChildDetails :=
  mkChild (cd_state self) id_cert (cd_resources self) (cd_used_keys self).
Definition set_resources (resources : ResourceSet) (self : ChildDetails) : ChildDetails :=
  mkChild (cd_state self) (cd_id_cert self) resources (cd_used_keys self).

Definition child_issued (self : ChildDetails) (rcn : string) : list KeyIdentifier :=
  omap (λ '(ki, used), match used with InUse found => if decide (found = rcn) then Some ki else None | Revoked => None end)
    (hm_iter (cd_used_keys self)).

Definition is_issued (self : ChildDetails) (ki : KeyIdentifier) : bool :=
  match cd_used_keys self !! ki with Some (InUse _) => true | _ => false end.

Definition add_issue_response (rcn : string) (ki : KeyIdentifier) (self : ChildDetails) : ChildDetails :=
  mkChild (cd_state self) (cd_id_cert self) (cd_resources self) (<[ki := InUse rcn]> (cd_used_keys self)).
Definition add_revoke_response (ki : KeyIdentifier) (self : ChildDetails) : ChildDetails :=
  mkChild (cd_state self) (cd_id_cert self) (cd_resources self) (<[ki := Revoked]> (cd_used_keys self)).

(** Not called in the sources. *)
Definition verify_key_allowed (self : ChildDetails) (ki : KeyIdentifier) (rcn : string) : KrillResult unit :=
  match cd_used_keys self !! ki with
  | Some Revoked => Err KeyUseAttemptReuse
  | Some (InUse found) => if decide (found = rcn) then Ok tt else Err KeyUseAttemptReuse
  | None => Ok tt
  end.

(** ** Certificates issued to children *)

Record ChildCertificates := mkChildCerts {
  cc_issued : gmap KeyIdentifier CertInfo;
  cc_suspended : gmap KeyIdentifier CertInfo;
}.
Definition no_child_certs : ChildCertificates := mkChildCerts ∅ ∅.

Definition certificate_issued (self : ChildCertificates) (issued : CertInfo) : ChildCertificates :=
  mkChildCerts (<[cert_key_identifier issued := issued]> (cc_issued self)) (cc_suspended self).
Definition certificate_unsuspended (self : ChildCertificates) (unsuspended : CertInfo) : ChildCertificates :=
  let ki := cert_key_identifier unsuspended in
  mkChildCerts (<[ki := unsuspended]> (cc_issued self)) (delete ki (cc_suspended self)).
Definition certificate_suspended (self : ChildCertificates) (suspended : CertInfo) : ChildCertificates :=
  let ki := cert_key_identifier suspended in
  mkChildCerts (delete ki (cc_issued self)) (<[ki := suspended]> (cc_suspended self)).
Definition key_revoked (self : ChildCertificates) (key : KeyIdentifier) : ChildCertificates :=
  mkChildCerts (delete key (cc_issued self)) (delete key (cc_suspended self)).

Section issue.
Variable (timing : IssuanceTimingConfig) (now : Instant) (signer : Signer).

Definition re_issue (previous : CertInfo) (updated_resources : option ResourceSet) (signing_key : CertifiedKey)
    : KrillResult CertInfo :=
  make_issued_cert (cert_csr_info previous) (default (cert_resources previous) updated_resources) (cert_limit previous)
    (ck_key_id signing_key) (ck_incoming_cert signing_key) (new_child_cert_validity timing now) signer.

Definition activate_key (self : ChildCertificates) (new_key : CertifiedKey) : KrillResult ChildCertificateUpdates :=
  updates ← fold_each (λ u issued, c ← re_issue issued None new_key; Ok (upd_issue u c))
              no_child_updates (hm_values (cc_issued self));
  fold_each (λ u suspended, c ← re_issue suspended None new_key; Ok (upd_suspend u c))
    updates (hm_values (cc_suspended self)).

(** Shrinking one certificate; [add] puts a re-issued one in the updates. *)
Definition shrink_cert (updated_key : CertifiedKey) (add : ChildCertificateUpdates → CertInfo → ChildCertificateUpdates)
    (u : ChildCertificateUpdates) (cert : CertInfo) : KrillResult ChildCertificateUpdates :=
  match reduced_applicable_resources cert (cert_resources (ck_incoming_cert updated_key)) with
  | None => Ok u
  | Some reduced_set =>
      if rs_is_empty reduced_set then Ok (upd_remove u (cert_key_identifier cert))
      else c ← re_issue cert (Some reduced_set) updated_key; Ok (add u c)
  end.

Definition shrink_overclaiming (self : ChildCertificates) (updated_key : CertifiedKey)
    : KrillResult ChildCertificateUpdates :=
  updates ← fold_each (shrink_cert updated_key upd_issue) no_child_updates (hm_values (cc_issued self));
  fold_each (shrink_cert updated_key upd_suspend) updates (hm_values (cc_suspended self)).

Definition expiring (self : ChildCertificates) : list CertInfo :=
  filter (λ issued, cert_expires issued < new_child_cert_issuance_threshold timing now)%Z (hm_values (cc_issued self)).
End issue.

Definition overclaiming (self : ChildCertificates) (resources : ResourceSet) : list CertInfo :=
  filter (λ issued, rs_contains resources (cert_resources issued) = false) (hm_values (cc_issued self)).
End children.
