(* ===== verification/CaProducts.v ===== *)
(** * ASPA objects and BGPsec certificates ([src/src/daemon/ca/aspa.rs], [bgpsec.rs], [commons/api/aspa.rs], [bgpsec.rs]) *)

From stdpp Require Import base gmap strings list.
From S2P Require Import Prelude Rpki Roas Routes CaCerts CaEvents.

Section products.
Context `{PA : !PrefixApi, RP : !Rpki, CA : !CaApi, HO : !HashOrder}.

(** The maps of the sources: definitions of a CA, objects of a resource class. *)
Definition AspaDefinitions : Type := gmap AsNumber AspaDefinition.
Definition AspaObjects : Type := gmap AsNumber AspaInfo.
Definition BgpSecDefinitions : Type := gmap BgpSecAsnKey StoredBgpSecCsr.
Definition BgpSecCertificates : Type := gmap BgpSecAsnKey BgpSecCertInfo.

(** ** ASPA definitions *)

Record AspaDefinitionUpdates := mkAspaDefUpdates {
  adu_add_or_replace : list AspaDefinition;
  adu_remove : list AsNumber;
}.

Definition providers_update_is_empty (u : AspaProvidersUpdate) : bool :=
  match pu_added u, pu_removed u with [], [] => true | _, _ => false end.

(** Unknown and duplicate providers of an update. *)
Definition def_verify_update (self : AspaDefinition) (u : AspaProvidersUpdate) : result (list ProviderAs * list ProviderAs) unit :=
  let unknowns := filter (λ removed, removed ∉ aspa_providers self) (pu_removed u) in
  let duplicates := filter (λ added, provider_asn added ∈ provider_asn <$> aspa_providers self) (pu_added u) in
  match duplicates, unknowns with [], [] => Ok tt | _, _ => Err (duplicates, unknowns) end.

(** [sort_by_key] on the AS number: stable. *)
Fixpoint insert_provider (p : ProviderAs) (l : list ProviderAs) : list ProviderAs :=
  match l with
  | [] => [p]
  | q :: l => if (provider_asn q <? provider_asn p)%N then q :: insert_provider p l else p :: q :: l
  end.
Definition sort_providers (l : list ProviderAs) : list ProviderAs := foldr insert_provider [] l.

Definition def_apply_update (self : AspaDefinition) (u : AspaProvidersUpdate) : AspaDefinition :=
  let providers := foldl (λ ps removed, filter (λ p, p ≠ removed) ps) (aspa_providers self) (pu_removed u) in
  let providers := foldl (λ ps added, ps ++ [added]) providers (pu_added u) in
  mkAspaDefinition (aspa_customer self) (sort_providers providers).

Definition aspa_add_or_replace (self : AspaDefinitions) (d : AspaDefinition) : AspaDefinitions :=
  <[aspa_customer d := d]> self.
Definition aspa_remove (self : AspaDefinitions) (customer : AsNumber) : AspaDefinitions := delete customer self.
Definition aspa_has (self : AspaDefinitions) (customer : AsNumber) : bool := bool_decide (is_Some (self !! customer)).
(** [unwrap] on an unknown customer: [None]. *)
Definition aspa_apply_update (self : AspaDefinitions) (customer : AsNumber) (u : AspaProvidersUpdate)
    : option AspaDefinitions :=
  (λ current, <[customer := def_apply_update current u]> self) <$> self !! customer.

(** ** ASPA objects *)

(** Objects are renewed if they expire before the threshold; all of them if there is none. *)
Definition renew_due (renew_threshold : option Instant) (expires : Instant) : bool :=
  match renew_threshold with Some threshold => (expires <? threshold)%Z | None => true end.


Section issue.
Variable (timing : IssuanceTimingConfig) (now : Instant) (signer : Signer).

Definition make_aspa_object (aspa_def : AspaDefinition) (certified_key : CertifiedKey) (validity : Validity)
    : KrillResult Aspa :=
  let name := aspa_name (aspa_customer aspa_def) in
  aspa_builder ← ok_or (aspa_builder_new (aspa_customer aspa_def) (aspa_providers aspa_def)) (Custom "Cannot use aspa config");
  let incoming_cert := ck_incoming_cert certified_key in
  serial ← map_err SignerError (random_serial signer (ck_key_id certified_key) name);
  let object_builder :=
    mkObjectBuilder serial validity (crl_uri incoming_cert) (cert_uri incoming_cert) (uri_for_name incoming_cert name)
      (cert_info_subject incoming_cert) now in
  map_err SignerError (sign_aspa signer aspa_builder object_builder (ck_key_id certified_key)).

Definition aspa_info_new (definition : AspaDefinition) (aspa : Aspa) : AspaInfo :=
  mkAspaInfo definition (mkValidity (aspa_not_before aspa) (aspa_not_after aspa)) (aspa_serial aspa)
    (aspa_signed_object aspa) (aspa_base64 aspa) (to_hash (aspa_base64 aspa)).

Definition make_aspa (aspa_def : AspaDefinition) (certified_key : CertifiedKey) : KrillResult AspaInfo :=
  aspa ← make_aspa_object aspa_def certified_key (new_aspa_validity timing now);
  Ok (aspa_info_new aspa_def aspa).

Definition update_one_aspa (self : AspaObjects) (certified_key : CertifiedKey) (u : AspaObjectsUpdates)
    (relevant_aspa : AspaDefinition) : KrillResult AspaObjectsUpdates :=
  let need_to_issue :=
    match self !! aspa_customer relevant_aspa with
    | Some existing => negb (bool_decide (ai_definition existing = relevant_aspa))
    | None => true
    end in
  if need_to_issue then info ← make_aspa relevant_aspa certified_key; Ok (aspa_add_updated u info) else Ok u.

Definition aspas_update_objects (self : AspaObjects) (all_aspa_defs : AspaDefinitions) (certified_key : CertifiedKey)
    : KrillResult AspaObjectsUpdates :=
  let resources := cert_resources (ck_incoming_cert certified_key) in
  updates ← fold_each (update_one_aspa self certified_key) no_aspa_updates
              (filter (λ d, rs_contains_asn resources (aspa_customer d) = true) (hm_values all_aspa_defs));
  Ok (foldl (λ u customer,
        if negb (aspa_has all_aspa_defs customer) || negb (rs_contains_asn resources customer)
        then aspa_add_removed u customer else u) updates (hm_keys self)).

Definition renew_one_aspa (certified_key : CertifiedKey) (renew_threshold : option Instant) (u : AspaObjectsUpdates)
    (aspa : AspaInfo) : KrillResult AspaObjectsUpdates :=
  if renew_due renew_threshold (not_after (ai_validity aspa)) then new_aspa ← make_aspa (ai_definition aspa) certified_key; Ok (aspa_add_updated u new_aspa) else Ok u.

Definition aspas_renew_objects (self : AspaObjects) (certified_key : CertifiedKey) (renew_threshold : option Instant)
    : KrillResult AspaObjectsUpdates :=
  fold_each (renew_one_aspa certified_key renew_threshold) no_aspa_updates (hm_values self).

Definition aspas_updated (self : AspaObjects) (u : AspaObjectsUpdates) : AspaObjects :=
  let self := foldl (λ m i, <[aspa_customer (ai_definition i) := i]> m) self (au_updated u) in
  foldl (λ m customer, delete customer m) self (au_removed u).

(** ** BGPsec definitions *)

Record BgpSecDefinition := mkBgpSecDefinition { bd_asn : AsNumber; bd_csr : BgpsecCsr }.
Record BgpSecDefinitionUpdates := mkBgpSecDefUpdates { bdu_add : list BgpSecDefinition; bdu_remove : list BgpSecAsnKey }.

Definition asn_key_of (def : BgpSecDefinition) : BgpSecAsnKey :=
  mkAsnKey (bd_asn def) (key_identifier (bgpsec_public_key (bd_csr def))).
Definition stored_csr_from (csr : BgpsecCsr) : StoredBgpSecCsr :=
  mkStoredCsr now (bgpsec_public_key csr) (bgpsec_base64 csr).

Definition bgpsec_has (self : BgpSecDefinitions) (key : BgpSecAsnKey) : bool := bool_decide (is_Some (self !! key)).
Definition bgpsec_def_remove (self : BgpSecDefinitions) (key : BgpSecAsnKey) : BgpSecDefinitions * bool :=
  (delete key self, bool_decide (is_Some (self !! key))).

(** ** BGPsec certificates *)


Definition bgpsec_info_new (asn : AsNumber) (cert : Cert) : BgpSecCertInfo :=
  mkBgpSecCertInfo asn (cert_public_key cert) (cert_serial cert) (cert_not_after cert) (cert_base64 cert).
Definition bgpsec_asn_key (self : BgpSecCertInfo) : BgpSecAsnKey := mkAsnKey (bi_asn self) (key_identifier (bi_public_key self)).
Definition bgpsec_info_name (self : BgpSecCertInfo) : string := bgpsec_name (bi_asn self) (key_identifier (bi_public_key self)).

Definition make_bgpsec_cert (asn : AsNumber) (public_key : PublicKey) (certified_key : CertifiedKey)
    : KrillResult BgpSecCertInfo :=
  serial_number ← map_err SignerError
    (random_serial signer (ck_key_id certified_key) (bgpsec_name asn (key_identifier public_key)));
  let incoming_cert := ck_incoming_cert certified_key in
  let router_cert :=
    mkTbsCert serial_number (cert_info_subject incoming_cert) (new_bgpsec_validity timing now) None public_key UsageRouter
      (rs_asn asn) (Some (cert_key_identifier incoming_cert)) (Some (cert_uri incoming_cert)) (Some (crl_uri incoming_cert)) None None None in
  cert ← map_err SignerError (sign_cert signer router_cert (ck_key_id certified_key));
  Ok (bgpsec_info_new asn cert).

Definition bgpsec_update (self : BgpSecCertificates) (definitions : BgpSecDefinitions) (certified_key : CertifiedKey)
    : KrillResult BgpSecCertificateUpdates :=
  let resources := cert_resources (ck_incoming_cert certified_key) in
  updates ← fold_each
    (λ u '(key, csr), cert ← make_bgpsec_cert (ak_router_asn key) (sc_key csr) certified_key; Ok (bgpsec_add_updated u cert))
    no_bgpsec_updates
    (filter (λ kc, self !! kc.1 = None ∧ rs_contains_asn resources (ak_router_asn kc.1) = true) (hm_iter definitions));
  Ok (foldl bgpsec_add_removed updates
        (filter (λ k, bgpsec_has definitions k = false ∨ rs_contains_asn resources (ak_router_asn k) = false) (hm_keys self))).

Definition bgpsec_renew_certs (self : BgpSecCertificates) (certified_key : CertifiedKey) (renew_threshold : option Instant)
    : KrillResult BgpSecCertificateUpdates :=
  fold_each (λ u cert, new ← make_bgpsec_cert (bi_asn cert) (bi_public_key cert) certified_key; Ok (bgpsec_add_updated u new))
    no_bgpsec_updates
    (filter (λ cert, renew_due renew_threshold (bi_expires cert) = true) (hm_values self)).

Definition bgpsec_updated (self : BgpSecCertificates) (u : BgpSecCertificateUpdates) : BgpSecCertificates :=
  let self := foldl (λ m i, <[bgpsec_asn_key i := i]> m) self (bu_updated u) in
  foldl (λ m key, delete key m) self (bu_removed u).
End issue.
End products.
