(* ===== verification/CaClass.v ===== *)
(** * Resource classes ([src/src/daemon/ca/rc.rs])

    A resource class holds the keys certified by one parent for one of its classes, and what is
    issued under the current key. *)

From stdpp Require Import base gmap strings list.
From S2P Require Import Prelude Rpki Roas Routes CaCerts CaEvents CaKeys CaChildren CaProducts.

Section class.
Context `{PA : !PrefixApi, RP : !Rpki, CA : !CaApi, HO : !HashOrder}.

Record ResourceClass := mkClass {
  rc_name : string;
  rc_name_space : string;
  rc_parent_handle : string;
  rc_parent_rc_name : string;
  rc_roas : Roas (Roa := Roa);
  rc_aspas : AspaObjects;
  rc_bgpsec_certificates : BgpSecCertificates;
  rc_certificates : ChildCertificates;
  rc_last_key_change : Instant;
  rc_key_state : KeyState;
}.

Definition class_create (name name_space parent_handle parent_rc_name : string) (pending_key : KeyIdentifier)
    (now : Instant) : ResourceClass :=
  mkClass name name_space parent_handle parent_rc_name (mkRoas ∅ ∅) ∅ ∅ no_child_certs now (key_state_create pending_key).

(** [ta_handle()] *)
Definition ta_handle : string := "ta".
Definition class_for_ta (parent_rc_name : string) (pending_key : KeyIdentifier) (now : Instant) : ResourceClass :=
  class_create parent_rc_name parent_rc_name ta_handle parent_rc_name pending_key now.

(** Field updates. *)
Definition with_key_state (st : KeyState) (rc : ResourceClass) : ResourceClass :=
  mkClass (rc_name rc) (rc_name_space rc) (rc_parent_handle rc) (rc_parent_rc_name rc) (rc_roas rc) (rc_aspas rc)
    (rc_bgpsec_certificates rc) (rc_certificates rc) (rc_last_key_change rc) st.
Definition with_certificates (c : ChildCertificates) (rc : ResourceClass) : ResourceClass :=
  mkClass (rc_name rc) (rc_name_space rc) (rc_parent_handle rc) (rc_parent_rc_name rc) (rc_roas rc) (rc_aspas rc)
    (rc_bgpsec_certificates rc) c (rc_last_key_change rc) (rc_key_state rc).
Definition with_roas (r : Roas (Roa := Roa)) (rc : ResourceClass) : ResourceClass :=
  mkClass (rc_name rc) (rc_name_space rc) (rc_parent_handle rc) (rc_parent_rc_name rc) r (rc_aspas rc)
    (rc_bgpsec_certificates rc) (rc_certificates rc) (rc_last_key_change rc) (rc_key_state rc).
Definition with_aspas (a : AspaObjects) (rc : ResourceClass) : ResourceClass :=
  mkClass (rc_name rc) (rc_name_space rc) (rc_parent_handle rc) (rc_parent_rc_name rc) (rc_roas rc) a
    (rc_bgpsec_certificates rc) (rc_certificates rc) (rc_last_key_change rc) (rc_key_state rc).
Definition with_bgpsec (b : BgpSecCertificates) (rc : ResourceClass) : ResourceClass :=
  mkClass (rc_name rc) (rc_name_space rc) (rc_parent_handle rc) (rc_parent_rc_name rc) (rc_roas rc) (rc_aspas rc)
    b (rc_certificates rc) (rc_last_key_change rc) (rc_key_state rc).

(** ** Data access *)

Definition current_key (self : ResourceClass) : option CertifiedKey :=
  match rc_key_state self with
  | Active current | RollPending _ current | RollNew _ current | RollOld current _ => Some current
  | Pending _ => None
  end.
Definition current_certificate (self : ResourceClass) : option CertInfo := ck_incoming_cert <$> current_key self.
Definition current_resources (self : ResourceClass) : option ResourceSet := cert_resources <$> current_certificate self.
Definition get_current_key (self : ResourceClass) : KrillResult CertifiedKey := ok_or (current_key self) KeyUseNoCurrentKey.
Definition key_roll_possible (self : ResourceClass) : bool :=
  match rc_key_state self with Active _ => true | _ => false end.
Definition get_new_key (self : ResourceClass) : KrillResult CertifiedKey := ok_or (new_key (rc_key_state self)) KeyUseNoNewKey.

(** ** Applying events; [None] where the code panics *)

Definition class_add_request (self : ResourceClass) (key_id : KeyIdentifier) (req : IssuanceRequest) : ResourceClass :=
  with_key_state (key_add_request (rc_key_state self) key_id req) self.
Definition class_set_old_repo (self : ResourceClass) (repo : RepoInfo) : ResourceClass :=
  with_key_state (set_old_repo_if_in_active_state (rc_key_state self) repo) self.

Definition received_cert (self : ResourceClass) (key_id : KeyIdentifier) (cert : CertInfo) : option ResourceClass :=
  (λ st, with_key_state st self) <$>
  match rc_key_state self with
  | Pending _ => None
  | Active current => Some (Active (set_incoming_cert current cert))
  | RollPending pending current => Some (RollPending pending (set_incoming_cert current cert))
  | RollNew new current =>
      Some (if decide (ck_key_id new = key_id) then RollNew (set_incoming_cert new cert) current
            else RollNew new (set_incoming_cert current cert))
  | RollOld current old =>
      Some (if decide (ck_key_id current = key_id) then RollOld (set_incoming_cert current cert) old
            else RollOld current (mkOldKey (set_incoming_cert (ok_key old) cert) (ok_revoke_req old)))
  end.

Definition pending_key_id_added (self : ResourceClass) (key_id : KeyIdentifier) : option ResourceClass :=
  match rc_key_state self with
  | Active current => Some (with_key_state (RollPending (pending_key_new key_id) current) self)
  | _ => None
  end.
Definition pending_key_to_new (self : ResourceClass) (new : CertifiedKey) : option ResourceClass :=
  match rc_key_state self with
  | RollPending _ current => Some (with_key_state (RollNew new current) self)
  | _ => None
  end.
Definition pending_key_to_active (self : ResourceClass) (new : CertifiedKey) : option ResourceClass :=
  match rc_key_state self with
  | Pending _ => Some (with_key_state (Active new) self)
  | _ => None
  end.
Definition new_key_activated (self : ResourceClass) (revoke_req : RevocationRequest) : option ResourceClass :=
  match rc_key_state self with
  | RollNew new current => Some (with_key_state (RollOld new (mkOldKey current revoke_req)) self)
  | _ => None
  end.
Definition old_key_removed (self : ResourceClass) : option ResourceClass :=
  match rc_key_state self with
  | RollOld current _ => Some (with_key_state (Active current) self)
  | _ => None
  end.

(** ** Operations that lead to events *)

Section issue.
Variable (config : Config) (now : Instant) (signer : Signer).
Let timing : IssuanceTimingConfig := issuance_timing config.

(** [Roas::update] and [Roas::renew] under a key. *)
Definition roas_update_key (roas : Roas (Roa := Roa)) (all_routes : Routes) (key : CertifiedKey)
    : KrillResult (RoaUpdates (Roa := Roa)) :=
  map_err (λ _, CannotIssueRoa)
    (roas_update (sign_roa signer (ck_key_id key)) hex_encode roas all_routes (cert_resources (ck_incoming_cert key))
       (roa_deaggregate_threshold config) (roa_aggregate_threshold config)).
Definition roas_renew_key (roas : Roas (Roa := Roa)) (force : bool) (key : CertifiedKey)
    : KrillResult (RoaUpdates (Roa := Roa)) :=
  map_err (λ _, CannotIssueRoa)
    (roas_renew roa_expires (sign_roa signer (ck_key_id key)) hex_encode roas force (new_roa_issuance_threshold timing now)).

(** An event for updates that contain changes. *)
Definition roas_event (self : ResourceClass) (u : RoaUpdates (Roa := Roa)) : list CaEvent :=
  if contains_changes u then [RoasUpdated (rc_name self) u] else [].
Definition aspas_event (self : ResourceClass) (u : AspaObjectsUpdates) : list CaEvent :=
  if aspa_updates_is_empty u then [] else [AspaObjectsUpdated (rc_name self) u].
Definition bgpsec_event (self : ResourceClass) (u : BgpSecCertificateUpdates) : list CaEvent :=
  if bgpsec_updates_is_empty u then [] else [BgpSecCertificatesUpdated (rc_name self) u].
Definition certs_event (self : ResourceClass) (u : ChildCertificateUpdates) : list CaEvent :=
  if child_updates_is_empty u then [] else [ChildCertificatesUpdated (rc_name self) u].

Section received.
Variable (all_routes : Routes) (all_aspas : AspaDefinitions) (all_bgpsecs : BgpSecDefinitions).

Definition update_rcvd_cert_current (self : ResourceClass) (current_key : CertifiedKey) (rcvd_cert : CertInfo)
    : KrillResult (list CaEvent) :=
  let ki := cert_key_identifier rcvd_cert in
  if negb (bool_decide (ki = ck_key_id current_key)) then Err (KeyUseNoMatch ki)
  else
    let res := [CertificateReceived (rc_name self) rcvd_cert ki] in
    if negb (rs_difference_is_empty (cert_resources rcvd_cert) (cert_resources (ck_incoming_cert current_key))) then
      let updated_key := certified_key_create rcvd_cert in
      cert_updates ← shrink_overclaiming timing now signer (rc_certificates self) updated_key;
      roa_updates ← roas_update_key (rc_roas self) all_routes updated_key;
      aspa_updates ← aspas_update_objects timing now signer (rc_aspas self) all_aspas updated_key;
      bgpsec_updates ← bgpsec_update timing now signer (rc_bgpsec_certificates self) all_bgpsecs updated_key;
      Ok (res ++ certs_event self cert_updates ++ roas_event self roa_updates ++ aspas_event self aspa_updates
            ++ bgpsec_event self bgpsec_updates)
    else Ok res.

Definition class_update_received_cert (self : ResourceClass) (rcvd_cert : CertInfo) : KrillResult (list CaEvent) :=
  let rcvd_cert_ki := cert_key_identifier rcvd_cert in
  match rc_key_state self with
  | Pending pending =>
      if negb (bool_decide (rcvd_cert_ki = pk_key_id pending)) then Err (KeyUseNoMatch rcvd_cert_ki)
      else
        let current_key := certified_key_create rcvd_cert in
        roa_updates ← roas_update_key (rc_roas self) all_routes current_key;
        aspa_updates ← aspas_update_objects timing now signer (rc_aspas self) all_aspas current_key;
        bgpsec_updates ← bgpsec_update timing now signer (rc_bgpsec_certificates self) all_bgpsecs current_key;
        Ok ([KeyPendingToActive (rc_name self) current_key] ++ roas_event self roa_updates ++ aspas_event self aspa_updates
              ++ bgpsec_event self bgpsec_updates)
  | Active current => update_rcvd_cert_current self current rcvd_cert
  | RollPending pending current =>
      if bool_decide (rcvd_cert_ki = pk_key_id pending)
      then Ok [KeyPendingToNew (rc_name self) (certified_key_create rcvd_cert)]
      else update_rcvd_cert_current self current rcvd_cert
  | RollNew new current =>
      if bool_decide (rcvd_cert_ki = ck_key_id new)
      then Ok [CertificateReceived (rc_name self) rcvd_cert rcvd_cert_ki]
      else update_rcvd_cert_current self current rcvd_cert
  | RollOld current _ => update_rcvd_cert_current self current rcvd_cert
  end.
End received.

Definition class_entitlement_events (self : ResourceClass) (ent : Entitlement) (base_repo : RepoInfo)
    : KrillResult (list CaEvent) :=
  key_entitlement_events (rc_key_state self) (rc_name self) ent base_repo (rc_name_space self) now signer.

Definition class_cert_requests (self : ResourceClass) : list IssuanceRequest := key_cert_requests (rc_key_state self).
Definition class_revoke_request (self : ResourceClass) : option RevocationRequest := key_revoke_request (rc_key_state self).
Definition class_has_pending_requests (self : ResourceClass) : bool :=
  negb (bool_decide (length (class_cert_requests self) = 0)) || bool_decide (is_Some (class_revoke_request self)).

Definition class_revoke (self : ResourceClass) : KrillResult (list RevocationRequest) :=
  key_revoke (rc_key_state self) (rc_parent_rc_name self) signer.

(** ** Key rolls *)

Definition class_keyroll_initiate (self : ResourceClass) (base_repo : RepoInfo) (duration : Z) : KrillResult (list CaEvent) :=
  if (0 <? duration)%Z && (now <? rc_last_key_change self + duration)%Z then Ok []
  else key_keyroll_initiate (rc_key_state self) (rc_name self) (rc_parent_rc_name self) base_repo (rc_name_space self) signer.

Definition class_keyroll_activate (self : ResourceClass) (staging_time : Z) : KrillResult (list CaEvent) :=
  match new_key (rc_key_state self) with
  | Some new_key =>
      if (0 <? staging_time)%Z && (now <? rc_last_key_change self + staging_time)%Z then Ok []
      else
        key_activated ← key_keyroll_activate (rc_key_state self) (rc_name self) (rc_parent_rc_name self) signer;
        roa_updates ← roas_renew_key (rc_roas self) true new_key;
        aspa_updates ← aspas_renew_objects timing now signer (rc_aspas self) new_key None;
        cert_updates ← activate_key timing now signer (rc_certificates self) new_key;
        bgpsec_updates ← bgpsec_renew_certs timing now signer (rc_bgpsec_certificates self) new_key None;
        Ok ([key_activated] ++ roas_event self roa_updates ++ aspas_event self aspa_updates ++ certs_event self cert_updates
              ++ bgpsec_event self bgpsec_updates)
  | None => Ok []
  end.

Definition class_keyroll_finish (self : ResourceClass) : KrillResult CaEvent :=
  match rc_key_state self with
  | RollOld _ _ => Ok (KeyRollFinished (rc_name self))
  | _ => Err KeyUseNoOldKey
  end.

(** ** Issuing *)

Definition issue_cert (self : ResourceClass) (csr : CsrInfo) (child_resources : ResourceSet) (limit : ResourceLimit)
    : KrillResult CertInfo :=
  signing_key ← get_current_key self;
  let parent_resources := cert_resources (ck_incoming_cert signing_key) in
  let resources := rs_intersection parent_resources child_resources in
  make_issued_cert csr resources limit (ck_key_id signing_key) (ck_incoming_cert signing_key)
    (new_child_cert_validity timing now) signer.

Definition renew_roas (self : ResourceClass) (force : bool) : KrillResult (RoaUpdates (Roa := Roa)) :=
  match get_current_key self with
  | Ok key => roas_renew_key (rc_roas self) force key
  | Err _ => Ok no_roa_updates
  end.
Definition update_roas (self : ResourceClass) (routes : Routes) : KrillResult (RoaUpdates (Roa := Roa)) :=
  match get_current_key self with
  | Ok key => roas_update_key (rc_roas self) (routes_filter routes (cert_resources (ck_incoming_cert key))) key
  | Err _ => Ok no_roa_updates
  end.
Definition renew_aspas (self : ResourceClass) : KrillResult AspaObjectsUpdates :=
  match get_current_key self with
  | Ok key => aspas_renew_objects timing now signer (rc_aspas self) key (Some (new_aspa_issuance_threshold timing now))
  | Err _ => Ok no_aspa_updates
  end.
Definition update_aspas (self : ResourceClass) (all_aspas : AspaDefinitions) : KrillResult AspaObjectsUpdates :=
  match get_current_key self with
  | Ok key => aspas_update_objects timing now signer (rc_aspas self) all_aspas key
  | Err _ => Ok no_aspa_updates
  end.
Definition update_bgpsec_certs (self : ResourceClass) (definitions : BgpSecDefinitions) : KrillResult BgpSecCertificateUpdates :=
  match get_current_key self with
  | Ok key => bgpsec_update timing now signer (rc_bgpsec_certificates self) definitions key
  | Err _ => Ok no_bgpsec_updates
  end.
Definition renew_bgpsec_certs (self : ResourceClass) : KrillResult BgpSecCertificateUpdates :=
  match get_current_key self with
  | Ok key => bgpsec_renew_certs timing now signer (rc_bgpsec_certificates self) key (Some (new_bgpsec_issuance_threshold timing now))
  | Err _ => Ok no_bgpsec_updates
  end.
End issue.
End class.
