(* ===== verification/CertAuth.v ===== *)
(** * Certification authorities ([src/src/daemon/ca/certauth.rs], [commands.rs])

    A CA is an aggregate: a command is turned into events, which are stored and then applied.
    Where applying an event panics the model has no state ([None]). *)

From stdpp Require Import base gmap strings list pretty.
From S2P Require Import Prelude Rpki Roas Routes EventSourcing CaCerts CaEvents CaKeys CaChildren CaProducts CaClass.

Section certauth.
Context `{PA : !PrefixApi, RP : !Rpki, CA : !CaApi, HO : !HashOrder}.

(** ** State *)

Record CertAuth := mkCertAuth {
  ca_handle : string;
  ca_version : N;
  ca_id : IdCertInfo;
  ca_repository : option RepositoryContact;
  ca_parents : gmap string ParentCaContact;
  ca_next_class_name : N;
  ca_resources : gmap string ResourceClass;
  ca_children : gmap string ChildDetails;
  ca_routes : Routes;
  ca_aspas : AspaDefinitions;
  ca_bgpsec_defs : BgpSecDefinitions;
}.

Definition CaEvt : Type := StoredEvent CaEvent.

Definition ca_init (handle : string) (id : IdCertInfo) : CertAuth :=
  mkCertAuth handle 1 id None ∅ 0 ∅ ∅ ∅ ∅ ∅.

(** Field updates. *)
Definition with_version (v : N) (ca : CertAuth) : CertAuth :=
  mkCertAuth (ca_handle ca) v (ca_id ca) (ca_repository ca) (ca_parents ca) (ca_next_class_name ca) (ca_resources ca)
    (ca_children ca) (ca_routes ca) (ca_aspas ca) (ca_bgpsec_defs ca).
Definition with_id (id : IdCertInfo) (ca : CertAuth) : CertAuth :=
  mkCertAuth (ca_handle ca) (ca_version ca) id (ca_repository ca) (ca_parents ca) (ca_next_class_name ca) (ca_resources ca)
    (ca_children ca) (ca_routes ca) (ca_aspas ca) (ca_bgpsec_defs ca).
Definition with_repository (r : RepositoryContact) (ca : CertAuth) : CertAuth :=
  mkCertAuth (ca_handle ca) (ca_version ca) (ca_id ca) (Some r) (ca_parents ca) (ca_next_class_name ca) (ca_resources ca)
    (ca_children ca) (ca_routes ca) (ca_aspas ca) (ca_bgpsec_defs ca).
Definition with_parents (p : gmap string ParentCaContact) (ca : CertAuth) : CertAuth :=
  mkCertAuth (ca_handle ca) (ca_version ca) (ca_id ca) (ca_repository ca) p (ca_next_class_name ca) (ca_resources ca)
    (ca_children ca) (ca_routes ca) (ca_aspas ca) (ca_bgpsec_defs ca).
Definition with_next_class_name (n : N) (ca : CertAuth) : CertAuth :=
  mkCertAuth (ca_handle ca) (ca_version ca) (ca_id ca) (ca_repository ca) (ca_parents ca) n (ca_resources ca)
    (ca_children ca) (ca_routes ca) (ca_aspas ca) (ca_bgpsec_defs ca).
Definition with_resources (m : gmap string ResourceClass) (ca : CertAuth) : CertAuth :=
  mkCertAuth (ca_handle ca) (ca_version ca) (ca_id ca) (ca_repository ca) (ca_parents ca) (ca_next_class_name ca) m
    (ca_children ca) (ca_routes ca) (ca_aspas ca) (ca_bgpsec_defs ca).
Definition with_children (m : gmap string ChildDetails) (ca : CertAuth) : CertAuth :=
  mkCertAuth (ca_handle ca) (ca_version ca) (ca_id ca) (ca_repository ca) (ca_parents ca) (ca_next_class_name ca)
    (ca_resources ca) m (ca_routes ca) (ca_aspas ca) (ca_bgpsec_defs ca).
Definition with_routes (r : Routes) (ca : CertAuth) : CertAuth :=
  mkCertAuth (ca_handle ca) (ca_version ca) (ca_id ca) (ca_repository ca) (ca_parents ca) (ca_next_class_name ca)
    (ca_resources ca) (ca_children ca) r (ca_aspas ca) (ca_bgpsec_defs ca).
Definition with_aspa_defs (a : AspaDefinitions) (ca : CertAuth) : CertAuth :=
  mkCertAuth (ca_handle ca) (ca_version ca) (ca_id ca) (ca_repository ca) (ca_parents ca) (ca_next_class_name ca)
    (ca_resources ca) (ca_children ca) (ca_routes ca) a (ca_bgpsec_defs ca).
Definition with_bgpsec_defs (b : BgpSecDefinitions) (ca : CertAuth) : CertAuth :=
  mkCertAuth (ca_handle ca) (ca_version ca) (ca_id ca) (ca_repository ca) (ca_parents ca) (ca_next_class_name ca)
    (ca_resources ca) (ca_children ca) (ca_routes ca) (ca_aspas ca) b.

(** [+= 1] on the [u32] of the next class name. *)
Definition u32_succ (n : N) : N := ((n + 1) mod 4294967296)%N.

(** ** Applying events *)

(** [get_mut(..).unwrap()] on a resource class or a child. *)
Definition on_class (rcn : string) (f : ResourceClass → option ResourceClass) (ca : CertAuth) : option CertAuth :=
  rc ← ca_resources ca !! rcn;
  rc' ← f rc;
  Some (with_resources (<[rcn := rc']> (ca_resources ca)) ca).
Definition on_child (child : string) (f : ChildDetails → ChildDetails) (ca : CertAuth) : option CertAuth :=
  details ← ca_children ca !! child;
  Some (with_children (<[child := f details]> (ca_children ca)) ca).

(** A key was removed: children that use it have it revoked. *)
Definition revoke_for_children (children : gmap string ChildDetails) (removed : list KeyIdentifier) : gmap string ChildDetails :=
  foldl (λ cs rem, (λ child, if is_issued child rem then add_revoke_response rem child else child) <$> cs) children removed.

(** The certificates of a class after an update: issued, unsuspended, removed, suspended. *)
Definition apply_child_updates (certs : ChildCertificates) (u : ChildCertificateUpdates) : ChildCertificates :=
  let certs := foldl certificate_issued certs (cu_issued u) in
  let certs := foldl certificate_unsuspended certs (cu_unsuspended u) in
  let certs := foldl key_revoked certs (cu_removed u) in
  foldl certificate_suspended certs (cu_suspended u).

Definition apply_details (now : Instant) (self : CertAuth) (event : CaEvent) : option CertAuth :=
  match event with
  | TrustAnchorMade cert uris rsync_uri =>
      let key_id := cert_key_identifier cert in
      let self := with_parents (<[ta_handle := TaContact cert uris rsync_uri]> (ca_parents self)) self in
      let rcn := pretty (ca_next_class_name self) in
      let self := with_next_class_name (u32_succ (ca_next_class_name self)) self in
      Some (with_resources (<[rcn := class_for_ta rcn key_id now]> (ca_resources self)) self)
  | ChildAdded child id_cert resources =>
      Some (with_children (<[child := child_new id_cert resources]> (ca_children self)) self)
  | ChildCertificateIssued child rcn ki => on_child child (add_issue_response rcn ki) self
  | ChildKeyRevoked child rcn ki =>
      self ← on_class rcn (λ rc, Some (with_certificates (key_revoked (rc_certificates rc) ki) rc)) self;
      on_child child (add_revoke_response ki) self
  | ChildCertificatesUpdated rcn updates =>
      self ← on_class rcn (λ rc, Some (with_certificates (apply_child_updates (rc_certificates rc) updates) rc)) self;
      Some (with_children (revoke_for_children (ca_children self) (cu_removed updates)) self)
  | ChildUpdatedIdCert child id_cert => on_child child (set_id_cert id_cert) self
  | ChildUpdatedResources child resources => on_child child (set_resources resources) self
  | ChildRemoved child => Some (with_children (delete child (ca_children self)) self)
  | ChildSuspended child => on_child child child_suspend self
  | ChildUnsuspended child => on_child child child_do_unsuspend self
  | IdUpdated id => Some (with_id id self)
  | ParentAdded parent contact | ParentUpdated parent contact =>
      Some (with_parents (<[parent := contact]> (ca_parents self)) self)
  | ParentRemoved parent =>
      let self := with_parents (delete parent (ca_parents self)) self in
      Some (with_resources (filter (λ nrc, rc_parent_handle nrc.2 ≠ parent) (ca_resources self)) self)
  | ResourceClassAdded rcn parent parent_rcn pending_key =>
      let self := with_next_class_name (u32_succ (ca_next_class_name self)) self in
      Some (with_resources (<[rcn := class_create rcn rcn parent parent_rcn pending_key now]> (ca_resources self)) self)
  | ResourceClassRemoved rcn _ _ => Some (with_resources (delete rcn (ca_resources self)) self)
  | CertificateRequested rcn req ki => on_class rcn (λ rc, Some (class_add_request rc ki req)) self
  | CertificateReceived rcn rcvd_cert ki => on_class rcn (λ rc, received_cert rc ki rcvd_cert) self
  | KeyRollPendingKeyAdded rcn pending_key => on_class rcn (λ rc, pending_key_id_added rc pending_key) self
  | KeyPendingToNew rcn new_key => on_class rcn (λ rc, pending_key_to_new rc new_key) self
  | KeyPendingToActive rcn current_key => on_class rcn (λ rc, pending_key_to_active rc current_key) self
  | KeyRollActivated rcn revoke_req => on_class rcn (λ rc, new_key_activated rc revoke_req) self
  | KeyRollFinished rcn => on_class rcn old_key_removed self
  | UnexpectedKeyFound _ _ => Some self
  | RouteEvent e => Some (with_routes (apply_route_event now (ca_routes self) e) self)
  | RoasUpdated rcn updates => on_class rcn (λ rc, Some (with_roas (roas_updated (rc_roas rc) updates) rc)) self
  | AspaConfigAdded aspa_config => Some (with_aspa_defs (aspa_add_or_replace (ca_aspas self) aspa_config) self)
  | AspaConfigUpdated customer update =>
      aspas ← aspa_apply_update (ca_aspas self) customer update;
      Some (with_aspa_defs aspas self)
  | AspaConfigRemoved customer => Some (with_aspa_defs (aspa_remove (ca_aspas self) customer) self)
  | AspaObjectsUpdated rcn updates => on_class rcn (λ rc, Some (with_aspas (aspas_updated (rc_aspas rc) updates) rc)) self
  | BgpSecDefinitionAdded key csr | BgpSecDefinitionUpdated key csr =>
      Some (with_bgpsec_defs (<[key := csr]> (ca_bgpsec_defs self)) self)
  | BgpSecDefinitionRemoved key => Some (with_bgpsec_defs (delete key (ca_bgpsec_defs self)) self)
  | BgpSecCertificatesUpdated rcn updates =>
      on_class rcn (λ rc, Some (with_bgpsec (bgpsec_updated (rc_bgpsec_certificates rc) updates) rc)) self
  | RepoUpdated contact =>
      let self :=
        match ca_repository self with
        | Some current => with_resources ((λ rc, class_set_old_repo rc (rc_repo_info current)) <$> ca_resources self) self
        | None => self
        end in
      Some (with_repository contact self)
  end.

Definition ca_apply (now : Instant) (self : CertAuth) (event : CaEvt) : option CertAuth :=
  apply_details now (with_version (u64_succ (ca_version self)) self) (ev_details event).

Fixpoint ca_apply_all (now : Instant) (self : CertAuth) (events : list CaEvt) : option CertAuth :=
  match events with
  | [] => Some self
  | e :: events => self ← ca_apply now self e; ca_apply_all now self events
  end.

(** ** Numbering events *)

(** The next version and the events so far. *)
Definition push_event (self : CertAuth) (st : N * list CaEvt) (details : CaEvent) : N * list CaEvt :=
  (u64_succ st.1, st.2 ++ [mkStoredEvent (ca_handle self) st.1 details]).
Definition events_from_details (self : CertAuth) (event_details : list CaEvent) : list CaEvt :=
  (foldl (push_event self) (ca_version self, []) event_details).2.

(** ** Data access *)

Definition all_resources (self : CertAuth) : ResourceSet :=
  foldl (λ resources rc,
    match current_resources rc with Some rc_resources => rs_union resources rc_resources | None => resources end)
    rs_default (hm_values (ca_resources self)).
Definition repository_contact (self : CertAuth) : KrillResult RepositoryContact := ok_or (ca_repository self) RepoNotSet.
Definition get_child (self : CertAuth) (child : string) : KrillResult ChildDetails :=
  ok_or (ca_children self !! child) (CaChildUnknown child).
Definition has_child (self : CertAuth) (child : string) : bool := bool_decide (is_Some (ca_children self !! child)).
Definition parent_known (self : CertAuth) (parent : string) : bool := bool_decide (is_Some (ca_parents self !! parent)).
Definition parent_for_info (self : CertAuth) (info : ParentCaContact) : option string :=
  fst <$> head (filter (λ pi, pi.2 = info) (hm_iter (ca_parents self))).
Definition is_ta (self : CertAuth) : bool :=
  existsb (λ info, match info with TaContact _ _ _ => true | Rfc6492Contact _ _ _ _ => false end) (hm_values (ca_parents self)).
Definition find_parent_rc (self : CertAuth) (parent parent_rcn : string) : option ResourceClass :=
  head (filter (λ rc, rc_parent_handle rc = parent ∧ rc_parent_rc_name rc = parent_rcn) (hm_values (ca_resources self))).
Definition parent_for_rc (self : CertAuth) (rcn : string) : KrillResult string :=
  rc ← ok_or (ca_resources self !! rcn) (ResourceClassUnknown rcn);
  Ok (rc_parent_handle rc).
Definition cert_requests (self : CertAuth) (parent_handle : string) : gmap string (list IssuanceRequest) :=
  foldl (λ res '(name, rc),
    if bool_decide (rc_parent_handle rc = parent_handle) then <[name := class_cert_requests rc]> res else res)
    ∅ (hm_iter (ca_resources self)).
Definition revoke_requests (self : CertAuth) (parent : string) : gmap string (list RevocationRequest) :=
  foldl (λ res '(name, rc),
    let revokes := match class_revoke_request rc with
                   | Some req => if bool_decide (rc_parent_handle rc = parent) then [req] else []
                   | None => []
                   end in
    <[name := revokes]> res) ∅ (hm_iter (ca_resources self)).
Definition has_pending_requests (self : CertAuth) (parent : string) : bool :=
  existsb (λ rc, bool_decide (rc_parent_handle rc = parent) && class_has_pending_requests rc) (hm_values (ca_resources self)).
End certauth.
