(* ===== verification/CertAuthCmds.v ===== *)
(** * Commands of a CA ([src/src/daemon/ca/certauth.rs], [commands.rs])

    What each command checks and which events it leads to. *)

From stdpp Require Import base gmap strings list pretty.
From S2P Require Import Prelude Rpki Roas Routes EventSourcing CaCerts CaEvents CaKeys CaChildren CaProducts CaClass CertAuth.

Section commands.
Context `{PA : !PrefixApi, RP : !Rpki, CA : !CaApi, HO : !HashOrder}.
Variable (config : Config) (now : Instant) (signer : Signer).
Let timing : IssuanceTimingConfig := issuance_timing config.

(** ** Being a trust anchor *)

Definition trust_anchor_make (self : CertAuth) (uris : list Https) (rsync_uri : Rsync) : KrillResult (list CaEvt) :=
  if negb (bool_decide (ca_resources self = ∅)) then Err (Custom "Cannot turn CA with resources into TA")
  else
    repo ← repository_contact self;
    let repo_info := rc_repo_info repo in
    key ← map_err SignerError (create_key signer class_name_default);
    let resources := rs_all in
    serial ← map_err SignerError (random_serial signer key (cer_for_key key));
    pub_key ← map_err SignerError (get_key_info signer key);
    let name := name_from_pub_key pub_key in
    let ns := class_name_default in
    let tbs :=
      mkTbsCert serial name (mkValidity (five_minutes_ago now) (years_from now 100)) (Some name) pub_key UsageCa resources
        None None None (Some (repo_ca_repository repo_info ns))
        (Some (repo_resolve repo_info ns (mft_for_key (key_identifier pub_key)))) (repo_rpki_notify repo_info) in
    cert ← map_err SignerError (sign_cert signer tbs key);
    rcvd_cert ← ok_or (cert_info_create cert rsync_uri resources limit_default) (Custom "invalid certificate");
    Ok [mkStoredEvent (ca_handle self) (ca_version self) (TrustAnchorMade rcvd_cert uris rsync_uri)].

(** ** Being a parent *)

Definition entitlement_class (self : CertAuth) (child_handle rcn : string) : KrillResult (option Entitlement) :=
  match ca_resources self !! rcn with
  | None => Ok None
  | Some my_rc =>
      match current_key my_rc with
      | None => Ok None
      | Some my_current_key =>
          let my_rcvd_cert := ck_incoming_cert my_current_key in
          my_cert ← ok_or (cert_decode (cert_info_base64 my_rcvd_cert)) (Custom "Issue with certificate held by CA");
          match get_child self child_handle with
          | Err _ => Ok None
          | Ok child =>
              let child_resources := rs_intersection (cert_resources my_rcvd_cert) (cd_resources child) in
              if rs_is_empty child_resources then Ok None
              else
                let threshold := new_child_cert_issuance_threshold timing now in
                st ← fold_each (λ st ki,
                       match cc_issued (rc_certificates my_rc) !! ki with
                       | Some issued =>
                           cert ← ok_or (cert_decode (cert_info_base64 issued)) (Custom "Issue with issued certificate");
                           let expires := cert_expires issued in
                           Ok (st.1 ++ [mkIssuedCert (cert_uri issued) (cert_limit issued) cert],
                               if (threshold <? expires)%Z then expires else st.2)
                       | None => Ok st
                       end) ([], new_child_cert_not_after timing now) (child_issued child rcn);
                Ok (Some (mkEntitlement rcn child_resources st.2 st.1 (cert_uri my_rcvd_cert) my_cert))
          end
      end
  end.

Definition list_entitlements (self : CertAuth) (child_handle : string) : KrillResult (list Entitlement) :=
  fold_each (λ classes rcn,
    class ← entitlement_class self child_handle rcn;
    Ok (match class with Some class => classes ++ [class] | None => classes end))
    [] (hm_keys (ca_resources self)).

Definition child_add (self : CertAuth) (child : string) (id_cert : IdCertInfo) (resources : ResourceSet)
    : KrillResult (list CaEvt) :=
  if rs_is_empty resources then Err (CaChildMustHaveResources child)
  else if negb (rs_contains (all_resources self) resources) then Err (CaChildExtraResources child)
  else if has_child self child then Err (CaChildDuplicate child)
  else Ok [mkStoredEvent (ca_handle self) (ca_version self) (ChildAdded child id_cert resources)].

Definition issue_child_certificate (self : CertAuth) (child rcn : string) (csr_info : CsrInfo) (limit : ResourceLimit)
    : KrillResult CertInfo :=
  my_rc ← ok_or (ca_resources self !! rcn) (ResourceClassUnknown rcn);
  child ← get_child self child;
  issue_cert config now signer my_rc csr_info (cd_resources child) limit.

Definition child_certify (self : CertAuth) (child : string) (request : IssuanceRequest) : KrillResult (list CaEvt) :=
  let rcn := ir_class_name request in
  csr_info ← csr_info_try_from (ir_csr request);
  if negb (global_uris csr_info) && negb (test_mode config)
  then Err (InvalidCsr "MUST use hostnames in URIs for certificate requests.")
  else
    issued ← issue_child_certificate self child rcn csr_info (ir_limit request);
    Ok [mkStoredEvent (ca_handle self) (ca_version self) (ChildCertificateIssued child rcn (cert_key_identifier issued));
        mkStoredEvent (ca_handle self) (u64_succ (ca_version self))
          (ChildCertificatesUpdated rcn (upd_issue no_child_updates issued))].

Definition child_update_resources (self : CertAuth) (child_handle : string) (resources : ResourceSet)
    : KrillResult (list CaEvt) :=
  if negb (rs_contains (all_resources self) resources) then Err (CaChildExtraResources child_handle)
  else
    child ← get_child self child_handle;
    if negb (rs_difference_is_empty resources (cd_resources child))
    then Ok [mkStoredEvent (ca_handle self) (ca_version self) (ChildUpdatedResources child_handle resources)]
    else Ok [].

Definition child_update_id_cert (self : CertAuth) (child_handle : string) (id_cert : IdCertInfo) : KrillResult (list CaEvt) :=
  child ← get_child self child_handle;
  if negb (bool_decide (id_cert = cd_id_cert child))
  then Ok [mkStoredEvent (ca_handle self) (ca_version self) (ChildUpdatedIdCert child_handle id_cert)]
  else Ok [].

Definition child_revoke_key (self : CertAuth) (child_handle : string) (request : RevocationRequest)
    : KrillResult (list CaEvt) :=
  let rcn := rr_class_name request in
  let key := rr_key request in
  child ← get_child self child_handle;
  if negb (is_issued child key) then Err KeyUseNoIssuedCert
  else
    Ok [mkStoredEvent (ca_handle self) (ca_version self) (ChildKeyRevoked child_handle rcn key);
        mkStoredEvent (ca_handle self) (u64_succ (ca_version self))
          (ChildCertificatesUpdated rcn (upd_remove no_child_updates key))].

(** For every class in which the child has keys: an event with the updates that [f] makes. *)
Definition for_child_classes (self : CertAuth) (child : ChildDetails)
    (f : ResourceClass → ChildCertificateUpdates → KeyIdentifier → ChildCertificateUpdates) : N * list CaEvt :=
  foldl (λ st '(rcn, rc),
    match child_issued child rcn with
    | [] => st
    | certified_keys => push_event self st (ChildCertificatesUpdated rcn (foldl (f rc) no_child_updates certified_keys))
    end) (ca_version self, []) (hm_iter (ca_resources self)).

Definition child_remove (self : CertAuth) (child_handle : string) : KrillResult (list CaEvt) :=
  child ← get_child self child_handle;
  let st := for_child_classes self child (λ rc u key,
    match cc_issued (rc_certificates rc) !! key with
    | Some issued => upd_remove u (cert_key_identifier issued)
    | None => u
    end) in
  Ok (push_event self st (ChildRemoved child_handle)).2.

Definition child_suspend_inactive (self : CertAuth) (child_handle : string) : KrillResult (list CaEvt) :=
  child ← get_child self child_handle;
  if is_suspended child then Ok []
  else
    let st := for_child_classes self child (λ rc u key,
      match cc_issued (rc_certificates rc) !! key with Some issued => upd_suspend u issued | None => u end) in
    match st.2 with
    | [] => Ok []
    | _ => Ok (push_event self st (ChildSuspended child_handle)).2
    end.

Definition child_unsuspend (self : CertAuth) (child_handle : string) : KrillResult (list CaEvt) :=
  child ← get_child self child_handle;
  if negb (is_suspended child) then Ok []
  else
    let st := for_child_classes self child (λ rc u key,
      match cc_suspended (rc_certificates rc) !! key with
      | Some suspended =>
          if (now + hours 24 <? not_after (cert_validity suspended))%Z
             && rs_contains (cd_resources child) (cert_resources suspended)
          then upd_unsuspend u suspended
          else upd_remove u (cert_key_identifier suspended)
      | None => u
      end) in
    Ok (push_event self st (ChildUnsuspended child_handle)).2.

(** ** Being a child *)

Definition generate_new_id_key (self : CertAuth) : KrillResult (list CaEvt) :=
  id ← map_err SignerError (create_self_signed_id_cert signer);
  Ok [mkStoredEvent (ca_handle self) (ca_version self) (IdUpdated (id_cert_info_from id))].

Definition add_parent (self : CertAuth) (parent : string) (info : ParentCaContact) : KrillResult (list CaEvt) :=
  if parent_known self parent then Err (CaParentDuplicateName parent)
  else match parent_for_info self info with
       | Some other => Err (CaParentDuplicateInfo other)
       | None =>
           if is_ta self then Err TaNotAllowed
           else Ok [mkStoredEvent (ca_handle self) (ca_version self) (ParentAdded parent info)]
       end.

Definition remove_parent (self : CertAuth) (parent : string) : KrillResult (list CaEvt) :=
  if negb (parent_known self parent) then Err (CaParentUnknown parent)
  else
    let removed := foldl (λ res '(rcn, rc),
      if bool_decide (rc_parent_handle rc = parent) then res ++ [ResourceClassRemoved rcn parent []] else res)
      [] (hm_iter (ca_resources self)) in
    Ok (events_from_details self (removed ++ [ParentRemoved parent])).

Definition update_parent (self : CertAuth) (parent : string) (info : ParentCaContact) : KrillResult (list CaEvt) :=
  if negb (parent_known self parent) then Err (CaParentUnknown parent)
  else if is_ta self then Err TaNotAllowed
  else Ok [mkStoredEvent (ca_handle self) (ca_version self) (ParentUpdated parent info)].

Definition make_request_events (self : CertAuth) (ent : Entitlement) (rc : ResourceClass) : KrillResult (list CaEvent) :=
  repo ← repository_contact self;
  class_entitlement_events now signer rc ent (rc_repo_info repo).

(** A class that the parent no longer lists is removed, and its keys are to be revoked. *)
Definition remove_lost_class (parent_handle : string) (res : list CaEvent) (nrc : string * ResourceClass)
    : KrillResult (list CaEvent) :=
  revoke_requests ← class_revoke signer nrc.2;
  Ok (res ++ [ResourceClassRemoved nrc.1 parent_handle revoke_requests]).

(** One entitlement: requests for the class that has it, or a new class with a pending key. *)
Definition update_entitlement (self : CertAuth) (parent_handle : string) (st : N * list CaEvent) (ent : Entitlement)
    : KrillResult (N * list CaEvent) :=
  let '(next_class_name, event_details) := st in
  let parent_rc_name := ent_class_name ent in
  match find_parent_rc self parent_handle parent_rc_name with
  | Some rc =>
      request_events ← make_request_events self ent rc;
      Ok (next_class_name, event_details ++ request_events)
  | None =>
      let resource_class_name := pretty next_class_name in
      pending_key ← map_err SignerError (create_key signer resource_class_name);
      let rc := class_create resource_class_name resource_class_name parent_handle parent_rc_name pending_key now in
      request_events ← make_request_events self ent rc;
      Ok (u32_succ next_class_name,
          event_details ++ [ResourceClassAdded resource_class_name parent_handle parent_rc_name pending_key] ++ request_events)
  end.

Definition update_entitlements (self : CertAuth) (parent_handle : string) (entitlements : list Entitlement)
    : KrillResult (list CaEvt) :=
  let entitled_classes := ent_class_name <$> entitlements in
  removed ← fold_each (remove_lost_class parent_handle) []
    (filter (λ nrc, rc_parent_handle nrc.2 = parent_handle ∧ rc_parent_rc_name nrc.2 ∉ entitled_classes)
       (hm_iter (ca_resources self)));
  st ← fold_each (update_entitlement self parent_handle) (ca_next_class_name self, removed) entitlements;
  Ok (events_from_details self st.2).

Definition update_received_cert (self : CertAuth) (rcn : string) (rcvd_cert : CertInfo) : KrillResult (list CaEvt) :=
  rc ← ok_or (ca_resources self !! rcn) (ResourceClassUnknown rcn);
  evt_details ← class_update_received_cert config now signer (ca_routes self) (ca_aspas self) (ca_bgpsec_defs self) rc rcvd_cert;
  Ok (events_from_details self evt_details).

Definition drop_resource_class (self : CertAuth) (rcn : string) : KrillResult (list CaEvt) :=
  rc ← ok_or (ca_resources self !! rcn) (ResourceClassUnknown rcn);
  revoke_requests ← class_revoke signer rc;
  Ok (events_from_details self [ResourceClassRemoved rcn (rc_parent_handle rc) revoke_requests]).

(** ** Key rolls *)

Definition keyroll_initiate (self : CertAuth) (duration : Z) : KrillResult (list CaEvt) :=
  if is_ta self then Ok []
  else
    st ← fold_each (λ st '(_, rc),
           repo ← repository_contact self;
           details ← class_keyroll_initiate now signer rc (rc_repo_info repo) duration;
           Ok (foldl (push_event self) st details)) (ca_version self, []) (hm_iter (ca_resources self));
    Ok st.2.

Definition keyroll_activate (self : CertAuth) (staging_time : Z) : KrillResult (list CaEvt) :=
  if is_ta self then Ok []
  else
    st ← fold_each (λ st '(_, rc),
           details ← class_keyroll_activate config now signer rc staging_time;
           Ok (foldl (push_event self) st details)) (ca_version self, []) (hm_iter (ca_resources self));
    Ok st.2.

Definition keyroll_finish (self : CertAuth) (rcn : string) : KrillResult (list CaEvt) :=
  if is_ta self then Ok []
  else
    my_rc ← ok_or (ca_resources self !! rcn) (ResourceClassUnknown rcn);
    finish_details ← class_keyroll_finish my_rc;
    Ok [mkStoredEvent (ca_handle self) (ca_version self) finish_details].

(** ** Publishing *)

Definition update_repo (self : CertAuth) (contact : RepositoryContact) : KrillResult (list CaEvt) :=
  evt_dets ←
    match ca_repository self with
    | None => Ok []
    | Some existing_contact =>
        if bool_decide (existing_contact = contact) then Err CaRepoInUse
        else
          let info := rc_repo_info contact in
          fold_each (λ res rc,
            if negb (key_roll_possible rc) then Err KeyRollNotAllowed
            else details ← class_keyroll_initiate now signer rc info 0; Ok (res ++ details))
            [] (hm_values (ca_resources self))
    end;
  Ok (events_from_details self (evt_dets ++ [RepoUpdated contact])).

(** ** Products *)

(** An event per class for the updates that a class makes. *)
Definition class_events {U} (self : CertAuth) (updates : ResourceClass → KrillResult U) (event : string → U → list CaEvent)
    : KrillResult (list CaEvent) :=
  fold_each (λ res '(rcn, rc), u ← updates rc; Ok (res ++ event rcn u)) [] (hm_iter (ca_resources self)).

Definition roas_updated_event (rcn : string) (u : RoaUpdates (Roa := Roa)) : list CaEvent :=
  if contains_changes u then [RoasUpdated rcn u] else [].
Definition aspas_updated_event (rcn : string) (u : AspaObjectsUpdates) : list CaEvent :=
  if aspa_updates_is_empty u then [] else [AspaObjectsUpdated rcn u].
Definition bgpsec_updated_event (rcn : string) (u : BgpSecCertificateUpdates) : list CaEvent :=
  if bgpsec_updates_is_empty u then [] else [BgpSecCertificatesUpdated rcn u].

Definition ca_route_authorizations_update (self : CertAuth) (route_auth_updates : RoaConfigurationUpdates)
    : KrillResult (list CaEvt) :=
  '(routes, evt_dets) ← map_err (λ _, RoaDeltaRejected)
    (update_authorizations (ca_routes self) (all_resources self) now (updates_explicit_max_length route_auth_updates));
  roa_events ← class_events self (λ rc, update_roas config signer rc routes) roas_updated_event;
  Ok (events_from_details self ((RouteEvent <$> evt_dets) ++ roa_events)).

Definition route_authorizations_renew (self : CertAuth) (force : bool) : KrillResult (list CaEvt) :=
  evt_dets ← class_events self (λ rc, renew_roas config now signer rc force) roas_updated_event;
  Ok (events_from_details self evt_dets).

Definition create_updated_aspa_objects (self : CertAuth) (all_aspas : AspaDefinitions) : KrillResult (list CaEvent) :=
  class_events self (λ rc, update_aspas config now signer rc all_aspas) aspas_updated_event.

(** Removing and adding definitions; the state is the copy of the definitions and the events. *)
Definition remove_aspa_def (st : AspaDefinitions * list CaEvent) (customer : AsNumber)
    : KrillResult (AspaDefinitions * list CaEvent) :=
  if negb (aspa_has st.1 customer) then Err (AspaCustomerUnknown customer)
  else Ok (aspa_remove st.1 customer, st.2 ++ [AspaConfigRemoved customer]).
Definition add_aspa_def (self : CertAuth) (st : AspaDefinitions * list CaEvent) (aspa_config : AspaDefinition)
    : KrillResult (AspaDefinitions * list CaEvent) :=
  let customer := aspa_customer aspa_config in
  if negb (rs_contains_asn (all_resources self) customer) then Err (AspaCustomerAsNotEntitled customer)
  else
    let all_aspas := aspa_add_or_replace st.1 aspa_config in
    match ca_aspas self !! customer with
    | None => Ok (all_aspas, st.2 ++ [AspaConfigAdded aspa_config])
    | Some existing =>
        let added := filter (λ p, p ∉ aspa_providers existing) (aspa_providers aspa_config) in
        let removed := filter (λ p, p ∉ aspa_providers aspa_config) (aspa_providers existing) in
        let update := mkProvidersUpdate added removed in
        if providers_update_is_empty update then Ok (all_aspas, st.2)
        else Ok (all_aspas, st.2 ++ [AspaConfigUpdated customer update])
    end.

Definition aspas_definitions_update (self : CertAuth) (updates : AspaDefinitionUpdates) : KrillResult (list CaEvt) :=
  st ← fold_each remove_aspa_def (ca_aspas self, []) (adu_remove updates);
  st ← fold_each (add_aspa_def self) st (adu_add_or_replace updates);
  objects ← create_updated_aspa_objects self st.1;
  Ok (events_from_details self (st.2 ++ objects)).

Definition ca_verify_update (self : CertAuth) (customer : AsNumber) (update : AspaProvidersUpdate) : KrillResult unit :=
  if providers_update_is_empty update then Err (AspaProvidersUpdateEmpty customer)
  else if negb (rs_contains_asn (all_resources self) customer) then Err (AspaCustomerAsNotEntitled customer)
  else
    current ← ok_or (ca_aspas self !! customer) (AspaCustomerUnknown customer);
    map_err (λ '(duplicates, unknowns), AspaProvidersUpdateConflict duplicates unknowns) (def_verify_update current update).

(** [None] if the [unwrap] in [AspaDefinitions::apply_update] panics. *)
Definition aspas_update (self : CertAuth) (customer : AsNumber) (update : AspaProvidersUpdate)
    : option (KrillResult (list CaEvt)) :=
  match ca_verify_update self customer update with
  | Err e => Some (Err e)
  | Ok _ =>
      all_aspas ← aspa_apply_update (ca_aspas self) customer update;
      Some (res ← create_updated_aspa_objects self all_aspas;
            Ok (events_from_details self (res ++ [AspaConfigUpdated customer update])))
  end.

Definition aspas_renew (self : CertAuth) : KrillResult (list CaEvt) :=
  evt_dets ← class_events self (renew_aspas config now signer) aspas_updated_event;
  Ok (events_from_details self evt_dets).

Definition remove_bgpsec_def (st : BgpSecDefinitions * list CaEvent) (key : BgpSecAsnKey)
    : KrillResult (BgpSecDefinitions * list CaEvent) :=
  let '(definitions, removed) := bgpsec_def_remove st.1 key in
  if negb removed then Err BgpSecDefinitionUnknown else Ok (definitions, st.2 ++ [BgpSecDefinitionRemoved key]).
Definition add_bgpsec_def (self : CertAuth) (st : BgpSecDefinitions * list CaEvent) (definition : BgpSecDefinition)
    : KrillResult (BgpSecDefinitions * list CaEvent) :=
  if negb (bgpsec_verify_signature (bd_csr definition)) then Err BgpSecDefinitionInvalidlySigned
  else
    let key := asn_key_of definition in
    let csr := stored_csr_from now (bd_csr definition) in
    if negb (rs_contains_asn (all_resources self) (ak_router_asn key)) then Err BgpSecDefinitionNotEntitled
    else match st.1 !! key with
         | Some stored_csr =>
             if negb (bool_decide (stored_csr = csr))
             then Ok (<[key := csr]> st.1, st.2 ++ [BgpSecDefinitionUpdated key csr]) else Ok st
         | None => Ok (<[key := csr]> st.1, st.2 ++ [BgpSecDefinitionAdded key csr])
         end.

Definition bgpsec_definitions_update (self : CertAuth) (updates : BgpSecDefinitionUpdates) : KrillResult (list CaEvt) :=
  st ← fold_each remove_bgpsec_def (ca_bgpsec_defs self, []) (bdu_remove updates);
  st ← fold_each (add_bgpsec_def self) st (bdu_add updates);
  certs ← class_events self (λ rc, update_bgpsec_certs config now signer rc st.1) bgpsec_updated_event;
  Ok (events_from_details self (st.2 ++ certs)).

Definition bgpsec_renew (self : CertAuth) : KrillResult (list CaEvt) :=
  evt_dets ← class_events self (renew_bgpsec_certs config now signer) bgpsec_updated_event;
  Ok (events_from_details self evt_dets).

(** ** Commands *)

Inductive CmdDet :=
| MakeTrustAnchor (uris : list Https) (rsync_uri : Rsync)
| ChildAdd (child : string) (id_cert : IdCertInfo) (resources : ResourceSet)
| ChildUpdateResources (child : string) (resources : ResourceSet)
| ChildUpdateId (child : string) (id_cert : IdCertInfo)
| ChildCertify (child : string) (request : IssuanceRequest)
| ChildRevokeKey (child : string) (request : RevocationRequest)
| ChildRemove (child : string)
| ChildSuspendInactive (child : string)
| ChildUnsuspend (child : string)
| GenerateNewIdKey
| AddParent (parent : string) (info : ParentCaContact)
| UpdateParentContact (parent : string) (info : ParentCaContact)
| RemoveParent (parent : string)
| UpdateEntitlements (parent : string) (entitlements : list Entitlement)
| UpdateRcvdCert (class_name : string) (rcvd_cert : CertInfo)
| DropResourceClass (rcn : string)
| KeyRollInitiate (duration : Z)
| KeyRollActivate (staging_time : Z)
| KeyRollFinish (rcn : string)
| RouteAuthorizationsUpdate (updates : RoaConfigurationUpdates)
| RouteAuthorizationsRenew
| RouteAuthorizationsForceRenew
| AspasUpdate (updates : AspaDefinitionUpdates)
| AspasUpdateExisting (customer : AsNumber) (update : AspaProvidersUpdate)
| AspasRenew
| BgpSecUpdateDefinitions (updates : BgpSecDefinitionUpdates)
| BgpSecRenew
| RepoUpdate (contact : RepositoryContact).

Definition ca_process_command (self : CertAuth) (command : CmdDet) : option (KrillResult (list CaEvt)) :=
  match command with
  | MakeTrustAnchor uris rsync_uri => Some (trust_anchor_make self uris rsync_uri)
  | ChildAdd child id_cert resources => Some (child_add self child id_cert resources)
  | ChildUpdateResources child res => Some (child_update_resources self child res)
  | ChildUpdateId child id_cert => Some (child_update_id_cert self child id_cert)
  | ChildCertify child request => Some (child_certify self child request)
  | ChildRevokeKey child request => Some (child_revoke_key self child request)
  | ChildRemove child => Some (child_remove self child)
  | ChildSuspendInactive child => Some (child_suspend_inactive self child)
  | ChildUnsuspend child => Some (child_unsuspend self child)
  | GenerateNewIdKey => Some (generate_new_id_key self)
  | AddParent parent info => Some (add_parent self parent info)
  | UpdateParentContact parent info => Some (update_parent self parent info)
  | RemoveParent parent => Some (remove_parent self parent)
  | UpdateEntitlements parent entitlements => Some (update_entitlements self parent entitlements)
  | UpdateRcvdCert class_name rcvd_cert => Some (update_received_cert self class_name rcvd_cert)
  | DropResourceClass rcn => Some (drop_resource_class self rcn)
  | KeyRollInitiate duration => Some (keyroll_initiate self duration)
  | KeyRollActivate staging_time => Some (keyroll_activate self staging_time)
  | KeyRollFinish rcn => Some (keyroll_finish self rcn)
  | RouteAuthorizationsUpdate updates => Some (ca_route_authorizations_update self updates)
  | RouteAuthorizationsRenew => Some (route_authorizations_renew self false)
  | RouteAuthorizationsForceRenew => Some (route_authorizations_renew self true)
  | AspasUpdate updates => Some (aspas_definitions_update self updates)
  | AspasUpdateExisting customer update => aspas_update self customer update
  | AspasRenew => Some (aspas_renew self)
  | BgpSecUpdateDefinitions updates => Some (bgpsec_definitions_update self updates)
  | BgpSecRenew => Some (bgpsec_renew self)
  | RepoUpdate contact => Some (update_repo self contact)
  end.
End commands.
