(* ===== verification/CaFacts.v ===== *)
(** * Lemmas on certification authorities: applying lists of events, the invariant *)

From stdpp Require Import base gmap strings list pretty.
From S2P Require Import Prelude Rpki Roas Routes EventSourcing CaCerts CaEvents CaKeys CaChildren CaProducts CaClass CertAuth CertAuthCmds.

(** ** Loops with errors *)

Section loops.
Context {E A S : Type}.

(** An invariant of a loop that did not fail. *)
Lemma fold_each_preserves (P : S → Prop) (f : S → A → result E S) (l : list A) s s' :
  (∀ s x s', x ∈ l → P s → f s x = Ok s' → P s') → P s → fold_each f s l = Ok s' → P s'.
Proof.
  revert s. induction l as [|x l IH]; intros s Hstep HP Hf; simpl in Hf; [by inv_ok|].
  destruct (f s x) as [s1|] eqn:Hx; [|done].
  apply (IH s1); [|by eapply Hstep; [left| |]|done]. intros ????. eapply Hstep. by right.
Qed.

Lemma foldl_preserves (P : S → Prop) (f : S → A → S) (l : list A) s :
  P s → (∀ s x, P s → P (f s x)) → P (foldl f s l).
Proof. intros HP Hf. revert s HP. induction l as [|x l IH]; intros s HP; [done|]. apply IH. by apply Hf. Qed.

(** A loop fails if one of its bodies does, in whatever state. *)
Lemma fold_each_fails (f : S → A → result E S) (l : list A) s x :
  x ∈ l → (∀ s, ∃ e, f s x = Err e) → ∃ e, fold_each f s l = Err e.
Proof.
  intros Hx Hf. revert s. induction l as [|y l IH]; intros s; [by apply elem_of_nil in Hx|]. simpl.
  apply elem_of_cons in Hx as [<-|Hx].
  - destruct (Hf s) as [e ->]. eauto.
  - destruct (f s y); [by apply IH|eauto].
Qed.

(** A loop that only appends: its result is the concatenation of what the bodies add. *)
Lemma fold_each_concat {B} (f : list B → A → result E (list B)) (g : A → list B → Prop) (l : list A) s s' :
  (∀ s x s', x ∈ l → f s x = Ok s' → ∃ d, s' = s ++ d ∧ g x d) → fold_each f s l = Ok s' →
  ∃ ds, s' = s ++ concat ds ∧ Forall2 g l ds.
Proof.
  revert s. induction l as [|x l IH]; intros s Hstep Hf; simpl in Hf.
  { inv_ok. exists []. by rewrite app_nil_r. }
  destruct (f s x) as [s1|] eqn:Hx; [|done].
  destruct (Hstep _ _ _ ltac:(left) Hx) as (d&->&Hd).
  destruct (IH (s ++ d)) as (ds&->&Hds); [intros ????; eapply Hstep; by right|done|].
  exists (d :: ds). split; [by rewrite <-app_assoc|by constructor].
Qed.
End loops.

Section facts.
Context `{PA : !PrefixApi, RP : !Rpki, CA : !CaApi, HO : !HashOrder}.

(** ** Lists of events *)

Fixpoint apply_list (now : Instant) (self : CertAuth) (ds : list CaEvent) : option CertAuth :=
  match ds with
  | [] => Some self
  | e :: ds => self ← apply_details now (with_version (u64_succ (ca_version self)) self) e; apply_list now self ds
  end.

Lemma apply_all_list now self evs : ca_apply_all now self evs = apply_list now self (ev_details <$> evs).
Proof.
  revert self. induction evs as [|e evs IH]; intros self; [done|]. simpl. unfold ca_apply.
  destruct (apply_details _ _ _); simpl; [apply IH|done].
Qed.

Lemma apply_list_app now self ds1 ds2 :
  apply_list now self (ds1 ++ ds2) = (self ← apply_list now self ds1; apply_list now self ds2).
Proof.
  revert self. induction ds1 as [|e ds1 IH]; intros self; [done|]. simpl.
  destruct (apply_details _ _ _); simpl; [apply IH|done].
Qed.

Lemma push_events self st ds :
  ev_details <$> (foldl (push_event self) st ds).2 = (ev_details <$> st.2) ++ ds.
Proof.
  revert st. induction ds as [|d ds IH]; intros st; simpl; [by rewrite app_nil_r|].
  rewrite IH. simpl. by rewrite fmap_app, <-app_assoc.
Qed.
Lemma events_from_details_details self ds : ev_details <$> events_from_details self ds = ds.
Proof. apply (push_events self (_, [])). Qed.

(** ** Events of one resource class *)

Definition event_class (e : CaEvent) : option string :=
  match e with
  | CertificateRequested rcn _ _ | CertificateReceived rcn _ _ | KeyRollPendingKeyAdded rcn _ | KeyPendingToNew rcn _
  | KeyPendingToActive rcn _ | KeyRollActivated rcn _ | KeyRollFinished rcn | UnexpectedKeyFound rcn _ | RoasUpdated rcn _
  | AspaObjectsUpdated rcn _ | BgpSecCertificatesUpdated rcn _ | ChildCertificatesUpdated rcn _ => Some rcn
  | _ => None
  end.

Definition class_effect (e : CaEvent) (rc : ResourceClass) : option ResourceClass :=
  match e with
  | CertificateRequested _ req ki => Some (class_add_request rc ki req)
  | CertificateReceived _ rcvd_cert ki => received_cert rc ki rcvd_cert
  | KeyRollPendingKeyAdded _ key => pending_key_id_added rc key
  | KeyPendingToNew _ key => pending_key_to_new rc key
  | KeyPendingToActive _ key => pending_key_to_active rc key
  | KeyRollActivated _ req => new_key_activated rc req
  | KeyRollFinished _ => old_key_removed rc
  | RoasUpdated _ u => Some (with_roas (roas_updated (rc_roas rc) u) rc)
  | AspaObjectsUpdated _ u => Some (with_aspas (aspas_updated (rc_aspas rc) u) rc)
  | BgpSecCertificatesUpdated _ u => Some (with_bgpsec (bgpsec_updated (rc_bgpsec_certificates rc) u) rc)
  | ChildCertificatesUpdated _ u => Some (with_certificates (apply_child_updates (rc_certificates rc) u) rc)
  | _ => Some rc
  end.

(** What a list of class events does to the class of a name. *)
Fixpoint class_effects (ds : list CaEvent) (n : string) (rc : ResourceClass) : option ResourceClass :=
  match ds with
  | [] => Some rc
  | e :: ds => if decide (event_class e = Some n) then rc ← class_effect e rc; class_effects ds n rc
               else class_effects ds n rc
  end.

Lemma class_effects_app ds1 ds2 n rc :
  class_effects (ds1 ++ ds2) n rc = (rc ← class_effects ds1 n rc; class_effects ds2 n rc).
Proof.
  revert rc. induction ds1 as [|e ds1 IH]; intros rc; [done|]. simpl.
  case_decide; [|apply IH]. destruct (class_effect e rc); simpl; [apply IH|done].
Qed.

Lemma class_effects_other ds n rc : Forall (λ e, event_class e ≠ Some n) ds → class_effects ds n rc = Some rc.
Proof.
  induction ds as [|e ds IH]; intros Hf; [done|]. apply Forall_cons in Hf as [? Hf]. simpl.
  by rewrite decide_False, IH.
Qed.

(** The parts of a CA that class events leave alone. *)
Definition same_rest (ca ca' : CertAuth) : Prop :=
  ca_handle ca' = ca_handle ca ∧ ca_repository ca' = ca_repository ca ∧ ca_parents ca' = ca_parents ca
  ∧ ca_next_class_name ca' = ca_next_class_name ca ∧ ca_routes ca' = ca_routes ca ∧ ca_aspas ca' = ca_aspas ca
  ∧ ca_bgpsec_defs ca' = ca_bgpsec_defs ca ∧ dom (ca_children ca') = dom (ca_children ca).

Lemma dom_revoke_for_children cs l : dom (revoke_for_children cs l) = dom cs.
Proof.
  unfold revoke_for_children. revert cs. induction l as [|k l IH]; intros cs; [done|]. simpl.
  by rewrite IH, dom_fmap_L.
Qed.

Lemma apply_class_event now ca e n rc rc' :
  event_class e = Some n → ca_resources ca !! n = Some rc → class_effect e rc = Some rc' →
  ∃ ca', apply_details now ca e = Some ca' ∧ same_rest ca ca' ∧ ca_resources ca' = <[n := rc']> (ca_resources ca).
Proof.
  intros He Hn Hrc. destruct e; simplify_eq/=; unfold on_class; rewrite ?Hn; simpl; rewrite ?Hrc; simpl;
    try (eexists; split; [done|]; split; [by unfold same_rest|done]).
  - eexists. split; [done|]. split; [|done]. unfold same_rest. simpl. by rewrite dom_revoke_for_children.
  - eexists. split; [done|]. split; [by unfold same_rest|]. by rewrite insert_id.
Qed.

Lemma same_rest_trans ca1 ca2 ca3 : same_rest ca1 ca2 → same_rest ca2 ca3 → same_rest ca1 ca3.
Proof. unfold same_rest. intros (->&->&->&->&->&->&->&->) (->&->&->&->&->&->&->&->). done. Qed.

(** A list of class events of known classes, none of which fails, applies to each class what is
    meant for it. *)
Lemma apply_class_events now ca ds :
  Forall (λ e, ∃ n, event_class e = Some n ∧ is_Some (ca_resources ca !! n)) ds →
  (∀ n rc, ca_resources ca !! n = Some rc → is_Some (class_effects ds n rc)) →
  ∃ ca', apply_list now ca ds = Some ca' ∧ same_rest ca ca'
    ∧ ∀ n, ca_resources ca' !! n = (rc ← ca_resources ca !! n; class_effects ds n rc).
Proof.
  revert ca. induction ds as [|e ds IH]; intros ca Hds Heff.
  { exists ca. split; [done|]. split; [by unfold same_rest|]. intros n. by destruct (ca_resources ca !! n). }
  apply Forall_cons in Hds as [(n&He&[rc Hn]) Hds]. simpl.
  destruct (Heff n rc Hn) as [rc2 Hrc2]. simpl in Hrc2. rewrite decide_True in Hrc2 by done.
  destruct (class_effect e rc) as [rc1|] eqn:Hrc1; [|done]. simpl in Hrc2.
  destruct (apply_class_event now (with_version (u64_succ (ca_version ca)) ca) e n rc rc1 He Hn Hrc1)
    as (ca1&->&Hrest&Hres). simpl in *.
  destruct (IH ca1) as (ca'&Hca'&Hrest'&Hres').
  { eapply Forall_impl; [exact Hds|]. intros x (m&?&?). exists m. split; [done|].
    rewrite Hres. destruct (decide (m = n)) as [->|]; [by rewrite lookup_insert_eq|by rewrite lookup_insert_ne]. }
  { intros m rcm. rewrite Hres. destruct (decide (m = n)) as [->|Hne].
    - rewrite lookup_insert_eq. intros [= <-]. by rewrite Hrc2.
    - rewrite lookup_insert_ne by done. intros Hm. destruct (Heff m rcm Hm) as [x Hx]. simpl in Hx.
      rewrite decide_False in Hx by (rewrite He; congruence). by rewrite Hx. }
  exists ca'. split; [done|]. split; [by eapply same_rest_trans|]. intros m. rewrite Hres', Hres.
  destruct (decide (m = n)) as [->|Hne].
  - rewrite lookup_insert_eq, Hn. simpl. by rewrite decide_True, Hrc1.
  - rewrite lookup_insert_ne by done. destruct (ca_resources ca !! m); [|done]. simpl.
    rewrite decide_False by (rewrite He; congruence). done.
Qed.
End facts.
