(* ===== verification/CaCertFacts.v ===== *)
(** * Lemmas on certificates of children: issuing, shrinking, re-issuing *)

From stdpp Require Import base gmap strings list.
From S2P Require Import Prelude Rpki Roas Routes CaCerts CaEvents CaKeys CaChildren CertAuth CaFacts.

(** ** Loops over maps *)

Lemma foldl_insert_own `{Countable K} {V} (key : V → K) (m : gmap K V) l k v :
  foldl (λ m x, <[key x := x]> m) m l !! k = Some v → v ∈ l ∧ key v = k ∨ m !! k = Some v ∧ k ∉ (key <$> l).
Proof.
  revert m. induction l as [|x l IH]; intros m; simpl.
  { intros ?. right. split; [done|]. apply not_elem_of_nil. }
  intros [[??]|[Hm Hk]]%IH; [left; split; [by right|done]|].
  destruct (decide (key x = k)) as [<-|Hne].
  - rewrite lookup_insert_eq in Hm. injection Hm as ->. left. split; [by left|done].
  - rewrite lookup_insert_ne in Hm by done. right. split; [done|]. rewrite not_elem_of_cons. done.
Qed.

Section certs.
Context `{PA : !PrefixApi, RP : !Rpki, CA : !CaApi, HO : !HashOrder}.

(** ** What is assumed of the signer and of resource sets *)

(** A signed certificate is for the key that it was made for, and the information on a key is
    that of the key. *)
Class SignerOk (signer : Signer) : Prop := {
  sign_cert_key : ∀ tbs k cert, sign_cert signer tbs k = Ok cert → cert_public_key cert = tbs_public_key tbs;
  key_info_key : ∀ k p, get_key_info signer k = Ok p → key_identifier p = k;
}.

(** Sets that do not differ contain the same sets. *)
Class ResourceLaws : Prop := {
  difference_contains : ∀ a b r, rs_difference_is_empty a b = true → rs_contains b r = true → rs_contains a r = true;
}.

(** ** The certificates of a class after an update *)

Definition certs_at (certs : ChildCertificates) (k : KeyIdentifier) (c : CertInfo) : Prop :=
  cc_issued certs !! k = Some c ∨ cc_suspended certs !! k = Some c.
Definition certs_keyed (certs : ChildCertificates) : Prop := ∀ k c, certs_at certs k c → cert_key_identifier c = k.
Definition certs_within (resources : ResourceSet) (certs : ChildCertificates) : Prop :=
  ∀ k c, certs_at certs k c → rs_contains resources (cert_resources c) = true.

Lemma no_certs_at k c : ¬ certs_at no_child_certs k c.
Proof. unfold certs_at. simpl. rewrite !lookup_empty. naive_solver. Qed.

Lemma foldl_issued certs l :
  foldl certificate_issued certs l
  = mkChildCerts (foldl (λ m c, <[cert_key_identifier c := c]> m) (cc_issued certs) l) (cc_suspended certs).
Proof. revert certs. induction l as [|c l IH]; intros [??]; [done|]. simpl. by rewrite IH. Qed.
Lemma foldl_unsuspended certs l :
  foldl certificate_unsuspended certs l
  = mkChildCerts (foldl (λ m c, <[cert_key_identifier c := c]> m) (cc_issued certs) l)
      (foldl (λ m k, delete k m) (cc_suspended certs) (cert_key_identifier <$> l)).
Proof. revert certs. induction l as [|c l IH]; intros [??]; [done|]. simpl. by rewrite IH. Qed.
Lemma foldl_revoked certs l :
  foldl key_revoked certs l
  = mkChildCerts (foldl (λ m k, delete k m) (cc_issued certs) l) (foldl (λ m k, delete k m) (cc_suspended certs) l).
Proof. revert certs. induction l as [|c l IH]; intros [??]; [done|]. simpl. by rewrite IH. Qed.
Lemma foldl_suspended certs l :
  foldl certificate_suspended certs l
  = mkChildCerts (foldl (λ m k, delete k m) (cc_issued certs) (cert_key_identifier <$> l))
      (foldl (λ m c, <[cert_key_identifier c := c]> m) (cc_suspended certs) l).
Proof. revert certs. induction l as [|c l IH]; intros [??]; [done|]. simpl. by rewrite IH. Qed.

(** Where the certificates of the class come from after an update. *)
Lemma apply_child_updates_issued certs u k c :
  cc_issued (apply_child_updates certs u) !! k = Some c →
  c ∈ cu_issued u ++ cu_unsuspended u ∧ cert_key_identifier c = k
  ∨ cc_issued certs !! k = Some c ∧ (k ∉ cu_removed u) ∧ (k ∉ cert_key_identifier <$> cu_issued u).
Proof.
  unfold apply_child_updates. rewrite foldl_suspended, foldl_revoked, foldl_unsuspended, foldl_issued. simpl.
  rewrite !foldl_delete_lookup. repeat case_decide; [done..|].
  intros [[??]|[[[??]|[??]]%foldl_insert_own ?]]%foldl_insert_own.
  - left. split; [|done]. apply elem_of_app. by right.
  - left. split; [|done]. apply elem_of_app. by left.
  - right. done.
Qed.
Lemma apply_child_updates_suspended certs u k c :
  cc_suspended (apply_child_updates certs u) !! k = Some c →
  c ∈ cu_suspended u ∧ cert_key_identifier c = k
  ∨ cc_suspended certs !! k = Some c ∧ (k ∉ cu_removed u) ∧ (k ∉ cert_key_identifier <$> cu_suspended u).
Proof.
  unfold apply_child_updates. rewrite foldl_suspended, foldl_revoked, foldl_unsuspended, foldl_issued. simpl.
  intros [[??]|[Hm ?]]%foldl_insert_own; [by left|]. right. revert Hm. rewrite !foldl_delete_lookup.
  by repeat case_decide.
Qed.

Lemma apply_child_updates_keyed certs u : certs_keyed certs → certs_keyed (apply_child_updates certs u).
Proof.
  intros Hk k c [[[??]|(?&_)]%apply_child_updates_issued|[[??]|(?&_)]%apply_child_updates_suspended]; try done;
    apply Hk; unfold certs_at; auto.
Qed.

Lemma apply_no_updates certs : apply_child_updates certs no_child_updates = certs.
Proof. by destruct certs. Qed.

(** Every certificate that stays is within the resources, and so is every new one. *)
Definition updates_fit (resources : ResourceSet) (certs : ChildCertificates) (u : ChildCertificateUpdates) : Prop :=
  (∀ c, c ∈ cu_issued u ++ cu_unsuspended u ++ cu_suspended u → rs_contains resources (cert_resources c) = true)
  ∧ (∀ k c, cc_issued certs !! k = Some c →
       rs_contains resources (cert_resources c) = true ∨ k ∈ cu_removed u ∨ k ∈ cert_key_identifier <$> cu_issued u)
  ∧ (∀ k c, cc_suspended certs !! k = Some c →
       rs_contains resources (cert_resources c) = true ∨ k ∈ cu_removed u ∨ k ∈ cert_key_identifier <$> cu_suspended u).

Lemma updates_fit_within resources certs u :
  updates_fit resources certs u → certs_within resources (apply_child_updates certs u).
Proof.
  intros (Hnew&Hi&Hs) k c [[[Hin _]|(Hk&?&?)]%apply_child_updates_issued|[[Hin _]|(Hk&?&?)]%apply_child_updates_suspended].
  - apply Hnew. rewrite app_assoc. apply elem_of_app. by left.
  - by destruct (Hi _ _ Hk) as [|[]].
  - apply Hnew. rewrite !elem_of_app. auto.
  - by destruct (Hs _ _ Hk) as [|[]].
Qed.

(** ** Issuing *)

Section issue.
Context (signer : Signer) `{SO : !SignerOk signer} (timing : IssuanceTimingConfig) (now : Instant).

Lemma cert_info_create_spec cert uri resources limit c :
  cert_info_create cert uri resources limit = Some c →
  cert_key_identifier c = key_identifier (cert_public_key cert) ∧ cert_resources c = resources ∧ cert_limit c = limit
  ∧ cert_info_base64 c = cert_base64 cert ∧ not_after (cert_validity c) = cert_not_after cert
  ∧ cert_info_serial c = cert_serial cert.
Proof.
  unfold cert_info_create. case_match; [done|].
  destruct (cert_ca_repository cert); [|done]. simpl. destruct (cert_rpki_manifest cert); [|done]. simpl.
  by intros [= <-].
Qed.

Lemma make_issued_cert_spec csr resources limit signing_key signing_cert validity c :
  make_issued_cert csr resources limit signing_key signing_cert validity signer = Ok c →
  rs_contains (cert_resources signing_cert) (cert_resources c) = true ∧ cert_key_identifier c = csr_key_id csr
  ∧ cert_limit c = limit ∧ limit_apply_to limit resources = Some (cert_resources c).
Proof.
  unfold make_issued_cert. intros H. inv_ok. case_on. inv_ok.
  apply negb_false_iff in Heqb. rename x into applied.
  destruct (limit_apply_to limit resources) as [a|] eqn:Ha; [|done]. simplify_eq/=.
  destruct (make_tbs_cert _ _ _ _ _) as [tbs|] eqn:Htbs; [|done]. simplify_eq/=.
  destruct (sign_cert signer _ _) as [cert|] eqn:Hcert; [|done]. simplify_eq/=.
  destruct (cert_info_create _ _ _ _) as [info|] eqn:Hinfo; [|done]. simplify_eq/=.
  apply cert_info_create_spec in Hinfo as (Hk&->&->&_).
  split; [done|]. split; [|done]. rewrite Hk, (sign_cert_key _ _ _ Hcert).
  unfold make_tbs_cert in Htbs. inv_ok. done.
Qed.

Lemma re_issue_spec previous res key c :
  re_issue timing now signer previous res key = Ok c →
  rs_contains (cert_resources (ck_incoming_cert key)) (cert_resources c) = true
  ∧ cert_key_identifier c = cert_key_identifier previous.
Proof. unfold re_issue. intros (?&?&_)%make_issued_cert_spec. done. Qed.

(** ** Shrinking and re-issuing *)

(** A part of the certificates has been dealt with: those in [done], where [new] projects where
    they are re-issued to. *)
Definition part_fits (resources : ResourceSet) (new : ChildCertificateUpdates → list CertInfo) (u : ChildCertificateUpdates)
    (c : CertInfo) : Prop :=
  rs_contains resources (cert_resources c) = true ∨ cert_key_identifier c ∈ cu_removed u
  ∨ cert_key_identifier c ∈ cert_key_identifier <$> new u.
Definition new_fit (resources : ResourceSet) (u : ChildCertificateUpdates) : Prop :=
  (∀ c, c ∈ cu_issued u ++ cu_suspended u → rs_contains resources (cert_resources c) = true) ∧ cu_unsuspended u = [].

(** Updates grow. *)
Definition upd_le (u u' : ChildCertificateUpdates) : Prop :=
  cu_issued u ⊆ cu_issued u' ∧ cu_removed u ⊆ cu_removed u' ∧ cu_suspended u ⊆ cu_suspended u'.

Lemma part_fits_le resources (new : ChildCertificateUpdates → list CertInfo) u u' c :
  upd_le u u' → new u ⊆ new u' → part_fits resources new u c → part_fits resources new u' c.
Proof.
  intros (?&Hr&?) Hn [?|[?|(d&Hk&Hd)%list_elem_of_fmap]]; [by left|right; left; by apply Hr|].
  right; right. apply list_elem_of_fmap. exists d. auto.
Qed.

(** One certificate is dealt with, by adding to the updates. *)
Definition deals_with (resources : ResourceSet) (new : ChildCertificateUpdates → list CertInfo) (u u' : ChildCertificateUpdates)
    (c : CertInfo) : Prop :=
  upd_le u u' ∧ (new_fit resources u → new_fit resources u') ∧ part_fits resources new u' c.

Lemma upd_issue_deals resources u c d :
  rs_contains resources (cert_resources d) = true → cert_key_identifier d = cert_key_identifier c →
  deals_with resources cu_issued u (upd_issue u d) c.
Proof.
  intros Hd Hk. split; [|split].
  - unfold upd_le. simpl. repeat split; set_solver.
  - intros [Hf Hu]. split; [|done]. intros x. simpl. rewrite !elem_of_app, list_elem_of_singleton.
    intros [[?| ->]|?]; [| |]; try done; apply Hf; rewrite elem_of_app; auto.
  - right; right. apply list_elem_of_fmap. exists d. split; [done|]. simpl. set_solver.
Qed.
Lemma upd_suspend_deals resources u c d :
  rs_contains resources (cert_resources d) = true → cert_key_identifier d = cert_key_identifier c →
  deals_with resources cu_suspended u (upd_suspend u d) c.
Proof.
  intros Hd Hk. split; [|split].
  - unfold upd_le. simpl. repeat split; set_solver.
  - intros [Hf Hu]. split; [|done]. intros x. simpl. rewrite !elem_of_app, list_elem_of_singleton.
    intros [?|[?| ->]]; [| |]; try done; apply Hf; rewrite elem_of_app; auto.
  - right; right. apply list_elem_of_fmap. exists d. split; [done|]. simpl. set_solver.
Qed.

(** A loop that deals with every certificate of a list. *)
Lemma fold_deals resources (new : ChildCertificateUpdates → list CertInfo) f l u u' :
  (∀ u u', upd_le u u' → new u ⊆ new u') →
  (∀ u c u', f u c = Ok u' → deals_with resources new u u' c) →
  fold_each (E := CaError) f u l = Ok u' →
  upd_le u u' ∧ (new_fit resources u → new_fit resources u') ∧ ∀ c, c ∈ l → part_fits resources new u' c.
Proof.
  intros Hnew Hf. revert u. induction l as [|c l IH]; intros u Hl; simpl in Hl.
  { inv_ok. split; [by unfold upd_le|]. split; [done|]. intros c. by rewrite elem_of_nil. }
  destruct (f u c) as [u1|] eqn:Hc; [|done]. destruct (Hf _ _ _ Hc) as (Hle&Hn&Hp).
  destruct (IH _ Hl) as (Hle'&Hn'&Hp'). split.
  { destruct Hle as (?&?&?), Hle' as (?&?&?). unfold upd_le. repeat split; set_solver. }
  split; [auto|]. intros d [->|]%elem_of_cons; [|auto]. eapply part_fits_le; [done|by apply Hnew|done].
Qed.

(** Both loops: first over the issued, then over the suspended certificates. *)
Lemma both_deal resources certs f g u :
  (∀ u c u', f u c = Ok u' → deals_with resources cu_issued u u' c) →
  (∀ u c u', g u c = Ok u' → deals_with resources cu_suspended u u' c) →
  certs_keyed certs →
  (u ← fold_each (E := CaError) f no_child_updates (hm_values (cc_issued certs));
   fold_each g u (hm_values (cc_suspended certs))) = Ok u →
  updates_fit resources certs u.
Proof.
  intros Hf Hg Hkeyed H. inv_ok.
  apply (fold_deals resources cu_issued) in H0 as (_&Hn1&Hp1); [|by intros ?? (?&?&?)|done].
  apply (fold_deals resources cu_suspended) in H as (Hle&Hn2&Hp2); [|by intros ?? (?&?&?)|done].
  destruct Hn2 as [Hnew Hun]; [apply Hn1; split; [intros c; by rewrite elem_of_nil|done]|].
  split; [|split].
  - intros c. rewrite Hun. apply Hnew.
  - intros k c Hk. assert (cert_key_identifier c = k) as <- by (apply Hkeyed; by left).
    destruct Hle as (Hli&Hlr&Hls).
    apply (part_fits_le resources cu_issued x u); [done|done|]. apply Hp1. apply elem_of_hm_values. eauto.
  - intros k c Hk. assert (cert_key_identifier c = k) as <- by (apply Hkeyed; by right).
    apply Hp2. apply elem_of_hm_values. eauto.
Qed.

Lemma shrink_overclaiming_fits certs key u :
  certs_keyed certs → shrink_overclaiming timing now signer certs key = Ok u →
  updates_fit (cert_resources (ck_incoming_cert key)) certs u.
Proof.
  intros Hkeyed. apply both_deal; [| |done].
  all: intros v c v' Hv; unfold shrink_cert, reduced_applicable_resources in Hv; case_on; inv_ok.
  all: try (destruct (rs_contains _ (cert_resources c)) eqn:Hc; [|done]; inv_ok;
    split; [by unfold upd_le|]; split; [done|by left]).
  all: try (destruct (rs_is_empty _) eqn:?; inv_ok).
  all: try (split; [unfold upd_le; simpl; repeat split; set_solver|]; split; [done|];
    right; left; simpl; set_solver).
  all: apply re_issue_spec in H as [??].
  - by apply upd_issue_deals.
  - by apply upd_suspend_deals.
Qed.

Lemma activate_key_fits certs key u :
  certs_keyed certs → activate_key timing now signer certs key = Ok u →
  updates_fit (cert_resources (ck_incoming_cert key)) certs u.
Proof.
  intros Hkeyed. apply both_deal; [| |done]; intros v c v' Hv; inv_ok; apply re_issue_spec in H as [??].
  - by apply upd_issue_deals.
  - by apply upd_suspend_deals.
Qed.
End issue.
End certs.
