(* ===== verification/CaInvariant.v ===== *)
(** * The invariant of a CA

    Classes are kept under their name, keys hold certificates for themselves, and every child
    certificate of a class, issued or suspended, is for resources of the current certificate. *)

From stdpp Require Import base gmap strings list pretty.
From S2P Require Import Prelude Rpki Roas Routes EventSourcing CaCerts CaEvents CaKeys CaChildren CaProducts CaClass CertAuth CertAuthCmds CaFacts CaCertFacts.

Section invariant.
Context `{PA : !PrefixApi, RP : !Rpki, CA : !CaApi, HO : !HashOrder}.

(** ** The invariant *)

Definition key_ok (key : CertifiedKey) : Prop := ck_key_id key = cert_key_identifier (ck_incoming_cert key).
Definition key_state_ok (st : KeyState) : Prop :=
  match st with
  | Pending _ => True
  | Active current | RollPending _ current => key_ok current
  | RollNew new current => key_ok new ∧ key_ok current
  | RollOld current old => key_ok current ∧ key_ok (ok_key old)
  end.

(** No over-claiming; a class without a current key has issued nothing. *)
Definition class_within (rc : ResourceClass) : Prop :=
  match current_resources rc with
  | Some resources => certs_within resources (rc_certificates rc)
  | None => rc_certificates rc = no_child_certs
  end.

Definition class_inv (n : string) (rc : ResourceClass) : Prop :=
  rc_name rc = n ∧ key_state_ok (rc_key_state rc) ∧ certs_keyed (rc_certificates rc) ∧ class_within rc.

Definition ca_inv (ca : CertAuth) : Prop := map_Forall class_inv (ca_resources ca).

(** ** Events that leave keys and child certificates alone *)

Definition same_core (rc rc' : ResourceClass) : Prop :=
  rc_name rc' = rc_name rc ∧ rc_certificates rc' = rc_certificates rc ∧ rc_key_state rc' = rc_key_state rc.

Lemma same_core_inv n rc rc' : same_core rc rc' → class_inv n rc → class_inv n rc'.
Proof.
  intros (Hn&Hc&Hk). unfold class_inv, class_within, current_resources, current_certificate, current_key.
  by rewrite Hn, Hc, Hk.
Qed.

Definition product_event (e : CaEvent) : bool :=
  match e with RoasUpdated _ _ | AspaObjectsUpdated _ _ | BgpSecCertificatesUpdated _ _ => true | _ => false end.

Lemma product_effects ds n rc :
  Forall (λ e, product_event e = true) ds → ∃ rc', class_effects ds n rc = Some rc' ∧ same_core rc rc'.
Proof.
  revert rc. induction ds as [|e ds IH]; intros rc Hds; [by exists rc|]. apply Forall_cons in Hds as [He Hds].
  simpl. case_decide; [|by apply IH].
  assert (∃ rc1, class_effect e rc = Some rc1 ∧ same_core rc rc1) as (rc1&->&Hc1) by (destruct e; try done; by eexists).
  destruct (IH rc1 Hds) as (rc'&Hrc'&Hc). simpl. exists rc'. split; [done|].
  destruct Hc1 as (?&?&?), Hc as (?&?&?). repeat split; congruence.
Qed.

(** Requests change nothing but the requests of a key. *)
Lemma add_request_inv n rc ki req : class_inv n rc → class_inv n (class_add_request rc ki req).
Proof.
  destruct rc as [????????? st]. intros (?&Hk&?&Hw).
  unfold class_inv, key_ok, class_within, current_resources, current_certificate, current_key in *. simpl in *.
  split; [done|]. destruct st; simpl in *; repeat case_decide; simpl in *; naive_solver.
Qed.

Definition tame_event (e : CaEvent) : bool :=
  match e with CertificateRequested _ _ _ | UnexpectedKeyFound _ _ => true | _ => product_event e end.

Lemma tame_effects ds n rc :
  Forall (λ e, tame_event e = true) ds → class_inv n rc → ∃ rc', class_effects ds n rc = Some rc' ∧ class_inv n rc'.
Proof.
  revert rc. induction ds as [|e ds IH]; intros rc Hds Hinv; [by exists rc|]. apply Forall_cons in Hds as [He Hds].
  simpl. case_decide; [|by apply IH].
  assert (∃ rc1, class_effect e rc = Some rc1 ∧ class_inv n rc1) as (rc1&->&Hc1).
  { destruct e; try done; eexists; (split; [done|]); try done; [by apply add_request_inv|..];
      (eapply same_core_inv; [|done]); by unfold same_core. }
  simpl. by apply IH.
Qed.

(** Events made for updates that may be empty. *)
Lemma roas_event_product rc u : Forall (λ e, product_event e = true) (roas_event rc u).
Proof. unfold roas_event. case_match; by repeat constructor. Qed.
Lemma aspas_event_product rc u : Forall (λ e, product_event e = true) (aspas_event rc u).
Proof. unfold aspas_event. case_match; by repeat constructor. Qed.
Lemma bgpsec_event_product rc u : Forall (λ e, product_event e = true) (bgpsec_event rc u).
Proof. unfold bgpsec_event. case_match; by repeat constructor. Qed.

Lemma certs_event_effects rc0 u n rc :
  rc_name rc0 = n →
  class_effects (certs_event rc0 u) n rc = Some (with_certificates (apply_child_updates (rc_certificates rc) u) rc).
Proof.
  intros Hn. unfold certs_event, child_updates_is_empty. destruct u as [i r s un], i, r, s, un; simpl;
    rewrite ?decide_True by (by f_equal); simpl; try done.
  fold no_child_updates. rewrite apply_no_updates. by destruct rc.
Qed.

(** Events of a class are for the class. *)
Definition events_of (n : string) (ds : list CaEvent) : Prop := Forall (λ e, event_class e = Some n) ds.

Lemma events_of_app n ds1 ds2 : events_of n ds1 → events_of n ds2 → events_of n (ds1 ++ ds2).
Proof. apply Forall_app_2. Qed.
Lemma events_of_cons n e ds : event_class e = Some n → events_of n ds → events_of n (e :: ds).
Proof. by constructor. Qed.
Lemma roas_event_of rc u : events_of (rc_name rc) (roas_event rc u).
Proof. unfold roas_event. case_match; by repeat constructor. Qed.
Lemma aspas_event_of rc u : events_of (rc_name rc) (aspas_event rc u).
Proof. unfold aspas_event. case_match; by repeat constructor. Qed.
Lemma bgpsec_event_of rc u : events_of (rc_name rc) (bgpsec_event rc u).
Proof. unfold bgpsec_event. case_match; by repeat constructor. Qed.
Lemma certs_event_of rc u : events_of (rc_name rc) (certs_event rc u).
Proof. unfold certs_event. case_match; by repeat constructor. Qed.

#[local] Hint Resolve events_of_app roas_event_of aspas_event_of bgpsec_event_of certs_event_of roas_event_product
  aspas_event_product bgpsec_event_product : krill.

(** ** Receiving a certificate *)

Section class_commands.
Context (config : Config) (now : Instant) (signer : Signer) `{SO : !SignerOk signer} `{RL : !ResourceLaws}.
Variable (all_routes : Routes) (all_aspas : AspaDefinitions) (all_bgpsecs : BgpSecDefinitions).

(** A list of events of the class that brings it from one good state to another. *)
Definition class_goes (n : string) (rc : ResourceClass) (ds : list CaEvent) : Prop :=
  events_of n ds ∧ ∃ rc', class_effects ds n rc = Some rc' ∧ class_inv n rc'.

Lemma class_effects_one n e ds rc rc' :
  event_class e = Some n → class_effect e rc = Some rc' → class_effects (e :: ds) n rc = class_effects ds n rc'.
Proof. intros He Hrc. simpl. by rewrite decide_True, Hrc. Qed.

Lemma received_current rc k cert ki :
  key_state_ok (rc_key_state rc) → current_key rc = Some k → ki = cert_key_identifier cert → ki = ck_key_id k →
  (∀ new cur, rc_key_state rc = RollNew new cur → ck_key_id new ≠ ki) →
  ∃ rc', received_cert rc ki cert = Some rc' ∧ current_key rc' = Some (set_incoming_cert k cert)
    ∧ rc_certificates rc' = rc_certificates rc ∧ rc_name rc' = rc_name rc ∧ key_state_ok (rc_key_state rc').
Proof.
  intros Hok Hk -> Hki Hnew. unfold received_cert, current_key, key_ok in *. destruct rc as [????????? st]. simpl in *.
  destruct st; simplify_eq/=; eexists; (split; [done|]); simpl; unfold key_ok in *; simpl.
  - done.
  - done.
  - rewrite decide_False by (by eapply Hnew). naive_solver.
  - rewrite decide_True by done. naive_solver.
Qed.

Lemma update_rcvd_cert_current_goes n rc k cert ds :
  class_inv n rc → current_key rc = Some k →
  (∀ new cur, rc_key_state rc = RollNew new cur → ck_key_id new ≠ cert_key_identifier cert) →
  update_rcvd_cert_current config now signer all_routes all_aspas all_bgpsecs rc k cert = Ok ds → class_goes n rc ds.
Proof.
  intros (Hname&Hok&Hkeyed&Hw) Hk Hnew. unfold update_rcvd_cert_current.
  destruct (bool_decide_reflect (cert_key_identifier cert = ck_key_id k)) as [Hki|]; simpl; [|done].
  destruct (received_current rc k cert _ Hok Hk eq_refl Hki Hnew) as (rc1&Hrc1&Hk1&Hc1&Hn1&Hok1).
  assert (current_resources rc1 = Some (cert_resources cert)) as Hres1.
  { unfold current_resources, current_certificate. by rewrite Hk1. }
  unfold class_within, current_resources, current_certificate in Hw. rewrite Hk in Hw. simpl in Hw.
  destruct (rs_difference_is_empty _ _) eqn:Hdiff; simpl.
  - intros [= <-]. subst n. split; [by repeat constructor|]. exists rc1. split.
    { rewrite (class_effects_one _ _ _ _ rc1) by done. done. }
    split; [done|]. split; [done|]. unfold class_within. rewrite Hres1, Hc1. split; [done|].
    intros key c Hat. eapply difference_contains; [done|]. by eapply Hw.
  - intros H. inv_ok. apply shrink_overclaiming_fits in H0; [|done..]. simpl in H0.
    split; [apply events_of_cons; [done|]; auto with krill|].
    cbn [app]. rewrite (class_effects_one _ _ _ _ rc1) by done. rewrite class_effects_app, certs_event_effects by done. simpl.
    set (rc2 := with_certificates _ rc1).
    destruct (product_effects (roas_event rc x0 ++ aspas_event rc x1 ++ bgpsec_event rc x2) (rc_name rc) rc2)
      as (rc3&Hrc3&Hcore); [rewrite !Forall_app; auto with krill|].
    exists rc3. split; [done|]. eapply same_core_inv; [done|].
    split; [done|]. split; [done|]. unfold rc2. simpl. rewrite Hc1.
    split; [by apply apply_child_updates_keyed|]. unfold class_within.
    change (current_resources (with_certificates _ rc1)) with (current_resources rc1). rewrite Hres1.
    simpl. by apply updates_fit_within.
Qed.

Lemma class_update_received_cert_goes n rc cert ds :
  class_inv n rc → class_update_received_cert config now signer all_routes all_aspas all_bgpsecs rc cert = Ok ds →
  class_goes n rc ds.
Proof.
  intros Hinv. pose proof Hinv as (Hname&Hok&Hkeyed&Hw). unfold class_update_received_cert.
  destruct (rc_key_state rc) as [p|c|p c|nw c|c o] eqn:Hst.
  - destruct (bool_decide_reflect (cert_key_identifier cert = pk_key_id p)) as [Hki|]; simpl; [|done].
    intros H. inv_ok. split; [apply events_of_cons; [done|]; auto with krill|].
    unfold pending_key_to_active. simpl. rewrite decide_True by done. unfold pending_key_to_active. rewrite Hst. simpl.
    destruct (product_effects (roas_event rc x ++ aspas_event rc x0 ++ bgpsec_event rc x1) (rc_name rc)
      (with_key_state (Active (certified_key_create cert)) rc)) as (rc'&Hrc'&Hcore); [rewrite !Forall_app; auto with krill|].
    exists rc'. split; [done|]. eapply same_core_inv; [done|].
    unfold class_inv, class_within, current_resources, current_certificate, current_key in *. rewrite Hst in Hw. simpl in *.
    split; [done|]. split; [done|]. split; [done|]. rewrite Hw. intros k c [|]; by simplify_map_eq.
  - apply update_rcvd_cert_current_goes; [done|by unfold current_key; rewrite Hst|by rewrite Hst].
  - destruct (bool_decide_reflect (cert_key_identifier cert = pk_key_id p)) as [Hki|].
    + intros [= <-]. subst n. split; [by repeat constructor|].
      simpl. rewrite decide_True by done. unfold pending_key_to_new. rewrite Hst. simpl. eexists. split; [done|].
      unfold class_inv, class_within, current_resources, current_certificate, current_key in *. rewrite Hst in Hw. by simpl in *.
    + apply update_rcvd_cert_current_goes; [done|by unfold current_key; rewrite Hst|by rewrite Hst].
  - destruct (bool_decide_reflect (cert_key_identifier cert = ck_key_id nw)) as [Hki|Hki].
    + intros [= <-]. subst n. split; [by repeat constructor|].
      simpl. rewrite decide_True by done. unfold received_cert. rewrite Hst. rewrite decide_True by done. simpl.
      eexists. split; [done|]. destruct Hok.
      unfold class_inv, class_within, current_resources, current_certificate, current_key, key_ok in *.
      rewrite Hst in Hw. by simpl in *.
    + apply update_rcvd_cert_current_goes; [done|by unfold current_key; rewrite Hst|].
      rewrite Hst. intros ?? [= <- <-]. congruence.
  - apply update_rcvd_cert_current_goes; [done|by unfold current_key; rewrite Hst|by rewrite Hst].
Qed.

(** ** Key rolls *)

Lemma class_keyroll_initiate_goes n rc repo duration ds :
  class_inv n rc → class_keyroll_initiate now signer rc repo duration = Ok ds → class_goes n rc ds.
Proof.
  intros Hinv. pose proof Hinv as (Hname&Hok&Hkeyed&Hw). unfold class_keyroll_initiate, key_keyroll_initiate.
  destruct (_ && _); [intros [= <-]; split; [constructor|by exists rc]|].
  destruct (rc_key_state rc) as [p|c|p c|nw c|c o] eqn:Hst;
    try (intros [= <-]; split; [constructor|by exists rc]).
  intros H. inv_ok. split; [by repeat constructor|].
  simpl. rewrite !decide_True by done. unfold pending_key_id_added. rewrite Hst. simpl. rewrite decide_True by done.
  simpl. eexists. split; [done|]. apply add_request_inv.
  unfold class_inv, class_within, current_resources, current_certificate, current_key in *. rewrite Hst in Hw. by simpl in *.
Qed.

Lemma class_keyroll_activate_goes n rc staging ds :
  class_inv n rc → class_keyroll_activate config now signer rc staging = Ok ds → class_goes n rc ds.
Proof.
  intros Hinv. pose proof Hinv as (Hname&Hok&Hkeyed&Hw). unfold class_keyroll_activate.
  destruct (rc_key_state rc) as [p|c|p c|nw c|c o] eqn:Hst;
    try (intros [= <-]; split; [constructor|by exists rc]).
  simpl. destruct (_ && _); [intros [= <-]; split; [constructor|by exists rc]|].
  intros H. inv_ok. apply activate_key_fits in H3; [|done..].
  split; [apply events_of_cons; [done|]; auto with krill|].
  simpl. rewrite decide_True by done. unfold new_key_activated. rewrite Hst. simpl.
  set (rc1 := with_key_state _ rc).
  destruct (product_effects (roas_event rc x0 ++ aspas_event rc x1) (rc_name rc) rc1) as (rc2&Hrc2&Hcore2);
    [rewrite !Forall_app; auto with krill|].
  rewrite (app_assoc (roas_event _ _)), class_effects_app, Hrc2. simpl.
  rewrite class_effects_app, certs_event_effects by done. simpl.
  destruct (product_effects (bgpsec_event rc x3) (rc_name rc) (with_certificates (apply_child_updates (rc_certificates rc2) x2) rc2))
    as (rc3&Hrc3&Hcore3); [auto with krill|].
  exists rc3. split; [done|]. eapply same_core_inv; [done|].
  destruct Hcore2 as (Hn2&Hc2&Hk2). split; [done|]. simpl. rewrite Hc2, Hk2. simpl. split; [by destruct Hok|].
  split; [by apply apply_child_updates_keyed|].
  unfold class_within, current_resources, current_certificate, current_key. simpl. rewrite Hk2. simpl.
  by apply updates_fit_within.
Qed.

Lemma class_keyroll_finish_goes n rc e :
  class_inv n rc → class_keyroll_finish rc = Ok e → class_goes n rc [e].
Proof.
  intros Hinv. pose proof Hinv as (Hname&Hok&Hkeyed&Hw). unfold class_keyroll_finish.
  destruct (rc_key_state rc) as [p|c|p c|nw c|c o] eqn:Hst; try done.
  intros [= <-]. subst n. split; [by repeat constructor|]. simpl. rewrite decide_True by done.
  unfold old_key_removed. rewrite Hst. simpl. eexists. split; [done|]. destruct Hok.
  unfold class_inv, class_within, current_resources, current_certificate, current_key in *. rewrite Hst in Hw. by simpl in *.
Qed.
End class_commands.
End invariant.

#[export] Hint Resolve events_of_app roas_event_of aspas_event_of bgpsec_event_of certs_event_of roas_event_product
  aspas_event_product bgpsec_event_product : krill.
