(* ===== verification/CaSteps.v ===== *)
(** * Steps of a CA: the events of every command apply and keep the invariant *)

From stdpp Require Import base gmap strings list pretty.
From S2P Require Import Prelude Rpki Roas Routes EventSourcing CaCerts CaEvents CaKeys CaChildren CaProducts CaClass CertAuth CertAuthCmds CaFacts CaCertFacts CaInvariant.

Section steps.
Context `{PA : !PrefixApi, RP : !Rpki, CA : !CaApi, HO : !HashOrder}.

(** ** One command: its events are applied, an error changes nothing; [None] is a panic *)

Definition ca_step (config : Config) (now : Instant) (signer : Signer) (ca : CertAuth) (cmd : CmdDet) : option CertAuth :=
  match ca_process_command config now signer ca cmd with
  | None => None
  | Some (Err _) => Some ca
  | Some (Ok evs) => ca_apply_all now ca evs
  end.

(** The events apply and lead to a good state. *)
Definition goes (now : Instant) (ca : CertAuth) (ds : list CaEvent) : Prop :=
  ∃ ca', apply_list now ca ds = Some ca' ∧ ca_inv ca'.

Context (config : Config) (now : Instant) (signer : Signer) `{SO : !SignerOk signer} `{RL : !ResourceLaws}.

(** ** Events of several classes *)

Lemma concat_effects l dss :
  NoDup l.*1 → Forall2 (λ (nrc : string * ResourceClass) d, class_goes nrc.1 nrc.2 d) l dss →
  ∀ n rc, (n, rc) ∈ l → ∃ rc', class_effects (concat dss) n rc = Some rc' ∧ class_inv n rc'.
Proof.
  intros Hnd Hf. induction Hf as [|[m rcm] d l dss [Hof (rcm'&Hd&Hinv)] Hf IH]; [by intros ?? ?%elem_of_nil|].
  simpl in *. apply NoDup_cons in Hnd as [Hm Hnd]. intros n rc [[= -> ->]|Hin]%elem_of_cons.
  - exists rcm'. rewrite class_effects_app, Hd. simpl. split; [|done]. apply class_effects_other.
    clear -Hm Hf. induction Hf as [|[m' rc'] d' l dss [Hof _] Hf IH]; simpl; [constructor|]. simpl in *.
    apply not_elem_of_cons in Hm as [Hne Hm]. apply Forall_app. split; [|by apply IH].
    eapply Forall_impl; [exact Hof|]. simpl. intros e ->. congruence.
  - rewrite class_effects_app, class_effects_other; [by apply IH|]. eapply Forall_impl; [exact Hof|]. simpl.
    intros e ->. intros [= ->]. apply Hm. apply list_elem_of_fmap. by exists (n, rc).
Qed.

Lemma other_effects l dss n rc :
  Forall2 (λ (nrc : string * ResourceClass) d, class_goes nrc.1 nrc.2 d) l dss → n ∉ l.*1 →
  class_effects (concat dss) n rc = Some rc.
Proof.
  intros Hf. induction Hf as [|[m rcm] d l dss [Hof _] Hf IH]; [done|]. simpl in *.
  intros [Hne Hn]%not_elem_of_cons. rewrite class_effects_app, class_effects_other; [by apply IH|].
  eapply Forall_impl; [exact Hof|]. simpl. intros e ->. congruence.
Qed.

Lemma classes_go ca l dss :
  ca_inv ca → NoDup l.*1 → (∀ n rc, (n, rc) ∈ l → ca_resources ca !! n = Some rc) →
  Forall2 (λ (nrc : string * ResourceClass) d, class_goes nrc.1 nrc.2 d) l dss →
  ∃ ca', apply_list now ca (concat dss) = Some ca' ∧ same_rest ca ca' ∧ ca_inv ca'.
Proof.
  intros Hinv Hnd Hl Hf.
  assert (∀ n rc, ca_resources ca !! n = Some rc → ∃ rc', class_effects (concat dss) n rc = Some rc' ∧ class_inv n rc') as Heff.
  { intros n rc Hn. destruct (decide (n ∈ l.*1)) as [([? rcl]&->&Hin)%list_elem_of_fmap|Hout].
    - pose proof (Hl _ _ Hin) as Hrcl. simplify_eq/=. by eapply concat_effects.
    - exists rc. split; [by eapply other_effects|]. by apply Hinv. }
  destruct (apply_class_events now ca (concat dss)) as (ca'&Hca'&Hrest&Hres).
  - apply Forall_concat. clear -Hl Hf. induction Hf as [|[m rcm] d l dss [Hof _] Hf IH]; [constructor|]. constructor.
    + eapply Forall_impl; [exact Hof|]. intros e He. exists m. split; [done|]. rewrite (Hl m rcm); [by eexists|by left].
    + apply IH. intros n rc Hin. apply Hl. by right.
  - intros n rc Hn. destruct (Heff n rc Hn) as (rc'&->&_). done.
  - exists ca'. split; [done|]. split; [done|]. intros n rc'. rewrite Hres.
    destruct (ca_resources ca !! n) as [rc|] eqn:Hn; [|done]. simpl. destruct (Heff n rc Hn) as (rc2&->&?).
    by intros [= <-].
Qed.

(** All classes, and one class. *)
Lemma all_classes_go ca dss :
  ca_inv ca → Forall2 (λ (nrc : string * ResourceClass) d, class_goes nrc.1 nrc.2 d) (hm_iter (ca_resources ca)) dss →
  ∃ ca', apply_list now ca (concat dss) = Some ca' ∧ same_rest ca ca' ∧ ca_inv ca'.
Proof.
  intros Hinv Hf. eapply classes_go; [done|apply NoDup_hm_keys| |done]. intros n rc. by rewrite elem_of_hm_iter.
Qed.
Lemma one_class_goes ca n rc d :
  ca_inv ca → ca_resources ca !! n = Some rc → class_goes n rc d →
  ∃ ca', apply_list now ca d = Some ca' ∧ same_rest ca ca' ∧ ca_inv ca'.
Proof.
  intros Hinv Hn Hd. rewrite <-(app_nil_r d). change (d ++ []) with (concat [d]).
  apply (classes_go ca [(n, rc)]); [done|apply NoDup_singleton| |by apply Forall2_cons].
  by intros ?? [= -> ->]%list_elem_of_singleton.
Qed.

(** Tame events of known classes. *)
Lemma tame_go ca ds :
  ca_inv ca → Forall (λ e, tame_event e = true ∧ ∃ n, event_class e = Some n ∧ is_Some (ca_resources ca !! n)) ds →
  ∃ ca', apply_list now ca ds = Some ca' ∧ same_rest ca ca' ∧ ca_inv ca' ∧ dom (ca_resources ca') = dom (ca_resources ca).
Proof.
  intros Hinv Hds. apply Forall_and in Hds as [Htame Hof].
  assert (∀ n rc, ca_resources ca !! n = Some rc → ∃ rc', class_effects ds n rc = Some rc' ∧ class_inv n rc') as Heff.
  { intros n rc Hn. apply tame_effects; [done|]. by apply Hinv. }
  destruct (apply_class_events now ca ds Hof) as (ca'&Hca'&Hrest&Hres).
  { intros n rc Hn. destruct (Heff n rc Hn) as (rc'&->&_). done. }
  exists ca'. split; [done|]. split; [done|]. split.
  - intros n rc'. rewrite Hres. destruct (ca_resources ca !! n) as [rc|] eqn:Hn; [|done]. simpl.
    destruct (Heff n rc Hn) as (rc2&->&?). by intros [= <-].
  - apply set_eq. intros n. rewrite !elem_of_dom, Hres. destruct (ca_resources ca !! n) as [rc|] eqn:Hn; simpl.
    + destruct (Heff n rc Hn) as (rc2&->&_). done.
    + done.
Qed.

(** ** Loops over the classes *)

Lemma push_loop {A} (self : CertAuth) (f : A → KrillResult (list CaEvent)) l st st' :
  fold_each (λ st x, d ← f x; Ok (foldl (push_event self) st d)) st l = Ok st' →
  ∃ dss, ev_details <$> st'.2 = (ev_details <$> st.2) ++ concat dss ∧ Forall2 (λ x d, f x = Ok d) l dss.
Proof.
  revert st. induction l as [|x l IH]; intros st H; simpl in H.
  { inv_ok. exists []. by rewrite app_nil_r. }
  destruct (f x) as [d|] eqn:Hx; [|done]. simpl in H. destruct (IH _ H) as (dss&Hds&Hf).
  exists (d :: dss). split; [|by constructor]. rewrite Hds, push_events. simpl. by rewrite app_assoc.
Qed.

Lemma class_events_spec {U} (self : CertAuth) (updates : ResourceClass → KrillResult U) event ds :
  class_events self updates event = Ok ds →
  ∃ dss, ds = concat dss
    ∧ Forall2 (λ (nrc : string * ResourceClass) d, ∃ u, updates nrc.2 = Ok u ∧ d = event nrc.1 u) (hm_iter (ca_resources self)) dss.
Proof.
  intros H. eapply fold_each_concat in H; [exact H|].
  intros s [n rc] s' _ Hs. simpl in Hs. inv_ok. eexists. split; [done|]. eauto.
Qed.

(** Events for products of every class. *)
Lemma product_events_go {U} ca (updates : ResourceClass → KrillResult U) event ds :
  ca_inv ca → (∀ n u, Forall (λ e, product_event e = true) (event n u) ∧ events_of n (event n u)) →
  class_events ca updates event = Ok ds → ∃ ca', apply_list now ca ds = Some ca' ∧ same_rest ca ca' ∧ ca_inv ca'.
Proof.
  intros Hinv Hev (dss&->&Hf)%class_events_spec. apply all_classes_go; [done|].
  assert (Forall (λ nrc, class_inv nrc.1 nrc.2) (hm_iter (ca_resources ca))) as Hall.
  { apply Forall_forall. intros [n rc] Hin%elem_of_hm_iter. by apply Hinv. }
  induction Hf as [|[n rc] d l dss (u&_&->) Hf IH]; [constructor|]. apply Forall_cons in Hall as [Hrc Hall].
  constructor; [|by apply IH]. simpl in *. destruct (Hev n u) as [Hp Hof]. split; [done|].
  destruct (product_effects (event n u) n rc Hp) as (rc'&?&?). exists rc'. split; [done|]. by eapply same_core_inv.
Qed.

(** ** Events outside the classes *)

(** One event that applies and leaves the classes as they are, then more. *)
Lemma goes_cons ca e ds ca1 :
  apply_details now (with_version (u64_succ (ca_version ca)) ca) e = Some ca1 → goes now ca1 ds → goes now ca (e :: ds).
Proof. intros He (ca'&?&?). exists ca'. simpl. by rewrite He. Qed.
Lemma goes_nil ca : ca_inv ca → goes now ca [].
Proof. intros ?. by exists ca. Qed.
Lemma goes_app ca ds1 ds2 ca1 : apply_list now ca ds1 = Some ca1 → goes now ca1 ds2 → goes now ca (ds1 ++ ds2).
Proof. intros H1 (ca'&?&?). exists ca'. by rewrite apply_list_app, H1. Qed.

Lemma on_child_some child f ca d :
  ca_children ca !! child = Some d → on_child child f ca = Some (with_children (<[child := f d]> (ca_children ca)) ca).
Proof. intros Hd. unfold on_child. by rewrite Hd. Qed.
Lemma get_child_ok ca child d : get_child ca child = Ok d → ca_children ca !! child = Some d.
Proof. unfold get_child. destruct (_ !! child); simpl; [by intros [= ->]|done]. Qed.

(** A child event is the last one. *)
Lemma child_event_goes ca child f e :
  (∀ ca, apply_details now ca e = on_child child f ca) → is_Some (ca_children ca !! child) → ca_inv ca → goes now ca [e].
Proof.
  intros He [d Hd] Hinv. eapply goes_cons; [rewrite He; by apply on_child_some|]. by apply goes_nil.
Qed.

Lemma fresh_class_inv n ns parent prcn key : class_inv n (class_create n ns parent prcn key now).
Proof. split; [done|]. split; [done|]. split; [intros k c H; by destruct (no_certs_at k c)|done]. Qed.

Lemma insert_class_inv ca n rc : ca_inv ca → class_inv n rc → map_Forall class_inv (<[n := rc]> (ca_resources ca)).
Proof. intros Hinv Hrc. by apply map_Forall_insert_2. Qed.

(** ** Certificates of children *)

(** Updates that move certificates of the class around and remove some. *)
Definition only_moves (certs : ChildCertificates) (u : ChildCertificateUpdates) : Prop :=
  ∀ c, c ∈ cu_issued u ++ cu_unsuspended u ++ cu_suspended u → ∃ k, certs_at certs k c.

Lemma child_updates_goes n rc u :
  class_inv n rc →
  match current_resources rc with
  | Some resources => updates_fit resources (rc_certificates rc) u
  | None => only_moves (rc_certificates rc) u
  end → class_goes n rc [ChildCertificatesUpdated n u].
Proof.
  intros (Hn&Hok&Hk&Hw) Hu. split; [by repeat constructor|]. simpl. rewrite decide_True by done. simpl.
  eexists. split; [done|]. split; [done|]. split; [done|]. split; [by apply apply_child_updates_keyed|].
  unfold class_within in *. change (current_resources (with_certificates _ rc)) with (current_resources rc).
  destruct (current_resources rc); simpl; [by apply updates_fit_within|].
  rewrite Hw in Hu |- *. destruct u as [i r s un].
  assert (i = [] ∧ un = [] ∧ s = []) as (->&->&->).
  { clear -Hu. unfold only_moves in Hu. simpl in Hu.
    destruct i as [|c i]; [destruct un as [|c un]; [destruct s as [|c s]; [done|]|]|];
      (destruct (Hu c) as (k&[]%no_certs_at); set_solver). }
  unfold apply_child_updates. simpl. rewrite foldl_revoked. simpl. unfold no_child_certs. f_equal; apply map_eq; intros k;
    rewrite foldl_delete_lookup, lookup_empty; by case_decide.
Qed.

Lemma only_moves_goes n rc u :
  class_inv n rc → only_moves (rc_certificates rc) u → class_goes n rc [ChildCertificatesUpdated n u].
Proof.
  intros Hinv Hu. apply child_updates_goes; [done|]. destruct (current_resources rc) as [resources|] eqn:Hr; [|done].
  destruct Hinv as (_&_&_&Hw). unfold class_within in Hw. rewrite Hr in Hw. split; [|split].
  - intros c (k&?)%Hu. by eapply Hw.
  - intros k c ?. left. eapply Hw. by left.
  - intros k c ?. left. eapply Hw. by right.
Qed.

(** The loop over the classes in which a child has keys. *)
Lemma for_child_classes_go ca child (f : ResourceClass → ChildCertificateUpdates → KeyIdentifier → ChildCertificateUpdates) :
  ca_inv ca →
  (∀ rc u key, only_moves (rc_certificates rc) u → only_moves (rc_certificates rc) (f rc u key)) →
  ∃ ca', apply_list now ca (ev_details <$> (for_child_classes ca child f).2) = Some ca' ∧ same_rest ca ca' ∧ ca_inv ca'.
Proof.
  intros Hinv Hf.
  assert (∃ dss, ev_details <$> (for_child_classes ca child f).2 = concat dss
    ∧ Forall2 (λ nrc d, class_goes nrc.1 nrc.2 d) (hm_iter (ca_resources ca)) dss) as (dss&->&?); [|by apply all_classes_go].
  unfold for_child_classes.
  assert (Forall (λ nrc, class_inv nrc.1 nrc.2) (hm_iter (ca_resources ca))) as Hall.
  { apply Forall_forall. intros [n rc] Hin%elem_of_hm_iter. by apply Hinv. }
  change (concat ?x) with ((ev_details <$> (ca_version ca, @nil CaEvt).2) ++ concat x).
  generalize (ca_version ca, @nil CaEvt). induction Hall as [|[n rc] l Hrc Hall IH]; intros st.
  { exists []. simpl. by rewrite app_nil_r. }
  simpl in Hrc. simpl. destruct (child_issued child n) as [|k ks] eqn:Hks.
  - destruct (IH st) as (dss&Heq&?). exists ([] :: dss). split; [done|]. constructor; [|done]. split; [constructor|by exists rc].
  - destruct (IH (push_event ca st (ChildCertificatesUpdated n (foldl (f rc) no_child_updates (k :: ks))))) as (dss&Heq&?).
    eexists ([_] :: dss). split.
    { simpl in Heq |- *. rewrite Heq, fmap_app, <-app_assoc. done. }
    constructor; [|done]. simpl. apply only_moves_goes; [done|]. change (f rc no_child_updates k) with (foldl (f rc) no_child_updates [k]).
    rewrite <-foldl_app. generalize ([k] ++ ks). clear -Hf.
    assert (only_moves (rc_certificates rc) no_child_updates) as H0 by (by intros c ?%elem_of_nil).
    intros l. revert H0. generalize no_child_updates. induction l as [|x l IH]; intros u Hu; [done|]. apply IH. by apply Hf.
Qed.
End steps.
