(* ===== verification/CaStepFacts.v ===== *)
(** * Steps of a CA, command by command *)

From stdpp Require Import base gmap strings list pretty.
From S2P Require Import Prelude Rpki Roas Routes EventSourcing CaCerts CaEvents CaKeys CaChildren CaProducts CaClass CertAuth CertAuthCmds CaFacts CaCertFacts CaInvariant CaSteps.

(** Look up what an accepted command looked up. *)
Ltac known :=
  repeat match goal with
  | H : get_child _ _ = Ok _ |- _ => apply get_child_ok in H
  | H : ok_or ?o _ = Ok _ |- _ => destruct o eqn:?; simplify_eq/=
  | H : get_current_key _ = Ok _ |- _ => unfold get_current_key in H
  end.

Section commands.
Context `{PA : !PrefixApi, RP : !Rpki, CA : !CaApi, HO : !HashOrder}.
Context (config : Config) (now : Instant) (signer : Signer) `{SO : !SignerOk signer} `{RL : !ResourceLaws}.
Variable (ca : CertAuth).
Hypothesis Hinv : ca_inv ca.

(** ** Being a trust anchor or a parent *)

Lemma trust_anchor_make_goes uris rsync_uri evs :
  trust_anchor_make now signer ca uris rsync_uri = Ok evs → goes now ca (ev_details <$> evs).
Proof.
  unfold trust_anchor_make. case_match; [done|]. intros H'. inv_ok. simpl.
  eapply goes_cons; [done|]. apply goes_nil. apply insert_class_inv; [done|apply fresh_class_inv].
Qed.

Lemma child_add_goes child id_cert resources evs :
  child_add ca child id_cert resources = Ok evs → goes now ca (ev_details <$> evs).
Proof. unfold child_add. repeat case_match; try done. intros [= <-]. simpl. eapply goes_cons; [done|]. by apply goes_nil. Qed.

Lemma child_update_resources_goes child resources evs :
  child_update_resources ca child resources = Ok evs → goes now ca (ev_details <$> evs).
Proof.
  unfold child_update_resources. case_match; [done|]. intros H'. inv_ok. known. case_match; inv_ok.
  - simpl. by eapply child_event_goes.
  - by apply goes_nil.
Qed.

Lemma child_update_id_cert_goes child id_cert evs :
  child_update_id_cert ca child id_cert = Ok evs → goes now ca (ev_details <$> evs).
Proof.
  unfold child_update_id_cert. intros H'. inv_ok. known. case_match; inv_ok.
  - simpl. by eapply child_event_goes.
  - by apply goes_nil.
Qed.

Lemma child_certify_goes child request evs :
  child_certify config now signer ca child request = Ok evs → goes now ca (ev_details <$> evs).
Proof.
  unfold child_certify. intros H'. inv_ok. case_match; [done|]. inv_ok. simpl. unfold issue_child_certificate, issue_cert in *. inv_ok. known.
  match goal with H : ca_resources ca !! _ = Some ?rc, H' : current_key _ = Some ?k |- _ => rename H into Hrc, H' into Hkey end.
  match goal with H : make_issued_cert _ _ _ _ _ _ _ = Ok _ |- _ => apply make_issued_cert_spec in H as (Hwithin&_); [|done] end.
  eapply goes_cons; [by apply on_child_some|].
  edestruct one_class_goes as (ca'&Hca'&_&Hinv'); [| |apply child_updates_goes|by exists ca'].
  - exact Hinv.
  - exact Hrc.
  - by apply Hinv.
  - unfold current_resources, current_certificate. rewrite Hkey. simpl. pose proof (Hinv _ _ Hrc) as (_&_&_&Hw).
    unfold class_within, current_resources, current_certificate in Hw. rewrite Hkey in Hw. simpl in Hw.
    split; [|split]; simpl.
    + by intros c ->%list_elem_of_singleton.
    + intros k c ?. left. eapply Hw. by left.
    + intros k c ?. left. eapply Hw. by right.
Qed.

Lemma child_revoke_key_goes child request evs :
  is_Some (ca_resources ca !! rr_class_name request) →
  child_revoke_key ca child request = Ok evs → goes now ca (ev_details <$> evs).
Proof.
  intros [rc Hrc]. unfold child_revoke_key. intros H'. inv_ok. case_match; [done|]. inv_ok. known. simpl.
  pose proof (Hinv _ _ Hrc) as (Hn&Hok&Hk&Hw).
  set (rc1 := with_certificates (key_revoked (rc_certificates rc) (rr_key request)) rc).
  assert (class_inv (rr_class_name request) rc1) as Hrc1.
  { destruct (only_moves_goes (rr_class_name request) rc (upd_remove no_child_updates (rr_key request)))
      as (_&rc'&Heff&?); [by apply Hinv|by intros ? ?%elem_of_nil|].
    simpl in Heff. rewrite decide_True in Heff by done. injection Heff as <-. done. }
  eapply goes_cons.
  { simpl. unfold on_class. simpl. rewrite Hrc. simpl. by apply on_child_some. }
  edestruct one_class_goes as (ca'&Hca'&_&Hinv'); [| |apply only_moves_goes|by exists ca'].
  - by apply insert_class_inv.
  - simpl. by rewrite lookup_insert_eq.
  - done.
  - by intros ? ?%elem_of_nil.
Qed.

(** The loop over the classes of a child, followed by an event for the child. *)
Lemma child_classes_goes child d f e g :
  ca_children ca !! child = Some d →
  (∀ rc u key, only_moves (rc_certificates rc) u → only_moves (rc_certificates rc) (f rc u key)) →
  (∀ ca, apply_details now ca e = on_child child g ca) →
  goes now ca (ev_details <$> (push_event ca (for_child_classes ca d f) e).2).
Proof.
  intros Hd Hf He. destruct (for_child_classes_go now ca d f Hinv Hf) as (ca1&Hca1&Hrest&Hinv1).
  simpl. rewrite fmap_app. eapply goes_app; [done|]. simpl. eapply child_event_goes; [done| |done].
  apply elem_of_dom. destruct Hrest as (_&_&_&_&_&_&_&->). apply elem_of_dom. by rewrite Hd.
Qed.

Lemma only_moves_remove certs u k : only_moves certs u → only_moves certs (upd_remove u k).
Proof. done. Qed.
Lemma only_moves_suspend certs u k c :
  certs_at certs k c → only_moves certs u → only_moves certs (upd_suspend u c).
Proof.
  intros Hc Hu d. simpl. rewrite !app_assoc, elem_of_app, list_elem_of_singleton, <-app_assoc. intros [?| ->]; [by apply Hu|eauto].
Qed.
Lemma only_moves_unsuspend certs u k c :
  certs_at certs k c → only_moves certs u → only_moves certs (upd_unsuspend u c).
Proof.
  intros Hc Hu d. simpl. rewrite !elem_of_app, list_elem_of_singleton. intros [?|[[?| ->]|?]]; [|eauto|eauto|];
    apply Hu; rewrite !elem_of_app; auto.
Qed.

Lemma child_remove_goes child evs : child_remove ca child = Ok evs → goes now ca (ev_details <$> evs).
Proof.
  unfold child_remove. intros H'. inv_ok. known.
  edestruct (for_child_classes_go now ca x) as (ca1&Hca1&_&Hinv1); [done| |simpl; rewrite fmap_app; eapply goes_app; [done|]].
  - intros rc u key Hu. simpl. case_match; [by apply only_moves_remove|done].
  - simpl. eapply goes_cons; [done|]. by apply goes_nil.
Qed.

Lemma child_suspend_goes child evs : child_suspend_inactive ca child = Ok evs → goes now ca (ev_details <$> evs).
Proof.
  unfold child_suspend_inactive. intros H'. inv_ok. known. case_match; [inv_ok; by apply goes_nil|].
  match goal with H : context [match ?l with [] => _ | _ => _ end] |- _ => destruct l eqn:?; [inv_ok; by apply goes_nil|] end.
  injection H' as <-. eapply child_classes_goes; [done| |done]. intros rc u key Hu. simpl. case_match; [|done].
  eapply only_moves_suspend; [by left|done].
Qed.

Lemma child_unsuspend_goes child evs : child_unsuspend now ca child = Ok evs → goes now ca (ev_details <$> evs).
Proof.
  unfold child_unsuspend. intros H'. inv_ok. known. case_match; [inv_ok; by apply goes_nil|].
  injection H' as <-. eapply child_classes_goes; [done| |done]. intros rc u key Hu. simpl. case_match; [|done].
  case_match; [|by apply only_moves_remove]. eapply only_moves_unsuspend; [by right|done].
Qed.

(** ** Being a child *)

Lemma generate_new_id_key_goes evs : generate_new_id_key signer ca = Ok evs → goes now ca (ev_details <$> evs).
Proof. unfold generate_new_id_key. intros H'. inv_ok. simpl. eapply goes_cons; [done|]. by apply goes_nil. Qed.
Lemma add_parent_goes parent info evs : add_parent ca parent info = Ok evs → goes now ca (ev_details <$> evs).
Proof. unfold add_parent. repeat case_match; try done. intros [= <-]. simpl. eapply goes_cons; [done|]. by apply goes_nil. Qed.
Lemma update_parent_goes parent info evs : update_parent ca parent info = Ok evs → goes now ca (ev_details <$> evs).
Proof. unfold update_parent. repeat case_match; try done. intros [= <-]. simpl. eapply goes_cons; [done|]. by apply goes_nil. Qed.

(** Removing classes. *)
Lemma removals_go (ds : list CaEvent) ca0 :
  ca_inv ca0 → Forall (λ e, ∃ n p r, e = ResourceClassRemoved n p r) ds →
  ∃ ca', apply_list now ca0 ds = Some ca' ∧ ca_inv ca' ∧ ca_aspas ca' = ca_aspas ca0
    ∧ ∀ n, is_Some (ca_resources ca0 !! n) → Forall (λ e, ∀ p r, e ≠ ResourceClassRemoved n p r) ds →
        is_Some (ca_resources ca' !! n).
Proof.
  clear Hinv. revert ca0. induction ds as [|e ds IH]; intros ca0 Hi Hds; [by exists ca0|].
  apply Forall_cons in Hds as [(n&p&r&->) Hds].
  destruct (IH (with_resources (delete n (ca_resources ca0)) (with_version (u64_succ (ca_version ca0)) ca0)))
    as (ca'&Hca'&Hi'&Ha&Hk); [by apply map_Forall_delete|done|].
  exists ca'. split; [done|]. split; [done|]. split; [done|]. intros m Hm [Hne Hf]%Forall_cons. apply Hk; [|done].
  simpl. rewrite lookup_delete_ne; [done|]. intros ->. by eapply Hne.
Qed.

Lemma remove_parent_goes parent evs : remove_parent ca parent = Ok evs → goes now ca (ev_details <$> evs).
Proof.
  unfold remove_parent. case_match; [done|]. intros [= <-]. rewrite events_from_details_details.
  match goal with |- goes _ _ (?r ++ _) =>
    destruct (removals_go r ca Hinv) as (ca'&Hca'&Hinv'&_); [|eapply goes_app; [done|]] end.
  - apply foldl_preserves; [constructor|]. intros res [n rc] Hres. case_match; [|done].
    apply Forall_app. split; [done|]. repeat constructor. eauto.
  - simpl. eapply goes_cons; [done|]. apply goes_nil. intros n rc [? _]%map_lookup_filter_Some. by apply Hinv'.
Qed.

Lemma drop_resource_class_goes rcn evs : drop_resource_class signer ca rcn = Ok evs → goes now ca (ev_details <$> evs).
Proof.
  unfold drop_resource_class. intros H'. inv_ok. rewrite events_from_details_details.
  eapply goes_cons; [done|]. apply goes_nil. by apply map_Forall_delete.
Qed.

Lemma update_received_cert_goes rcn cert evs :
  update_received_cert config now signer ca rcn cert = Ok evs → goes now ca (ev_details <$> evs).
Proof.
  unfold update_received_cert. intros H'. inv_ok. known. rewrite events_from_details_details.
  match goal with H : class_update_received_cert _ _ _ _ _ _ _ _ = Ok _ |- _ =>
    eapply (class_update_received_cert_goes config now signer) in H; [|by apply Hinv] end.
  edestruct one_class_goes as (ca'&?&_&?); [exact Hinv|done|done|by exists ca'].
Qed.

(** ** Key rolls *)

(** A loop over all classes with numbered events. *)
Lemma push_loop_goes (f : ResourceClass → KrillResult (list CaEvent)) st :
  (∀ n rc d, class_inv n rc → f rc = Ok d → class_goes n rc d) →
  fold_each (λ st (nrc : string * ResourceClass), d ← f nrc.2; Ok (foldl (push_event ca) st d)) (ca_version ca, [])
    (hm_iter (ca_resources ca)) = Ok st →
  ∃ ca', apply_list now ca (ev_details <$> st.2) = Some ca' ∧ same_rest ca ca' ∧ ca_inv ca'.
Proof.
  intros Hf (dss&->&Hds)%(push_loop ca (λ nrc, f nrc.2)). apply all_classes_go; [done|].
  assert (Forall (λ nrc, class_inv nrc.1 nrc.2) (hm_iter (ca_resources ca))) as Hall.
  { apply Forall_forall. intros [n rc] Hin%elem_of_hm_iter. by apply Hinv. }
  induction Hds as [|[n rc] d l dss Hd Hds IH]; [constructor|]. apply Forall_cons in Hall as [? Hall].
  constructor; [by apply Hf|by apply IH].
Qed.

Lemma fold_each_ext {E A S} (f g : S → A → result E S) s l :
  (∀ s x, f s x = g s x) → fold_each f s l = fold_each g s l.
Proof. intros Hfg. revert s. induction l as [|x l IH]; intros s; [done|]. simpl. rewrite Hfg. by destruct (g s x). Qed.

Lemma keyroll_initiate_goes duration evs : keyroll_initiate now signer ca duration = Ok evs → goes now ca (ev_details <$> evs).
Proof.
  unfold keyroll_initiate. case_match; [intros [= <-]; by apply goes_nil|]. intros H'. inv_ok.
  match goal with H : fold_each _ _ _ = Ok _ |- _ =>
    rewrite (fold_each_ext _ (λ st nrc, d ← (repo ← repository_contact ca; class_keyroll_initiate now signer nrc.2 (rc_repo_info repo) duration);
      Ok (foldl (push_event ca) st d))) in H end.
  - edestruct (push_loop_goes (λ rc, repo ← repository_contact ca; class_keyroll_initiate now signer rc (rc_repo_info repo) duration))
      as (ca'&?&_&?); [|done|by exists ca'].
    intros n rc d Hrc Hd. inv_ok. by eapply class_keyroll_initiate_goes.
  - intros st [n rc]. simpl. by destruct (repository_contact ca).
Qed.

Lemma keyroll_activate_goes staging evs :
  keyroll_activate config now signer ca staging = Ok evs → goes now ca (ev_details <$> evs).
Proof.
  unfold keyroll_activate. case_match; [intros [= <-]; by apply goes_nil|]. intros H'. inv_ok.
  match goal with H : fold_each _ _ _ = Ok _ |- _ =>
    rewrite (fold_each_ext _ (λ st nrc, d ← class_keyroll_activate config now signer nrc.2 staging;
      Ok (foldl (push_event ca) st d))) in H end; [|by intros ? []].
  edestruct (push_loop_goes (λ rc, class_keyroll_activate config now signer rc staging)) as (ca'&?&_&?); [|done|by exists ca'].
  intros n rc d Hrc Hd. by eapply class_keyroll_activate_goes.
Qed.

Lemma keyroll_finish_goes rcn evs : keyroll_finish ca rcn = Ok evs → goes now ca (ev_details <$> evs).
Proof.
  unfold keyroll_finish. case_match; [intros [= <-]; by apply goes_nil|]. intros H'. inv_ok. known. simpl.
  match goal with H : class_keyroll_finish _ = Ok _ |- _ => eapply class_keyroll_finish_goes in H; [|by apply Hinv] end.
  edestruct one_class_goes as (ca'&?&_&?); [exact Hinv|done|done|by exists ca'].
Qed.

(** ** Publishing *)

Lemma class_set_old_repo_inv n rc repo : class_inv n rc → class_inv n (class_set_old_repo rc repo).
Proof.
  destruct rc as [????????? st]. intros (?&Hk&?&Hw).
  unfold class_inv, key_ok, class_within, current_resources, current_certificate, current_key in *. simpl in *.
  split; [done|]. by destruct st.
Qed.

Lemma repo_updated_goes ca0 contact : ca_inv ca0 → goes now ca0 [RepoUpdated contact].
Proof.
  clear Hinv. intros Hi. eapply goes_cons; [done|]. apply goes_nil. simpl. destruct (ca_repository ca0); [|done].
  intros n rc. unfold ca_inv in Hi. simpl. rewrite lookup_fmap. destruct (ca_resources ca0 !! n) as [rc0|] eqn:Hn; [|done].
  simpl. intros [= <-]. apply class_set_old_repo_inv. by apply Hi.
Qed.

Lemma update_repo_goes contact evs : update_repo now signer ca contact = Ok evs → goes now ca (ev_details <$> evs).
Proof.
  unfold update_repo. intros H'. inv_ok. rewrite events_from_details_details.
  destruct (ca_repository ca) as [existing|]; [|inv_ok; by apply repo_updated_goes].
  case_match; [done|]. unfold hm_values in *.
  match goal with H : fold_each _ _ _ = Ok _ |- _ =>
    apply (fold_each_concat _ (λ rc d, class_keyroll_initiate now signer rc (rc_repo_info contact) 0 = Ok d)) in H as (dss&->&Hds) end.
  - apply Forall2_fmap_l in Hds. destruct (all_classes_go now ca dss) as (ca'&?&_&?); [done| |eapply goes_app; [done|]; by apply repo_updated_goes].
    assert (Forall (λ nrc, class_inv nrc.1 nrc.2) (hm_iter (ca_resources ca))) as Hall.
    { apply Forall_forall. intros [n rc] Hin%elem_of_hm_iter. by apply Hinv. }
    induction Hds as [|[n rc] d l dss Hd Hds IH]; [constructor|]. apply Forall_cons in Hall as [? Hall].
    constructor; [by eapply class_keyroll_initiate_goes|by apply IH].
  - intros res rc res' _ Hres. case_match; [done|]. inv_ok. eauto.
Qed.

(** ** Products *)

Lemma roas_updated_event_ok n u :
  Forall (λ e, product_event e = true) (roas_updated_event n u) ∧ events_of n (roas_updated_event n u).
Proof. unfold roas_updated_event. case_match; split; by repeat constructor. Qed.
Lemma aspas_updated_event_ok n u :
  Forall (λ e, product_event e = true) (aspas_updated_event n u) ∧ events_of n (aspas_updated_event n u).
Proof. unfold aspas_updated_event. case_match; split; by repeat constructor. Qed.
Lemma bgpsec_updated_event_ok n u :
  Forall (λ e, product_event e = true) (bgpsec_updated_event n u) ∧ events_of n (bgpsec_updated_event n u).
Proof. unfold bgpsec_updated_event. case_match; split; by repeat constructor. Qed.

(** Events on configurations that always apply. *)
Definition config_event (e : CaEvent) : bool :=
  match e with
  | RouteEvent _ | AspaConfigAdded _ | AspaConfigRemoved _ | BgpSecDefinitionAdded _ _ | BgpSecDefinitionUpdated _ _
  | BgpSecDefinitionRemoved _ => true
  | _ => false
  end.

Lemma config_events_go ds ca0 :
  Forall (λ e, config_event e = true) ds → ∃ ca', apply_list now ca0 ds = Some ca' ∧ ca_resources ca' = ca_resources ca0.
Proof.
  clear Hinv. revert ca0. induction ds as [|e ds IH]; intros ca0 Hds; [by exists ca0|]. apply Forall_cons in Hds as [He Hds].
  assert (∃ ca1, apply_details now (with_version (u64_succ (ca_version ca0)) ca0) e = Some ca1
    ∧ ca_resources ca1 = ca_resources ca0) as (ca1&He1&Hr1) by (destruct e; try done; by eexists).
  destruct (IH ca1 Hds) as (ca'&?&Hr). exists ca'. simpl. rewrite He1. simpl. split; [done|]. congruence.
Qed.

(** A state with the same classes: the events of all classes apply to it too. *)
Lemma product_events_same {U} ca0 (updates : ResourceClass → KrillResult U) event ds :
  ca_resources ca0 = ca_resources ca → class_events ca updates event = Ok ds →
  (∀ n u, Forall (λ e, product_event e = true) (event n u) ∧ events_of n (event n u)) → goes now ca0 ds.
Proof.
  intros Hr Hds Hev. destruct (product_events_go now ca0 updates event ds) as (ca'&?&_&?); [| |  |by exists ca'].
  - unfold ca_inv. by rewrite Hr.
  - done.
  - unfold class_events in *. by rewrite Hr.
Qed.

Lemma route_authorizations_update_goes updates evs :
  ca_route_authorizations_update config now signer ca updates = Ok evs → goes now ca (ev_details <$> evs).
Proof.
  unfold ca_route_authorizations_update. intros H'. apply bind_Ok in H' as ([routes dets]&_&H'). inv_ok.
  rewrite events_from_details_details.
  destruct (config_events_go (RouteEvent <$> dets) ca) as (ca1&?&Hr); [by apply Forall_fmap, Forall_true|].
  eapply goes_app; [done|].
  eapply product_events_same; [exact Hr|done|apply roas_updated_event_ok].
Qed.

Lemma route_authorizations_renew_goes force evs :
  route_authorizations_renew config now signer ca force = Ok evs → goes now ca (ev_details <$> evs).
Proof.
  unfold route_authorizations_renew. intros H'. inv_ok. rewrite events_from_details_details.
  eapply product_events_same; [done|done|apply roas_updated_event_ok].
Qed.
Lemma aspas_renew_goes evs : aspas_renew config now signer ca = Ok evs → goes now ca (ev_details <$> evs).
Proof.
  unfold aspas_renew. intros H'. inv_ok. rewrite events_from_details_details.
  eapply product_events_same; [done|done|apply aspas_updated_event_ok].
Qed.
Lemma bgpsec_renew_goes evs : bgpsec_renew config now signer ca = Ok evs → goes now ca (ev_details <$> evs).
Proof.
  unfold bgpsec_renew. intros H'. inv_ok. rewrite events_from_details_details.
  eapply product_events_same; [done|done|apply bgpsec_updated_event_ok].
Qed.

Lemma bgpsec_config_events updates st st' :
  fold_each remove_bgpsec_def (ca_bgpsec_defs ca, []) (bdu_remove updates) = Ok st →
  fold_each (add_bgpsec_def now ca) st (bdu_add updates) = Ok st' → Forall (λ e, config_event e = true) st'.2.
Proof.
  clear Hinv. intros Hst Hst'. revert Hst'. apply (fold_each_preserves (λ st, Forall (λ e, config_event e = true) st.2)).
  - intros st1 d st2 _ Hst1 Hd. unfold add_bgpsec_def in Hd. repeat (case_match; try done); inv_ok; simpl; try done;
      apply Forall_app; (split; [done|by repeat constructor]).
  - revert Hst. apply (fold_each_preserves (λ st, Forall (λ e, config_event e = true) st.2)); [|constructor].
    intros st1 k st2 _ Hst1 Hd. unfold remove_bgpsec_def in Hd. simpl in Hd. case_match; [done|]. inv_ok. simpl.
    apply Forall_app. split; [done|by repeat constructor].
Qed.

Lemma bgpsec_definitions_update_goes updates evs :
  bgpsec_definitions_update config now signer ca updates = Ok evs → goes now ca (ev_details <$> evs).
Proof.
  unfold bgpsec_definitions_update. intros H'. inv_ok. rewrite events_from_details_details.
  destruct (config_events_go x0.2 ca) as (ca1&?&Hr); [by eapply bgpsec_config_events|]. eapply goes_app; [done|].
  eapply product_events_same; [exact Hr|done|apply bgpsec_updated_event_ok].
Qed.

(** ** ASPA definitions *)

(** No customer is removed and added in one update. *)
Definition aspa_disjoint (updates : AspaDefinitionUpdates) : Prop :=
  Forall (λ d, aspa_customer d ∉ adu_remove updates) (adu_add_or_replace updates).
#[export] Instance aspa_disjoint_dec updates : Decision (aspa_disjoint updates).
Proof. unfold aspa_disjoint. apply _. Defined.

(** The events so far apply, and definitions that are not removed stay. *)
Definition aspa_events_ok (removed : list AsNumber) (st : AspaDefinitions * list CaEvent) : Prop :=
  ∃ ca', apply_list now ca st.2 = Some ca' ∧ ca_resources ca' = ca_resources ca
    ∧ ∀ c, c ∉ removed → is_Some (ca_aspas ca !! c) → is_Some (ca_aspas ca' !! c).

Lemma aspa_events_snoc removed defs defs' ds e ca1 :
  aspa_events_ok removed (defs, ds) →
  (∀ ca', ca_resources ca' = ca_resources ca →
     (∀ c, c ∉ removed → is_Some (ca_aspas ca !! c) → is_Some (ca_aspas ca' !! c)) →
     ∃ ca'', apply_details now ca' e = Some ca'' ∧ ca_resources ca'' = ca_resources ca
       ∧ ∀ c, c ∉ removed → is_Some (ca_aspas ca !! c) → is_Some (ca_aspas ca'' !! c)) →
  ca1 = defs' → aspa_events_ok removed (ca1, ds ++ [e]).
Proof.
  intros (ca'&Hca'&Hr&Hk) He ->. destruct (He (with_version (u64_succ (ca_version ca')) ca') Hr Hk) as (ca''&He'&?&?).
  exists ca''. simpl in *. rewrite apply_list_app, Hca'. simpl. by rewrite He'.
Qed.

Lemma aspa_kept (defs : AspaDefinitions) c d c' : is_Some (defs !! c') → is_Some (<[c := d]> defs !! c').
Proof. intros H. apply (lookup_insert_is_Some' (M := gmap AsNumber)). by right. Qed.
Lemma aspa_not_removed (defs : AspaDefinitions) c c' : c ≠ c' → is_Some (defs !! c') → is_Some (aspa_remove defs c !! c').
Proof. intros Hne [d Hd]. exists d. by apply (lookup_delete_Some (M := gmap AsNumber)). Qed.
Lemma aspa_removed (defs : AspaDefinitions) c : aspa_remove defs c !! c = None.
Proof. apply (lookup_delete_eq (M := gmap AsNumber)). Qed.

Lemma aspas_definitions_update_goes updates evs :
  aspa_disjoint updates → aspas_definitions_update config now signer ca updates = Ok evs → goes now ca (ev_details <$> evs).
Proof.
  intros Hdis. unfold aspas_definitions_update. intros H'. inv_ok. rewrite events_from_details_details.
  assert (aspa_events_ok (adu_remove updates) x0) as (ca1&?&Hr&_);
    [|eapply goes_app; [done|]; eapply product_events_same; [exact Hr|done|apply aspas_updated_event_ok]].
  eapply fold_each_preserves; [| |eassumption].
  - intros [defs ds] d [defs' ds'] Hin Hst Hd. unfold add_aspa_def in Hd. case_match; [done|]. simpl in Hd.
    assert (aspa_customer d ∉ adu_remove updates) as Hnot by (by eapply Forall_forall in Hdis).
    destruct (ca_aspas ca !! aspa_customer d) as [existing|] eqn:Hex.
    + case_match; inv_ok; [done|]. eapply aspa_events_snoc; [done| |done]. intros ca' Hr Hk. simpl. unfold aspa_apply_update.
      destruct (Hk (aspa_customer d)) as [cur ->]; [done|by rewrite Hex|]. simpl. eexists. split; [done|]. split; [done|].
      intros c Hc Hs. simpl. by apply aspa_kept, Hk.
    + inv_ok. eapply aspa_events_snoc; [done| |done]. intros ca' Hr Hk. eexists. split; [done|]. split; [done|].
      intros c Hc Hs. simpl. by apply aspa_kept, Hk.
  - eapply fold_each_preserves; [| |eassumption]; [|by exists ca].
    intros [defs ds] customer [defs' ds'] Hin Hst Hd. unfold remove_aspa_def in Hd. case_match; [done|]. inv_ok.
    eapply aspa_events_snoc; [done| |done]. intros ca' Hr Hk. eexists. split; [done|]. split; [done|].
    intros c Hc Hs. simpl. apply aspa_not_removed; [by intros ->|]. by apply Hk.
Qed.

Lemma aspas_update_goes customer update evs :
  aspas_update config now signer ca customer update = Some (Ok evs) → goes now ca (ev_details <$> evs).
Proof.
  unfold aspas_update. destruct (ca_verify_update ca customer update); [|done].
  destruct (aspa_apply_update _ _ _) as [all|] eqn:Hap; [|done]. simpl. intros [= H']. inv_ok.
  rewrite events_from_details_details. unfold create_updated_aspa_objects in *.
  eapply (product_events_go now) in H as (ca1&?&Hrest&Hinv1); [|done|apply aspas_updated_event_ok].
  eapply goes_app; [done|]. unfold goes. simpl. destruct Hrest as (_&_&_&_&_&->&_).
  rewrite Hap. simpl. eexists. split; [done|]. done.
Qed.

Lemma aspas_update_total customer update : aspas_update config now signer ca customer update ≠ None.
Proof.
  unfold aspas_update, ca_verify_update. repeat (case_match; try done). unfold aspa_apply_update.
  destruct (ca_aspas ca !! customer) eqn:Hc; simpl in *; [done|].
  repeat case_match; done.
Qed.

(** ** Entitlements *)

Lemma entitlement_events_tame rc ent repo ds :
  class_entitlement_events now signer rc ent repo = Ok ds →
  Forall (λ e, tame_event e = true ∧ event_class e = Some (rc_name rc)) ds.
Proof.
  unfold class_entitlement_events, key_entitlement_events. intros H'. inv_ok.
  match goal with H : fold_each _ [] _ = Ok ?x |- _ =>
    assert (Forall (λ e, tame_event e = true ∧ event_class e = Some (rc_name rc)) x) as Hx;
    [eapply fold_each_preserves; [| |exact H]; [|constructor]|] end.
  { intros s [r k] s' _ Hs Hr. unfold request_event in Hr. inv_ok. apply Forall_app. split; [done|by repeat constructor]. }
  apply foldl_preserves; [done|]. intros s c Hs. case_match; [done|]. apply Forall_app. split; [done|by repeat constructor].
Qed.

(** The classes that must still be there while entitlements are processed. *)
Definition entitlements_ok (keep : string → Prop) (ds : list CaEvent) : Prop :=
  ∃ ca', apply_list now ca ds = Some ca' ∧ ca_inv ca' ∧ ∀ n, keep n → is_Some (ca_resources ca' !! n).

Lemma entitlements_tame keep ds ds' n :
  entitlements_ok keep ds → (∀ ca', apply_list now ca ds = Some ca' → is_Some (ca_resources ca' !! n)) →
  Forall (λ e, tame_event e = true ∧ event_class e = Some n) ds' → entitlements_ok keep (ds ++ ds').
Proof.
  intros (ca'&Hca'&Hi&Hk) Hn Hds'. destruct (tame_go now ca' ds' Hi) as (ca''&?&_&?&Hdom).
  { eapply Forall_impl; [exact Hds'|]. intros e [??]. split; [done|]. exists n. auto. }
  exists ca''. split; [by rewrite apply_list_app, Hca'|]. split; [done|]. intros m Hm%Hk.
  apply elem_of_dom. rewrite Hdom. by apply elem_of_dom.
Qed.

Lemma update_entitlement_ok keep parent st ent st' :
  (∀ rc, find_parent_rc ca parent (ent_class_name ent) = Some rc → keep (rc_name rc)) →
  entitlements_ok keep st.2 → update_entitlement now signer ca parent st ent = Ok st' → entitlements_ok keep st'.2.
Proof.
  intros Hfind Hst H'. destruct st as [next ds]. unfold update_entitlement, make_request_events in H'. simpl in *.
  destruct (find_parent_rc ca parent (ent_class_name ent)) as [rc|] eqn:Hrc; inv_ok; simpl.
  - eapply entitlements_tame; [done| |by eapply entitlement_events_tame]. intros ca' Hca'.
    destruct Hst as (?&?&_&Hk). simplify_eq. apply Hk. by apply Hfind.
  - change (?e :: ?l) with ([e] ++ l). rewrite app_assoc.
    destruct Hst as (ca'&Hca'&Hi&Hk).
    match goal with H : class_entitlement_events _ _ (class_create ?n _ _ _ ?key _) _ _ = Ok _ |- _ =>
      eapply (entitlements_tame keep _ _ n); [| |by eapply (entitlement_events_tame (class_create n n parent (ent_class_name ent) key now))] end.
    + eexists. rewrite apply_list_app, Hca'. simpl. split; [done|].
      split; [apply insert_class_inv; [done|apply fresh_class_inv]|]. intros m Hm%Hk. simpl.
      by apply lookup_insert_is_Some'; right.
    + intros ca''. rewrite apply_list_app, Hca'. simpl. intros [= <-]. simpl. by rewrite lookup_insert_eq.
Qed.

Lemma find_parent_rc_Some parent prcn rc :
  find_parent_rc ca parent prcn = Some rc →
  rc_parent_handle rc = parent ∧ rc_parent_rc_name rc = prcn ∧ ca_resources ca !! rc_name rc = Some rc.
Proof.
  unfold find_parent_rc. intros Hh%head_Some_elem_of. apply list_elem_of_filter in Hh as [[??] (n&Hn)%elem_of_hm_values].
  destruct (Hinv _ _ Hn) as (<-&_). done.
Qed.

Lemma update_entitlements_goes parent entitlements evs :
  update_entitlements now signer ca parent entitlements = Ok evs → goes now ca (ev_details <$> evs).
Proof.
  unfold update_entitlements. intros H'. inv_ok. rewrite events_from_details_details.
  set (entitled := ent_class_name <$> entitlements) in *.
  set (keep n := ∃ rc, ca_resources ca !! n = Some rc ∧ rc_parent_rc_name rc ∈ entitled).
  assert (entitlements_ok keep x0.2) as (ca'&?&?&_); [|by exists ca'].
  match goal with H : fold_each (update_entitlement _ _ _ _) _ _ = Ok _ |- _ =>
    revert H; apply (fold_each_preserves (λ st : N * list CaEvent, entitlements_ok keep st.2)) end.
  - intros st ent st' Hin Hst. apply update_entitlement_ok; [|done]. intros rc (?&Hp&Hrc)%find_parent_rc_Some.
    exists rc. split; [done|]. rewrite Hp. apply list_elem_of_fmap. eauto.
  - simpl.
    match goal with H : fold_each (remove_lost_class _ _) [] _ = Ok ?r |- _ =>
      apply (fold_each_concat _ (λ nrc d, ∃ req, d = [ResourceClassRemoved nrc.1 parent req])) in H as (dss&->&Hds) end;
      [|intros s [n rc] s' _ Hs; unfold remove_lost_class in Hs; inv_ok; eauto].
    simpl. destruct (removals_go (concat dss) ca Hinv) as (ca'&Hca'&Hi&_&Hk).
    { apply Forall_concat. clear -Hds. induction Hds as [|[n rc] d l dss (req&->)]; constructor; [|done].
      repeat constructor. eauto. }
    exists ca'. split; [done|]. split; [done|]. intros n (rc&Hn&Hent). apply Hk; [by rewrite Hn|].
    apply Forall_concat. clear Hca' Hk.
    assert (∀ n rc, (n, rc) ∈ filter (λ nrc, rc_parent_handle nrc.2 = parent ∧ rc_parent_rc_name nrc.2 ∉ entitled)
      (hm_iter (ca_resources ca)) → ca_resources ca !! n = Some rc ∧ rc_parent_rc_name rc ∉ entitled) as Hl.
    { intros m rcm. rewrite list_elem_of_filter, elem_of_hm_iter. simpl. tauto. }
    induction Hds as [|[m rcm] d l dss (req&->) Hds IH]; constructor.
    + repeat constructor. simpl. intros p r [= -> _ _]. destruct (Hl n rcm) as [Hm Hnot]; [by left|]. simplify_eq. done.
    + apply IH. intros ???. apply Hl. by right.
Qed.

(** ** All commands *)

(** The commands whose events cannot fail to apply: a key is revoked in a class that the CA has,
    and no ASPA customer is removed and added at once. *)
Definition command_safe (cmd : CmdDet) : Prop :=
  match cmd with
  | ChildRevokeKey _ request => is_Some (ca_resources ca !! rr_class_name request)
  | AspasUpdate updates => aspa_disjoint updates
  | _ => True
  end.

Lemma command_goes cmd evs :
  command_safe cmd → ca_process_command config now signer ca cmd = Some (Ok evs) → goes now ca (ev_details <$> evs).
Proof.
  destruct cmd; simpl; intros Hsafe H'; try injection H' as H'.
  - by eapply trust_anchor_make_goes.
  - by eapply child_add_goes.
  - by eapply child_update_resources_goes.
  - by eapply child_update_id_cert_goes.
  - by eapply child_certify_goes.
  - by eapply child_revoke_key_goes.
  - by eapply child_remove_goes.
  - by eapply child_suspend_goes.
  - by eapply child_unsuspend_goes.
  - by eapply generate_new_id_key_goes.
  - by eapply add_parent_goes.
  - by eapply update_parent_goes.
  - by eapply remove_parent_goes.
  - by eapply update_entitlements_goes.
  - by eapply update_received_cert_goes.
  - by eapply drop_resource_class_goes.
  - by eapply keyroll_initiate_goes.
  - by eapply keyroll_activate_goes.
  - by eapply keyroll_finish_goes.
  - by eapply route_authorizations_update_goes.
  - by eapply route_authorizations_renew_goes.
  - by eapply route_authorizations_renew_goes.
  - by eapply aspas_definitions_update_goes.
  - by eapply aspas_update_goes.
  - by eapply aspas_renew_goes.
  - by eapply bgpsec_definitions_update_goes.
  - by eapply bgpsec_renew_goes.
  - by eapply update_repo_goes.
Qed.

Lemma command_total cmd : ca_process_command config now signer ca cmd ≠ None.
Proof. destruct cmd; try done. apply aspas_update_total. Qed.

Lemma safe_step cmd : command_safe cmd → ∃ ca', ca_step config now signer ca cmd = Some ca' ∧ ca_inv ca'.
Proof.
  intros Hsafe. unfold ca_step. destruct (ca_process_command config now signer ca cmd) as [[evs|]|] eqn:Hp.
  - apply command_goes in Hp as (ca'&?&?); [|done]. exists ca'. by rewrite apply_all_list.
  - by exists ca.
  - by apply command_total in Hp.
Qed.

(** Where events on ASPA definitions apply, they leave the classes alone. *)
Definition aspa_config_event (e : CaEvent) : bool :=
  match e with AspaConfigAdded _ | AspaConfigUpdated _ _ | AspaConfigRemoved _ => true | _ => false end.

Lemma aspa_config_resources ds ca0 ca1 :
  Forall (λ e, aspa_config_event e = true) ds → apply_list now ca0 ds = Some ca1 → ca_resources ca1 = ca_resources ca0.
Proof.
  clear Hinv. revert ca0. induction ds as [|e ds IH]; intros ca0; [by intros _ [= ->]|]. intros [He Hds]%Forall_cons Hap.
  simpl in Hap. destruct (apply_details _ _ e) as [ca2|] eqn:He2; [|done]. simpl in Hap. rewrite (IH _ Hds Hap).
  destruct e; try done; simpl in He2; [by injection He2 as <-| |by injection He2 as <-].
  destruct (aspa_apply_update _ _ _); [|done]. simpl in He2. by injection He2 as <-.
Qed.

Lemma aspa_config_events updates st st' :
  fold_each remove_aspa_def (ca_aspas ca, []) (adu_remove updates) = Ok st →
  fold_each (add_aspa_def ca) st (adu_add_or_replace updates) = Ok st' → Forall (λ e, aspa_config_event e = true) st'.2.
Proof.
  clear Hinv. intros Hst Hst'. revert Hst'.
  apply (fold_each_preserves (λ st : AspaDefinitions * list CaEvent, Forall (λ e, aspa_config_event e = true) st.2)).
  - intros st1 d st2 _ Hst1 Hd. unfold add_aspa_def in Hd. repeat (case_match; try done); inv_ok; simpl; try done;
      apply Forall_app; (split; [done|by repeat constructor]).
  - revert Hst. apply (fold_each_preserves (λ st : AspaDefinitions * list CaEvent, Forall (λ e, aspa_config_event e = true) st.2)); [|constructor].
    intros st1 d st2 _ Hst1 Hd. unfold remove_aspa_def in Hd. case_match; [done|]. inv_ok. simpl.
    apply Forall_app. split; [done|by repeat constructor].
Qed.

Lemma aspa_update_inv updates evs ca' :
  aspas_definitions_update config now signer ca updates = Ok evs → ca_apply_all now ca evs = Some ca' → ca_inv ca'.
Proof.
  unfold aspas_definitions_update. intros H'. inv_ok. rewrite apply_all_list, events_from_details_details, apply_list_app.
  destruct (apply_list now ca x0.2) as [ca1|] eqn:Hca1; [|done]. simpl. intros Hca'.
  apply aspa_config_resources in Hca1 as Hr; [|by eapply aspa_config_events].
  eapply (product_events_same ca1) in H1 as (ca2&?&?); [|done|apply aspas_updated_event_ok]. by simplify_eq.
Qed.

(** Revoking a key in a class that the CA does not have. *)
Lemma revoke_unknown_class child rcn ki ds :
  ca_resources ca !! rcn = None → apply_list now ca (ChildKeyRevoked child rcn ki :: ds) = None.
Proof. intros Hn. simpl. unfold on_class. simpl. by rewrite Hn. Qed.

Lemma step_inv cmd ca' : ca_step config now signer ca cmd = Some ca' → ca_inv ca'.
Proof.
  unfold ca_step. destruct (ca_process_command config now signer ca cmd) as [[evs|]|] eqn:Hp; [|by intros [= <-]|done].
  intros Hap. assert (command_safe cmd ∨ ¬ command_safe cmd) as [Hsafe|Hunsafe].
  { destruct cmd; simpl; try (by left); [|destruct (decide (aspa_disjoint updates)); tauto].
    destruct (ca_resources ca !! rr_class_name request); [left; by eexists|right; by intros [? [=]]]. }
  - apply command_goes in Hp as (ca2&Hca2&?); [|done]. rewrite apply_all_list in Hap. by simplify_eq.
  - destruct cmd; try (by destruct Hunsafe); simpl in *; injection Hp as Hp; [|by eapply aspa_update_inv].
    rewrite apply_all_list in Hap. unfold child_revoke_key in Hp. inv_ok. case_match; [done|]. inv_ok. rewrite fmap_cons in Hap. cbn [ev_details] in Hap.
    rewrite revoke_unknown_class in Hap; [done|]. by apply eq_None_not_Some.
Qed.
End commands.
