(* ===== verification/CaRoll.v ===== *)
(** * Lemmas on key rolls and on a parent and a child in step

    What the commands of a key roll do to a class; issuing, listing and asking again. *)

From stdpp Require Import base gmap strings list pretty.
From S2P Require Import Prelude Rpki Roas Routes EventSourcing CaCerts CaEvents CaKeys CaChildren CaProducts CaClass CertAuth CertAuthCmds CaFacts CaCertFacts CaInvariant CaSteps CaStepFacts.

Section roll.
Context `{PA : !PrefixApi, RP : !Rpki, CA : !CaApi, HO : !HashOrder}.

(** ** Accepted commands *)

(** The command is accepted and its events lead to a state. *)
Definition accepted_step (config : Config) (now : Instant) (signer : Signer) (ca : CertAuth) (cmd : CmdDet) (ca' : CertAuth)
    : Prop :=
  ∃ evs, ca_process_command config now signer ca cmd = Some (Ok evs) ∧ ca_apply_all now ca evs = Some ca'.

Lemma accepted_is_step config now signer ca cmd ca' :
  accepted_step config now signer ca cmd ca' → ca_step config now signer ca cmd = Some ca'.
Proof. intros (evs&Hp&Ha). unfold ca_step. by rewrite Hp. Qed.

(** ** One class among the events of all classes *)

Lemma own_effects l dss n rc :
  NoDup l.*1 → Forall2 (λ (nrc : string * ResourceClass) d, events_of nrc.1 d) l dss → (n, rc) ∈ l →
  ∃ d, ((n, rc), d) ∈ zip l dss ∧ ∀ rc0, class_effects (concat dss) n rc0 = class_effects d n rc0.
Proof.
  intros Hnd Hf. induction Hf as [|[m rcm] d l dss Hof Hf IH]; [by intros ?%elem_of_nil|].
  simpl in *. apply NoDup_cons in Hnd as [Hm Hnd]. intros [[= -> ->]|Hin]%elem_of_cons.
  - exists d. split; [by left|]. intros rc0. rewrite class_effects_app. destruct (class_effects d m rc0) as [rc1|]; [|done].
    simpl. apply class_effects_other. clear -Hm Hf.
    induction Hf as [|[m' rc'] d' l dss Hof Hf IH]; simpl; [constructor|]. simpl in *.
    apply not_elem_of_cons in Hm as [Hne Hm]. apply Forall_app. split; [|by apply IH].
    eapply Forall_impl; [exact Hof|]. simpl. intros e ->. congruence.
  - destruct (IH Hnd Hin) as (d'&Hd'&Heff). exists d'. split; [by right|]. intros rc0.
    rewrite class_effects_app, class_effects_other; [apply Heff|]. eapply Forall_impl; [exact Hof|]. simpl.
    intros e ->. intros [= ->]. apply Hm. apply list_elem_of_fmap. by exists (n, rc).
Qed.

(** What the events of all classes do to the class of a name. *)
Lemma apply_own now ca ca' l dss n rc :
  NoDup l.*1 → (∀ n rc, (n, rc) ∈ l → ca_resources ca !! n = Some rc) →
  Forall2 (λ (nrc : string * ResourceClass) d, class_goes nrc.1 nrc.2 d) l dss →
  ca_inv ca → apply_list now ca (concat dss) = Some ca' → (n, rc) ∈ l →
  ∃ d, ((n, rc), d) ∈ zip l dss ∧ ca_resources ca' !! n = class_effects d n rc ∧ same_rest ca ca'.
Proof.
  intros Hnd Hl Hf Hinv Hap Hin.
  destruct (own_effects l dss n rc) as (d&Hd&Heff); [done| |done|].
  { eapply Forall2_impl; [exact Hf|]. by intros [??] ? [??]. }
  exists d. split; [done|].
  assert (∀ n rc, ca_resources ca !! n = Some rc → ∃ rc', class_effects (concat dss) n rc = Some rc') as Hall.
  { intros m rcm Hm. destruct (decide (m ∈ l.*1)) as [([? rcl]&->&Hinm)%list_elem_of_fmap|Hout].
    - pose proof (Hl _ _ Hinm) as Hrcl. simplify_eq/=. edestruct concat_effects as (rc'&?&_); [done|done|done|eauto].
    - exists rcm. by eapply other_effects. }
  destruct (apply_class_events now ca (concat dss)) as (ca2&Hca2&Hrest&Hres).
  - apply Forall_concat. clear -Hl Hf. induction Hf as [|[m rcm] d l dss [Hof _] Hf IH]; [constructor|]. constructor.
    + eapply Forall_impl; [exact Hof|]. intros e He. exists m. split; [done|]. rewrite (Hl m rcm); [by eexists|by left].
    + apply IH. intros ???. apply Hl. by right.
  - intros m rcm Hm. destruct (Hall m rcm Hm) as [? ->]. done.
  - rewrite Hap in Hca2. injection Hca2 as <-. split; [|done]. rewrite Hres, (Hl _ _ Hin). simpl. apply Heff.
Qed.

Lemma one_own now ca ca' n rc d :
  ca_inv ca → ca_resources ca !! n = Some rc → class_goes n rc d → apply_list now ca d = Some ca' →
  ca_resources ca' !! n = class_effects d n rc ∧ same_rest ca ca'.
Proof.
  intros Hinv Hn Hd Hap. rewrite <-(app_nil_r d) in Hap. change (d ++ []) with (concat [d]) in Hap.
  destruct (apply_own now ca ca' [(n, rc)] [d] n rc) as (d'&Hin&?&?); [apply NoDup_singleton| | | | | |].
  - by intros ?? [= -> ->]%list_elem_of_singleton.
  - by apply Forall2_cons.
  - done.
  - done.
  - by left.
  - apply list_elem_of_singleton in Hin. by injection Hin as ->.
Qed.

Lemma loop_own now ca ca' (f : ResourceClass → KrillResult (list CaEvent)) st n rc :
  ca_inv ca → (∀ n rc d, class_inv n rc → f rc = Ok d → class_goes n rc d) →
  fold_each (λ st (nrc : string * ResourceClass), d ← f nrc.2; Ok (foldl (push_event ca) st d)) (ca_version ca, [])
    (hm_iter (ca_resources ca)) = Ok st →
  ca_apply_all now ca st.2 = Some ca' → ca_resources ca !! n = Some rc →
  ∃ d, f rc = Ok d ∧ ca_resources ca' !! n = class_effects d n rc ∧ same_rest ca ca'.
Proof.
  intros Hinv Hf Hst Hap Hn. rewrite apply_all_list in Hap.
  apply (push_loop ca (λ nrc, f nrc.2)) in Hst as (dss&Heq&Hds). rewrite Heq in Hap. simpl in Hap.
  assert (Forall2 (λ nrc d, class_goes nrc.1 nrc.2 d) (hm_iter (ca_resources ca)) dss) as Hgo.
  { assert (Forall (λ nrc, class_inv nrc.1 nrc.2) (hm_iter (ca_resources ca))) as Hall.
    { apply Forall_forall. intros [m rcm] Hin%elem_of_hm_iter. by apply Hinv. }
    clear Hap Heq. induction Hds as [|[m rcm] d l dss Hd Hds IH]; [constructor|]. apply Forall_cons in Hall as [? Hall].
    constructor; [by apply Hf|by apply IH]. }
  destruct (apply_own now ca ca' (hm_iter (ca_resources ca)) dss n rc) as (d&Hin&Hr&Hrest); try done.
  - apply NoDup_hm_keys.
  - intros m rcm. by rewrite elem_of_hm_iter.
  - by apply elem_of_hm_iter.
  - exists d. split; [|done]. clear -Hds Hin. induction Hds as [|[m rcm] e l dss He Hds IH]; [by apply elem_of_nil in Hin|].
    simpl in Hin. apply elem_of_cons in Hin as [[= <- <- <-]|Hin]; [done|by apply IH].
Qed.

(** ** The steps of a key roll *)

Section steps.
Context (config : Config) (now : Instant) (signer : Signer) `{SO : !SignerOk signer} `{RL : !ResourceLaws}.
Variable (ca ca' : CertAuth) (n : string) (rc : ResourceClass).
Hypothesis (Hinv : ca_inv ca) (Hn : ca_resources ca !! n = Some rc) (Hta : is_ta ca = false).

(** A class keeps its name and its parent while its keys change. *)
Definition class_rest (rc rc' : ResourceClass) : Prop :=
  rc_name rc' = rc_name rc ∧ rc_parent_handle rc' = rc_parent_handle rc ∧ rc_parent_rc_name rc' = rc_parent_rc_name rc
  ∧ rc_name_space rc' = rc_name_space rc.

Lemma initiate_own k :
  rc_key_state rc = Active k → accepted_step config now signer ca (KeyRollInitiate 0) ca' →
  ∃ p req rc', create_key signer n = Ok p ∧ ca_resources ca' !! n = Some rc' ∧ class_rest rc rc' ∧ same_rest ca ca'
    ∧ rc_key_state rc' = RollPending (mkPendingKey p (Some req)) k ∧ ir_class_name req = rc_parent_rc_name rc.
Proof.
  intros Hk (evs&Hp&Hap). simpl in Hp. injection Hp as Hp. unfold keyroll_initiate in Hp. rewrite Hta in Hp. inv_ok.
  rewrite (fold_each_ext _ (λ st nrc, d ← (repo ← repository_contact ca; class_keyroll_initiate now signer nrc.2 (rc_repo_info repo) 0);
    Ok (foldl (push_event ca) st d))) in H by (intros ? []; simpl; by destruct (repository_contact ca)).
  destruct (loop_own now ca ca' (λ rc, repo ← repository_contact ca; class_keyroll_initiate now signer rc (rc_repo_info repo) 0)
    x n rc Hinv) as (d&Hd&Hr&Hrest); [|done..|].
  { intros m rcm d Hm Hd. inv_ok. by eapply class_keyroll_initiate_goes. }
  inv_ok. destruct (Hinv _ _ Hn) as (Hname&_).
  match goal with H : class_keyroll_initiate _ _ _ _ _ = Ok _ |- _ => rename H into Hci end.
  unfold class_keyroll_initiate, key_keyroll_initiate in Hci. rewrite Hk in Hci. simpl in Hci. inv_ok.
  unfold create_issuance_req in *. inv_ok.
  destruct (create_key signer (rc_name rc)) as [p|] eqn:Hck; simplify_eq/=. eexists _, _, _. split; [done|].
  rewrite decide_True in Hr by done. unfold pending_key_id_added in Hr. rewrite Hk in Hr. simpl in Hr.
  rewrite decide_True in Hr by done. simpl in Hr. split; [exact Hr|]. split; [done|]. split; [done|].
  simpl. rewrite decide_True by done. done.
Qed.

Lemma receive_pending_own p k cert :
  rc_key_state rc = RollPending p k → cert_key_identifier cert = pk_key_id p →
  ∃ evs, ca_process_command config now signer ca (UpdateRcvdCert n cert) = Some (Ok evs)
    ∧ (ca_apply_all now ca evs = Some ca' →
       same_rest ca ca' ∧ ∃ rc', ca_resources ca' !! n = Some rc' ∧ class_rest rc rc'
         ∧ rc_key_state rc' = RollNew (certified_key_create cert) k).
Proof.
  intros Hk Hc. destruct (Hinv _ _ Hn) as (Hname&_).
  assert (class_update_received_cert config now signer (ca_routes ca) (ca_aspas ca) (ca_bgpsec_defs ca) rc cert
    = Ok [KeyPendingToNew (rc_name rc) (certified_key_create cert)]) as Hd.
  { unfold class_update_received_cert. rewrite Hk. by rewrite bool_decide_eq_true_2. }
  eexists. split; [simpl; unfold update_received_cert; rewrite Hn; simpl; by rewrite Hd|].
  rewrite apply_all_list, events_from_details_details. intros Hap.
  apply (one_own now ca ca' n rc) in Hap as [Hr Hrest]; [|done..|by eapply (class_update_received_cert_goes config now signer); [apply Hinv|]].
  split; [done|]. simpl in Hr. rewrite decide_True in Hr by (by rewrite Hname). unfold pending_key_to_new in Hr. rewrite Hk in Hr.
  simpl in Hr. eexists. done.
Qed.

Lemma product_effects_rest ds rc0 rc' m :
  Forall (λ e, product_event e = true ∨ ∃ u, e = ChildCertificatesUpdated m u) ds → class_effects ds m rc0 = Some rc' →
  class_rest rc0 rc' ∧ rc_key_state rc' = rc_key_state rc0.
Proof.
  clear Hinv Hn Hta SO RL. revert rc0. induction ds as [|e ds IH]; intros rc0; [by intros _ [= ->]|].
  intros [He Hds]%Forall_cons Heff. simpl in Heff. case_decide; [|by apply IH].
  destruct (class_effect e rc0) as [rc1|] eqn:H1; [|done]. simpl in Heff. destruct (IH _ Hds Heff) as [(?&?&?&?) ?].
  assert (class_rest rc0 rc1 ∧ rc_key_state rc1 = rc_key_state rc0) as [(?&?&?&?) ?].
  { destruct He as [He|(u&->)]; [|by simplify_eq/=]. destruct e; simplify_eq/=; done. }
  unfold class_rest. repeat split; congruence.
Qed.

Lemma activate_own new k :
  rc_key_state rc = RollNew new k → accepted_step config now signer ca (KeyRollActivate 0) ca' →
  same_rest ca ca' ∧ ∃ rc', ca_resources ca' !! n = Some rc' ∧ class_rest rc rc'
    ∧ rc_key_state rc' = RollOld new (mkOldKey k (mkRevocationRequest (rc_parent_rc_name rc) (ck_key_id k))).
Proof.
  intros Hk (evs&Hp&Hap). simpl in Hp. injection Hp as Hp. unfold keyroll_activate in Hp. rewrite Hta in Hp. inv_ok.
  rewrite (fold_each_ext _ (λ st nrc, d ← class_keyroll_activate config now signer nrc.2 0; Ok (foldl (push_event ca) st d))) in H
    by (by intros ? []).
  destruct (loop_own now ca ca' (λ rc, class_keyroll_activate config now signer rc 0) x n rc Hinv) as (d&Hd&Hr&Hrest); [|done..|].
  { intros m rcm d Hm Hd. by eapply class_keyroll_activate_goes. }
  destruct (class_keyroll_activate_goes config now signer n rc 0 d (Hinv _ _ Hn) Hd) as (_&rc'&Heff&_).
  rewrite Heff in Hr. destruct (Hinv _ _ Hn) as (Hname&_). split; [done|]. exists rc'. split; [done|].
  unfold class_keyroll_activate, key_keyroll_activate in Hd. rewrite Hk in Hd. simpl in Hd. inv_ok.
  unfold revoke_key in *. inv_ok.
  match goal with H : map_err _ (get_key_info signer ?x) = Ok ?p |- _ =>
    destruct (get_key_info signer x) eqn:Hki; simplify_eq/=; apply key_info_key in Hki end.
  rewrite decide_True in Heff by done. unfold new_key_activated in Heff. rewrite Hk in Heff. simpl in Heff.
  apply product_effects_rest in Heff as [(?&?&?&?) ?]; [split; [by unfold class_rest|]; by rewrite <-Hki|].
  rewrite !Forall_app. repeat split.
  - eapply Forall_impl; [apply roas_event_product|]. by left.
  - eapply Forall_impl; [apply aspas_event_product|]. by left.
  - unfold certs_event. case_match; [constructor|]. apply Forall_singleton. right. eauto.
  - eapply Forall_impl; [apply bgpsec_event_product|]. by left.
Qed.

Lemma finish_own new old :
  rc_key_state rc = RollOld new old →
  ∃ evs, ca_process_command config now signer ca (KeyRollFinish n) = Some (Ok evs)
    ∧ (ca_apply_all now ca evs = Some ca' →
       same_rest ca ca' ∧ ∃ rc', ca_resources ca' !! n = Some rc' ∧ class_rest rc rc' ∧ rc_key_state rc' = Active new).
Proof.
  intros Hk. destruct (Hinv _ _ Hn) as (Hname&_).
  assert (class_keyroll_finish rc = Ok (KeyRollFinished (rc_name rc))) as Hd by (unfold class_keyroll_finish; by rewrite Hk).
  eexists. split; [simpl; unfold keyroll_finish; rewrite Hta, Hn; simpl; by rewrite Hd|].
  rewrite apply_all_list. simpl fmap. intros Hap.
  apply (one_own now ca ca' n rc) in Hap as [Hr Hrest]; [|done..|by apply class_keyroll_finish_goes; [apply Hinv|]].
  split; [done|]. simpl in Hr. rewrite decide_True in Hr by (by rewrite Hname). unfold old_key_removed in Hr. rewrite Hk in Hr.
  simpl in Hr. eexists. done.
Qed.
End steps.

(** ** Moving to another repository *)

Lemma update_repo_own config now signer ca contact existing ca' n rc k :
  SignerOk signer → ResourceLaws → ca_inv ca → ca_resources ca !! n = Some rc → rc_key_state rc = Active k →
  ca_repository ca = Some existing → accepted_step config now signer ca (RepoUpdate contact) ca' →
  ca_repository ca' = Some contact
  ∧ ∃ p rc', ca_resources ca' !! n = Some rc' ∧ rc_key_state rc' = RollPending p k.
Proof.
  intros HS HL Hinv Hn Hk Hrepo (evs&Hp&Hap). simpl in Hp. injection Hp as Hp. unfold update_repo in Hp. rewrite Hrepo in Hp. inv_ok.
  rewrite apply_all_list, events_from_details_details, apply_list_app in Hap. case_match; [done|]. unfold hm_values in *.
  match goal with H : fold_each _ _ _ = Ok _ |- _ =>
    apply (fold_each_concat _ (λ rc d, class_keyroll_initiate now signer rc (rc_repo_info contact) 0 = Ok d)) in H as (dss&->&Hds) end.
  2: { intros res rc0 res' _ Hres. case_match; [done|]. inv_ok. eauto. }
  apply Forall2_fmap_l in Hds. simpl in Hap. destruct (apply_list now ca (concat dss)) as [ca1|] eqn:Hca1; [|done]. simpl in Hap.
  destruct (apply_own now ca ca1 (hm_iter (ca_resources ca)) dss n rc) as (d&Hin&Hr&Hrest).
  - apply NoDup_hm_keys.
  - intros m rcm. by rewrite elem_of_hm_iter.
  - assert (Forall (λ nrc, class_inv nrc.1 nrc.2) (hm_iter (ca_resources ca))) as Hall.
    { apply Forall_forall. intros [m rcm] Hin%elem_of_hm_iter. by apply Hinv. }
    clear Hca1 Hap. induction Hds as [|[m rcm] d l dss Hd Hds IH]; [constructor|]. apply Forall_cons in Hall as [? Hall].
    constructor; [by eapply class_keyroll_initiate_goes|by apply IH].
  - done.
  - done.
  - by apply elem_of_hm_iter.
  - assert (class_keyroll_initiate now signer rc (rc_repo_info contact) 0 = Ok d) as Hd.
    { clear -Hds Hin. induction Hds as [|[m rcm] e l dss He Hds IH]; [by apply elem_of_nil in Hin|].
      simpl in Hin. apply elem_of_cons in Hin as [[= <- <- <-]|Hin]; [done|by apply IH]. }
    destruct (Hinv _ _ Hn) as (Hname&_).
    unfold class_keyroll_initiate, key_keyroll_initiate in Hd. rewrite Hk in Hd. simpl in Hd. inv_ok. simpl in Hr.
    rewrite decide_True in Hr by done. unfold pending_key_id_added in Hr. rewrite Hk in Hr. simpl in Hr.
    rewrite decide_True in Hr by done. simpl in Hr.
    destruct Hrest as (_&Hrepo1&_). rewrite Hrepo1, Hrepo in Hap. injection Hap as <-. simpl. split; [done|].
    rewrite lookup_fmap, Hr. simpl. eexists _, _. split; [done|]. simpl. by rewrite decide_True.
Qed.

(** The open revocation requests of a CA. *)
Lemma revoke_requests_lookup ca parent n rc :
  ca_resources ca !! n = Some rc → rc_parent_handle rc = parent →
  revoke_requests ca parent !! n = Some (option_list (class_revoke_request rc)).
Proof.
  intros Hn <-. unfold revoke_requests.
  assert (∀ l (m : gmap string (list RevocationRequest)), NoDup l.*1 → ((n, rc) ∈ l ∨ m !! n = Some (option_list (class_revoke_request rc)) ∧ n ∉ l.*1) →
    foldl (λ res '(name, rc0),
      <[name := match class_revoke_request rc0 with
                | Some req => if bool_decide (rc_parent_handle rc0 = rc_parent_handle rc) then [req] else []
                | None => [] end]> res) m l !! n = Some (option_list (class_revoke_request rc))) as Hl.
  { induction l as [|[m rcm] l IH]; intros res; simpl; [intros _ [[]%elem_of_nil|[? _]]; done|].
    intros [Hm Hnd]%NoDup_cons [[[= <- <-]|Hin]%elem_of_cons|[Hres [Hne Hnl]%not_elem_of_cons]]; apply IH; try done.
    - right. rewrite lookup_insert_eq. split; [|done]. rewrite bool_decide_eq_true_2 by done. by destruct (class_revoke_request rc).
    - by left.
    - right. by rewrite lookup_insert_ne by done. }
  apply (Hl (hm_iter (ca_resources ca)) ∅); [apply NoDup_hm_keys|left; by apply elem_of_hm_iter].
Qed.

(** The open certificate requests of a CA. *)
Lemma cert_requests_lookup ca parent n rc :
  ca_resources ca !! n = Some rc → rc_parent_handle rc = parent → cert_requests ca parent !! n = Some (class_cert_requests rc).
Proof.
  intros Hn <-. unfold cert_requests.
  assert (∀ l (m : gmap string (list IssuanceRequest)), NoDup l.*1 →
    ((n, rc) ∈ l ∨ m !! n = Some (class_cert_requests rc) ∧ n ∉ l.*1) →
    foldl (λ res '(name, rc0),
      if bool_decide (rc_parent_handle rc0 = rc_parent_handle rc) then <[name := class_cert_requests rc0]> res else res) m l !! n
    = Some (class_cert_requests rc)) as Hl.
  { induction l as [|[m rcm] l IH]; intros res; simpl; [intros _ [[]%elem_of_nil|[? _]]; done|].
    intros [Hm Hnd]%NoDup_cons [[[= <- <-]|Hin]%elem_of_cons|[Hres [Hne Hnl]%not_elem_of_cons]]; apply IH; try done.
    - right. rewrite bool_decide_eq_true_2 by done. by rewrite lookup_insert_eq.
    - by left.
    - right. case_match; [|done]. by rewrite lookup_insert_ne by done. }
  apply (Hl (hm_iter (ca_resources ca)) ∅); [apply NoDup_hm_keys|left; by apply elem_of_hm_iter].
Qed.

Lemma is_ta_same ca ca' : same_rest ca ca' → is_ta ca' = is_ta ca.
Proof. intros (_&_&Hp&_). unfold is_ta. by rewrite Hp. Qed.
End roll.

(** ** A parent and a child in step *)

Section sync.
Context `{PA : !PrefixApi, RP : !Rpki, CA : !CaApi, HO : !HashOrder}.

(** A request without a limit is for all resources, a set does not differ from itself, and a
    certificate is read back from its encoding. *)
Class SyncLaws : Prop := {
  no_limit : ∀ r, limit_apply_to limit_default r = Some r;
  difference_refl : ∀ r, rs_difference_is_empty r r = true;
  cert_read_back : ∀ cert, cert_decode (cert_base64 cert) = Some cert;
}.
Context `{SL : !SyncLaws}.

(** ** The keys of a child *)

Lemma elem_of_child_issued d rcn ki : ki ∈ child_issued d rcn ↔ cd_used_keys d !! ki = Some (InUse rcn).
Proof.
  unfold child_issued. rewrite list_elem_of_omap. split.
  - intros ([k u]&Hin%elem_of_hm_iter&Hu). destruct u as [found|]; [|done]. case_decide; by simplify_eq.
  - intros Hk. exists (ki, InUse rcn). split; [by apply elem_of_hm_iter|]. by rewrite decide_True.
Qed.
Lemma NoDup_child_issued d rcn : NoDup (child_issued d rcn).
Proof.
  unfold child_issued. pose proof (NoDup_hm_keys (cd_used_keys d)) as Hnd. unfold hm_keys in Hnd.
  induction (hm_iter (cd_used_keys d)) as [|[k u] l IH]; [constructor|]. simpl in *. apply NoDup_cons in Hnd as [Hk Hnd].
  destruct u as [found|]; [|by apply IH]. case_decide; [|by apply IH]. constructor; [|by apply IH].
  intros ([k' u']&Hin&Hu)%list_elem_of_omap. destruct u'; [|done]. case_decide; [|done]. simplify_eq.
  apply Hk. apply list_elem_of_fmap. by exists (k, InUse rcn).
Qed.
Lemma child_issued_add d rcn ki : child_issued d rcn = [] → child_issued (add_issue_response rcn ki d) rcn = [ki].
Proof.
  intros Hnil. assert (∀ k, k ∈ child_issued (add_issue_response rcn ki d) rcn ↔ k = ki) as Hmem.
  { intros k. rewrite elem_of_child_issued. simpl. destruct (decide (k = ki)) as [->|Hne].
    - rewrite lookup_insert_eq. done.
    - rewrite lookup_insert_ne by done. rewrite <-elem_of_child_issued, Hnil, elem_of_nil. done. }
  pose proof (NoDup_child_issued (add_issue_response rcn ki d) rcn) as Hnd.
  destruct (child_issued (add_issue_response rcn ki d) rcn) as [|a [|b l]].
  - exfalso. apply (elem_of_nil ki). apply Hmem. done.
  - f_equal. apply Hmem. by left.
  - exfalso. assert (a = ki) as -> by (apply Hmem; by left). assert (b = ki) as -> by (apply Hmem; right; by left).
    apply NoDup_cons in Hnd as [Hx _]. apply Hx. by left.
Qed.

(** ** Issuing *)

(** What an accepted request of a child leads to. *)
Lemma certify_own config now signer P h req P1 :
  SignerOk signer → accepted_step config now signer P (ChildCertify h req) P1 →
  ∃ rc d my c, ca_resources P !! ir_class_name req = Some rc ∧ ca_children P !! h = Some d ∧ current_key rc = Some my
    ∧ limit_apply_to (ir_limit req) (rs_intersection (cert_resources (ck_incoming_cert my)) (cd_resources d)) = Some (cert_resources c)
    ∧ cert_key_identifier c = key_identifier (csr_public_key (ir_csr req))
    ∧ (∃ cert, cert_info_base64 c = cert_base64 cert ∧ key_identifier (cert_public_key cert) = cert_key_identifier c)
    ∧ ca_resources P1 = <[ir_class_name req := with_certificates (certificate_issued (rc_certificates rc) c) rc]> (ca_resources P)
    ∧ ca_children P1 = <[h := add_issue_response (ir_class_name req) (cert_key_identifier c) d]> (ca_children P).
Proof.
  intros HS (evs&Hp&Hap). simpl in Hp. injection Hp as Hp. unfold child_certify in Hp. inv_ok. case_match; [done|]. inv_ok.
  unfold issue_child_certificate, issue_cert in *. inv_ok. known.
  match goal with H : make_issued_cert _ _ _ _ _ _ _ = Ok ?x |- _ => rename x into c, H into Hmk end.
  match goal with H : ca_resources P !! _ = Some ?x |- _ => rename x into rc, H into Hrc end.
  match goal with H : ca_children P !! _ = Some ?x |- _ => rename x into d, H into Hd end.
  match goal with H : current_key _ = Some ?x |- _ => rename x into my, H into Hmy end.
  match goal with H : csr_info_try_from _ = Ok ?x |- _ => rename x into info, H into Hinfo end.
  pose proof Hmk as (?&Hk&_&Hlim)%make_issued_cert_spec; [|done].
  exists rc, d, my, c. split; [done|]. split; [done|]. split; [done|]. split; [done|]. split.
  { rewrite Hk. unfold csr_info_try_from in Hinfo. case_match; [done|]. inv_ok. done. }
  split.
  { unfold make_issued_cert in Hmk. inv_ok. case_on. inv_ok. known.
    match goal with H : cert_info_create ?cert _ _ _ = Some _ |- _ => exists cert; apply cert_info_create_spec in H as (?&_&_&?&_) end.
    done. }
  simpl in Hap. unfold ca_apply in Hap. simpl in Hap. rewrite (on_child_some _ _ _ d) in Hap by done. simpl in Hap.
  unfold on_class in Hap. simpl in Hap. rewrite Hrc in Hap. simpl in Hap. injection Hap as <-. done.
Qed.

(** ** Listing *)

Lemma entitlement_of_synced config now P1 h rcn rc1 d1 my c mycert :
  ca_resources P1 !! rcn = Some rc1 → current_key rc1 = Some my → ca_children P1 !! h = Some d1 →
  cert_decode (cert_info_base64 (ck_incoming_cert my)) = Some mycert →
  rs_is_empty (rs_intersection (cert_resources (ck_incoming_cert my)) (cd_resources d1)) = false →
  child_issued d1 rcn = [cert_key_identifier c] → cc_issued (rc_certificates rc1) !! cert_key_identifier c = Some c →
  (new_child_cert_issuance_threshold (issuance_timing config) now < not_after (cert_validity c))%Z →
  (∃ cert, cert_info_base64 c = cert_base64 cert ∧ key_identifier (cert_public_key cert) = cert_key_identifier c) →
  ∃ cert, entitlement_class config now P1 h rcn
    = Ok (Some (mkEntitlement rcn (rs_intersection (cert_resources (ck_incoming_cert my)) (cd_resources d1))
            (not_after (cert_validity c)) [mkIssuedCert (cert_uri c) (cert_limit c) cert] (cert_uri (ck_incoming_cert my)) mycert))
    ∧ key_identifier (cert_public_key cert) = cert_key_identifier c.
Proof.
  intros Hrc Hmy Hd Hdec Hne Hks Hc Hthr (cert&Hb&Hkey). exists cert. split; [|done].
  unfold entitlement_class, get_child. rewrite Hrc, Hmy, Hdec, Hd. simpl. rewrite Hne, Hks. simpl. rewrite Hc, Hb, cert_read_back.
  simpl. apply Z.ltb_lt in Hthr. unfold cert_expires. by rewrite Hthr.
Qed.

(** A key whose certificate is as offered wants no new one. *)
Lemma no_update_wanted k resources t now :
  cert_resources (ck_incoming_cert k) = resources → not_after (cert_validity (ck_incoming_cert k)) = t →
  wants_update k resources t now = false.
Proof.
  intros <- <-. unfold wants_update. rewrite difference_refl. simpl. case_match; [done|]. by rewrite Z.eqb_refl.
Qed.

Lemma synced_key_quiet k rcn ent repo ns now signer :
  cert_resources (ck_incoming_cert k) = ent_resource_set ent → not_after (cert_validity (ck_incoming_cert k)) = ent_not_after ent →
  Forall (λ ic, key_identifier (cert_public_key (ic_cert ic)) = ck_key_id k) (ent_issued_certs ent) →
  key_entitlement_events (Active k) rcn ent repo ns now signer = Ok [].
Proof.
  intros Hr Ht Hall. unfold key_entitlement_events, keys_for_requests, key_for_request.
  rewrite no_update_wanted by done. simpl. f_equal. induction Hall as [|ic l Hic Hall IH]; [done|]. simpl.
  by rewrite bool_decide_eq_true_2.
Qed.

(** A CA with one class under a parent that offers just what the class has. *)
Lemma synced_ca_quiet now signer C parent ent m crc repo k :
  ca_inv C → ca_repository C = Some repo → ca_resources C !! m = Some crc → rc_parent_handle crc = parent →
  rc_parent_rc_name crc = ent_class_name ent →
  (∀ m' rc', ca_resources C !! m' = Some rc' → rc_parent_handle rc' = parent → rc' = crc) →
  rc_key_state crc = Active k →
  cert_resources (ck_incoming_cert k) = ent_resource_set ent → not_after (cert_validity (ck_incoming_cert k)) = ent_not_after ent →
  Forall (λ ic, key_identifier (cert_public_key (ic_cert ic)) = ck_key_id k) (ent_issued_certs ent) →
  update_entitlements now signer C parent [ent] = Ok [].
Proof.
  intros Hinv Hrepo Hm Hp Hn Honly Hk Hr Ht Hall. unfold update_entitlements. rewrite (filter_none _ (hm_iter _)).
  2: { intros [m' rc'] Hin%elem_of_hm_iter [Hph Hnot]. simpl in *. apply Hnot. rewrite (Honly _ _ Hin Hph), Hn. by left. }
  simpl. assert (find_parent_rc C parent (ent_class_name ent) = Some crc) as ->.
  { unfold find_parent_rc. destruct (filter _ (hm_values (ca_resources C))) as [|rc' l] eqn:Hf.
    - exfalso. apply (elem_of_nil crc). rewrite <-Hf. apply list_elem_of_filter. split; [done|]. apply elem_of_hm_values. eauto.
    - simpl. f_equal. assert (rc' ∈ rc' :: l) as Hin by left. rewrite <-Hf in Hin.
      apply list_elem_of_filter in Hin as [[??] (m'&?)%elem_of_hm_values]. by eapply Honly. }
  unfold make_request_events, repository_contact, class_entitlement_events. rewrite Hrepo, Hk. simpl.
  rewrite synced_key_quiet by done. done.
Qed.
End sync.
