(* ===== verification/CaDemo.v ===== *)
(** * A concrete instance of the interfaces of CAs, and CAs on which theorems are evaluated *)

From stdpp Require Import base gmap strings list pretty.
From S2P Require Import Prelude Rpki Roas Routes EventSourcing CaCerts CaEvents CaKeys CaChildren CaProducts CaClass CertAuth CertAuthCmds CaFacts CaCertFacts CaInvariant CaSteps.

Module CaDemo.

(** ** Resources, objects and keys

    Resources are lists of numbers: AS numbers and addresses of prefixes.  The content of an
    object is a name, a place and three numbers; a hash is the content itself. *)

#[export] Instance demo_prefixes : PrefixApi := {|
  Prefix := N * N;
  addr := fst; addr_len := snd; pfx_min := fst;
  pfx_max p := (p.1 + N.shiftl 1 (128 - p.2) - 1)%N;
  from_v4_str _ := None; from_v6_str _ := None;
  addr_v4_str p := pretty p.1; addr_v6_str p := pretty p.1;
  ResourceSet := list N;
  contains_roa_address rs p _ := bool_decide (p.1 ∈ rs);
|}.

Definition Content : Type := string * string * (Z * Z * N).

#[export] Instance demo_rpki : Rpki := {|
  Rsync := string;
  is_parent_of a b := String.prefix a b;
  rsync_from_str := Some;
  rsync_to_string s := s;
  Base64 := Content;
  Hash := Content;
  to_hash c := c;
  size_approx _ := 0%N;
  Uuid := string;
  uuid_hyphenated u := u;
|}.

Definition subset (a b : list N) : bool := forallb (λ x, bool_decide (x ∈ a)) b.

(** A certificate is its content: the key, the repository, the validity and the serial number. *)
#[export] Instance demo_api : CaApi := {|
  KeyIdentifier := string; key_display k := k;
  PublicKey := string; key_identifier k := k;
  Https := string;
  rsync_authority _ := "rpki.example"; https_authority _ := "rpki.example"; rsync_path u := u;
  rsync_join base name := base +:+ name; is_ip_addr _ := false;
  Serial := N; serial_from n := n;
  Name := string; name_from_pub_key k := k;
  rs_default := []; rs_all := [1; 2; 3; 64500; 64501]%N; rs_asn a := [a];
  rs_is_empty l := bool_decide (l = []);
  rs_contains := subset;
  rs_union := app;
  rs_intersection a b := filter (λ x, x ∈ b) a;
  rs_difference_is_empty a b := subset a b && subset b a;
  rs_contains_asn l a := bool_decide (a ∈ l);
  ResourceLimit := option (list N); limit_default := None;
  limit_apply_to l r := match l with None => Some r | Some l => if subset r l then Some l else None end;
  Csr := string * string;
  csr_verify_signature _ := true;
  csr_ca_repository c := Some c.2; csr_rpki_manifest c := Some (c.2 +:+ c.1 +:+ ".mft"); csr_rpki_notify _ := None;
  csr_public_key c := c.1;
  Cert := Content;
  cert_public_key c := c.1.1;
  cert_ca_repository c := Some c.1.2; cert_rpki_manifest c := Some (c.1.2 +:+ c.1.1 +:+ ".mft"); cert_rpki_notify _ := None;
  cert_subject c := c.1.1; cert_not_before c := c.2.1.1; cert_not_after c := c.2.1.2; cert_serial c := c.2.2;
  cert_base64 c := c; cert_decode c := Some c;
  RepoInfo := string;
  repo_ca_repository r ns := r +:+ ns +:+ "/"; repo_resolve r ns name := r +:+ ns +:+ "/" +:+ name; repo_rpki_notify _ := None;
  class_name_default := "0"; years_from t y := (t + y * seconds 31536000)%Z;
  Roa := Content; roa_base64 r := r; roa_serial r := r.2.2; roa_expires r := r.2.1.2;
  ProviderAs := N; provider_asn p := p;
  AspaBuilder := N * list N; aspa_builder_new c ps := Some (c, ps);
  Aspa := Content;
  aspa_not_before a := a.2.1.1; aspa_not_after a := a.2.1.2; aspa_serial a := a.2.2; aspa_signed_object a := a.1.1; aspa_base64 a := a;
  BgpsecCsr := string; bgpsec_verify_signature _ := true; bgpsec_public_key c := c; bgpsec_base64 c := (c, "", (0, 0, 0%N)%Z);
  IdCert := string; id_cert_public_key c := c; id_cert_base64 c := (c, "", (0, 0, 0%N)%Z);
  hex_encode s := s;
|}.

(** A signer whose keys and serial numbers carry a tag, so that commands draw different ones. *)
Definition signer (tag : string) (serial : N) : Signer := {|
  create_key rcn := Ok (tag +:+ rcn);
  create_self_signed_id_cert := Ok tag;
  get_key_info k := Ok k;
  random_serial _ _ := Ok serial;
  sign_csr repo ns key := Ok (key, repo +:+ ns +:+ "/");
  sign_cert tbs _ :=
    Ok (tbs_public_key tbs, default "" (tbs_ca_repository tbs),
        (not_before (tbs_validity tbs), not_after (tbs_validity tbs), tbs_serial tbs));
  sign_roa key asn addrs name := Ok (name, key, (0, seconds 1000, serial)%Z);
  sign_aspa builder ob key :=
    Ok (sob_signed_object ob, key, (not_before (sob_validity ob), not_after (sob_validity ob), serial));
|}.

#[export] Instance signer_ok tag serial : SignerOk (signer tag serial).
Proof. split; [|by intros ?? [= ->]]. intros tbs k cert [= <-]. done. Qed.

Lemma subset_spec a b : subset a b = true ↔ ∀ x, x ∈ b → x ∈ a.
Proof.
  unfold subset. rewrite forallb_forall. split; intros H x Hx.
  - apply list_elem_of_In in Hx. by apply H, bool_decide_eq_true in Hx.
  - apply bool_decide_eq_true, H. by apply list_elem_of_In.
Qed.
#[export] Instance demo_laws : ResourceLaws.
Proof.
  split. intros a b r [Hab Hba]%andb_true_iff Hb. simpl in *. apply subset_spec. intros x Hx.
  apply subset_spec with (x := x) in Hab; [done|]. by apply subset_spec with (x := x) in Hb.
Qed.

(** ** CAs *)

Definition timing : IssuanceTimingConfig := mkTiming 24 4 8 52 4 4 52 4 52 4.
Definition config : Config := mkConfig timing 100 90 false.
Definition id (name : string) : IdCertInfo := id_cert_info_from name.
Definition now : Instant := seconds 1600000000.

(** Commands run one after the other. *)
Fixpoint run (s : Signer) (ca : CertAuth) (cmds : list CmdDet) : option CertAuth :=
  match cmds with
  | [] => Some ca
  | c :: cmds => ca ← ca_step config now s ca c; run s ca cmds
  end.
(** Whether a command was accepted. *)
Definition accepted (s : Signer) (ca : CertAuth) (cmd : CmdDet) : bool :=
  match ca_process_command config now s ca cmd with Some (Ok _) => true | _ => false end.
Lemma accepted_events s ca cmd : accepted s ca cmd = true → ∃ evs, ca_process_command config now s ca cmd = Some (Ok evs).
Proof. unfold accepted. destruct (ca_process_command config now s ca cmd) as [[evs|]|]; [|done..]. by exists evs. Qed.

Definition repo : RepositoryContact := mkRepoContact "rsync://rpki.example/parent/" "key" "https://rpki.example/rfc8181".
Definition child_repo : RepositoryContact := mkRepoContact "rsync://rpki.example/child/" "key" "https://rpki.example/rfc8181".

(** A trust anchor with its certificate received, and a child that was issued a certificate. *)
Definition fresh : CertAuth := ca_init "ta" (id "ta-id").
Definition anchored : CertAuth :=
  default fresh (run (signer "ta-" 1) fresh [RepoUpdate repo; MakeTrustAnchor [] "rsync://rpki.example/ta/ta.cer"]).
Definition ta_cert : CertInfo :=
  match ca_parents anchored !! ta_handle with
  | Some (TaContact cert _ _) => cert
  | _ => mkCertInfo "" "" [] None "" (mkValidity 0%Z 0%Z) 0%N (mkCsrInfo "" "" None "") ("", "", (0, 0, 0%N)%Z) ("", "", (0, 0, 0%N)%Z)
  end.
Definition ready : CertAuth :=
  default fresh (run (signer "ta-" 2) anchored
    [UpdateRcvdCert "0" ta_cert; ChildAdd "child" (id "child-id") [1; 64500]%N]).

(** A CA under it that has listed its entitlements and asks for a certificate. *)
Definition contact : ParentCaContact := Rfc6492Contact "https://rpki.example/rfc6492" "ta" "child" (id "ta-id").
Definition offers (ca : CertAuth) : list Entitlement :=
  match list_entitlements config now ca "child" with Ok ents => ents | Err _ => [] end.
Definition asking : CertAuth :=
  default fresh (run (signer "kid-" 3) (ca_init "child" (id "child-id"))
    [RepoUpdate child_repo; AddParent "ta" contact; UpdateEntitlements "ta" (offers ready)]).
Definition no_request : IssuanceRequest := mkIssuanceRequest "" None ("", "").
Definition request : IssuanceRequest := hd no_request (default [] (cert_requests asking "ta" !! "0")).

Definition step (s : Signer) (ca : CertAuth) (cmd : CmdDet) : CertAuth := default fresh (ca_step config now s ca cmd).

(** The parent issues the certificate, and the CA receives it. *)
Definition parent : CertAuth := step (signer "ta-" 4) ready (ChildCertify "child" request).
Definition class_of (ca : CertAuth) (n : string) : ResourceClass :=
  default (class_create "" "" "" "" "" 0%Z) (ca_resources ca !! n).
Definition issued_to (ca : CertAuth) (n ki : string) : CertInfo :=
  default ta_cert (cc_issued (rc_certificates (class_of ca n)) !! ki).
Definition kid_cert : CertInfo := issued_to parent "0" "kid-0".
Definition child : CertAuth := default fresh (run (signer "kid-" 5) asking [UpdateRcvdCert "0" kid_cert]).
Definition key_of (ca : CertAuth) (n : string) : CertifiedKey :=
  default (certified_key_create ta_cert) (current_key (class_of ca n)).
Definition details_of (ca : CertAuth) (h : string) : ChildDetails :=
  default (child_new (id "") []) (ca_children ca !! h).

(** The child rolls its key; the certificate that it then gets is for the new key. *)
Definition with_key (ki : string) (c : CertInfo) : CertInfo :=
  mkCertInfo (cert_uri c) (cert_name c) (cert_resources c) (cert_limit c) ki (cert_validity c) (cert_info_serial c)
    (mkCsrInfo "rsync://rpki.example/child/0/" "rsync://rpki.example/child/0/new-0.mft" None ki) (cert_info_base64 c) (cert_hash c).
Definition rolling : CertAuth := step (signer "new-" 6) child (KeyRollInitiate 0).
Definition rolled_cert : CertInfo := with_key "new-0" kid_cert.
Definition rolled : CertAuth := step (signer "new-" 7) rolling (UpdateRcvdCert "0" rolled_cert).
Definition swapped : CertAuth := step (signer "new-" 8) rolled (KeyRollActivate 0).

(** A CA with an ASPA definition. *)
Definition aspa_of (customer : N) (providers : list N) : AspaDefinition := mkAspaDefinition customer providers.
Definition with_aspa : CertAuth :=
  step (signer "ta-" 9) ready (AspasUpdate (mkAspaDefUpdates [aspa_of 64500 [1%N]] [])).

(** A child that asked for two numbers only, and a certificate of the parent that has one of them. *)
Definition limited : CertAuth :=
  step (signer "ta-" 4) ready (ChildCertify "child" (mkIssuanceRequest "0" (Some [1; 64500]%N) (ir_csr request))).
Definition with_resources (r : list N) (c : CertInfo) : CertInfo :=
  mkCertInfo (cert_uri c) (cert_name c) r (cert_limit c) (cert_info_subject c) (cert_validity c) (cert_info_serial c)
    (cert_csr_info c) (cert_info_base64 c) (cert_hash c).
Definition less_cert : CertInfo := with_resources [1; 2]%N ta_cert.
End CaDemo.
