(* ===== verification/CaProps.v ===== *)
(** * Properties of certification authorities *)

From stdpp Require Import base gmap strings list pretty.
From S2P Require Import Prelude Rpki Roas Routes EventSourcing CaCerts CaEvents CaKeys CaChildren CaProducts CaClass CertAuth CertAuthCmds CaFacts CaCertFacts CaInvariant CaSteps CaStepFacts CaRoll CaDemo.

Section reachable.
Context `{PA : !PrefixApi, RP : !Rpki, CA : !CaApi, HO : !HashOrder}.

(** ** The states of a CA *)

(** A CA starts without anything; every command, at any time, with any configuration and signer,
    leads on if it does not panic. *)
Inductive ca_reachable : CertAuth → Prop :=
| reach_init handle id : ca_reachable (ca_init handle id)
| reach_step config now signer ca cmd ca' :
    ca_reachable ca → SignerOk signer → ca_step config now signer ca cmd = Some ca' → ca_reachable ca'.

Lemma ca_reachable_inv `{RL : !ResourceLaws} ca : ca_reachable ca → ca_inv ca.
Proof.
  induction 1 as [handle id|config now signer ca cmd ca' _ IH HS Hstep]; [by apply map_Forall_empty|].
  by eapply step_inv.
Qed.
End reachable.

(** ** Child certificates *)

Section theorems.
Context `{PA : !PrefixApi, RP : !Rpki, CA : !CaApi, HO : !HashOrder}.

(** C18. In every state that a CA reaches, by whatever commands, every certificate that it has
    issued to a child or keeps suspended for one is for resources that are on the current
    certificate of the resource class, and it is kept under its own key; a class that has no
    current key has issued none.  (Receiving a certificate with fewer resources shrinks the
    certificates of children, and activating a new key re-issues them, in the same command.) *)
Theorem child_certs_never_overclaim `{RL : !ResourceLaws} ca n rc k c :
  ca_reachable ca → ca_resources ca !! n = Some rc → certs_at (rc_certificates rc) k c →
  cert_key_identifier c = k
  ∧ ∃ key, current_key rc = Some key ∧ rs_contains (cert_resources (ck_incoming_cert key)) (cert_resources c) = true.
Proof.
  intros Hr%ca_reachable_inv Hn Hc. destruct (Hr _ _ Hn) as (_&_&Hk&Hw). split; [by apply Hk|].
  unfold class_within, current_resources, current_certificate in Hw. destruct (current_key rc) as [key|]; simpl in Hw.
  - exists key. split; [done|]. by eapply Hw.
  - rewrite Hw in Hc. by apply no_certs_at in Hc.
Qed.

(** C19. A command of a CA in a reachable state does not panic: neither when it is turned into
    events nor when the events are applied, so the key states are never driven out of their
    order and no event names a class, child or definition that is not there.  This leaves out
    two kinds of commands: revoking a key in a class that the CA does not have, and an update of
    ASPA definitions that removes and adds the same customer. *)
Theorem commands_never_panic `{RL : !ResourceLaws} config now signer ca cmd :
  SignerOk signer → ca_reachable ca → command_safe ca cmd → is_Some (ca_step config now signer ca cmd).
Proof.
  intros HS Hr%ca_reachable_inv Hsafe. destruct (safe_step config now signer ca Hr cmd Hsafe) as (ca'&->&_). done.
Qed.

(** A child that asks to revoke one of its keys in a class that its parent does not have
    makes the parent panic: the command is accepted, because only the key is looked up, and its
    events cannot be applied. *)
Theorem revoke_in_unknown_class_panics config now signer ca child d rcn ki found :
  ca_children ca !! child = Some d → cd_used_keys d !! ki = Some (InUse found) → ca_resources ca !! rcn = None →
  (∃ evs, ca_process_command config now signer ca (ChildRevokeKey child (mkRevocationRequest rcn ki)) = Some (Ok evs))
  ∧ ca_step config now signer ca (ChildRevokeKey child (mkRevocationRequest rcn ki)) = None.
Proof.
  intros Hd Hki Hn.
  assert (∃ e evs, ca_process_command config now signer ca (ChildRevokeKey child (mkRevocationRequest rcn ki)) = Some (Ok (e :: evs))
    ∧ ev_details e = ChildKeyRevoked child rcn ki) as (e&evs&Hp&He).
  { simpl. unfold child_revoke_key, get_child, is_issued. rewrite Hd. simpl. rewrite Hki. simpl. eauto. }
  split; [eauto|]. unfold ca_step. rewrite Hp, apply_all_list, fmap_cons, He. by apply revoke_unknown_class.
Qed.

(** An update of ASPA definitions that removes a customer and adds it with other providers
    is accepted and panics when its events are applied: the change of providers is computed
    against the definition that the update removes. *)
Theorem aspa_replaced_in_one_update_panics config now signer ca d existing evs :
  ca_aspas ca !! aspa_customer d = Some existing →
  providers_update_is_empty (mkProvidersUpdate (filter (λ p, p ∉ aspa_providers existing) (aspa_providers d))
                               (filter (λ p, p ∉ aspa_providers d) (aspa_providers existing))) = false →
  ca_process_command config now signer ca (AspasUpdate (mkAspaDefUpdates [d] [aspa_customer d])) = Some (Ok evs) →
  ca_step config now signer ca (AspasUpdate (mkAspaDefUpdates [d] [aspa_customer d])) = None.
Proof.
  intros Hex Hne Hp. unfold ca_step. rewrite Hp. simpl in Hp. unfold aspas_definitions_update in Hp. injection Hp as Hp.
  simpl in Hp. unfold remove_aspa_def, aspa_has in Hp. simpl in Hp. rewrite Hex in Hp. simpl in Hp.
  unfold add_aspa_def in Hp. rewrite Hex, Hne in Hp.
  destruct (rs_contains_asn (all_resources ca) (aspa_customer d)); simpl in Hp; [|done]. inv_ok.
  rewrite apply_all_list, events_from_details_details. simpl. unfold aspa_apply_update. simpl.
  by rewrite aspa_removed.
Qed.

(** C21. A key roll comes to its end.  In a reachable CA that is no trust anchor, a class whose
    key is rolled asks its parent, under the parent's name for the class, for a certificate for a
    new key; the certificate is accepted whatever its resources; once the new key is activated,
    the only open revocation request of the class is for the old key; the answer to it is
    accepted and leaves the new key as the only key, with its certificate, and no revocation
    request. *)
Theorem key_roll_completes `{RL : !ResourceLaws} config s1 s2 s3 s4 t1 t2 t3 t4 ca ca1 n rc k :
  SignerOk s1 → SignerOk s2 → SignerOk s3 → SignerOk s4 → ca_reachable ca → is_ta ca = false →
  ca_resources ca !! n = Some rc → rc_key_state rc = Active k →
  accepted_step config t1 s1 ca (KeyRollInitiate 0) ca1 →
  ∃ p req, cert_requests ca1 (rc_parent_handle rc) !! n = Some (req :: option_list (ck_request k))
    ∧ ir_class_name req = rc_parent_rc_name rc ∧ create_key s1 n = Ok p
    ∧ ∀ cert, cert_key_identifier cert = p →
      ∃ ca2, accepted_step config t2 s2 ca1 (UpdateRcvdCert n cert) ca2
      ∧ ∀ ca3, accepted_step config t3 s3 ca2 (KeyRollActivate 0) ca3 →
        revoke_requests ca3 (rc_parent_handle rc) !! n = Some [mkRevocationRequest (rc_parent_rc_name rc) (ck_key_id k)]
        ∧ ∃ ca4 rc4, accepted_step config t4 s4 ca3 (KeyRollFinish n) ca4 ∧ ca_resources ca4 !! n = Some rc4
          ∧ rc_key_state rc4 = Active (certified_key_create cert)
          ∧ revoke_requests ca4 (rc_parent_handle rc) !! n = Some [].
Proof.
  intros HS1 HS2 HS3 HS4 Hr Hta Hn Hk H1. pose proof (ca_reachable_inv ca Hr) as Hinv.
  assert (ca_reachable ca1) as Hr1 by (eapply reach_step; [exact Hr|exact HS1|by apply accepted_is_step]).
  pose proof (ca_reachable_inv ca1 Hr1) as Hinv1.
  destruct (initiate_own config t1 s1 ca ca1 n rc Hinv Hn Hta k Hk H1) as (p&req&rc1&Hp&Hn1&(?&Hph1&Hpn1&_)&Hsame1&Hk1&Hreq).
  exists p, req. split.
  { rewrite <-Hph1, (cert_requests_lookup _ _ _ rc1) by done. unfold class_cert_requests. by rewrite Hk1. }
  split; [done|]. split; [done|]. intros cert Hcert.
  destruct (receive_pending_own config t2 s2 ca1 ca1 n rc1 Hinv1 Hn1 (mkPendingKey p (Some req)) k cert Hk1 Hcert) as (evs2&Hp2&_).
  destruct (command_goes config t2 s2 ca1 Hinv1 (UpdateRcvdCert n cert) evs2 I Hp2) as (ca2&Hap2&Hinv2).
  rewrite <-apply_all_list in Hap2.
  destruct (receive_pending_own config t2 s2 ca1 ca2 n rc1 Hinv1 Hn1 (mkPendingKey p (Some req)) k cert Hk1 Hcert)
    as (evs2'&Hp2'&Hown2). rewrite Hp2 in Hp2'. injection Hp2' as <-.
  destruct (Hown2 Hap2) as (Hsame2&rc2&Hn2&(?&Hph2&Hpn2&_)&Hk2). exists ca2. split; [by exists evs2|].
  assert (is_ta ca2 = false) as Hta2 by (by rewrite (is_ta_same ca1), (is_ta_same ca)).
  intros ca3 H3. destruct (activate_own config t3 s3 ca2 ca3 n rc2 Hinv2 Hn2 Hta2 _ _ Hk2 H3) as (Hsame3&rc3&Hn3&(?&Hph3&Hpn3&_)&Hk3).
  assert (ca_inv ca3) as Hinv3.
  { apply accepted_is_step in H3. by eapply (step_inv config t3 s3 ca2). }
  assert (rc_parent_handle rc3 = rc_parent_handle rc) as Hph by congruence.
  split; [rewrite <-Hph, (revoke_requests_lookup _ _ _ rc3) by done; unfold class_revoke_request; rewrite Hk3; simpl; congruence|].
  assert (is_ta ca3 = false) as Hta3 by (by rewrite (is_ta_same ca2)).
  destruct (finish_own config t4 s4 ca3 ca3 n rc3 Hinv3 Hn3 Hta3 _ _ Hk3) as (evs4&Hp4&_).
  destruct (command_goes config t4 s4 ca3 Hinv3 (KeyRollFinish n) evs4 I Hp4) as (ca4&Hap4&_). rewrite <-apply_all_list in Hap4.
  destruct (finish_own config t4 s4 ca3 ca4 n rc3 Hinv3 Hn3 Hta3 _ _ Hk3) as (evs4'&Hp4'&Hown4).
  rewrite Hp4 in Hp4'. injection Hp4' as <-. destruct (Hown4 Hap4) as (_&rc4&Hn4&(?&Hph4&?&_)&Hk4).
  exists ca4, rc4. split; [by exists evs4|]. split; [done|]. split; [done|].
  rewrite <-Hph, <-Hph4, (revoke_requests_lookup _ _ _ rc4) by done. unfold class_revoke_request. by rewrite Hk4.
Qed.

(** When a CA moves to another repository, the repository that its current keys publish in
    is not kept with them: the event that would record it comes after the events that start the
    key rolls, and records only for classes that are not rolling a key.  A certificate that is
    requested for a current key before the roll is over is requested for the new repository. *)
Theorem repository_move_forgets_old_repository `{RL : !ResourceLaws} config now signer ca contact existing ca' n rc k :
  SignerOk signer → ca_reachable ca → ca_resources ca !! n = Some rc → rc_key_state rc = Active k → ck_old_repo k = None →
  ca_repository ca = Some existing → accepted_step config now signer ca (RepoUpdate contact) ca' →
  ca_repository ca' = Some contact
  ∧ ∃ p rc', ca_resources ca' !! n = Some rc' ∧ rc_key_state rc' = RollPending p k
    ∧ ∀ ent t, wants_update k (ent_resource_set ent) (ent_not_after ent) t = true →
      (rc_repo_info contact, ck_key_id k) ∈ keys_for_requests (rc_key_state rc') (rc_repo_info contact) ent t.
Proof.
  intros HS Hr%ca_reachable_inv Hn Hk Hold Hrepo Hstep.
  destruct (update_repo_own config now signer ca contact existing ca' n rc k HS RL Hr Hn Hk Hrepo Hstep) as (?&p&rc'&?&Hk').
  split; [done|]. exists p, rc'. split; [done|]. split; [done|]. intros ent t Hw. rewrite Hk'. simpl. right.
  unfold key_for_request. rewrite Hw, Hold. by left.
Qed.

(** C22. A child that got what it asked for does not ask again.  A parent with one class accepts
    a request without a limit from a child that has no key there yet; the child, with one class
    under this parent and one active key in it, has the certificate that the parent issued, for
    some resources.  When the child then lists its
    entitlements, at any time at which the certificate is not yet due to be renewed, it requests
    nothing: the resources and the time that the parent offers are those on the certificate, and
    the key is the child's. *)
Theorem synced_child_requests_nothing `{RL : !ResourceLaws, SL : !SyncLaws} config t1 t2 s1 s2 P P1 h req rc d my mycert c rc1
    C parent m crc repo k :
  SignerOk s1 → ca_resources P = {[ir_class_name req := rc]} → ca_children P !! h = Some d →
  child_issued d (ir_class_name req) = [] → ir_limit req = limit_default →
  current_key rc = Some my → cert_decode (cert_info_base64 (ck_incoming_cert my)) = Some mycert →
  accepted_step config t1 s1 P (ChildCertify h req) P1 →
  ca_resources P1 !! ir_class_name req = Some rc1 →
  cc_issued (rc_certificates rc1) !! key_identifier (csr_public_key (ir_csr req)) = Some c →
  rs_is_empty (cert_resources c) = false →
  (new_child_cert_issuance_threshold (issuance_timing config) t2 < not_after (cert_validity c))%Z →
  ca_reachable C → ca_repository C = Some repo → ca_resources C !! m = Some crc → rc_parent_handle crc = parent →
  rc_parent_rc_name crc = ir_class_name req →
  (∀ m' rc', ca_resources C !! m' = Some rc' → rc_parent_handle rc' = parent → rc' = crc) →
  rc_key_state crc = Active k → ck_key_id k = key_identifier (csr_public_key (ir_csr req)) →
  cert_resources (ck_incoming_cert k) = cert_resources c →
  not_after (cert_validity (ck_incoming_cert k)) = not_after (cert_validity c) →
  ∃ ent, list_entitlements config t2 P1 h = Ok [ent] ∧ update_entitlements t2 s2 C parent [ent] = Ok [].
Proof.
  intros HS HP Hd Hnone Hlim Hmy Hdec Hstep Hrc1 Hc Hne Hthr HC Hrepo Hm Hph Hpn Honly Hk Hkid Hkr Hkt.
  destruct (certify_own config t1 s1 P h req P1 HS Hstep) as (rc'&d'&my'&c'&Hrc'&Hd'&Hmy'&Hap&Hckey&Henc&HP1&Hch1).
  rewrite HP, lookup_singleton_eq in Hrc'. injection Hrc' as <-. rewrite Hd in Hd'. injection Hd' as <-.
  rewrite Hmy in Hmy'. injection Hmy' as <-.
  rewrite HP1, lookup_insert_eq in Hrc1. injection Hrc1 as <-. simpl in Hc. rewrite <-Hckey, lookup_insert_eq in Hc.
  injection Hc as ->. rewrite Hlim, no_limit in Hap. injection Hap as Hres.
  destruct (entitlement_of_synced config t2 P1 h (ir_class_name req)
    (with_certificates (certificate_issued (rc_certificates rc) c) rc)
    (add_issue_response (ir_class_name req) (cert_key_identifier c) d) my c mycert) as (cert&Hent&Hcert).
  - by rewrite HP1, lookup_insert_eq.
  - done.
  - by rewrite Hch1, lookup_insert_eq.
  - done.
  - simpl. by rewrite Hres.
  - by apply child_issued_add.
  - simpl. by rewrite lookup_insert_eq.
  - done.
  - done.
  - eexists. split.
    + unfold list_entitlements, hm_keys. rewrite HP1, HP, insert_singleton_eq.
      assert (hm_iter {[ir_class_name req := with_certificates (certificate_issued (rc_certificates rc) c) rc]}
        = [(ir_class_name req, with_certificates (certificate_issued (rc_certificates rc) c) rc)]) as ->.
      { apply Permutation_singleton_r. rewrite hm_iter_perm. by rewrite map_to_list_singleton. }
      simpl. rewrite Hent. done.
    + apply (synced_ca_quiet t2 s2 C parent _ m crc repo k); try done.
      * by apply ca_reachable_inv.
      * simpl. by rewrite Hres.
      * simpl. constructor; [|constructor]. simpl. congruence.
Qed.

(** A CA cannot take on a certificate with fewer resources if it issued a child a certificate
    under a limit and the resources that are left for the child do not include the limit: the
    child's certificate is not shrunk or removed, the command fails, and the CA stays with the
    certificate that its parent replaced. *)
Theorem limited_child_blocks_shrinking config now signer ca n rc k cert ki c :
  ca_resources ca !! n = Some rc → rc_key_state rc = Active k → cert_key_identifier cert = ck_key_id k →
  rs_difference_is_empty (cert_resources cert) (cert_resources (ck_incoming_cert k)) = false →
  cc_issued (rc_certificates rc) !! ki = Some c → rs_contains (cert_resources cert) (cert_resources c) = false →
  rs_is_empty (rs_intersection (cert_resources cert) (cert_resources c)) = false →
  limit_apply_to (cert_limit c) (rs_intersection (cert_resources cert) (cert_resources c)) = None →
  (∃ e, ca_process_command config now signer ca (UpdateRcvdCert n cert) = Some (Err e))
  ∧ ca_step config now signer ca (UpdateRcvdCert n cert) = Some ca.
Proof.
  intros Hn Hk Hki Hdiff Hc Hover Hrest Hlim.
  assert (∃ e, ca_process_command config now signer ca (UpdateRcvdCert n cert) = Some (Err e)) as [e He].
  { simpl. unfold update_received_cert. rewrite Hn. simpl. unfold class_update_received_cert. rewrite Hk.
    unfold update_rcvd_cert_current. rewrite bool_decide_eq_true_2 by done. rewrite Hdiff. simpl.
    unfold shrink_overclaiming. simpl.
    match goal with |- context [fold_each ?f ?s ?l] => destruct (fold_each_fails f l s c) as [e ->] end.
    - apply elem_of_hm_values. eauto.
    - intros s. unfold shrink_cert, reduced_applicable_resources. simpl. rewrite Hover, Hrest.
      unfold re_issue, make_issued_cert. simpl. rewrite Hlim. simpl. eauto.
    - simpl. eauto. }
  split; [eauto|]. unfold ca_step. by rewrite He.
Qed.
End theorems.

(** ** Witnesses *)

Section witnesses.
Import CaDemo.

(** What evaluation finds in a state is there: only whether it is there is evaluated. *)
Lemma found {A} (d : A) (o : option A) : bool_decide (is_Some o) = true → o = Some (default d o).
Proof. intros [x ->]%bool_decide_eq_true. done. Qed.
Lemma class_found ca n : bool_decide (is_Some (ca_resources ca !! n)) = true → ca_resources ca !! n = Some (class_of ca n).
Proof. apply found. Qed.
Lemma issued_found ca n ki :
  bool_decide (is_Some (cc_issued (rc_certificates (class_of ca n)) !! ki)) = true →
  cc_issued (rc_certificates (class_of ca n)) !! ki = Some (issued_to ca n ki).
Proof. apply found. Qed.
Lemma details_found ca h : bool_decide (is_Some (ca_children ca !! h)) = true → ca_children ca !! h = Some (details_of ca h).
Proof. apply found. Qed.
Ltac evaluated :=
  lazymatch goal with
  | |- ca_resources _ !! _ = Some (class_of _ _) => apply class_found
  | |- cc_issued _ !! _ = Some (issued_to _ _ _) => apply issued_found
  | |- ca_children _ !! _ = Some (details_of _ _) => apply details_found
  | _ => idtac
  end; reflexivity.

Local Instance demo_sync : SyncLaws.
Proof.
  split; [done| |done]. intros r. simpl. assert (subset r r = true) as H by (apply subset_spec; auto). by rewrite H.
Qed.

Lemma run_reachable tag n ca cmds : ca_reachable ca → ca_reachable (default fresh (run (signer tag n) ca cmds)).
Proof.
  revert ca. induction cmds as [|cmd cmds IH]; intros ca Hr; [done|]. cbn [run].
  destruct (ca_step config now (signer tag n) ca cmd) as [ca'|] eqn:Hs; simpl; [|apply reach_init].
  apply IH. by eapply reach_step; [| |exact Hs]; [|apply signer_ok].
Qed.
Lemma step_reachable tag n ca cmd : ca_reachable ca → ca_reachable (step (signer tag n) ca cmd).
Proof.
  intros Hr. unfold step. destruct (ca_step config now (signer tag n) ca cmd) as [ca'|] eqn:Hs; [|apply reach_init].
  by eapply reach_step; [| |exact Hs]; [|apply signer_ok].
Qed.
Lemma ready_reachable : ca_reachable ready.
Proof. apply run_reachable, run_reachable, reach_init. Qed.
Lemma parent_reachable : ca_reachable parent.
Proof. apply step_reachable, ready_reachable. Qed.
Lemma child_reachable : ca_reachable child.
Proof. apply run_reachable, run_reachable, reach_init. Qed.

(** A command that evaluation accepts is a step to the state that evaluation finds. *)
Lemma accepted_by_evaluation s ca cmd :
  accepted s ca cmd && bool_decide (is_Some (ca_step config now s ca cmd)) = true →
  accepted_step config now s ca cmd (step s ca cmd).
Proof.
  intros [Hacc [ca' Hca']%bool_decide_eq_true]%andb_true_iff. unfold step. rewrite Hca'. simpl.
  unfold accepted in Hacc. unfold accepted_step, ca_step in *.
  destruct (ca_process_command config now s ca cmd) as [[evs|]|]; [|done..]. by exists evs.
Qed.

Lemma child_certs_never_overclaim_witness :
  cert_key_identifier kid_cert = "kid-0"
  ∧ ∃ key, current_key (class_of parent "0") = Some key
    ∧ rs_contains (cert_resources (ck_incoming_cert key)) (cert_resources kid_cert) = true.
Proof.
  apply (child_certs_never_overclaim parent "0" (class_of parent "0") "kid-0" (issued_to parent "0" "kid-0") parent_reachable);
    [evaluated|left; evaluated].
Defined.

Lemma commands_never_panic_witness :
  is_Some (ca_step config now (signer "new-" 6) parent (ChildRevokeKey "child" (mkRevocationRequest "0" "kid-0"))).
Proof.
  apply (commands_never_panic config now (signer "new-" 6) parent); [apply signer_ok|apply parent_reachable|].
  exists (class_of parent "0"). evaluated.
Defined.

Lemma revoke_in_unknown_class_panics_witness :
  (∃ evs, ca_process_command config now (signer "ta-" 6) parent (ChildRevokeKey "child" (mkRevocationRequest "7" "kid-0")) = Some (Ok evs))
  ∧ ca_step config now (signer "ta-" 6) parent (ChildRevokeKey "child" (mkRevocationRequest "7" "kid-0")) = None.
Proof.
  eapply (revoke_in_unknown_class_panics config now (signer "ta-" 6) parent "child" (details_of parent "child") "7" "kid-0" "0");
    evaluated.
Defined.

Lemma aspa_replaced_in_one_update_panics_witness :
  ca_step config now (signer "ta-" 6) with_aspa (AspasUpdate (mkAspaDefUpdates [aspa_of 64500 [2%N]] [64500%N])) = None.
Proof.
  destruct (accepted_events (signer "ta-" 6) with_aspa
    (AspasUpdate (mkAspaDefUpdates [aspa_of 64500 [2%N]] [64500%N]))) as [evs Hevs]; [evaluated|].
  apply (aspa_replaced_in_one_update_panics config now (signer "ta-" 6) with_aspa (aspa_of 64500 [2%N])
    (aspa_of 64500 [1%N]) evs); [evaluated..|exact Hevs].
Defined.

Lemma key_roll_completes_witness :
  ∃ ca4 rc4, accepted_step config now (signer "new-" 9) swapped (KeyRollFinish "0") ca4 ∧ ca_resources ca4 !! "0" = Some rc4
    ∧ rc_key_state rc4 = Active (certified_key_create rolled_cert) ∧ revoke_requests ca4 "ta" !! "0" = Some [].
Proof.
  destruct (key_roll_completes config (signer "new-" 6) (signer "new-" 7) (signer "new-" 8) (signer "new-" 9) now now now now
    child rolling "0" (class_of child "0") (key_of child "0")) as (p&req&_&_&Hp&Hroll); try apply signer_ok.
  - apply child_reachable.
  - evaluated.
  - evaluated.
  - evaluated.
  - apply accepted_by_evaluation; evaluated.
  - injection Hp as <-. destruct (Hroll rolled_cert) as (ca2&Hca2&Hact); [reflexivity|].
    assert (ca2 = rolled) as ->.
    { apply accepted_is_step in Hca2. change rolled with (step (signer "new-" 7) rolling (UpdateRcvdCert "0" rolled_cert)).
      unfold step. by rewrite Hca2. }
    destruct (Hact swapped) as (_&ca4&rc4&H4); [apply accepted_by_evaluation; evaluated|].
    exists ca4, rc4. exact H4.
Defined.

Lemma repository_move_forgets_old_repository_witness :
  let moved := step (signer "new-" 6) child (RepoUpdate repo) in
  ca_repository moved = Some repo
  ∧ ∃ p rc', ca_resources moved !! "0" = Some rc' ∧ rc_key_state rc' = RollPending p (key_of child "0")
    ∧ ∀ ent t, wants_update (key_of child "0") (ent_resource_set ent) (ent_not_after ent) t = true →
      (rc_repo_info repo, ck_key_id (key_of child "0")) ∈ keys_for_requests (rc_key_state rc') (rc_repo_info repo) ent t.
Proof.
  apply (repository_move_forgets_old_repository config now (signer "new-" 6) child repo child_repo _ "0" (class_of child "0")).
  - apply signer_ok.
  - apply child_reachable.
  - evaluated.
  - evaluated.
  - evaluated.
  - evaluated.
  - apply accepted_by_evaluation; evaluated.
Defined.

Lemma synced_child_requests_nothing_witness :
  ∃ ent, list_entitlements config now parent "child" = Ok [ent]
    ∧ update_entitlements now (signer "kid-" 6) child "ta" [ent] = Ok [].
Proof.
  apply (synced_child_requests_nothing config now now (signer "ta-" 4) (signer "kid-" 6) ready parent "child" request
    (class_of ready "0") (details_of ready "child") (key_of ready "0") (cert_info_base64 ta_cert) (issued_to parent "0" "kid-0")
    (class_of parent "0") child "ta" "0" (class_of child "0") child_repo (key_of child "0")).
  - apply signer_ok.
  - evaluated.
  - evaluated.
  - evaluated.
  - evaluated.
  - evaluated.
  - evaluated.
  - apply accepted_by_evaluation. evaluated.
  - replace (ir_class_name request) with "0" by reflexivity. evaluated.
  - replace (key_identifier (csr_public_key (ir_csr request))) with "kid-0" by reflexivity. evaluated.
  - evaluated.
  - apply Z.ltb_lt. evaluated.
  - apply child_reachable.
  - evaluated.
  - evaluated.
  - evaluated.
  - evaluated.
  - intros m rc Hm _. assert (ca_resources child = {["0" := class_of child "0"]}) as Hone by reflexivity.
    rewrite Hone in Hm. by apply lookup_singleton_Some in Hm as [_ <-].
  - evaluated.
  - evaluated.
  - refine (bool_decide_eq_true_1 (_ = _) _). evaluated.
  - refine (bool_decide_eq_true_1 (_ = _) _). evaluated.
Defined.

Lemma limited_child_blocks_shrinking_witness :
  (∃ e, ca_process_command config now (signer "ta-" 6) limited (UpdateRcvdCert "0" less_cert) = Some (Err e))
  ∧ ca_step config now (signer "ta-" 6) limited (UpdateRcvdCert "0" less_cert) = Some limited.
Proof.
  eapply (limited_child_blocks_shrinking config now (signer "ta-" 6) limited "0" (class_of limited "0")
    (key_of limited "0") less_cert "kid-0" (issued_to limited "0" "kid-0")); evaluated.
Defined.
End witnesses.
