(* ===== verification/TaskQueue.v ===== *)
(** * The queue of background tasks ([src/src/daemon/mq.rs])

    Every task is in the queue at most once, with the time from which it is due.  The queue
    listens to the events of CAs that were saved and schedules what has to follow them. *)

From stdpp Require Import base gmap strings list pretty.
From S2P Require Import Prelude Rpki Roas Routes EventSourcing CaCerts CaEvents CaKeys CaChildren CaProducts CaClass CertAuth.

(** [Priority] is the second from which a task is due; the sooner the higher. *)
Definition Priority : Type := Z.

Section queue.
Context `{PA : !PrefixApi, RP : !Rpki, CA : !CaApi, HO : !HashOrder}.

(** ** Tasks *)

Inductive Task :=
| QueueStartTasks
| SyncRepo (ca : string)
| SyncParent (ca parent : string)
| SuspendChildrenIfNeeded (ca : string)
| RepublishIfNeeded
| RenewObjectsIfNeeded
| RefreshAnnouncementsInfo
| UpdateSnapshots
| RrdpUpdateIfNeeded
| SweepLoginCache
| TaskResourceClassRemoved (ca parent rcn : string) (revocation_requests : list RevocationRequest)
| TaskUnexpectedKey (ca rcn : string) (revocation_request : RevocationRequest).
#[export] Instance Task_eq_dec : EqDecision Task.
Proof. solve_decision. Defined.

Definition task_code (t : Task) : N * list string * list (string * KeyIdentifier) :=
  let req r := (rr_class_name r, rr_key r) in
  match t with
  | QueueStartTasks => (0, [], [])
  | SyncRepo ca => (1, [ca], [])
  | SyncParent ca parent => (2, [ca; parent], [])
  | SuspendChildrenIfNeeded ca => (3, [ca], [])
  | RepublishIfNeeded => (4, [], [])
  | RenewObjectsIfNeeded => (5, [], [])
  | RefreshAnnouncementsInfo => (6, [], [])
  | UpdateSnapshots => (7, [], [])
  | RrdpUpdateIfNeeded => (8, [], [])
  | SweepLoginCache => (9, [], [])
  | TaskResourceClassRemoved ca parent rcn reqs => (10, [ca; parent; rcn], req <$> reqs)
  | TaskUnexpectedKey ca rcn r => (11, [ca; rcn], [req r])
  end%N.
Definition task_decode (c : N * list string * list (string * KeyIdentifier)) : option Task :=
  let req r := mkRevocationRequest r.1 r.2 in
  match c with
  | (0, _, _) => Some QueueStartTasks
  | (1, [ca], _) => Some (SyncRepo ca)
  | (2, [ca; parent], _) => Some (SyncParent ca parent)
  | (3, [ca], _) => Some (SuspendChildrenIfNeeded ca)
  | (4, _, _) => Some RepublishIfNeeded
  | (5, _, _) => Some RenewObjectsIfNeeded
  | (6, _, _) => Some RefreshAnnouncementsInfo
  | (7, _, _) => Some UpdateSnapshots
  | (8, _, _) => Some RrdpUpdateIfNeeded
  | (9, _, _) => Some SweepLoginCache
  | (10, [ca; parent; rcn], reqs) => Some (TaskResourceClassRemoved ca parent rcn (req <$> reqs))
  | (11, [ca; rcn], [r]) => Some (TaskUnexpectedKey ca rcn (req r))
  | _ => None
  end%N.
Lemma task_decode_code t : task_decode (task_code t) = Some t.
Proof.
  destruct t; try done; simpl.
  - do 2 f_equal. rewrite <-list_fmap_compose. induction revocation_requests as [|[] reqs IH]; csimpl; by f_equal.
  - by destruct revocation_request.
Qed.
#[export] Instance Task_countable : Countable Task := inj_countable task_code task_decode task_decode_code.

(** ** Priorities *)

Definition priority_from (t : Instant) : Priority := timestamp t.
Definition priority_gt (p q : Priority) : bool := (p <? q)%Z.
Definition in_seconds (now : Instant) (secs : Z) : Priority := priority_from (now + seconds secs)%Z.
Definition in_minutes (now : Instant) (mins : Z) : Priority := priority_from (now + minutes mins)%Z.
Definition in_hours (now : Instant) (hrs : Z) : Priority := priority_from (now + hours hrs)%Z.
End queue.

(** ** The queue

    [PriorityQueue] of the crate of that name: a map, and an item of the highest priority.  Which
    one of those with the same priority is not specified. *)
Definition TaskQueue `{PA : !PrefixApi, RP : !Rpki, CA : !CaApi} : Type := gmap Task Priority.
Class QueuePeek `{PA : !PrefixApi, RP : !Rpki, CA : !CaApi} : Type := {
  peek : TaskQueue → option (Task * Priority);
  peek_highest (q : TaskQueue) t p : peek q = Some (t, p) → q !! t = Some p ∧ ∀ t' p', q !! t' = Some p' → priority_gt p' p = false;
  peek_empty (q : TaskQueue) : peek q = None → q = ∅;
}.

Section operations.
Context `{PA : !PrefixApi, RP : !Rpki, CA : !CaApi, HO : !HashOrder}.

Definition pop `{QP : !QueuePeek} (due_before : Priority) (q : TaskQueue) : option (Task * TaskQueue) :=
  match peek q with
  | Some (task, priority) => if priority_gt priority due_before then Some (task, delete task q) else None
  | None => None
  end.

Definition schedule (q : TaskQueue) (task : Task) (priority : Priority) : TaskQueue :=
  match q !! task with
  | None => <[task := priority]> q
  | Some existing_priority => if priority_gt priority existing_priority then <[task := priority]> q else q
  end.

(** The CA that a task is for. *)
Definition task_ca (task : Task) : option string :=
  match task with
  | SyncRepo ca | SyncParent ca _ | SuspendChildrenIfNeeded ca | TaskResourceClassRemoved ca _ _ _ | TaskUnexpectedKey ca _ _ => Some ca
  | _ => None
  end.
Definition remove_tasks_for_ca (q : TaskQueue) (removed_ca : string) : TaskQueue :=
  foldl (λ q task, delete task q) q (filter (λ task, task_ca task = Some removed_ca) (hm_keys q)).

Definition drop_sync_parent (q : TaskQueue) (ca parent : string) : TaskQueue := delete (SyncParent ca parent) q.

(** ** Listening to CAs *)

Section listener.
Variable (now : Instant) (ca : CertAuth) (handle : string).

Definition sync_repo_now (q : TaskQueue) : TaskQueue := schedule q (SyncRepo handle) (priority_from now).
Definition sync_parent_now (q : TaskQueue) (parent : string) : TaskQueue := schedule q (SyncParent handle parent) (priority_from now).
Definition sync_class_parent (q : TaskQueue) (rcn : string) : TaskQueue :=
  match parent_for_rc ca rcn with Ok parent => sync_parent_now q parent | Err _ => q end.

Definition queue_listen_event (q : TaskQueue) (event : CaEvent) : TaskQueue :=
  match event with
  | RoasUpdated _ _ | AspaObjectsUpdated _ _ | ChildCertificatesUpdated _ _ | BgpSecCertificatesUpdated _ _
  | ChildKeyRevoked _ _ _ | KeyPendingToNew _ _ | KeyPendingToActive _ _ | KeyRollFinished _ => sync_repo_now q
  | KeyRollActivated rcn _ => sync_repo_now (sync_class_parent q rcn)
  | ParentRemoved parent => sync_repo_now (drop_sync_parent q handle parent)
  | ResourceClassRemoved rcn parent revoke_requests =>
      schedule (sync_repo_now q) (TaskResourceClassRemoved handle parent rcn revoke_requests) (priority_from now)
  | UnexpectedKeyFound rcn revoke_req => schedule q (TaskUnexpectedKey handle rcn revoke_req) (priority_from now)
  | ParentAdded parent _ => if is_ok (repository_contact ca) then sync_parent_now q parent else q
  | RepoUpdated _ => foldl sync_parent_now q (hm_keys (ca_parents ca))
  | CertificateRequested rcn _ _ => sync_class_parent q rcn
  | _ => q
  end.
End listener.

Definition queue_listen (now : Instant) (q : TaskQueue) (ca : CertAuth) (events : list CaEvt) : TaskQueue :=
  foldl (λ q event, queue_listen_event now ca (ev_id event) q (ev_details event)) q events.
End operations.
