(* ===== verification/CaObjects.v ===== *)
(** * Published objects of CAs ([src/src/daemon/ca/publishing.rs], [commons/api/ca.rs])

    For every key of a CA the objects that it publishes, with their manifest and CRL.  The
    objects are kept outside of the event-sourced CA and follow its events: [listen] is called
    with the events of a command before they are saved. *)

From stdpp Require Import base gmap strings list pretty.
From S2P Require Import Prelude Rpki Rrdp Roas Routes EventSourcing CaCerts CaEvents CaKeys CaChildren CaProducts CaClass CertAuth.

(** ** Interface to the [rpki] crate: CRLs and manifests

    The key identifier of the issuer is optional on a certificate; a manifest that was signed has
    one. *)
Class PubApi `{PA : !PrefixApi, RP : !Rpki, CA : !CaApi} : Type := {
  Crl : Type;
  crl_authority_key_identifier : Crl → KeyIdentifier;
  crl_base64 : Crl → Base64;
  crl_number : Crl → Serial;
  crl_next_update : Crl → Instant;
  Manifest : Type;
  mft_authority_key_identifier : Manifest → KeyIdentifier;
  mft_base64 : Manifest → Base64;
  mft_serial_number : Manifest → Serial;
  mft_next_update : Manifest → Instant;
}.

(** [HashMap<RepositoryContact, Vec<PublishElement>>], as a list of pairs. *)
Abbreviation RepoElements := (list (RepositoryContact * list PublishElement)).

Section objects.
Context `{PA : !PrefixApi, RP : !Rpki, CA : !CaApi, PU : !PubApi, HO : !HashOrder}.

(** [TbsCertList] and [ManifestContent], what is signed. *)
Record TbsCertList := mkTbsCertList {
  tcl_issuer : Name;
  tcl_this_update : Instant;
  tcl_next_update : Instant;
  tcl_entries : list (Serial * Instant);
  tcl_aki : KeyIdentifier;
  tcl_number : Serial;
}.
Record ManifestContent := mkManifestContent {
  mc_number : Serial;
  mc_this_update : Instant;
  mc_next_update : Instant;
  mc_entries : list (string * Hash);
}.

(** [KrillSigner], as used for CRLs and manifests, and what is drawn at random for a revision of
    the objects of a key: the serial number of the manifest and the jitter of its next update. *)
Record ObjectSigner := mkObjectSigner {
  draw_jitter : KeyIdentifier → N → Z;
  draw_serial : KeyIdentifier → N → result string Serial;
  sign_crl : TbsCertList → KeyIdentifier → result string Crl;
  sign_manifest : ManifestContent → SignedObjectBuilder → KeyIdentifier → result string Manifest;
}.

(** ** Revocations ([commons/api/ca.rs]) *)

Record Revocation := mkRevocation { rv_serial : Serial; rv_revocation_date : Instant; rv_expires : Instant }.
#[export] Instance Revocation_eq_dec : EqDecision Revocation.
Proof. unfold Instant. solve_decision. Defined.

Definition revocation_new (now : Instant) (serial : Serial) (expires : Instant) : Revocation := mkRevocation serial now expires.
Definition to_crl_entries (self : list Revocation) : list (Serial * Instant) :=
  (λ r, (rv_serial r, rv_revocation_date r)) <$> self.
(** The revocations that stay. *)
Definition purge (now : Instant) (self : list Revocation) : list Revocation := filter (λ r, rv_expires r > now)%Z self.
Definition revocations_add (self : list Revocation) (r : Revocation) : list Revocation := self ++ [r].
Definition revocations_remove (self : list Revocation) (r : Revocation) : list Revocation := filter (λ existing, existing ≠ r) self.
(** [CertInfo::revocation] *)
Definition cert_revocation (now : Instant) (cert : CertInfo) : Revocation :=
  revocation_new now (cert_info_serial cert) (not_after (cert_validity cert)).

(** ** [PublishedItem] *)

Record PublishedItem := mkPublishedItem {
  it_name : string;
  it_base64 : Base64;
  it_hash : Hash;
  it_serial : Serial;
  it_expires : Instant;
}.
#[export] Instance PublishedItem_eq_dec : EqDecision PublishedItem.
Proof. unfold Instant. solve_decision. Defined.
Definition published_item (name : string) (base64 : Base64) (serial : Serial) (expires : Instant) : PublishedItem :=
  mkPublishedItem name base64 (to_hash base64) serial expires.
Definition publish_element (self : PublishedItem) (uri : Rsync) : PublishElement := mkPublishElement (it_base64 self) uri.
Definition item_revoke (now : Instant) (self : PublishedItem) : Revocation := revocation_new now (it_serial self) (it_expires self).

Definition published_manifest (mft : Manifest) : PublishedItem :=
  published_item (mft_for_key (mft_authority_key_identifier mft)) (mft_base64 mft)
    (mft_serial_number mft) (mft_next_update mft).
Definition crl_for_key (ki : KeyIdentifier) : string := object_name ki "crl".
Definition published_crl (crl : Crl) : PublishedItem :=
  published_item (crl_for_key (crl_authority_key_identifier crl)) (crl_base64 crl)
    (crl_number crl) (crl_next_update crl).

Definition for_roa (name : string) (info : RoaInfo (Roa := Roa)) : PublishedItem :=
  published_item name (roa_base64 (ri_roa info)) (roa_serial (ri_roa info)) (roa_expires (ri_roa info)).
Definition for_aspa (name : string) (info : AspaInfo) : PublishedItem :=
  published_item name (ai_base64 info) (ai_serial info) (not_after (ai_validity info)).
Definition for_cert_info (cert : CertInfo) : PublishedItem :=
  published_item (cert_name cert) (cert_info_base64 cert) (cert_info_serial cert) (cert_expires cert).
Definition for_bgpsec_cert_info (cert : BgpSecCertInfo) : PublishedItem :=
  published_item (bgpsec_info_name cert) (bi_base64 cert) (bi_serial cert) (bi_expires cert).

(** ** [ObjectSetRevision] *)

Record ObjectSetRevision := mkRevision { rn_number : N; rn_this_update : Instant; rn_next_update : Instant }.

Definition revision_create (timing : IssuanceTimingConfig) (now : Instant) (jitter : Z) : ObjectSetRevision :=
  mkRevision 1 (five_minutes_ago now) (publish_next timing now jitter).
Definition revision_next (timing : IssuanceTimingConfig) (now : Instant) (jitter : Z) (self : ObjectSetRevision) : ObjectSetRevision :=
  mkRevision (u64_succ (rn_number self)) (five_minutes_ago now) (publish_next timing now jitter).

(** ** CRLs and manifests *)

Definition build_crl (signer : ObjectSigner) (aki : KeyIdentifier) (issuer : Name) (revocations : list Revocation)
    (revision : ObjectSetRevision) : KrillResult PublishedItem :=
  let serial_number := serial_from (rn_number revision) in
  let crl := mkTbsCertList issuer (rn_this_update revision) (rn_next_update revision) (to_crl_entries revocations) aki serial_number in
  crl ← map_err SignerError (sign_crl signer crl aki);
  Ok (published_crl crl).

(** [ManifestBuilder::with_objects] *)
Definition manifest_entries (crl : PublishedItem) (published_objects : gmap string PublishedItem) : gmap string Hash :=
  foldl (λ entries '(name, object), <[name := it_hash object]> entries)
    {[it_name crl := it_hash crl]} (hm_iter published_objects).

Definition build_new_mft (signer : ObjectSigner) (now : Instant) (revision : ObjectSetRevision) (entries : gmap string Hash)
    (signing_cert : CertInfo) : KrillResult Manifest :=
  let aki := cert_key_identifier signing_cert in
  let content := mkManifestContent (serial_from (rn_number revision)) (rn_this_update revision) (rn_next_update revision)
                   (hm_iter entries) in
  serial ← map_err SignerError (draw_serial signer aki (rn_number revision));
  let object_builder := mkObjectBuilder serial (mkValidity (rn_this_update revision) (rn_next_update revision))
                          (crl_uri signing_cert) (cert_uri signing_cert) (mft_uri signing_cert)
                          (cert_info_subject signing_cert) now in
  map_err SignerError (sign_manifest signer content object_builder aki).

(** ** [KeyObjectSet] *)

Record KeyObjectSet := mkKeyObjectSet {
  ks_signing_cert : CertInfo;
  ks_revision : ObjectSetRevision;
  ks_revocations : list Revocation;
  ks_manifest : PublishedItem;
  ks_crl : PublishedItem;
  ks_published_objects : gmap string PublishedItem;
  ks_old_repo : option RepositoryContact;
}.

Definition with_objects (self : KeyObjectSet) (revocations : list Revocation) (objects : gmap string PublishedItem) : KeyObjectSet :=
  mkKeyObjectSet (ks_signing_cert self) (ks_revision self) revocations (ks_manifest self) (ks_crl self) objects (ks_old_repo self).

(** A new CRL and a manifest over it and the objects. *)
Definition sign_set (signer : ObjectSigner) (now : Instant) (signing_cert : CertInfo) (revision : ObjectSetRevision)
    (revocations : list Revocation) (published_objects : gmap string PublishedItem) (old_repo : option RepositoryContact)
    : KrillResult KeyObjectSet :=
  crl ← build_crl signer (cert_key_identifier signing_cert) (cert_info_subject signing_cert) revocations revision;
  mft ← build_new_mft signer now revision (manifest_entries crl published_objects) signing_cert;
  Ok (mkKeyObjectSet signing_cert revision revocations (published_manifest mft) crl published_objects old_repo).

Definition set_create (timing : IssuanceTimingConfig) (now : Instant) (signer : ObjectSigner) (key : CertifiedKey)
    : KrillResult KeyObjectSet :=
  let signing_cert := ck_incoming_cert key in
  sign_set signer now signing_cert (revision_create timing now (draw_jitter signer (cert_key_identifier signing_cert) 1)) [] ∅ None.

Definition set_reissue (timing : IssuanceTimingConfig) (now : Instant) (signer : ObjectSigner) (self : KeyObjectSet)
    : KrillResult KeyObjectSet :=
  let signing_cert := ks_signing_cert self in
  let jitter := draw_jitter signer (cert_key_identifier signing_cert) (u64_succ (rn_number (ks_revision self))) in
  sign_set signer now signing_cert (revision_next timing now jitter (ks_revision self)) (purge now (ks_revocations self))
    (ks_published_objects self) (ks_old_repo self).

Definition requires_reissuance (now : Instant) (before : Z) (self : KeyObjectSet) : bool :=
  bool_decide (now > rn_next_update (ks_revision self) - hours before)%Z.

Definition update_signing_cert (self : KeyObjectSet) (cert : CertInfo) : KrillResult KeyObjectSet :=
  if bool_decide (cert_key_identifier (ks_signing_cert self) = cert_key_identifier cert)
  then Ok (mkKeyObjectSet cert (ks_revision self) (ks_revocations self) (ks_manifest self) (ks_crl self)
             (ks_published_objects self) (ks_old_repo self))
  else Err (PublishingObjects "received new cert for unknown key id").

(** [published_objects.insert] and [remove], with a revocation of what was there. *)
Definition publish_object (now : Instant) (self : KeyObjectSet) (name : string) (item : PublishedItem) : KeyObjectSet :=
  with_objects self
    (match ks_published_objects self !! name with
     | Some old => revocations_add (ks_revocations self) (item_revoke now old)
     | None => ks_revocations self
     end) (<[name := item]> (ks_published_objects self)).
Definition withdraw_object (now : Instant) (self : KeyObjectSet) (name : string) : KeyObjectSet :=
  with_objects self
    (match ks_published_objects self !! name with
     | Some old => revocations_add (ks_revocations self) (item_revoke now old)
     | None => ks_revocations self
     end) (delete name (ks_published_objects self)).

(** [RoaUpdates::added_roas] and [removed_roas] *)
Definition added_roas (u : RoaUpdates (Roa := Roa)) : gmap string (RoaInfo (Roa := Roa)) :=
  let res := foldl (λ res '(auth, info), <[roa_name hex_encode auth := info]> res) ∅ (hm_iter (ru_updated u)) in
  foldl (λ res '(key, info), <[aggregate_name key := info]> res) res (hm_iter (ru_aggregate_updated u)).
Definition removed_roas (u : RoaUpdates (Roa := Roa)) : list string :=
  (roa_name hex_encode <$> ru_removed u) ++ (aggregate_name <$> ru_aggregate_removed u).

Section updates.
Variable (now : Instant).

Definition set_update_roas (self : KeyObjectSet) (u : RoaUpdates (Roa := Roa)) : KeyObjectSet :=
  let self := foldl (λ s '(name, info), publish_object now s name (for_roa name info)) self (hm_iter (added_roas u)) in
  foldl (withdraw_object now) self (removed_roas u).

Definition set_update_aspas (self : KeyObjectSet) (u : AspaObjectsUpdates) : KeyObjectSet :=
  let self := foldl (λ s info,
    let name := aspa_name (aspa_customer (ai_definition info)) in
    publish_object now s name (for_aspa name info)) self (au_updated u) in
  foldl (λ s customer, withdraw_object now s (aspa_name customer)) self (au_removed u).

Definition set_update_bgpsec_certs (self : KeyObjectSet) (u : BgpSecCertificateUpdates) : KeyObjectSet :=
  let self := foldl (λ s info, publish_object now s (bgpsec_info_name info) (for_bgpsec_cert_info info)) self (bu_updated u) in
  foldl (λ s key, withdraw_object now s (bgpsec_name (ak_router_asn key) (ak_router_key key))) self (bu_removed u).

Definition unsuspend_cert (s : KeyObjectSet) (cert : CertInfo) : KeyObjectSet :=
  let s := with_objects s (revocations_remove (ks_revocations s) (cert_revocation now cert)) (ks_published_objects s) in
  publish_object now s (cert_name cert) (for_cert_info cert).

Definition set_update_certs (self : KeyObjectSet) (u : ChildCertificateUpdates) : KeyObjectSet :=
  let self := foldl (λ s removed, withdraw_object now s (object_name removed "cer")) self (cu_removed u) in
  let self := foldl (λ s issued, publish_object now s (cert_name issued) (for_cert_info issued)) self (cu_issued u) in
  let self := foldl unsuspend_cert self (cu_unsuspended u) in
  foldl (λ s suspended, withdraw_object now s (cert_name suspended)) self (cu_suspended u).

Definition retire (self : KeyObjectSet) : KeyObjectSet :=
  let revocations := foldl (λ rs object, revocations_add rs (item_revoke now object)) (ks_revocations self)
                       (hm_values (ks_published_objects self)) in
  with_objects self (purge now revocations) ∅.
End updates.

Definition set_set_old_repo (repo : RepositoryContact) (self : KeyObjectSet) : KeyObjectSet :=
  mkKeyObjectSet (ks_signing_cert self) (ks_revision self) (ks_revocations self) (ks_manifest self) (ks_crl self)
    (ks_published_objects self) (Some repo).

(** ** [ResourceClassObjects] *)

(** [ResourceClassKeyState], with the sets in the order of the source's fields. *)
Inductive ResourceClassKeyState :=
| KeysCurrent (current_set : KeyObjectSet)
| KeysStaging (staging_set current_set : KeyObjectSet)
| KeysOld (current_set old_set : KeyObjectSet).

Definition keys_current_set (keys : ResourceClassKeyState) : KeyObjectSet :=
  match keys with KeysCurrent current | KeysStaging _ current | KeysOld current _ => current end.
Definition update_current (f : KeyObjectSet → KeyObjectSet) (keys : ResourceClassKeyState) : ResourceClassKeyState :=
  match keys with
  | KeysCurrent current => KeysCurrent (f current)
  | KeysStaging staging current => KeysStaging staging (f current)
  | KeysOld current old => KeysOld (f current) old
  end.
Definition wrong_key_state : CaError := PublishingObjects "published resource class in the wrong key state".

Section classes.
Variable (timing : IssuanceTimingConfig) (now : Instant) (signer : ObjectSigner).

Definition class_objects_create (key : CertifiedKey) : KrillResult ResourceClassKeyState :=
  current_set ← set_create timing now signer key;
  Ok (KeysCurrent current_set).
Definition class_keyroll_stage (keys : ResourceClassKeyState) (key : CertifiedKey) : KrillResult ResourceClassKeyState :=
  match keys with
  | KeysCurrent current_set => staging_set ← set_create timing now signer key; Ok (KeysStaging staging_set current_set)
  | _ => Err wrong_key_state
  end.
Definition class_objects_activate (keys : ResourceClassKeyState) : KrillResult ResourceClassKeyState :=
  match keys with
  | KeysStaging staging current => Ok (KeysOld staging (retire now current))
  | _ => Err wrong_key_state
  end.
(** Also the repository of the old key if it had one of its own. *)
Definition class_objects_finish (keys : ResourceClassKeyState) : KrillResult (ResourceClassKeyState * option RepositoryContact) :=
  match keys with
  | KeysOld current old => Ok (KeysCurrent current, ks_old_repo old)
  | _ => Err wrong_key_state
  end.
Definition class_objects_received_cert (keys : ResourceClassKeyState) (cert : CertInfo) : KrillResult ResourceClassKeyState :=
  match keys with
  | KeysCurrent current => KeysCurrent <$> update_signing_cert current cert
  | KeysStaging staging current =>
      match update_signing_cert staging cert with
      | Ok staging => Ok (KeysStaging staging current)
      | Err _ => KeysStaging staging <$> update_signing_cert current cert
      end
  | KeysOld current old =>
      match update_signing_cert old cert with
      | Ok old => Ok (KeysOld current old)
      | Err _ => current ← update_signing_cert current cert; Ok (KeysOld current old)
      end
  end.
Definition requires_re_issuance (before : Z) (keys : ResourceClassKeyState) : bool :=
  match keys with
  | KeysCurrent current => requires_reissuance now before current
  | KeysOld current old => requires_reissuance now before old || requires_reissuance now before current
  | KeysStaging staging current => requires_reissuance now before staging || requires_reissuance now before current
  end.
Definition class_next_update_time (keys : ResourceClassKeyState) : Instant := rn_next_update (ks_revision (keys_current_set keys)).
Definition class_reissue (keys : ResourceClassKeyState) : KrillResult ResourceClassKeyState :=
  match keys with
  | KeysCurrent current => KeysCurrent <$> set_reissue timing now signer current
  | KeysStaging staging current =>
      staging ← set_reissue timing now signer staging;
      KeysStaging staging <$> set_reissue timing now signer current
  | KeysOld current old =>
      old ← set_reissue timing now signer old;
      current ← set_reissue timing now signer current;
      Ok (KeysOld current old)
  end.
End classes.

Definition objects_set_old_repo (repo : RepositoryContact) (keys : ResourceClassKeyState) : ResourceClassKeyState :=
  match keys with
  | KeysCurrent current => KeysCurrent (set_set_old_repo repo current)
  | KeysStaging staging current => KeysStaging (set_set_old_repo repo staging) (set_set_old_repo repo current)
  | KeysOld current old => KeysOld (set_set_old_repo repo current) (set_set_old_repo repo old)
  end.
Definition class_has_old_repo (repo : RepositoryContact) (keys : ResourceClassKeyState) : bool :=
  match keys with
  | KeysCurrent current => bool_decide (ks_old_repo current = Some repo)
  | KeysStaging staging current => bool_decide (ks_old_repo staging = Some repo) || bool_decide (ks_old_repo current = Some repo)
  | KeysOld current old => bool_decide (ks_old_repo old = Some repo) || bool_decide (ks_old_repo current = Some repo)
  end.
Definition class_old_repo (keys : ResourceClassKeyState) : option RepositoryContact :=
  match keys with
  | KeysCurrent current => ks_old_repo current
  | KeysStaging staging current => match ks_old_repo staging with Some repo => Some repo | None => ks_old_repo current end
  | KeysOld current old => match ks_old_repo old with Some repo => Some repo | None => ks_old_repo current end
  end.

(** ** Elements for the repositories *)

(** [entry(repo).or_insert_with(Vec::new)], then [push]. *)
Fixpoint add_to_repo (map : RepoElements) (repo : RepositoryContact) (elements : list PublishElement) : RepoElements :=
  match map with
  | [] => [(repo, elements)]
  | (r, es) :: map => if decide (r = repo) then (r, es ++ elements) :: map else (r, es) :: add_to_repo map repo elements
  end.
Definition set_elements (self : KeyObjectSet) : list PublishElement :=
  [publish_element (ks_manifest self) (mft_uri (ks_signing_cert self)); publish_element (ks_crl self) (crl_uri (ks_signing_cert self))]
  ++ ((λ '(name, object), mkPublishElement (it_base64 object) (uri_for_name (ks_signing_cert self) name))
        <$> hm_iter (ks_published_objects self)).
Definition set_add_elements (dflt_repo : RepositoryContact) (map : RepoElements) (self : KeyObjectSet) : RepoElements :=
  add_to_repo map (default dflt_repo (ks_old_repo self)) (set_elements self).
Definition class_sets (keys : ResourceClassKeyState) : list KeyObjectSet :=
  match keys with
  | KeysCurrent current => [current]
  | KeysStaging staging current => [current; staging]
  | KeysOld current old => [current; old]
  end.
Definition class_add_elements (dflt_repo : RepositoryContact) (map : RepoElements) (keys : ResourceClassKeyState) : RepoElements :=
  foldl (set_add_elements dflt_repo) map (class_sets keys).
End objects.
