(* ===== verification/CaObjectsStore.v ===== *)
(** * The objects of a CA and their store ([src/src/daemon/ca/publishing.rs])

    [CaObjects] with one operation per kind of event, the listener that the aggregate store calls
    before the events of a command are saved, and the periodic re-issuance. *)

From stdpp Require Import base gmap strings list pretty.
From S2P Require Import Prelude Rpki Rrdp Roas Routes EventSourcing CaCerts CaEvents CaKeys CaChildren CaProducts CaClass CertAuth CaObjects.

Section store.
Context `{PA : !PrefixApi, RP : !Rpki, CA : !CaApi, PU : !PubApi, HO : !HashOrder}.

(** ** [CaObjects] *)

Record DeprecatedRepository := mkDeprecated { dr_contact : RepositoryContact; dr_clean_attempts : N }.
Definition inc_clean_attempts (self : DeprecatedRepository) : DeprecatedRepository :=
  mkDeprecated (dr_contact self) (u64_succ (dr_clean_attempts self)).

Record CaObjects := mkCaObjects {
  co_ca : string;
  co_repo : option RepositoryContact;
  co_classes : gmap string ResourceClassKeyState;
  co_deprecated_repos : list DeprecatedRepository;
}.
Definition ca_objects_empty (ca : string) : CaObjects := mkCaObjects ca None ∅ [].
Definition with_classes (self : CaObjects) (classes : gmap string ResourceClassKeyState) : CaObjects :=
  mkCaObjects (co_ca self) (co_repo self) classes (co_deprecated_repos self).

Definition repo_elements_map (self : CaObjects) : RepoElements :=
  match co_repo self with
  | Some repo => foldl (class_add_elements repo) [(repo, [])] (hm_values (co_classes self))
  | None => []
  end.
Definition all_publish_elements (self : CaObjects) : list PublishElement := concat (repo_elements_map self).*2.
(** [Timestamp::from] drops the fraction of a second. *)
Definition closest_next_update (self : CaObjects) : option Z :=
  foldl (λ closest keys,
    let rco_time := (class_next_update_time keys / seconds 1)%Z in
    match closest with
    | Some current_closest => if bool_decide (current_closest > rco_time)%Z then Some rco_time else closest
    | None => Some rco_time
    end) None (hm_values (co_classes self)).

Definition deprecated_repo_remove (self : CaObjects) (to_remove : RepositoryContact) : CaObjects :=
  mkCaObjects (co_ca self) (co_repo self) (co_classes self) (filter (λ current, dr_contact current ≠ to_remove) (co_deprecated_repos self)).
Definition deprecated_repo_inc_clean_attempts (self : CaObjects) (contact : RepositoryContact) : CaObjects :=
  mkCaObjects (co_ca self) (co_repo self) (co_classes self)
    ((λ current, if decide (dr_contact current = contact) then inc_clean_attempts current else current) <$> co_deprecated_repos self).

Definition has_old_repo (self : CaObjects) (old_repo : RepositoryContact) : bool :=
  existsb (class_has_old_repo old_repo) (hm_values (co_classes self)).
Definition deprecate_repo_if_no_longer_used (self : CaObjects) (old_repo : RepositoryContact) : CaObjects :=
  if has_old_repo self old_repo then self
  else mkCaObjects (co_ca self) (co_repo self) (co_classes self) (co_deprecated_repos self ++ [mkDeprecated old_repo 0]).

Definition get_class_mut (self : CaObjects) (rcn : string) : KrillResult ResourceClassKeyState :=
  ok_or (co_classes self !! rcn) (PublishingObjects "Missing resource class").
(** An operation on the objects of a class. *)
Definition on_class_objects (self : CaObjects) (rcn : string) (f : ResourceClassKeyState → KrillResult ResourceClassKeyState)
    : KrillResult CaObjects :=
  keys ← get_class_mut self rcn;
  keys ← f keys;
  Ok (with_classes self (<[rcn := keys]> (co_classes self))).

Section operations.
Variable (timing : IssuanceTimingConfig) (now : Instant) (signer : ObjectSigner).

Definition add_class (self : CaObjects) (class_name : string) (key : CertifiedKey) : KrillResult CaObjects :=
  if bool_decide (is_Some (co_classes self !! class_name)) then Err (PublishingObjects "Duplicate resource class")
  else keys ← class_objects_create timing now signer key; Ok (with_classes self (<[class_name := keys]> (co_classes self))).

Definition remove_class (self : CaObjects) (class_name : string) : CaObjects :=
  let old_repo_opt := co_classes self !! class_name ≫= class_old_repo in
  let self := with_classes self (delete class_name (co_classes self)) in
  match old_repo_opt with
  | Some old_repo => deprecate_repo_if_no_longer_used self old_repo
  | None => self
  end.

Definition objects_keyroll_stage (self : CaObjects) (rcn : string) (key : CertifiedKey) : KrillResult CaObjects :=
  on_class_objects self rcn (λ keys, class_keyroll_stage timing now signer keys key).
Definition objects_keyroll_activate (self : CaObjects) (rcn : string) : KrillResult CaObjects :=
  on_class_objects self rcn (class_objects_activate now).
Definition objects_keyroll_finish (self : CaObjects) (rcn : string) : KrillResult CaObjects :=
  keys ← get_class_mut self rcn;
  finished ← class_objects_finish keys;
  let self := with_classes self (<[rcn := finished.1]> (co_classes self)) in
  Ok (match finished.2 with
      | Some old_repo => deprecate_repo_if_no_longer_used self old_repo
      | None => self
      end).
(** [update_roas], [update_aspas], [update_bgpsec_certs] and [update_certs], in the current set. *)
Definition on_current_set (self : CaObjects) (rcn : string) (f : KeyObjectSet → KeyObjectSet) : KrillResult CaObjects :=
  on_class_objects self rcn (λ keys, Ok (update_current f keys)).
Definition objects_received_cert (self : CaObjects) (rcn : string) (cert : CertInfo) : KrillResult CaObjects :=
  on_class_objects self rcn (λ keys, class_objects_received_cert keys cert).

(** Whether anything was re-issued. *)
Definition objects_re_issue (force : bool) (self : CaObjects) : KrillResult (CaObjects * bool) :=
  fold_each (λ st '(rcn, keys),
    if force || requires_re_issuance now (timing_publish_hours_before_next timing) keys
    then keys ← class_reissue timing now signer keys; Ok (with_classes st.1 (<[rcn := keys]> (co_classes st.1)), true)
    else Ok st) (self, false) (hm_iter (co_classes self)).

Definition objects_update_repo (self : CaObjects) (repo : RepositoryContact) : CaObjects :=
  mkCaObjects (co_ca self) (Some repo)
    (match co_repo self with Some old => objects_set_old_repo old <$> co_classes self | None => co_classes self end)
    (co_deprecated_repos self).

(** ** The listener *)

(** One event: the objects, and whether they must be re-issued. *)
Definition listen_event (st : CaObjects * bool) (event : CaEvent) : KrillResult (CaObjects * bool) :=
  let '(objects, force_reissue) := st in
  match event with
  | RoasUpdated rcn updates => objects ← on_current_set objects rcn (λ s, set_update_roas now s updates); Ok (objects, true)
  | AspaObjectsUpdated rcn updates => objects ← on_current_set objects rcn (λ s, set_update_aspas now s updates); Ok (objects, true)
  | BgpSecCertificatesUpdated rcn updates =>
      objects ← on_current_set objects rcn (λ s, set_update_bgpsec_certs now s updates); Ok (objects, true)
  | ChildCertificatesUpdated rcn updates => objects ← on_current_set objects rcn (λ s, set_update_certs now s updates); Ok (objects, true)
  | KeyPendingToActive rcn current_key => objects ← add_class objects rcn current_key; Ok (objects, force_reissue)
  | KeyPendingToNew rcn new_key => objects ← objects_keyroll_stage objects rcn new_key; Ok (objects, force_reissue)
  | KeyRollActivated rcn _ => objects ← objects_keyroll_activate objects rcn; Ok (objects, true)
  | KeyRollFinished rcn => objects ← objects_keyroll_finish objects rcn; Ok (objects, force_reissue)
  | CertificateReceived rcn rcvd_cert _ => objects ← objects_received_cert objects rcn rcvd_cert; Ok (objects, force_reissue)
  | ResourceClassRemoved rcn _ _ => Ok (remove_class objects rcn, true)
  | RepoUpdated contact => Ok (objects_update_repo objects contact, true)
  | _ => Ok (objects, force_reissue)
  end.

Definition listen_objects (objects : CaObjects) (events : list CaEvent) : KrillResult CaObjects :=
  st ← fold_each listen_event (objects, false) events;
  st ← objects_re_issue st.2 st.1;
  Ok st.1.
End operations.

(** ** [CaObjectsStore]

    The objects of a CA are stored under its handle. *)
Definition CaObjectsStore : Type := gmap string CaObjects.

Definition ca_objects (self : CaObjectsStore) (ca : string) : CaObjects := default (ca_objects_empty ca) (self !! ca).
(** The objects are stored only if the operation succeeds. *)
Definition with_ca_objects {A} (self : CaObjectsStore) (ca : string) (op : CaObjects → KrillResult (CaObjects * A))
    : KrillResult (CaObjectsStore * A) :=
  res ← op (ca_objects self ca);
  Ok (<[ca := res.1]> self, res.2).
Definition put_ca_objects (self : CaObjectsStore) (ca : string) (objects : CaObjects) : CaObjectsStore := <[ca := objects]> self.

Definition listen (timing : IssuanceTimingConfig) (now : Instant) (signer : ObjectSigner) (self : CaObjectsStore)
    (ca : CertAuth) (events : list CaEvt) : KrillResult (CaObjectsStore * unit) :=
  with_ca_objects self (ca_handle ca) (λ objects,
    objects ← listen_objects timing now signer objects (ev_details <$> events); Ok (objects, tt)).

(** Re-issuance for all CAs, and those for which anything was re-issued: after an error the CAs
    before it keep what was stored for them. *)
Fixpoint reissue_cas (timing : IssuanceTimingConfig) (now : Instant) (signer : ObjectSigner) (force : bool)
    (self : CaObjectsStore) (cas : list string) (res : list string) : CaObjectsStore * KrillResult (list string) :=
  match cas with
  | [] => (self, Ok res)
  | ca :: cas =>
      match with_ca_objects self ca (objects_re_issue timing now signer force) with
      | Ok (self, required) => reissue_cas timing now signer force self cas (if required then res ++ [ca] else res)
      | Err e => (self, Err e)
      end
  end.
Definition reissue_all (timing : IssuanceTimingConfig) (now : Instant) (signer : ObjectSigner) (force : bool)
    (self : CaObjectsStore) : CaObjectsStore * KrillResult (list string) :=
  reissue_cas timing now signer force self (hm_keys self) [].
End store.
