(* ===== verification/CaObjectsFacts.v ===== *)
(** * Lemmas on the published objects of CAs *)

From stdpp Require Import base gmap strings list.
From S2P Require Import Prelude Rpki Rrdp Roas Routes EventSourcing CaCerts CaEvents CaKeys CaChildren CaProducts CaClass CertAuth CaObjects CaObjectsStore CaFacts.

Section facts.
Context `{PA : !PrefixApi, RP : !Rpki, CA : !CaApi, PU : !PubApi, HO : !HashOrder}.

(** ** What relying parties read

    CRLs and manifests are read from what is published; a signer signs what it is given. *)
Class ReadsObjects : Type := {
  read_crl : Base64 → option TbsCertList;
  read_mft : Base64 → option ManifestContent;
}.
Class ObjectSignerOk `{RO : !ReadsObjects} (signer : ObjectSigner) : Prop := {
  sign_crl_reads : ∀ tbs k crl, sign_crl signer tbs k = Ok crl →
    read_crl (crl_base64 crl) = Some tbs ∧ crl_authority_key_identifier crl = tcl_aki tbs;
  sign_manifest_reads : ∀ content builder k mft, sign_manifest signer content builder k = Ok mft →
    read_mft (mft_base64 mft) = Some content;
}.
Context `{RO : !ReadsObjects}.

(** ** Sets that are signed *)

Definition set_key (s : KeyObjectSet) : KeyIdentifier := cert_key_identifier (ks_signing_cert s).
Definition item_hashed (o : PublishedItem) : Prop := it_hash o = to_hash (it_base64 o).
Definition set_hashed (s : KeyObjectSet) : Prop := map_Forall (λ _ o, item_hashed o) (ks_published_objects s).

(** The CRL revokes what is revoked and the manifest lists the objects and the CRL, each with its
    hash, both for the revision of the set. *)
Definition set_signed (s : KeyObjectSet) : Prop :=
  ∃ crl mft, read_crl (it_base64 (ks_crl s)) = Some crl ∧ read_mft (it_base64 (ks_manifest s)) = Some mft
    ∧ tcl_aki crl = set_key s ∧ tcl_entries crl = to_crl_entries (ks_revocations s)
    ∧ tcl_number crl = serial_from (rn_number (ks_revision s)) ∧ mc_number mft = serial_from (rn_number (ks_revision s))
    ∧ tcl_next_update crl = rn_next_update (ks_revision s) ∧ mc_next_update mft = rn_next_update (ks_revision s)
    ∧ NoDup (mc_entries mft).*1
    ∧ ∀ name h, (name, h) ∈ mc_entries mft ↔
        match ks_published_objects s !! name with
        | Some o => h = to_hash (it_base64 o)
        | None => name = crl_for_key (set_key s) ∧ h = to_hash (it_base64 (ks_crl s))
        end.

Lemma manifest_entries_lookup crl objects name :
  manifest_entries crl objects !! name =
  match objects !! name with
  | Some o => Some (it_hash o)
  | None => if decide (name = it_name crl) then Some (it_hash crl) else None
  end.
Proof.
  unfold manifest_entries.
  assert (∀ (l : list (string * PublishedItem)) (m : gmap string Hash), NoDup l.*1 →
    foldl (λ entries '(name, object), <[name := it_hash object]> entries) m l !! name =
    match (list_to_map l : gmap string PublishedItem) !! name with Some o => Some (it_hash o) | None => m !! name end) as Hl.
  { induction l as [|[k o] l IH]; intros m Hnd; [simpl; by rewrite lookup_empty|]. apply NoDup_cons in Hnd as [Hk Hnd]. simpl.
    rewrite IH by done. destruct (decide (name = k)) as [->|Hne].
    - rewrite !lookup_insert_eq. simpl in Hk. apply (not_elem_of_list_to_map (M := gmap string)) in Hk. by rewrite Hk.
    - by rewrite !lookup_insert_ne. }
  rewrite Hl by apply NoDup_hm_keys.
  assert ((list_to_map (hm_iter objects) : gmap string PublishedItem) = objects) as ->.
  { rewrite (list_to_map_proper _ (map_to_list objects)); [apply list_to_map_to_list|apply NoDup_hm_keys|apply hm_iter_perm]. }
  destruct (objects !! name); [done|]. rewrite lookup_singleton. case_decide; by case_decide.
Qed.

Lemma sign_set_signed signer now cert revision revocations objects repo s :
  ObjectSignerOk signer → map_Forall (λ _ o, item_hashed o) objects →
  sign_set signer now cert revision revocations objects repo = Ok s →
  set_signed s ∧ set_hashed s ∧ set_key s = cert_key_identifier cert ∧ ks_revision s = revision
  ∧ ks_revocations s = revocations ∧ ks_published_objects s = objects ∧ ks_old_repo s = repo.
Proof.
  intros HS Hh. unfold sign_set, build_crl, build_new_mft. intros H. inv_ok.
  destruct (sign_crl signer _ _) as [c|] eqn:Hc; [|done]. simplify_eq/=.
  destruct (draw_serial signer _ _) as [sn|] eqn:Hsn; [|done]. simplify_eq/=.
  destruct (sign_manifest signer _ _ _) as [m|] eqn:Hm; [|done]. simplify_eq/=.
  apply sign_crl_reads in Hc as [Hc Hcaki]. apply sign_manifest_reads in Hm. simpl in Hcaki.
  split; [|done]. do 2 eexists. split; [done|]. split; [done|]. repeat (split; [done|]). split; [apply NoDup_hm_keys|].
  intros name h. simpl. rewrite elem_of_hm_iter, manifest_entries_lookup. simpl. rewrite Hcaki.
  destruct (objects !! name) as [o|] eqn:Ho.
  - pose proof (Hh _ _ Ho) as Hoh. unfold item_hashed in Hoh. rewrite Hoh. naive_solver.
  - case_decide; naive_solver.
Qed.

(** ** Editing a set: the objects that were published or revoked stay known, unless expired *)

Definition known (s : KeyObjectSet) (serial : Serial) (expires : Instant) : Prop :=
  (∃ name o, ks_published_objects s !! name = Some o ∧ it_serial o = serial ∧ it_expires o = expires)
  ∨ ∃ r, r ∈ ks_revocations s ∧ rv_serial r = serial ∧ rv_expires r = expires.
Definition remembers (now : Instant) (s s' : KeyObjectSet) : Prop :=
  set_key s' = set_key s ∧ ∀ serial expires, known s serial expires → known s' serial expires ∨ (expires ≤ now)%Z.
Definition edits (now : Instant) (s s' : KeyObjectSet) : Prop :=
  remembers now s s' ∧ (set_hashed s → set_hashed s') ∧ ks_revision s' = ks_revision s ∧ ks_manifest s' = ks_manifest s
  ∧ ks_crl s' = ks_crl s.

Lemma remembers_refl now s : remembers now s s.
Proof. split; auto. Qed.
Lemma remembers_trans now s1 s2 s3 : remembers now s1 s2 → remembers now s2 s3 → remembers now s1 s3.
Proof.
  intros [Hk1 H1] [Hk2 H2]. split; [congruence|]. intros serial expires [H|]%H1; [|by right]. by apply H2.
Qed.
Lemma edits_refl now s : edits now s s.
Proof. split; [apply remembers_refl|]. auto. Qed.
Lemma edits_trans now s1 s2 s3 : edits now s1 s2 → edits now s2 s3 → edits now s1 s3.
Proof.
  intros (Hr1&Hh1&?&?&?) (Hr2&Hh2&?&?&?). split; [by eapply remembers_trans|]. split; [auto|]. split_and!; congruence.
Qed.
Lemma foldl_edits {A} now (f : KeyObjectSet → A → KeyObjectSet) s l :
  (∀ s x, edits now s (f s x)) → edits now s (foldl f s l).
Proof.
  intros Hf. revert s. induction l as [|x l IH]; intros s; [apply edits_refl|]. eapply edits_trans; [apply Hf|apply IH].
Qed.

Section edits.
Variable (now : Instant).

Lemma publish_edits s name item : item_hashed item → edits now s (publish_object now s name item).
Proof.
  intros Hi. split; [split; [done|]|split_and!; try done].
  - intros serial expires Hkn. left. unfold publish_object, known. simpl. destruct Hkn as [(n&o&Ho&<-&<-)|(r&Hr&<-&<-)].
    + destruct (decide (n = name)) as [->|Hne].
      * right. rewrite Ho. exists (item_revoke now o). split; [|done]. apply elem_of_app. right. by left.
      * left. exists n, o. split; [|done]. by rewrite lookup_insert_ne.
    + right. exists r. split; [|done]. case_match; [apply elem_of_app; by left|done].
  - intros Hh. by apply map_Forall_insert_2.
Qed.
Lemma withdraw_edits s name : edits now s (withdraw_object now s name).
Proof.
  split; [split; [done|]|split_and!; try done].
  - intros serial expires Hkn. left. unfold withdraw_object, known. simpl. destruct Hkn as [(n&o&Ho&<-&<-)|(r&Hr&<-&<-)].
    + destruct (decide (n = name)) as [->|Hne].
      * right. rewrite Ho. exists (item_revoke now o). split; [|done]. apply elem_of_app. right. by left.
      * left. exists n, o. split; [|done]. by rewrite lookup_delete_ne.
    + right. exists r. split; [|done]. case_match; [apply elem_of_app; by left|done].
  - intros Hh. by apply map_Forall_delete.
Qed.
Lemma item_hashed_new name base64 serial expires : item_hashed (published_item name base64 serial expires).
Proof. done. Qed.

(** The revocation that is taken back is that of the certificate that is published. *)
Lemma unsuspend_edits s cert : edits now s (unsuspend_cert now s cert).
Proof.
  split; [split; [done|]|split_and!; try done].
  - intros serial expires Hkn. left. unfold unsuspend_cert, publish_object, known. simpl.
    destruct Hkn as [(n&o&Ho&<-&<-)|(r&Hr&<-&<-)].
    + destruct (decide (n = cert_name cert)) as [->|Hne].
      * right. rewrite Ho. exists (item_revoke now o). split; [|done]. apply elem_of_app. right. by left.
      * left. exists n, o. split; [|done]. by rewrite lookup_insert_ne.
    + destruct (decide (r = cert_revocation now cert)) as [->|Hne].
      * left. exists (cert_name cert), (for_cert_info cert). split; [apply lookup_insert_eq|done].
      * right. exists r. split; [|done].
        assert (r ∈ revocations_remove (ks_revocations s) (cert_revocation now cert)) by (by apply list_elem_of_filter).
        case_match; [apply elem_of_app; by left|done].
  - intros Hh. by apply map_Forall_insert_2.
Qed.

Lemma update_roas_edits s u : edits now s (set_update_roas now s u).
Proof.
  eapply edits_trans; [|apply foldl_edits; intros; apply withdraw_edits].
  apply foldl_edits. intros s' [name info]. by apply publish_edits.
Qed.
Lemma update_aspas_edits s u : edits now s (set_update_aspas now s u).
Proof.
  eapply edits_trans; [|apply foldl_edits; intros; apply withdraw_edits]. apply foldl_edits. intros. by apply publish_edits.
Qed.
Lemma update_bgpsec_edits s u : edits now s (set_update_bgpsec_certs now s u).
Proof.
  eapply edits_trans; [|apply foldl_edits; intros; apply withdraw_edits]. apply foldl_edits. intros. by apply publish_edits.
Qed.
Lemma update_certs_edits s u : edits now s (set_update_certs now s u).
Proof.
  eapply edits_trans; [|apply foldl_edits; intros; apply withdraw_edits].
  eapply edits_trans; [|apply foldl_edits; intros; apply unsuspend_edits].
  eapply edits_trans; [|apply foldl_edits; intros; by apply publish_edits].
  apply foldl_edits. intros. apply withdraw_edits.
Qed.

Lemma foldl_add_revocations l (rs : list Revocation) r :
  r ∈ foldl (λ rs object, revocations_add rs (item_revoke now object)) rs l ↔ r ∈ rs ∨ ∃ o, o ∈ l ∧ r = item_revoke now o.
Proof.
  revert rs. induction l as [|o l IH]; intros rs; simpl; [set_solver|]. rewrite IH. unfold revocations_add. set_solver.
Qed.
Lemma retire_edits s : edits now s (retire now s).
Proof.
  split; [split; [done|]|split_and!; try done].
  intros serial expires Hkn. destruct (decide (expires > now)%Z) as [Hlater|]; [left|right; lia].
  right. simpl. unfold purge. destruct Hkn as [(n&o&Ho&<-&<-)|(r&Hr&<-&<-)].
  - exists (item_revoke now o). split; [|done]. apply list_elem_of_filter. split; [done|].
    apply foldl_add_revocations. right. exists o. split; [|done]. apply elem_of_hm_values. eauto.
  - exists r. split; [|done]. apply list_elem_of_filter. split; [done|]. apply foldl_add_revocations. by left.
Qed.
Lemma set_old_repo_edits s repo : edits now s (set_set_old_repo repo s).
Proof. split; [split; [done|auto]|done]. Qed.
Lemma update_signing_cert_edits s cert s' : update_signing_cert s cert = Ok s' → edits now s s' ∧ (set_signed s → set_signed s').
Proof.
  unfold update_signing_cert. case_bool_decide as Hk; [|done]. intros [= <-]. split.
  - split; [split; [done|auto]|done].
  - unfold set_signed, set_key in *. simpl. by rewrite Hk.
Qed.
End edits.

(** What was stored last is read back. *)
Lemma ca_objects_put (self : CaObjectsStore) ca objects : ca_objects (put_ca_objects self ca objects) ca = objects.
Proof. unfold ca_objects, put_ca_objects. by rewrite (lookup_insert_eq (M := gmap string) self ca objects). Qed.
End facts.
