(* ===== verification/CaListenFacts.v ===== *)
(** * Lemmas on the listener: what events and re-issuance do to the sets of objects *)

From stdpp Require Import base gmap strings list.
From S2P Require Import Prelude Rpki Rrdp Roas Routes EventSourcing CaCerts CaEvents CaKeys CaChildren CaProducts CaClass CertAuth CaObjects CaObjectsStore CaFacts CaObjectsFacts.

Section facts.
Context `{PA : !PrefixApi, RP : !Rpki, CA : !CaApi, PU : !PubApi, HO : !HashOrder, RO : !ReadsObjects}.
Context (timing : IssuanceTimingConfig) (now : Instant) (signer : ObjectSigner) `{SO : !ObjectSignerOk signer}.

(** ** Sets in order: hashed, and signed unless they are about to be re-issued *)

Definition set_good (force : bool) (s : KeyObjectSet) : Prop := set_hashed s ∧ (force = false → set_signed s).
Definition class_good (force : bool) (keys : ResourceClassKeyState) : Prop := Forall (set_good force) (class_sets keys).
Definition objects_good (st : CaObjects * bool) : Prop := map_Forall (λ _, class_good st.2) (co_classes st.1).

(** The sets of a class go on. *)
Definition class_cont (keys keys' : ResourceClassKeyState) : Prop :=
  Forall (λ s, Exists (edits now s) (class_sets keys')) (class_sets keys).

Lemma set_good_force force s : set_good force s → set_good true s.
Proof. by intros [??]. Qed.
Lemma class_good_force force keys : class_good force keys → class_good true keys.
Proof. intros H. eapply Forall_impl; [exact H|]. apply set_good_force. Qed.

Lemma edits_good s s' force : edits now s s' → set_good force s → set_good true s'.
Proof. intros (_&Hh&_) [? _]. split; [auto|done]. Qed.

Lemma class_cont_refl keys : class_cont keys keys.
Proof. apply Forall_forall. intros s Hs. apply Exists_exists. exists s. split; [done|apply edits_refl]. Qed.
Lemma class_cont_trans keys1 keys2 keys3 : class_cont keys1 keys2 → class_cont keys2 keys3 → class_cont keys1 keys3.
Proof.
  intros H1 H2. eapply Forall_impl; [exact H1|]. intros s (s2&Hs2&He2)%Exists_exists.
  eapply Forall_forall in H2; [|exact Hs2]. apply Exists_exists in H2 as (s3&Hs3&He3).
  apply Exists_exists. exists s3. split; [done|]. by eapply edits_trans.
Qed.

Lemma create_good key s : set_create timing now signer key = Ok s → set_good false s.
Proof. intros (?&?&_)%sign_set_signed; [done|done|apply map_Forall_empty]. Qed.

Lemma update_current_goes (f : KeyObjectSet → KeyObjectSet) force keys :
  (∀ s, edits now s (f s)) → class_good force keys →
  class_good true (update_current f keys) ∧ class_cont keys (update_current f keys).
Proof.
  intros Hf Hg. unfold class_good, class_cont in *.
  destruct keys; simpl in *; rewrite ?Forall_cons, ?Exists_cons, ?Forall_nil, ?Exists_nil in *;
    destruct_and?; split_and?; eauto using edits_good, set_good_force, edits_refl.
Qed.

Lemma stage_goes force keys key keys' :
  class_good force keys → class_keyroll_stage timing now signer keys key = Ok keys' →
  class_good force keys' ∧ class_cont keys keys'.
Proof.
  destruct keys; simpl; try done. intros Hg H. inv_ok. apply create_good in H0 as [??].
  unfold class_good, class_cont, set_good in *. simpl in *. rewrite ?Forall_cons, ?Exists_cons, ?Forall_nil, ?Exists_nil in *.
  naive_solver eauto using edits_refl.
Qed.
Lemma activate_goes force keys keys' :
  class_good force keys → class_objects_activate now keys = Ok keys' → class_good true keys' ∧ class_cont keys keys'.
Proof.
  destruct keys as [|st cu|]; simpl; try done. intros Hg [= <-].
  unfold class_good, class_cont in *. simpl in *. rewrite ?Forall_cons, ?Exists_cons, ?Forall_nil, ?Exists_nil in *.
  pose proof (retire_edits now cu). destruct_and?. split_and?; eauto using edits_refl, set_good_force, edits_good.
Qed.
Lemma finish_goes force keys keys' repo :
  class_good force keys → class_objects_finish keys = Ok (keys', repo) → class_good force keys'.
Proof.
  destruct keys; simpl; try done. intros Hg [= <- _].
  unfold class_good in *. simpl in *. rewrite ?Forall_cons, ?Forall_nil in *. naive_solver.
Qed.
Lemma signing_cert_good force s cert s' : update_signing_cert s cert = Ok s' → set_good force s → set_good force s'.
Proof. intros [(_&Hh&_) Hs]%(update_signing_cert_edits now) [??]. split; auto. Qed.
Lemma received_goes force keys cert keys' :
  class_good force keys → class_objects_received_cert keys cert = Ok keys' → class_good force keys' ∧ class_cont keys keys'.
Proof.
  unfold class_good, class_cont.
  assert (∀ s s', update_signing_cert s cert = Ok s' → edits now s s') as He by (by intros ?? [? _]%(update_signing_cert_edits now)).
  destruct keys as [cu|st cu|cu ol]; simpl; intros Hg H.
  - destruct (update_signing_cert cu cert) eqn:Hc; simplify_eq/=.
    rewrite ?Forall_cons, ?Exists_cons, ?Forall_nil, ?Exists_nil in *. naive_solver eauto using signing_cert_good.
  - destruct (update_signing_cert st cert) eqn:Hst; simplify_eq/=.
    + rewrite ?Forall_cons, ?Exists_cons, ?Forall_nil, ?Exists_nil in *. naive_solver eauto using signing_cert_good, edits_refl.
    + destruct (update_signing_cert cu cert) eqn:Hc; simplify_eq/=.
      rewrite ?Forall_cons, ?Exists_cons, ?Forall_nil, ?Exists_nil in *. naive_solver eauto using signing_cert_good, edits_refl.
  - destruct (update_signing_cert ol cert) eqn:Hst; simplify_eq/=.
    + rewrite ?Forall_cons, ?Exists_cons, ?Forall_nil, ?Exists_nil in *. naive_solver eauto using signing_cert_good, edits_refl.
    + destruct (update_signing_cert cu cert) eqn:Hc; simplify_eq/=.
      rewrite ?Forall_cons, ?Exists_cons, ?Forall_nil, ?Exists_nil in *. naive_solver eauto using signing_cert_good, edits_refl.
Qed.
Lemma set_old_repo_goes force keys repo :
  class_good force keys → class_good true (objects_set_old_repo repo keys) ∧ class_cont keys (objects_set_old_repo repo keys).
Proof.
  unfold class_good, class_cont. intros Hg.
  destruct keys; simpl in *; rewrite ?Forall_cons, ?Exists_cons, ?Forall_nil, ?Exists_nil in *;
    destruct_and?; split_and?; eauto using set_old_repo_edits, edits_good.
Qed.

(** ** One event *)

(** Events that end a set of a class. *)
Definition ends_set (n : string) (e : CaEvent) : bool :=
  match e with
  | KeyRollFinished m => bool_decide (m = n)
  | ResourceClassRemoved m _ _ => bool_decide (m = n)
  | _ => false
  end.
Definition objects_cont (n : string) (objects objects' : CaObjects) : Prop :=
  ∀ keys, co_classes objects !! n = Some keys → ∃ keys', co_classes objects' !! n = Some keys' ∧ class_cont keys keys'.

Lemma objects_cont_refl n objects : objects_cont n objects objects.
Proof. intros keys Hk. exists keys. split; [done|apply class_cont_refl]. Qed.
Lemma objects_cont_trans n o1 o2 o3 : objects_cont n o1 o2 → objects_cont n o2 o3 → objects_cont n o1 o3.
Proof.
  intros H1 H2 keys Hk. destruct (H1 _ Hk) as (keys2&Hk2&Hc2). destruct (H2 _ Hk2) as (keys3&Hk3&Hc3).
  exists keys3. split; [done|]. by eapply class_cont_trans.
Qed.

Lemma objects_good_force objects force : objects_good (objects, force) → objects_good (objects, true).
Proof. intros H n keys Hk. eapply class_good_force. by apply (H n). Qed.

(** An operation on one class. *)
Lemma on_class_objects_goes objects force force' rcn f objects' :
  (force' = force ∨ force' = true) →
  (∀ keys keys', class_good force keys → f keys = Ok keys' → class_good force' keys' ∧ class_cont keys keys') →
  objects_good (objects, force) → on_class_objects objects rcn f = Ok objects' →
  objects_good (objects', force') ∧ ∀ n, objects_cont n objects objects'.
Proof.
  intros Hforce Hf Hg H. unfold on_class_objects, get_class_mut in H. inv_ok. rename x into keys, x0 into keys'.
  destruct (co_classes objects !! rcn) as [k|] eqn:Hrcn; simplify_eq/=.
  destruct (Hf keys keys') as [Hg' Hc']; [by eapply (Hg rcn)|done|]. split.
  - intros n k. simpl. destruct (decide (n = rcn)) as [->|Hne].
    + rewrite lookup_insert_eq. by intros [= <-].
    + rewrite lookup_insert_ne by done. intros Hk. specialize (Hg _ _ Hk). simpl in Hg.
      destruct Hforce as [->| ->]; [done|]. by eapply class_good_force.
  - intros n k Hk. simpl. destruct (decide (n = rcn)) as [->|Hne].
    + rewrite lookup_insert_eq. exists keys'. split; [done|]. by simplify_eq.
    + rewrite lookup_insert_ne by done. exists k. split; [done|apply class_cont_refl].
Qed.

Lemma on_current_set_goes objects force rcn f objects' :
  (∀ s, edits now s (f s)) → objects_good (objects, force) → on_current_set objects rcn f = Ok objects' →
  objects_good (objects', true) ∧ ∀ n, objects_cont n objects objects'.
Proof.
  intros Hf. apply on_class_objects_goes; [by right|]. intros keys keys' Hg [= <-]. by eapply update_current_goes.
Qed.

Lemma deprecate_classes objects repo : co_classes (deprecate_repo_if_no_longer_used objects repo) = co_classes objects.
Proof. unfold deprecate_repo_if_no_longer_used. by case_match. Qed.

Lemma add_class_goes objects force rcn key objects' :
  objects_good (objects, force) → add_class timing now signer objects rcn key = Ok objects' →
  objects_good (objects', force) ∧ ∀ n, objects_cont n objects objects'.
Proof.
  intros Hg. unfold add_class, class_objects_create. case_bool_decide as Hdup; [done|]. intros H. inv_ok.
  match goal with H : set_create _ _ _ _ = Ok _ |- _ => apply create_good in H as [Hh Hs] end. split.
  - apply map_Forall_insert_2; [|done]. repeat constructor; auto.
  - intros n k Hk. exists k. split; [|apply class_cont_refl]. simpl. rewrite lookup_insert_ne; [done|]. intros ->. apply Hdup. by rewrite Hk.
Qed.

Lemma finish_objects_goes objects force rcn objects' :
  objects_good (objects, force) → objects_keyroll_finish objects rcn = Ok objects' →
  objects_good (objects', force) ∧ ∀ n, n ≠ rcn → objects_cont n objects objects'.
Proof.
  intros Hg. unfold objects_keyroll_finish, get_class_mut. intros H. inv_ok. destruct x0 as [keys' repo].
  destruct (co_classes objects !! rcn) as [keys|] eqn:Hrcn; simplify_eq/=.
  assert (∀ o, co_classes o = <[rcn := keys']> (co_classes objects) →
    objects_good (o, force) ∧ ∀ n, n ≠ rcn → objects_cont n objects o) as Hgo.
  { intros o Ho. split.
    - unfold objects_good. simpl. rewrite Ho. apply map_Forall_insert_2; [|done]. eapply finish_goes; [by eapply (Hg rcn)|done].
    - intros n Hne k Hk. exists k. split; [|apply class_cont_refl]. by rewrite Ho, lookup_insert_ne. }
  apply Hgo. destruct repo; [by rewrite deprecate_classes|done].
Qed.

Lemma remove_class_goes objects force rcn :
  objects_good (objects, force) →
  objects_good (remove_class objects rcn, true) ∧ ∀ n, n ≠ rcn → objects_cont n objects (remove_class objects rcn).
Proof.
  intros Hg. assert (co_classes (remove_class objects rcn) = delete rcn (co_classes objects)) as Ho.
  { unfold remove_class. case_match; [by rewrite deprecate_classes|done]. }
  split.
  - unfold objects_good. simpl. rewrite Ho. apply map_Forall_delete. by apply objects_good_force in Hg.
  - intros n Hne k Hk. exists k. split; [|apply class_cont_refl]. by rewrite Ho, lookup_delete_ne.
Qed.

Lemma objects_update_repo_goes objects force repo :
  objects_good (objects, force) →
  objects_good (objects_update_repo objects repo, true) ∧ ∀ n, objects_cont n objects (objects_update_repo objects repo).
Proof.
  intros Hg. unfold objects_update_repo. destruct (co_repo objects) as [old|]; [|split; [by apply objects_good_force in Hg|]].
  - split.
    + intros n keys. simpl. rewrite lookup_fmap, fmap_Some. intros (k&Hk&->). eapply set_old_repo_goes. by eapply (Hg n).
    + intros n k Hk. simpl. rewrite lookup_fmap, Hk. simpl. eexists. split; [done|].
      apply (set_old_repo_goes force). by eapply (Hg n).
  - intros n k Hk. exists k. split; [done|apply class_cont_refl].
Qed.

Lemma listen_event_goes st e st' :
  objects_good st → listen_event timing now signer st e = Ok st' →
  objects_good st' ∧ ∀ n, ends_set n e = false → objects_cont n st.1 st'.1.
Proof.
  intros Hg H. destruct st as [objects force].
  destruct e; simpl in H; inv_ok; simpl;
    try (split; [done|intros n _; apply objects_cont_refl]).
  - destruct (on_current_set_goes objects force _ _ _ (λ s, update_certs_edits now s updates) Hg H0); auto.
  - destruct (remove_class_goes objects force resource_class_name Hg) as [? Hc]. split; [done|].
    intros n Hn%bool_decide_eq_false. by apply Hc.
  - destruct (on_class_objects_goes objects force force resource_class_name (λ keys, class_objects_received_cert keys rcvd_cert) x)
      as [??]; auto. intros. by eapply received_goes.
  - destruct (on_class_objects_goes objects force force resource_class_name (λ keys, class_keyroll_stage timing now signer keys new_key) x)
      as [??]; auto. intros. by eapply stage_goes.
  - destruct (add_class_goes objects force _ _ _ Hg H0); auto.
  - destruct (on_class_objects_goes objects force true resource_class_name (class_objects_activate now) x) as [??]; auto.
    intros. by eapply activate_goes.
  - destruct (finish_objects_goes objects force _ _ Hg H0) as [? Hc]. split; [done|].
    intros n Hn%bool_decide_eq_false. by apply Hc.
  - destruct (on_current_set_goes objects force _ _ _ (λ s, update_roas_edits now s updates) Hg H0); auto.
  - destruct (on_current_set_goes objects force _ _ _ (λ s, update_aspas_edits now s updates) Hg H0); auto.
  - destruct (on_current_set_goes objects force _ _ _ (λ s, update_bgpsec_edits now s updates) Hg H0); auto.
  - destruct (objects_update_repo_goes objects force contact Hg); auto.
Qed.

Lemma listen_events_goes st es st' :
  objects_good st → fold_each (listen_event timing now signer) st es = Ok st' →
  objects_good st' ∧ ∀ n, Forall (λ e, ends_set n e = false) es → objects_cont n st.1 st'.1.
Proof.
  revert st. induction es as [|e es IH]; intros st Hg H; simpl in H.
  { inv_ok. split; [done|]. intros n _. apply objects_cont_refl. }
  destruct (listen_event timing now signer st e) as [st1|] eqn:He; [|done].
  destruct (listen_event_goes _ _ _ Hg He) as [Hg1 Hc1]. destruct (IH _ Hg1 H) as [Hg' Hc']. split; [done|].
  intros n [Hn Hns]%Forall_cons. eapply objects_cont_trans; auto.
Qed.

(** ** Re-issuance *)

(** The set is as it was or has the next number; it publishes the same objects. *)
Definition renews (s s' : KeyObjectSet) : Prop :=
  remembers now s s' ∧ set_good false s' ∧ ks_published_objects s' = ks_published_objects s ∧ ks_old_repo s' = ks_old_repo s
  ∧ (∀ r, r ∈ ks_revocations s → (rv_expires r > now)%Z → r ∈ ks_revocations s')
  ∧ (s' = s ∨ rn_number (ks_revision s') = u64_succ (rn_number (ks_revision s))).
Definition class_renews (keys keys' : ResourceClassKeyState) : Prop := Forall2 renews (class_sets keys) (class_sets keys').

Lemma reissue_renews force s s' : set_good force s → set_reissue timing now signer s = Ok s' → renews s s'.
Proof.
  intros [Hh _] (Hs&Hh'&Hk&Hrev&Hrvs&Hobj&Hrepo)%sign_set_signed; [|done|done]. unfold renews, remembers.
  split; [|split; [done|]; split; [done|]; split; [done|]; split; [|right; by rewrite Hrev];
    intros r ??; rewrite Hrvs; by apply list_elem_of_filter].
  split; [done|]. intros serial expires [(n&o&Ho&?&?)|(r&Hr&<-&<-)].
  - left. left. exists n, o. by rewrite Hobj.
  - destruct (decide (rv_expires r > now)%Z); [|right; lia]. left. right. exists r. split; [|done]. rewrite Hrvs.
    by apply list_elem_of_filter.
Qed.
Lemma class_reissue_renews force keys keys' :
  class_good force keys → class_reissue timing now signer keys = Ok keys' → class_renews keys keys'.
Proof.
  unfold class_good, class_renews. destruct keys as [cu|st cu|cu ol]; simpl; intros Hg H.
  - destruct (set_reissue timing now signer cu) eqn:Hc; simplify_eq/=.
    rewrite Forall_singleton in Hg. apply Forall2_cons; split; [by apply (reissue_renews force)|constructor].
  - destruct (set_reissue timing now signer st) eqn:Hst; simplify_eq/=.
    destruct (set_reissue timing now signer cu) eqn:Hc; simplify_eq/=.
    rewrite Forall_cons, Forall_singleton in Hg. destruct Hg. by repeat (apply Forall2_cons; split; [by apply (reissue_renews force)|]).
  - destruct (set_reissue timing now signer ol) eqn:Hst; simplify_eq/=.
    destruct (set_reissue timing now signer cu) eqn:Hc; simplify_eq/=.
    rewrite Forall_cons, Forall_singleton in Hg. destruct Hg. by repeat (apply Forall2_cons; split; [by apply (reissue_renews force)|]).
Qed.
Lemma class_renews_id keys : class_good false keys → class_renews keys keys.
Proof.
  intros Hg. unfold class_renews. apply Forall_Forall2_diag. eapply Forall_impl; [exact Hg|]. intros s Hs.
  split; [apply remembers_refl|]. auto 10.
Qed.
Lemma class_renews_good keys keys' : class_renews keys keys' → class_good false keys'.
Proof.
  unfold class_renews, class_good. intros H. induction H as [|s s' l l' (_&?&_) H IH]; constructor; [done|apply IH].
Qed.

Lemma re_issue_loop force l st st' :
  NoDup l.*1 → (∀ n keys, (n, keys) ∈ l → co_classes st.1 !! n = Some keys ∧ class_good force keys) →
  fold_each (λ st '(rcn, keys),
    if force || requires_re_issuance now (timing_publish_hours_before_next timing) keys
    then keys ← class_reissue timing now signer keys; Ok (with_classes st.1 (<[rcn := keys]> (co_classes st.1)), true)
    else Ok st) st l = Ok st' →
  co_repo st'.1 = co_repo st.1 ∧ co_deprecated_repos st'.1 = co_deprecated_repos st.1
  ∧ (∀ n, n ∉ l.*1 → co_classes st'.1 !! n = co_classes st.1 !! n)
  ∧ ∀ n keys, (n, keys) ∈ l → ∃ keys', co_classes st'.1 !! n = Some keys' ∧ class_renews keys keys'.
Proof.
  revert st. induction l as [|[m keys] l IH]; intros st Hnd Hl H; simpl in H.
  { inv_ok. do 3 (split; [done|]). by intros ?? ?%elem_of_nil. }
  apply NoDup_cons in Hnd as [Hm Hnd]. simpl in Hm. destruct (Hl m keys) as [Hmk Hgk]; [by left|].
  match type of H with match ?x with _ => _ end = _ => destruct x as [st1|] eqn:Hx; [|done] end.
  assert (co_repo st1.1 = co_repo st.1 ∧ co_deprecated_repos st1.1 = co_deprecated_repos st.1
    ∧ (∀ n, n ≠ m → co_classes st1.1 !! n = co_classes st.1 !! n)
    ∧ ∃ keys', co_classes st1.1 !! m = Some keys' ∧ class_renews keys keys') as (Hr1&Hd1&Ho1&keys'&Hm1&Hren).
  { destruct (force || _) eqn:Hf; inv_ok; simpl.
    - do 2 (split; [done|]). split; [intros; by rewrite lookup_insert_ne|]. exists x. rewrite lookup_insert_eq.
      split; [done|]. by eapply class_reissue_renews.
    - apply orb_false_iff in Hf as [-> _]. do 3 (split; [done|]). exists keys. split; [done|by apply class_renews_id]. }
  destruct (IH st1) as (Hr'&Hd'&Ho'&Hin'); [done| |done|].
  { intros n k Hin. destruct (Hl n k) as [??]; [by right|]. split; [|done]. rewrite Ho1; [done|]. intros ->.
    apply Hm, list_elem_of_fmap. by exists (m, k). }
  split; [congruence|]. split; [congruence|]. split.
  - intros n [Hne Hn]%not_elem_of_cons. rewrite Ho' by done. by apply Ho1.
  - intros n k [[= -> ->]|Hin]%elem_of_cons; [|by apply Hin']. exists keys'. split; [|done]. by rewrite Ho'.
Qed.

Lemma re_issue_goes force objects objects' b :
  objects_good (objects, force) → objects_re_issue timing now signer force objects = Ok (objects', b) →
  objects_good (objects', false) ∧ co_repo objects' = co_repo objects ∧ co_deprecated_repos objects' = co_deprecated_repos objects
  ∧ (∀ n, co_classes objects !! n = None → co_classes objects' !! n = None)
  ∧ ∀ n keys, co_classes objects !! n = Some keys → ∃ keys', co_classes objects' !! n = Some keys' ∧ class_renews keys keys'.
Proof.
  intros Hg H. unfold objects_re_issue in H. apply re_issue_loop in H as (Hr&Hd&Hn&Hs); [|apply NoDup_hm_keys|].
  - simpl in *. assert (∀ n, co_classes objects !! n = None → co_classes objects' !! n = None) as Hnone.
    { intros n Hnn. rewrite Hn; [done|]. change (n ∉ hm_keys (co_classes objects)). rewrite elem_of_hm_keys, Hnn. by intros []. }
    assert (∀ n keys, co_classes objects !! n = Some keys →
      ∃ keys', co_classes objects' !! n = Some keys' ∧ class_renews keys keys') as Hsome.
    { intros n keys Hk. apply Hs. by apply elem_of_hm_iter. }
    split; [|done]. intros n keys' Hk'. simpl in Hk'. destruct (co_classes objects !! n) as [keys|] eqn:Hk.
    + destruct (Hsome n keys Hk) as (k2&?&?). simplify_eq. by eapply class_renews_good.
    + rewrite (Hnone n Hk) in Hk'. done.
  - intros n keys Hin%elem_of_hm_iter. split; [done|]. by apply (Hg n).
Qed.
End facts.

(** ** The current and the deprecated repositories *)

Section repos.
Context `{PA : !PrefixApi, RP : !Rpki, CA : !CaApi, PU : !PubApi, HO : !HashOrder}.
Context (timing : IssuanceTimingConfig) (now : Instant) (signer : ObjectSigner).

Lemma deprecate_repos objects repo :
  co_repo (deprecate_repo_if_no_longer_used objects repo) = co_repo objects
  ∧ co_deprecated_repos objects ⊆ co_deprecated_repos (deprecate_repo_if_no_longer_used objects repo).
Proof. unfold deprecate_repo_if_no_longer_used. destruct (has_old_repo _ _); simpl; set_solver. Qed.

Lemma on_class_objects_repos objects rcn f objects' :
  on_class_objects objects rcn f = Ok objects' →
  co_repo objects' = co_repo objects ∧ co_deprecated_repos objects' = co_deprecated_repos objects.
Proof. unfold on_class_objects. intros H. inv_ok. done. Qed.

(** Only a move changes the current repository, and no event takes one off the list. *)
Lemma listen_event_repos st e st' :
  listen_event timing now signer st e = Ok st' →
  co_repo st'.1 = match e with RepoUpdated contact => Some contact | _ => co_repo st.1 end
  ∧ co_deprecated_repos st.1 ⊆ co_deprecated_repos st'.1.
Proof.
  destruct st as [objects force]. intros H.
  destruct e; simpl in H; inv_ok; simpl; try done;
    try (unfold on_current_set, objects_received_cert, objects_keyroll_stage, objects_keyroll_activate in *;
         match goal with Hx : on_class_objects _ _ _ = Ok _ |- _ => apply on_class_objects_repos in Hx as [-> ->]; done end).
  - unfold remove_class. destruct (co_classes objects !! _ ≫= class_old_repo); [|done].
    match goal with |- context [deprecate_repo_if_no_longer_used ?o ?r] => apply (deprecate_repos o r) end.
  - match goal with Hx : add_class _ _ _ _ _ _ = Ok _ |- _ => unfold add_class in Hx; case_bool_decide; [done|] end. inv_ok. done.
  - match goal with Hx : objects_keyroll_finish _ _ = Ok _ |- _ => unfold objects_keyroll_finish in Hx end. inv_ok.
    case_match; [|done]. match goal with |- context [deprecate_repo_if_no_longer_used ?o ?r] => apply (deprecate_repos o r) end.
Qed.

Lemma listen_events_repos st es st' :
  fold_each (listen_event timing now signer) st es = Ok st' →
  Forall (λ e, ∀ contact, e ≠ RepoUpdated contact) es →
  co_repo st'.1 = co_repo st.1 ∧ co_deprecated_repos st.1 ⊆ co_deprecated_repos st'.1.
Proof.
  revert st. induction es as [|e es IH]; intros st H Hes; simpl in H; [by inv_ok|].
  destruct (listen_event timing now signer st e) as [st1|] eqn:He; [|done]. apply Forall_cons in Hes as [Hne Hes].
  apply listen_event_repos in He as [Hr1 Hd1]. destruct (IH _ H Hes) as [-> Hd]. split; [|by etrans].
  rewrite Hr1. by destruct e; try done; destruct (Hne contact).
Qed.

Lemma re_issue_repos force objects objects' b :
  objects_re_issue timing now signer force objects = Ok (objects', b) →
  co_repo objects' = co_repo objects ∧ co_deprecated_repos objects' = co_deprecated_repos objects.
Proof.
  unfold objects_re_issue. generalize (hm_iter (co_classes objects)). intros l.
  change objects with ((objects, false).1) at 2 3. generalize (objects, false). intros st.
  revert st. induction l as [|[n keys] l IH]; intros st H; simpl in H; [by inv_ok|].
  match type of H with match ?x with _ => _ end = _ => destruct x as [st1|] eqn:Hx; [|done] end.
  destruct (IH st1 H) as [-> ->]. destruct (force || _); by inv_ok.
Qed.

(** Listening to events that do not move the CA, and to those of a move. *)
Lemma listen_objects_repos objects es objects' :
  listen_objects timing now signer objects es = Ok objects' → Forall (λ e, ∀ contact, e ≠ RepoUpdated contact) es →
  co_repo objects' = co_repo objects ∧ co_deprecated_repos objects ⊆ co_deprecated_repos objects'.
Proof.
  unfold listen_objects. intros H Hes. inv_ok. destruct x as [o1 f], x0 as [o2 b]. simpl.
  match goal with Hx : objects_re_issue _ _ _ _ _ = _ |- _ => apply re_issue_repos in Hx as [-> ->] end.
  by eapply (listen_events_repos (objects, false)).
Qed.

Lemma listen_move_repos objects es contact objects' :
  listen_objects timing now signer objects (es ++ [RepoUpdated contact]) = Ok objects' →
  co_repo objects' = Some contact ∧ co_deprecated_repos objects ⊆ co_deprecated_repos objects'.
Proof.
  unfold listen_objects. intros H. inv_ok. destruct x as [o1 f], x0 as [o2 b]. simpl.
  match goal with Hx : objects_re_issue _ _ _ _ _ = _ |- _ => apply re_issue_repos in Hx as [-> ->] end.
  match goal with Hx : fold_each _ _ _ = _ |- _ => rename Hx into Hf end.
  change o1 with ((o1, f).1). change objects with ((objects, false).1).
  revert Hf. generalize (objects, false) (o1, f). intros st st1. revert st.
  induction es as [|e es IH]; intros st Hf; simpl in Hf.
  - destruct (listen_event timing now signer st (RepoUpdated contact)) as [st2|] eqn:He; [|done]. inv_ok.
    by apply listen_event_repos in He.
  - destruct (listen_event timing now signer st e) as [st2|] eqn:He; [|done]. destruct (IH _ Hf) as [-> Hd].
    apply listen_event_repos in He as [_ Hd1]. split; [done|by etrans].
Qed.
End repos.
