(* ===== verification/CaRepoSync.v ===== *)
(** * Synchronising a CA with its repositories ([src/src/daemon/ca/manager.rs])

    The CA lists what its repository has, computes a delta to what it publishes and sends it, for
    every repository that its keys use; deprecated repositories are emptied. *)

From stdpp Require Import base gmap strings list pretty.
From S2P Require Import Prelude Rpki Rrdp Roas Routes EventSourcing CaCerts CaEvents CaKeys CaChildren CaProducts CaClass CertAuth TaskQueue CaObjects CaObjectsStore.

Section delta.
Context `{RP : !Rpki, HO : !HashOrder}.

(** ** The delta of [ca_repo_sync] *)

(** [into_iter().map(unpack).collect()] into a [HashMap]. *)
Definition by_uri {A} (l : list (Rsync * A)) : gmap Rsync A := foldl (λ m el, <[el.1 := el.2]> m) ∅ l.
Definition element_contents (publish_elements : list PublishElement) : gmap Rsync Base64 :=
  by_uri ((λ el, (pe_uri el, pe_base64 el)) <$> publish_elements).

(** One object of the repository: what is left to publish, and the delta so far. *)
Definition compare_listed (st : gmap Rsync Base64 * list PublishDeltaElement) (listed : Rsync * Hash)
    : gmap Rsync Base64 * list PublishDeltaElement :=
  let '(uri, hash) := listed in
  let '(all_objects, delta) := st in
  match all_objects !! uri with
  | Some base64 =>
      (delete uri all_objects,
       if bool_decide (to_hash base64 = hash) then delta else delta ++ [PdUpdate None uri base64 hash])
  | None => (all_objects, delta ++ [PdWithdraw None uri hash])
  end.

Definition sync_delta (list_reply : list (Rsync * Hash)) (publish_elements : list PublishElement) : list PublishDeltaElement :=
  let '(all_objects, delta) := foldl compare_listed (element_contents publish_elements, []) (hm_iter (by_uri list_reply)) in
  delta ++ ((λ '(uri, base64), PdPublish None uri base64) <$> hm_iter all_objects).
End delta.

Section sync.
Context `{PA : !PrefixApi, RP : !Rpki, CA : !CaApi, PU : !PubApi, HO : !HashOrder}.

(** ** Repositories

    Every repository has the objects of this CA below a URI of the CA, and answers or does not. *)
Record Repositories := mkRepositories {
  rs_objects : RepositoryContact → CurrentObjects;
  rs_base : RepositoryContact → Rsync;
  rs_online : RepositoryContact → bool;
}.
Definition with_repo_objects (self : Repositories) (contact : RepositoryContact) (objects : CurrentObjects) : Repositories :=
  mkRepositories (λ c, if decide (c = contact) then objects else rs_objects self c) (rs_base self) (rs_online self).

(** A list query and a delta, as the publication server answers them. *)
Definition send_rfc8181_list (self : Repositories) (contact : RepositoryContact) : KrillResult (list (Rsync * Hash)) :=
  if rs_online self contact then Ok (to_list_reply (rs_objects self contact)) else Err (Custom "no reply").
Definition send_rfc8181_delta (self : Repositories) (contact : RepositoryContact) (delta : list PublishDeltaElement)
    : KrillResult Repositories :=
  if rs_online self contact then
    let elements := delta_elements_from delta in
    match verify_delta (rs_objects self contact) elements (rs_base self contact) with
    | Ok _ => Ok (with_repo_objects self contact (apply_delta (rs_objects self contact) elements))
    | Err _ => Err (Custom "delta rejected")
    end
  else Err (Custom "no reply").

Definition ca_repo_sync (self : Repositories) (contact : RepositoryContact) (publish_elements : list PublishElement)
    : KrillResult Repositories :=
  list_reply ← send_rfc8181_list self contact;
  let delta := sync_delta list_reply publish_elements in
  match delta with
  | [] => Ok self
  | _ => send_rfc8181_delta self contact delta
  end.

(** ** [cas_repo_sync_single] *)

(** The repositories in use: an error ends the loop, earlier repositories stay as they are. *)
Fixpoint sync_all (self : Repositories) (elements : RepoElements) : Repositories * KrillResult unit :=
  match elements with
  | [] => (self, Ok tt)
  | (contact, ca_elements) :: elements =>
      match ca_repo_sync self contact ca_elements with
      | Ok self => sync_all self elements
      | Err e => (self, Err e)
      end
  end.

Fixpoint clean_deprecated (self : Repositories) (objects : CaObjects) (deprecated : list DeprecatedRepository)
    : Repositories * CaObjects * KrillResult unit :=
  match deprecated with
  | [] => (self, objects, Ok tt)
  | d :: deprecated =>
      match ca_repo_sync self (dr_contact d) [] with
      | Ok self => clean_deprecated self (deprecated_repo_remove objects (dr_contact d)) deprecated
      | Err e =>
          if (dr_clean_attempts d <? 5)%N
          then (self, deprecated_repo_inc_clean_attempts objects (dr_contact d), Err e)
          else clean_deprecated self (deprecated_repo_remove objects (dr_contact d)) deprecated
      end
  end.

Definition cas_repo_sync_single (self : Repositories) (objects : CaObjects) : Repositories * CaObjects * KrillResult unit :=
  match sync_all self (repo_elements_map objects) with
  | (self, Err e) => (self, objects, Err e)
  | (self, Ok _) => clean_deprecated self objects (co_deprecated_repos objects)
  end.

(** ** [delete_ca]

    Requests to revoke the keys are sent to the parents: [parent_revoke] is what this does to CAs
    of the same server, as far as they answer.  Then all repositories are emptied if possible,
    the CA is dropped from its store, and its status and tasks are removed.  Nothing is done to
    the objects of the CA. *)
Definition clean_all_repos (self : Repositories) (objects : CaObjects) : Repositories :=
  foldl (λ self contact, match ca_repo_sync self contact [] with Ok self => self | Err _ => self end) self
    ((repo_elements_map objects).*1 ++ (dr_contact <$> co_deprecated_repos objects)).
Record CaManager (Status : Type) := mkCaManager {
  cm_ca_store : gmap string CertAuth;
  cm_ca_objects_store : gmap string CaObjects;
  cm_status_store : gmap string Status;
  cm_tasks : TaskQueue;
}.
Definition delete_ca {Status} (parent_revoke : string → string → gmap string CertAuth → gmap string CertAuth)
    (self : CaManager Status) (repos : Repositories) (handle : string) : KrillResult (CaManager Status * Repositories) :=
  ca ← ok_or (cm_ca_store _ self !! handle) (Custom "unknown CA");
  let cas := foldl (λ cas parent, parent_revoke handle parent cas) (cm_ca_store _ self) (hm_keys (ca_parents ca)) in
  let repos := clean_all_repos repos (ca_objects (cm_ca_objects_store _ self) handle) in
  Ok (mkCaManager _ (delete handle cas) (cm_ca_objects_store _ self) (delete handle (cm_status_store _ self))
        (remove_tasks_for_ca (cm_tasks _ self) handle), repos).
End sync.
