(* ===== verification/CaRepoSyncFacts.v ===== *)
(** * Lemmas on the delta that synchronises a repository *)

From stdpp Require Import base gmap strings list.
From S2P Require Import Prelude Rpki Rrdp RrdpFacts RepositoryFacts CaRepoSync.

Section facts.
Context `{RP : !Rpki, HO : !HashOrder}.
Implicit Types (m t : gmap Rsync Base64).

(** ** Deltas from elements *)

Definition delta_op (el : PublishDeltaElement) : DeltaElement :=
  match el with
  | PdPublish _ uri base64 => DPublish (publish_element_from uri base64)
  | PdUpdate _ uri base64 hash => DUpdate (update_element_from uri base64 hash)
  | PdWithdraw _ uri hash => DWithdraw (withdraw_element_from uri hash)
  end.

Lemma push_delta_ops d els : delta_ops (foldl push_delta_element d els) ≡ₚ delta_ops d ++ (delta_op <$> els).
Proof.
  revert d. induction els as [|el els IH]; intros d; simpl; [by rewrite app_nil_r|]. rewrite IH.
  destruct d as [ps us ws], el; unfold delta_ops; simpl; rewrite fmap_app; simpl; solve_Permutation.
Qed.
Lemma delta_elements_ops els : delta_ops (delta_elements_from els) ≡ₚ delta_op <$> els.
Proof. apply push_delta_ops. Qed.

(** ** Comparing what is listed with what is to be published *)

Definition compared t (listed : Rsync * Hash) : option PublishDeltaElement :=
  match t !! listed.1 with
  | Some base64 => if bool_decide (to_hash base64 = listed.2) then None else Some (PdUpdate None listed.1 base64 listed.2)
  | None => Some (PdWithdraw None listed.1 listed.2)
  end.

Lemma compare_listed_all t d l :
  NoDup l.*1 →
  foldl compare_listed (t, d) l = (filter (λ uc, uc.1 ∉ l.*1) t, d ++ omap (compared t) l).
Proof.
  revert t d. induction l as [|[u h] l IH]; intros t d Hnd.
  { simpl. rewrite app_nil_r. f_equal. symmetry. apply map_filter_id. intros ???. apply not_elem_of_nil. }
  apply NoDup_cons in Hnd as [Hu Hnd]. simpl in Hu. simpl. unfold compared at 1. simpl.
  assert (∀ t', (∀ u', u' ≠ u → t' !! u' = t !! u') → omap (compared t') l = omap (compared t) l) as Homap.
  { intros t' Ht'. clear -Hu Ht'. induction l as [|[u' h'] l IH]; [done|]. simpl in *.
    apply not_elem_of_cons in Hu as [Hne Hu].
    assert (compared t' (u', h') = compared t (u', h')) as -> by (unfold compared; simpl; by rewrite Ht').
    specialize (IH Hu). unfold omap in IH. by rewrite IH. }
  destruct (t !! u) as [c|] eqn:Ht.
  - rewrite IH by done. rewrite (Homap (delete u t)) by (intros; by rewrite lookup_delete_ne). f_equal.
    + apply map_eq. intros v. apply option_eq. intros b. rewrite !map_lookup_filter_Some, lookup_delete_Some. simpl.
      rewrite not_elem_of_cons. naive_solver.
    + case_bool_decide; [done|]. by rewrite <-app_assoc.
  - rewrite IH by done. f_equal; [|by rewrite <-app_assoc].
    apply map_eq. intros v. apply option_eq. intros b. rewrite !map_lookup_filter_Some. simpl.
    rewrite not_elem_of_cons. naive_solver.
Qed.

Lemma by_uri_lookup {A} (l : list (Rsync * A)) u x :
  NoDup l.*1 → by_uri l !! u = Some x ↔ (u, x) ∈ l.
Proof.
  unfold by_uri. intros Hnd.
  assert (∀ acc : gmap Rsync A, foldl (λ acc el, <[el.1 := el.2]> acc) acc l !! u = Some x
    ↔ (u, x) ∈ l ∨ (u ∉ l.*1) ∧ acc !! u = Some x) as Hgen.
  { induction l as [|[v y] l IH]; intros acc; simpl.
    - rewrite elem_of_nil. split; [intros ?; right; split; [apply not_elem_of_nil|done]|naive_solver].
    - apply NoDup_cons in Hnd as [Hv Hnd]. simpl in Hv. rewrite IH by done. rewrite elem_of_cons, not_elem_of_cons.
      destruct (decide (u = v)) as [->|Hne].
      + rewrite lookup_insert_eq. split.
        * intros [Hin|[_ [= ->]]]; [|by left; left]. exfalso. apply Hv, list_elem_of_fmap. by exists (v, x).
        * intros [[[= ->]|Hin]|[[]]]; [|exfalso; apply Hv, list_elem_of_fmap; by exists (v, x)|done]. right. done.
      + rewrite lookup_insert_ne by done. naive_solver. }
  rewrite Hgen, lookup_empty. naive_solver.
Qed.

(** What a repository lists is a view of its objects. *)
Lemma listed_view (co : CurrentObjects) m : represents co m → by_uri (to_list_reply co) = to_hash <$> m.
Proof.
  intros Hrep. apply map_eq. intros u. apply option_eq. intros h. rewrite by_uri_lookup.
  - unfold to_list_reply. rewrite list_elem_of_fmap, lookup_fmap, fmap_Some. split.
    + intros ([h' e]&[= -> ->]&Hin%elem_of_hm_iter). apply Hrep in Hin as [??]. eauto.
    + intros (c&Hc&->). exists (to_hash c, mkPublishElement c u). split; [done|]. apply elem_of_hm_iter.
      by eapply represents_lookup.
  - unfold to_list_reply. rewrite <-list_fmap_compose. apply NoDup_fmap_2_strong; [|apply NoDup_hm_iter].
    intros [h1 e1] [h2 e2] H1%elem_of_hm_iter H2%elem_of_hm_iter Heq. simpl in Heq.
    apply Hrep in H1 as [-> H1]. apply Hrep in H2 as [-> H2]. rewrite Heq in H1. rewrite H1 in H2.
    destruct e1, e2; simpl in *; by simplify_eq.
Qed.

(** ** The elements of the delta *)

Section sync.
Context (co : CurrentObjects) m (elements : list PublishElement).
Let t : gmap Rsync Base64 := element_contents elements.
Hypothesis Hrep : represents co m.

Definition sync_elements : list PublishDeltaElement :=
  omap (compared t) (hm_iter (to_hash <$> m)) ++
  ((λ uc, PdPublish None uc.1 uc.2) <$> hm_iter (filter (λ uc, uc.1 ∉ (hm_iter (to_hash <$> m)).*1) t)).

Lemma sync_delta_elements : sync_delta (to_list_reply co) elements = sync_elements.
Proof.
  unfold sync_delta, sync_elements. rewrite (listed_view co m Hrep). rewrite compare_listed_all by apply NoDup_hm_keys.
  simpl. f_equal. apply list_fmap_ext. by intros ? [].
Qed.

(** What an element of the delta does. *)
Definition sync_element_ok (el : PublishDeltaElement) : Prop :=
  match el with
  | PdPublish _ u c => t !! u = Some c ∧ m !! u = None
  | PdUpdate _ u c h => t !! u = Some c ∧ ∃ c0, m !! u = Some c0 ∧ h = to_hash c0 ∧ to_hash c ≠ h
  | PdWithdraw _ u h => t !! u = None ∧ ∃ c0, m !! u = Some c0 ∧ h = to_hash c0
  end.
Definition pd_uri (el : PublishDeltaElement) : Rsync :=
  match el with PdPublish _ u _ | PdUpdate _ u _ _ | PdWithdraw _ u _ => u end.

Lemma listed_keys u : u ∈ (hm_iter (to_hash <$> m)).*1 ↔ is_Some (m !! u).
Proof. change (u ∈ hm_keys (to_hash <$> m) ↔ is_Some (m !! u)). by rewrite elem_of_hm_keys, lookup_fmap, fmap_is_Some. Qed.

Lemma compared_uri l el : compared t l = Some el → pd_uri el = l.1.
Proof. unfold compared. repeat case_match; intros; by simplify_eq/=. Qed.

Lemma sync_elements_ok : Forall sync_element_ok sync_elements.
Proof.
  unfold sync_elements. apply Forall_app. split; apply Forall_forall; intros el.
  - intros ([u h]&Hin&Hc)%list_elem_of_omap. apply elem_of_hm_iter in Hin. rewrite lookup_fmap, fmap_Some in Hin.
    destruct Hin as (c0&Hm&->). unfold compared in Hc. simpl in Hc.
    destruct (t !! u) as [c|] eqn:Ht; [case_bool_decide; [done|]|]; simplify_eq/=; eauto.
  - intros ([u c]&->&Hin)%list_elem_of_fmap. apply elem_of_hm_iter, map_lookup_filter_Some in Hin as [Ht Hu]. simpl in *.
    split; [done|]. apply eq_None_not_Some. by rewrite listed_keys in Hu.
Qed.

Lemma NoDup_omap_uris (l : list (Rsync * Hash)) : NoDup l.*1 → NoDup (pd_uri <$> omap (compared t) l).
Proof.
  induction l as [|[u h] l IH]; intros Hnd; [constructor|]. apply NoDup_cons in Hnd as [Hu Hnd]. simpl.
  destruct (compared t (u, h)) as [el|] eqn:Hel; [|by apply IH]. apply compared_uri in Hel. simpl in *.
  constructor; [|by apply IH]. rewrite Hel. intros (el'&Heq&([u' h']&Hin&Hc)%list_elem_of_omap)%list_elem_of_fmap.
  apply compared_uri in Hc. apply Hu. apply list_elem_of_fmap. exists (u', h'). split; [|done]. simpl in *. congruence.
Qed.

Lemma sync_elements_uris : NoDup (pd_uri <$> sync_elements).
Proof.
  unfold sync_elements. rewrite fmap_app, <-list_fmap_compose. apply NoDup_app. split; [apply NoDup_omap_uris, NoDup_hm_keys|].
  split; [|apply (NoDup_hm_keys (filter _ t))].
  intros u (el&->&([u' h]&Hin&Hc)%list_elem_of_omap)%list_elem_of_fmap. apply compared_uri in Hc. rewrite Hc.
  intros ([v c]&Hv&Hin')%list_elem_of_fmap. apply elem_of_hm_iter, map_lookup_filter_Some in Hin' as [_ Hnot]. simpl in *.
  apply Hnot. apply list_elem_of_fmap. exists (u', h). split; [done|done].
Qed.

(** Every URI at which the repository differs has an element. *)
Lemma sync_elements_complete u :
  (u ∉ pd_uri <$> sync_elements) → to_hash <$> m !! u = to_hash <$> t !! u.
Proof.
  unfold sync_elements. rewrite fmap_app, not_elem_of_app. intros [H1 H2].
  destruct (m !! u) as [c0|] eqn:Hm.
  - destruct (t !! u) as [c|] eqn:Ht.
    + simpl. destruct (decide (to_hash c = to_hash c0)) as [->|Hne]; [done|]. exfalso. apply H1.
      apply list_elem_of_fmap. exists (PdUpdate None u c (to_hash c0)). split; [done|]. apply list_elem_of_omap.
      exists (u, to_hash c0). split; [apply elem_of_hm_iter; by rewrite lookup_fmap, Hm|]. unfold compared. simpl.
      rewrite Ht. by rewrite bool_decide_eq_false_2.
    + exfalso. apply H1. apply list_elem_of_fmap. exists (PdWithdraw None u (to_hash c0)). split; [done|].
      apply list_elem_of_omap. exists (u, to_hash c0). split; [apply elem_of_hm_iter; by rewrite lookup_fmap, Hm|].
      unfold compared. simpl. by rewrite Ht.
  - destruct (t !! u) as [c|] eqn:Ht; [|done]. exfalso. apply H2. rewrite <-list_fmap_compose.
    apply list_elem_of_fmap. exists (u, c). split; [done|]. apply elem_of_hm_iter, map_lookup_filter_Some. split; [done|].
    simpl. rewrite listed_keys, Hm. by intros [].
Qed.

(** ** What the delta does *)

Hypothesis Hinj : Inj (=) (=) to_hash.
Hypothesis Hunique : content_unique t.
(** No content moves from one URI to another. *)
Hypothesis Hstays : ∀ u c u' c', t !! u = Some c → m !! u' = Some c' → to_hash c' = to_hash c → u' = u.

Lemma el_uri_delta_op el : el_uri (delta_op el) = pd_uri el.
Proof. by destruct el. Qed.

Lemma sync_ops_independent : independent (delta_op <$> sync_elements).
Proof.
  pose proof sync_elements_ok as Hok. pose proof sync_elements_uris as Huris.
  intros i j el el' Hi Hj Hij. rewrite list_lookup_fmap, fmap_Some in Hi, Hj.
  destruct Hi as (a&Ha&->), Hj as (b&Hb&->). rewrite !el_uri_delta_op.
  assert (pd_uri a ≠ pd_uri b) as Hne.
  { intros Heq. apply Hij. eapply (NoDup_lookup (pd_uri <$> sync_elements)); [done| |];
      rewrite list_lookup_fmap; [by rewrite Ha|]. by rewrite Hb, Heq. }
  split; [done|]. intros (c&c'&Hc&Hc'&Heq). apply Hne.
  assert (∀ x cx, x ∈ sync_elements → el_new (delta_op x) = Some cx → t !! pd_uri x = Some cx) as Hnew.
  { intros x cx Hx. eapply Forall_forall in Hok; [|done]. destruct x; simpl in *; intros [= <-]; naive_solver. }
  eapply Hunique; [eapply Hnew; [by eapply list_elem_of_lookup_2|done]..|done].
Qed.

Lemma sync_ops_ok : Forall (el_ok m) (delta_op <$> sync_elements).
Proof.
  apply Forall_fmap. eapply Forall_impl; [apply sync_elements_ok|]. intros [tg u c|tg u c h|tg u h]; simpl.
  - intros [Ht Hm]. split; [done|]. intros u' c' Hu' Heq. assert (u' = u) as -> by (by eapply Hstays). congruence.
  - intros (Ht&c0&Hm&->&Hne). split; [eauto|]. intros u' c' [Hu Hu']%lookup_delete_Some Heq. apply Hu. symmetry. by eapply Hstays.
  - intros (Ht&c0&Hm&->). eauto.
Qed.

Lemma sync_represents : represents (apply_delta co (delta_elements_from (sync_delta (to_list_reply co) elements))) t.
Proof.
  rewrite sync_delta_elements. pose proof (delta_elements_ops sync_elements) as Hperm.
  set (d := delta_elements_from sync_elements) in *.
  assert (independent (delta_ops d)) as Hind by (eapply independent_perm; [symmetry; exact Hperm|apply sync_ops_independent]).
  assert (Forall (el_ok m) (delta_ops d)) as Hok by (rewrite Hperm; apply sync_ops_ok).
  pose proof (represents_delta co m d Hrep Hind Hok) as Hafter.
  assert (spec_delta m d = t) as <-; [|done]. unfold spec_delta. apply map_eq. intros u.
  destruct (decide (u ∈ pd_uri <$> sync_elements)) as [(el&->&Hel)%list_elem_of_fmap|Hnot].
  - rewrite <-el_uri_delta_op, spec_els_lookup; [|done|rewrite Hperm; apply list_elem_of_fmap; eauto].
    rewrite el_uri_delta_op. pose proof sync_elements_ok as Hall. eapply Forall_forall in Hall; [|exact Hel].
    destruct el; simpl in *; naive_solver.
  - rewrite spec_els_lookup_notin.
    + apply sync_elements_complete in Hnot. destruct (m !! u), (t !! u); simpl in Hnot; try done. by simplify_eq.
    + intros el. rewrite Hperm. intros (x&->&Hx)%list_elem_of_fmap. rewrite el_uri_delta_op. intros <-.
      apply Hnot, list_elem_of_fmap. eauto.
Qed.

Lemma sync_verified jail :
  (∀ u c, t !! u = Some c → is_parent_of jail u = true) → (∀ u c, m !! u = Some c → is_parent_of jail u = true) →
  verify_delta co (delta_elements_from (sync_delta (to_list_reply co) elements)) jail = Ok tt.
Proof.
  intros Ht Hm. apply verify_delta_Ok. rewrite sync_delta_elements, delta_elements_ops. apply Forall_fmap.
  eapply Forall_impl; [apply sync_elements_ok|].
  assert (∀ u c, m !! u = Some c → has_match co (to_hash c) u = true) as Hmatch.
  { intros u c Hu. unfold has_match. rewrite (represents_lookup _ _ _ _ Hrep Hu). by apply bool_decide_eq_true. }
  intros [tg u c|tg u c h|tg u h]; simpl; unfold verified; simpl.
  - intros [Htu Hmu]. split; [eauto|]. eapply represents_fresh_None; [done|]. intros u' c' Hu' Heq.
    assert (u' = u) as -> by (by eapply Hstays). congruence.
  - intros (Htu&c0&Hmu&->&_). eauto.
  - intros (Htu&c0&Hmu&->). eauto.
Qed.

(** Nothing is sent if nothing changed. *)
Lemma sync_nothing : m = t → sync_delta (to_list_reply co) elements = [].
Proof.
  intros Heq. rewrite sync_delta_elements. destruct sync_elements as [|el els] eqn:Hels; [done|].
  pose proof sync_elements_ok as Hall. rewrite Hels in Hall. apply Forall_cons in Hall as [Hel _].
  destruct el; simpl in Hel; rewrite Heq in Hel; naive_solver.
Qed.
End sync.
End facts.
