(* ===== verification/CaObjectsDemo.v ===== *)
(** * A concrete instance of the interfaces for published objects, and objects of the CAs of [CaDemo] *)

From stdpp Require Import base gmap strings list pretty.
From S2P Require Import Prelude Rpki Rrdp Roas Routes EventSourcing CaCerts CaEvents CaKeys CaChildren CaProducts CaClass CertAuth CertAuthCmds CaObjects CaObjectsStore CaRepoSync CaObjectsFacts CaDemo.

Module CaObjectsDemo.
Import CaDemo.

(** ** CRLs and manifests

    A CRL is what was signed, a manifest its content with the key and the serial number; their
    encodings are numbers. *)

Definition CrlParts : Type := string * Z * Z * list (N * Z) * string * N.
Definition crl_parts (tbs : TbsCertList) : CrlParts :=
  (tcl_issuer tbs, tcl_this_update tbs, tcl_next_update tbs, tcl_entries tbs, tcl_aki tbs, tcl_number tbs).
Definition crl_of_parts (p : CrlParts) : TbsCertList :=
  let '(issuer, this, next, entries, aki, number) := p in mkTbsCertList issuer this next entries aki number.
Definition MftParts : Type := N * Z * Z * list (string * Content).
Definition mft_parts (c : ManifestContent) : MftParts := (mc_number c, mc_this_update c, mc_next_update c, mc_entries c).
Definition mft_of_parts (p : MftParts) : ManifestContent :=
  let '(number, this, next, entries) := p in mkManifestContent number this next entries.

Definition encoded `{Countable A} (tag : string) (x : A) : Content := (tag, "", (0%Z, 0%Z, Npos (encode x))).
Definition decoded `{Countable A} (tag : string) (c : Content) : option A :=
  match c with
  | (t, _, (_, _, Npos p)) => if bool_decide (t = tag) then decode p else None
  | _ => None
  end.
Lemma decoded_encoded `{Countable A} tag (x : A) : decoded tag (encoded tag x) = Some x.
Proof. unfold decoded, encoded. by rewrite bool_decide_eq_true_2, decode_encode. Qed.

#[export] Instance demo_pub : PubApi := {|
  Crl := TbsCertList;
  crl_authority_key_identifier := tcl_aki;
  crl_base64 tbs := encoded "crl" (crl_parts tbs);
  crl_number := tcl_number;
  crl_next_update := tcl_next_update;
  Manifest := ManifestContent * string * N;
  mft_authority_key_identifier m := m.1.2;
  mft_base64 m := encoded "mft" (mft_parts m.1.1);
  mft_serial_number m := m.2;
  mft_next_update m := mc_next_update m.1.1;
|}.
#[export] Instance demo_reads : ReadsObjects := {|
  read_crl c := crl_of_parts <$> decoded "crl" c;
  read_mft c := mft_of_parts <$> decoded "mft" c;
|}.

Definition osigner : ObjectSigner := {|
  draw_jitter _ _ := 0%Z;
  draw_serial _ number := Ok (1000 + number)%N;
  sign_crl tbs _ := Ok tbs;
  sign_manifest content builder key := Ok (content, key, sob_serial builder);
|}.
#[export] Instance osigner_ok : ObjectSignerOk osigner.
Proof.
  split.
  - intros tbs k crl [= <-]. split; [|done].
    change (crl_of_parts <$> decoded "crl" (encoded "crl" (crl_parts tbs)) = Some tbs). rewrite decoded_encoded. by destruct tbs.
  - intros content builder k mft [= <-].
    change (mft_of_parts <$> decoded "mft" (encoded "mft" (mft_parts content)) = Some content).
    rewrite decoded_encoded. by destruct content.
Qed.

(** ** The objects of the parent of [CaDemo] *)

Definition heard (t : Instant) (objects : CaObjects) (events : list CaEvent) : CaObjects :=
  match listen_objects timing t osigner objects events with Ok o => o | Err _ => objects end.
Definition hears (t : Instant) (objects : CaObjects) (events : list CaEvent) : bool :=
  match listen_objects timing t osigner objects events with Ok _ => true | Err _ => false end.
Lemma hears_heard t objects events :
  hears t objects events = true → listen_objects timing t osigner objects events = Ok (heard t objects events).
Proof. unfold hears, heard. by destruct (listen_objects timing t osigner objects events). Qed.
(** The events of a command. *)
Definition events_of_command (s : Signer) (ca : CertAuth) (cmd : CmdDet) : list CaEvent :=
  match ca_process_command config now s ca cmd with Some (Ok evs) => ev_details <$> evs | _ => [] end.

Definition objects_ready : CaObjects :=
  heard now (heard now (ca_objects_empty "ta") (events_of_command (signer "ta-" 1) fresh (RepoUpdate repo)))
    (events_of_command (signer "ta-" 2) anchored (UpdateRcvdCert "0" ta_cert)).
Definition objects_parent : CaObjects := heard now objects_ready (events_of_command (signer "ta-" 4) ready (ChildCertify "child" request)).
Definition keys_of (objects : CaObjects) (n : string) : option ResourceClassKeyState := co_classes objects !! n.
Definition no_item : PublishedItem := published_item "" ("", "", (0%Z, 0%Z, 0%N)) 0%N 0%Z.
Definition no_set : KeyObjectSet := mkKeyObjectSet ta_cert (mkRevision 0 0%Z 0%Z) [] no_item no_item ∅ None.
Definition current_of (objects : CaObjects) (n : string) : KeyObjectSet :=
  match keys_of objects n with Some keys => keys_current_set keys | None => no_set end.

(** The child's certificate is suspended. *)
Definition later : Instant := (now + seconds 60)%Z.
Definition suspended : list CaEvent := [ChildCertificatesUpdated "0" (mkChildUpdates [] [] [kid_cert] []); ChildSuspended "child"].
Definition kid : KeyIdentifier := "kid-0".
Definition withdrawn : list CaEvent := [ChildCertificatesUpdated "0" (mkChildUpdates [] [kid] [] [])].
Definition unsuspended : list CaEvent := [ChildCertificatesUpdated "0" (mkChildUpdates [] [] [] [kid_cert]); ChildUnsuspended "child"].

(** ** A CA that moved to another repository and back *)

Definition key (ki : string) : CertifiedKey := certified_key_create (with_key ki ta_cert).
Definition revoke : RevocationRequest := mkRevocationRequest "0" "k".
Definition moved_away : CaObjects :=
  foldl (heard now) (ca_objects_empty "ca")
    [[RepoUpdated repo; KeyPendingToActive "0" (key "one")]; [RepoUpdated child_repo]; [KeyPendingToNew "0" (key "two")];
     [KeyRollActivated "0" revoke]; [KeyRollFinished "0"]].
(** The CA of [CaDemo] moves to the repository that was left; its new key is certified. *)
Definition accepts (s : Signer) (ca : CertAuth) (cmd : CmdDet) : bool :=
  match ca_process_command config now s ca cmd with Some (Ok _) => true | _ => false end.
Lemma accepts_events s ca cmd : accepts s ca cmd = true → ∃ evs, ca_process_command config now s ca cmd = Some (Ok evs).
Proof. unfold accepts. destruct (ca_process_command config now s ca cmd) as [[evs|]|]; [eauto|done..]. Qed.
Definition moving_back : list CaEvent := events_of_command (signer "new-" 6) child (RepoUpdate repo).
Definition moved_back : CaObjects := heard now moved_away moving_back.
Definition moved : CaObjects := heard now moved_back [KeyPendingToNew "0" (key "three")].
(** Contents, and a repository with one object; what a CA has for it now. *)
Definition content (name : string) : Base64 := (name, "", (0%Z, 0%Z, 0%N)).
Definition uri_a : @Rsync demo_rpki := "rsync://rpki.example/a".
Definition uri_b : @Rsync demo_rpki := "rsync://rpki.example/b".
Definition one_object : Repositories :=
  mkRepositories (λ _, {[content "a" := mkPublishElement (content "a") uri_a]})
    (λ _, "rsync://rpki.example/") (λ _, true).
Definition two_elements : list PublishElement :=
  [mkPublishElement (content "a2") uri_a; mkPublishElement (content "b") uri_b].

Definition repos : Repositories := mkRepositories (λ _, ∅) (λ _, "rsync://rpki.example/") (λ _, true).
Definition repos_synced : Repositories := (sync_all repos (repo_elements_map moved)).1.

(** ** A CA that was deleted *)

Definition leftover : gmap string CaObjects :=
  {["child" := heard now (ca_objects_empty "child") [KeyPendingToActive "0" (key "one")]]}.
End CaObjectsDemo.
