(* ===== verification/CaFollow.v ===== *)
(** * The published objects follow the keys of the CA

    What is kept for a CA outside of its aggregate stays in step with the key states of its
    resource classes, event by event. *)

From stdpp Require Import base gmap strings list pretty.
From S2P Require Import Prelude Rpki Rrdp Roas Routes EventSourcing CaCerts CaEvents CaKeys CaChildren CaProducts CaClass CertAuth CertAuthCmds CaFacts CaCertFacts CaInvariant CaSteps CaStepFacts CaObjects CaObjectsStore CaObjectsFacts.

Section follow.
Context `{PA : !PrefixApi, RP : !Rpki, CA : !CaApi, PU : !PubApi, HO : !HashOrder}.
Implicit Types (ca : CertAuth) (objects : CaObjects).

(** ** The relation *)

(** For each key with a certificate there is a set of objects; only the current key has any. *)
Definition key_sets (st : KeyState) (keys : option ResourceClassKeyState) : Prop :=
  match st, keys with
  | Pending _, None => True
  | Active k, Some (KeysCurrent s) | RollPending _ k, Some (KeysCurrent s) => set_key s = ck_key_id k
  | RollNew new k, Some (KeysStaging sn s) =>
      set_key sn = ck_key_id new ∧ set_key s = ck_key_id k ∧ ks_published_objects sn = ∅
  | RollOld k old, Some (KeysOld s so) =>
      set_key s = ck_key_id k ∧ set_key so = ck_key_id (ok_key old) ∧ ks_published_objects so = ∅
  | _, _ => False
  end.
Definition class_in_step (rc : option ResourceClass) (keys : option ResourceClassKeyState) : Prop :=
  match rc with Some rc => key_sets (rc_key_state rc) keys | None => keys = None end.
Definition in_step ca objects : Prop :=
  co_repo objects = ca_repository ca ∧ ∀ n, class_in_step (ca_resources ca !! n) (co_classes objects !! n).

(** ** Events that the listener can follow *)

Definition certified (rc : ResourceClass) : Prop := is_Some (current_key rc).
Definition has_key (st : KeyState) (ki : KeyIdentifier) : Prop :=
  match st with
  | Pending _ => False
  | Active k | RollPending _ k => ki = ck_key_id k
  | RollNew new k => ki = ck_key_id new ∨ ki = ck_key_id k
  | RollOld k old => ki = ck_key_id k ∨ ki = ck_key_id (ok_key old)
  end.
(** An event of a class. *)
Definition class_heard (e : CaEvent) (rc : ResourceClass) : Prop :=
  match e with
  | RoasUpdated _ _ | AspaObjectsUpdated _ _ | BgpSecCertificatesUpdated _ _ | ChildCertificatesUpdated _ _ => certified rc
  | CertificateReceived _ cert _ => has_key (rc_key_state rc) (cert_key_identifier cert)
  | KeyPendingToNew _ key | KeyPendingToActive _ key => key_ok key
  | _ => True
  end.
(** New classes get the next name; a parent is removed after its classes; a certificate is issued
    in a class that has one. *)
Definition names_left ca : Prop := (ca_next_class_name ca < 4294967295)%N.
Definition event_heard ca (e : CaEvent) : Prop :=
  match e with
  | TrustAnchorMade _ _ _ => names_left ca
  | ResourceClassAdded n _ _ _ => n = pretty (ca_next_class_name ca) ∧ names_left ca
  | ParentRemoved parent => ∀ n rc, ca_resources ca !! n = Some rc → rc_parent_handle rc ≠ parent
  | ChildCertificateIssued _ n _ => ∃ rc, ca_resources ca !! n = Some rc ∧ certified rc
  | _ => match event_class e with Some n => ∀ rc, ca_resources ca !! n = Some rc → class_heard e rc | None => True end
  end.

(** ** Names and keys of children

    Classes have the names given out so far; keys of children were certified in a class that had
    a certificate itself. *)
Definition given_out ca (n : string) : Prop := ∃ k, n = pretty k ∧ (k < ca_next_class_name ca)%N.
Definition names_inv ca : Prop :=
  (∀ n, is_Some (ca_resources ca !! n) → given_out ca n)
  ∧ ∀ child d ki n, ca_children ca !! child = Some d → cd_used_keys d !! ki = Some (InUse n) →
      given_out ca n ∧ ∀ rc, ca_resources ca !! n = Some rc → certified rc.

(** ** Signing that fails

    The signer is not assumed to succeed: results are as stated unless it returned an error. *)

Definition signing_error (signer : ObjectSigner) (e : CaError) : Prop :=
  ∃ msg, e = SignerError msg
    ∧ ((∃ tbs k, sign_crl signer tbs k = Err msg) ∨ (∃ content builder k, sign_manifest signer content builder k = Err msg)
       ∨ ∃ k n, draw_serial signer k n = Err msg).
Definition unless_signing_fails {A} (signer : ObjectSigner) (r : KrillResult A) (P : A → Prop) : Prop :=
  match r with Ok a => P a | Err e => signing_error signer e end.

Lemma unless_ok {A} signer (r : KrillResult A) (P : A → Prop) a : r = Ok a → P a → unless_signing_fails signer r P.
Proof. by intros ->. Qed.
Lemma unless_bind {A B} signer (m : KrillResult A) (f : A → KrillResult B) (Q : A → Prop) (P : B → Prop) :
  unless_signing_fails signer m Q → (∀ a, Q a → unless_signing_fails signer (f a) P) → unless_signing_fails signer (m ≫= f) P.
Proof. destruct m; simpl; auto. Qed.
Lemma unless_fmap {A B} signer (m : KrillResult A) (f : A → B) (P : B → Prop) :
  unless_signing_fails signer m (λ a, P (f a)) → unless_signing_fails signer (f <$> m) P.
Proof. by destruct m. Qed.
Lemma unless_mono {A} signer (r : KrillResult A) (P Q : A → Prop) :
  unless_signing_fails signer r P → (∀ a, P a → Q a) → unless_signing_fails signer r Q.
Proof. destruct r; simpl; auto. Qed.

Section listener.
Context (timing : IssuanceTimingConfig) (now : Instant) (signer : ObjectSigner).
Abbreviation unless r P := (unless_signing_fails signer r P).

Lemma sign_set_follows cert revision revocations published repo :
  unless (sign_set signer now cert revision revocations published repo)
    (λ s, set_key s = cert_key_identifier cert ∧ ks_published_objects s = published).
Proof.
  unfold sign_set, build_crl, build_new_mft.
  match goal with |- context [sign_crl signer ?t ?k] => destruct (sign_crl signer t k) as [crl|msg] eqn:H1 end; simpl.
  2: { exists msg. eauto. }
  match goal with |- context [draw_serial signer ?k ?n] => destruct (draw_serial signer k n) as [serial|msg] eqn:H2 end; simpl.
  2: { exists msg. eauto 8. }
  match goal with |- context [sign_manifest signer ?c ?b ?k] => destruct (sign_manifest signer c b k) as [mft|msg] eqn:H3 end; simpl.
  2: { exists msg. eauto 8. }
  done.
Qed.
Lemma set_create_follows key :
  unless (set_create timing now signer key) (λ s, set_key s = cert_key_identifier (ck_incoming_cert key) ∧ ks_published_objects s = ∅).
Proof. apply sign_set_follows. Qed.
Lemma set_reissue_follows set :
  unless (set_reissue timing now signer set) (λ s, set_key s = set_key set ∧ ks_published_objects s = ks_published_objects set).
Proof. apply sign_set_follows. Qed.

(** ** Operations on the sets of a class *)

Lemma update_signing_cert_follows s cert s' :
  update_signing_cert s cert = Ok s' → set_key s' = set_key s ∧ ks_published_objects s' = ks_published_objects s.
Proof. unfold update_signing_cert, set_key. case_bool_decide as Hk; [|done]. intros [= <-]. simpl. by rewrite Hk. Qed.
Lemma update_signing_cert_ok s cert : set_key s = cert_key_identifier cert → ∃ s', update_signing_cert s cert = Ok s'.
Proof. unfold update_signing_cert, set_key. intros H. rewrite bool_decide_eq_true_2 by done. eauto. Qed.

Lemma received_follows st keys cert :
  key_sets st (Some keys) → has_key st (cert_key_identifier cert) →
  ∃ keys', class_objects_received_cert keys cert = Ok keys' ∧ key_sets st (Some keys').
Proof.
  intros Hs Hk. destruct st as [p|k|p k|nw k|k old], keys as [cu|sg cu|cu ol]; simpl in Hs; try done; simpl.
  - destruct (update_signing_cert_ok cu cert) as [s' Hs']; [congruence|]. rewrite Hs'. eexists. split; [done|].
    apply update_signing_cert_follows in Hs' as [? _]. simpl. congruence.
  - destruct (update_signing_cert_ok cu cert) as [s' Hs']; [congruence|]. rewrite Hs'. eexists. split; [done|].
    apply update_signing_cert_follows in Hs' as [? _]. simpl. congruence.
  - destruct Hs as (Hn&Hc&He). destruct (update_signing_cert sg cert) as [s1|] eqn:Hs1.
    + eexists. split; [done|]. apply update_signing_cert_follows in Hs1 as [??]. simpl. repeat split; congruence.
    + destruct Hk as [Hk|Hk]; [destruct (update_signing_cert_ok sg cert) as [? Hok]; congruence|].
      destruct (update_signing_cert_ok cu cert) as [s' Hs']; [congruence|]. rewrite Hs'. eexists. split; [done|].
      apply update_signing_cert_follows in Hs' as [??]. simpl. repeat split; congruence.
  - destruct Hs as (Hn&Hc&He). destruct (update_signing_cert ol cert) as [s1|] eqn:Hs1.
    + eexists. split; [done|]. apply update_signing_cert_follows in Hs1 as [??]. simpl. repeat split; congruence.
    + destruct Hk as [Hk|Hk]; [|destruct (update_signing_cert_ok ol cert) as [? Hok]; congruence].
      destruct (update_signing_cert_ok cu cert) as [s' Hs']; [congruence|]. rewrite Hs'. eexists. split; [done|].
      apply update_signing_cert_follows in Hs' as [??]. simpl. repeat split; congruence.
Qed.

Lemma class_reissue_follows st keys :
  key_sets st (Some keys) → unless (class_reissue timing now signer keys) (λ keys', key_sets st (Some keys')).
Proof.
  intros Hs. destruct keys as [cu|sg cu|cu ol]; simpl.
  - apply unless_fmap. eapply unless_mono; [apply set_reissue_follows|]. intros cu' [??]. destruct st; simpl in *; congruence.
  - eapply unless_bind; [apply set_reissue_follows|]. intros sg' [??]. apply unless_fmap.
    eapply unless_mono; [apply set_reissue_follows|]. intros cu' [??]. destruct st; simpl in *; try done.
    destruct Hs as (?&?&?). repeat split; congruence.
  - eapply unless_bind; [apply set_reissue_follows|]. intros ol' [??].
    eapply unless_bind; [apply set_reissue_follows|]. intros cu' [??]. destruct st; simpl in *; try done.
    destruct Hs as (?&?&?). repeat split; congruence.
Qed.

Lemma update_current_follows st keys f :
  (∀ s, set_key (f s) = set_key s) → key_sets st (Some keys) → key_sets st (Some (update_current f keys)).
Proof. intros Hf Hs. destruct st, keys; simpl in *; rewrite ?Hf; done. Qed.

(** ** One event *)

Lemma edits_key t s s' : edits t s s' → set_key s' = set_key s.
Proof. by intros ([? _]&_). Qed.

Lemma in_step_class ca objects ca' objects' n rc rc' keys :
  in_step ca objects → ca_resources ca !! n = Some rc → co_repo objects' = co_repo objects → ca_repository ca' = ca_repository ca →
  ca_resources ca' = <[n := rc']> (ca_resources ca) → (∀ m, m ≠ n → co_classes objects' !! m = co_classes objects !! m) →
  co_classes objects' !! n = keys → key_sets (rc_key_state rc') keys → in_step ca' objects'.
Proof.
  intros [Hr Hc] Hn Hr' Hrepo Hres Hother Hkeys Hs. split; [congruence|]. intros m. rewrite Hres.
  destruct (decide (m = n)) as [->|Hne]; [by rewrite lookup_insert_eq, Hkeys|].
  rewrite lookup_insert_ne, Hother by done. apply Hc.
Qed.

(** An operation on a class whose key is in use. *)
Lemma on_class_follows ca objects n rc rc' ca' f :
  in_step ca objects → ca_resources ca !! n = Some rc → ca_repository ca' = ca_repository ca →
  ca_resources ca' = <[n := rc']> (ca_resources ca) →
  (∀ keys, key_sets (rc_key_state rc) (Some keys) → unless (f keys) (λ keys', key_sets (rc_key_state rc') (Some keys'))) →
  certified rc → unless (on_class_objects objects n f) (in_step ca').
Proof.
  intros Hin Hn Hrepo Hres Hf Hcert. pose proof Hin as [_ Hc]. specialize (Hc n). rewrite Hn in Hc. simpl in Hc.
  unfold on_class_objects, get_class_mut. destruct (co_classes objects !! n) as [keys|] eqn:Hk; simpl.
  - eapply unless_bind; [by apply Hf|]. intros keys' Hs.
    eapply in_step_class; [exact Hin|exact Hn|done|done|exact Hres| |simpl; by rewrite lookup_insert_eq|done].
    intros m Hne. simpl. by rewrite lookup_insert_ne.
  - exfalso. unfold certified, current_key in Hcert. destruct (rc_key_state rc); simpl in *; done.
Qed.

Lemma has_key_certified rc ki : has_key (rc_key_state rc) ki → certified rc.
Proof. unfold certified, current_key. destruct (rc_key_state rc); simpl; try done; eauto. Qed.
Lemma received_key_sets rc ki cert rc' keys :
  received_cert rc ki cert = Some rc' → key_sets (rc_key_state rc) keys → key_sets (rc_key_state rc') keys.
Proof.
  unfold received_cert. destruct (rc_key_state rc) as [p|k|p k|nw k|k old]; simpl; intros H; simplify_eq/=; try done;
    destruct (decide _); simpl; by destruct keys as [[]|].
Qed.
Lemma request_key_sets st ki req keys : key_sets st keys → key_sets (key_add_request st ki req) keys.
Proof. destruct st, keys as [[]|]; simpl; try done; repeat case_decide; done. Qed.
Lemma old_repo_key_sets st repo keys : key_sets st keys → key_sets (set_old_repo_if_in_active_state st repo) keys.
Proof. destruct st, keys as [[]|]; simpl; done. Qed.

(** What an event of a class makes of the class. *)
Lemma on_class_inv n f ca ca' :
  on_class n f ca = Some ca' →
  ∃ rc rc', ca_resources ca !! n = Some rc ∧ f rc = Some rc' ∧ ca' = with_resources (<[n := rc']> (ca_resources ca)) ca.
Proof.
  unfold on_class. destruct (ca_resources ca !! n) as [rc|]; [|done]. simpl. destruct (f rc) as [rc'|] eqn:Hf; [|done].
  simpl. intros [= <-]. eauto.
Qed.
Lemma class_event_inv t ca e ca' n :
  event_class e = Some n → (∀ r, e ≠ UnexpectedKeyFound n r) → apply_details t ca e = Some ca' →
  ca_repository ca' = ca_repository ca
  ∧ ∃ rc rc', ca_resources ca !! n = Some rc ∧ class_effect e rc = Some rc' ∧ ca_resources ca' = <[n := rc']> (ca_resources ca).
Proof.
  intros He Hno Ha. destruct e; simplify_eq/=;
    try (apply on_class_inv in Ha as (rc&rc'&?&?&->); split; [done|by exists rc, rc']).
  - destruct (on_class n _ ca) as [ca1|] eqn:Hc; [|done]. simplify_eq/=. apply on_class_inv in Hc as (rc&rc'&?&?&->).
    split; [done|by exists rc, rc'].
  - by destruct (Hno revoke_req).
Qed.

Lemma fresh_name ca : names_inv ca → ca_resources ca !! pretty (ca_next_class_name ca) = None.
Proof.
  intros [Hn _]. destruct (ca_resources ca !! pretty (ca_next_class_name ca)) as [rc|] eqn:Hrc; [|done].
  destruct (Hn (pretty (ca_next_class_name ca))) as (k&Hk&Hlt); [by rewrite Hrc|]. apply (inj pretty) in Hk. lia.
Qed.
Lemma set_old_repo_key_sets st keys repo : key_sets st keys → key_sets st (objects_set_old_repo repo <$> keys).
Proof. by destruct st, keys as [[]|]. Qed.

(** Events that change neither the classes nor the repository. *)
Lemma in_step_same ca objects ca' :
  in_step ca objects → ca_repository ca' = ca_repository ca → ca_resources ca' = ca_resources ca → in_step ca' objects.
Proof. intros [? Hc] Hr Hres. split; [congruence|]. intros n. rewrite Hres. apply Hc. Qed.

(** A new class has no objects yet. *)
Lemma in_step_new ca objects ca' n rc p :
  in_step ca objects → ca_resources ca !! n = None → rc_key_state rc = Pending p → ca_repository ca' = ca_repository ca →
  ca_resources ca' = <[n := rc]> (ca_resources ca) → in_step ca' objects.
Proof.
  intros [Hr Hc] Hn Hp Hrepo Hres. split; [congruence|]. intros m. rewrite Hres.
  destruct (decide (m = n)) as [->|Hne]; [|rewrite lookup_insert_ne by done; apply Hc].
  rewrite lookup_insert_eq. specialize (Hc n). rewrite Hn in Hc. simpl in *. by rewrite Hp, Hc.
Qed.
Lemma in_step_removed ca objects ca' n :
  in_step ca objects → ca_repository ca' = ca_repository ca → ca_resources ca' = delete n (ca_resources ca) →
  in_step ca' (remove_class objects n).
Proof.
  intros [Hr Hc] Hrepo Hres.
  assert (co_repo (remove_class objects n) = co_repo objects ∧ co_classes (remove_class objects n) = delete n (co_classes objects)) as [Hro Hco].
  { unfold remove_class, deprecate_repo_if_no_longer_used. repeat case_match; done. }
  split; [congruence|]. intros m. rewrite Hres, Hco. destruct (decide (m = n)) as [->|Hne]; [by rewrite !lookup_delete_eq|].
  rewrite !lookup_delete_ne by done. apply Hc.
Qed.

(** Events of a class that the listener hears of in the current set. *)
Lemma current_set_followed ca objects ca' n rc rc' (f : KeyObjectSet → KeyObjectSet) :
  in_step ca objects → ca_resources ca !! n = Some rc → ca_repository ca' = ca_repository ca →
  ca_resources ca' = <[n := rc']> (ca_resources ca) → rc_key_state rc' = rc_key_state rc → certified rc →
  (∀ s, edits now s (f s)) → unless (on_current_set objects n f) (in_step ca').
Proof.
  intros Hin Hn Hrepo Hres Hst Hcert Hf. eapply on_class_follows; [done..| |done]. intros keys Hk. simpl.
  rewrite Hst. apply update_current_follows; [|done]. intros s. by eapply edits_key.
Qed.

(** What an event of a key roll leads to. *)
Definition event_follows ca' objects force e : Prop :=
  unless (listen_event timing now signer (objects, force) e) (λ st', in_step ca' st'.1).

Section key_events.
Variable (ca ca' : CertAuth) (objects : CaObjects) (force : bool) (n : string) (rc rc' : ResourceClass).
Hypotheses (Hin : in_step ca objects) (Hn : ca_resources ca !! n = Some rc) (Hrepo : ca_repository ca' = ca_repository ca)
  (Hres : ca_resources ca' = <[n := rc']> (ca_resources ca)).

Lemma received_followed cert ki :
  received_cert rc ki cert = Some rc' → has_key (rc_key_state rc) (cert_key_identifier cert) →
  event_follows ca' objects force (CertificateReceived n cert ki).
Proof.
  intros Heff Hheard. eapply unless_bind; [|by intros o Ho].
  eapply on_class_follows; [done..| |by eapply has_key_certified].
  intros keys Hk. destruct (received_follows (rc_key_state rc) keys cert) as (keys'&->&?); [done..|].
  simpl. by eapply received_key_sets.
Qed.
Lemma staged_followed new : pending_key_to_new rc new = Some rc' → key_ok new → event_follows ca' objects force (KeyPendingToNew n new).
Proof.
  unfold pending_key_to_new. intros Heff Hheard. destruct (rc_key_state rc) as [|?|p k| |] eqn:Hst; simplify_eq/=.
  eapply unless_bind; [|by intros o Ho]. eapply on_class_follows; [done..| |].
  - rewrite Hst. intros [cu| |] Hk; simpl in Hk; try done. simpl.
    eapply unless_bind; [apply set_create_follows|]. intros sn [Hkey Hempty]. simpl. repeat split; [|done|done].
    by rewrite Hkey, Hheard.
  - unfold certified, current_key. rewrite Hst. by eexists.
Qed.
Lemma first_key_followed key : pending_key_to_active rc key = Some rc' → key_ok key → event_follows ca' objects force (KeyPendingToActive n key).
Proof.
  unfold pending_key_to_active. intros Heff Hheard. destruct (rc_key_state rc) as [p|?|? ?| |] eqn:Hst; simplify_eq/=.
  pose proof Hin as [_ Hc]. specialize (Hc n). rewrite Hn in Hc. simpl in Hc. rewrite Hst in Hc.
  destruct (co_classes objects !! n) as [keys|] eqn:Hk; [done|].
  eapply (unless_bind _ _ _ (in_step ca')); [|by intros o Ho]. unfold add_class. rewrite Hk. simpl.
  eapply (unless_bind _ _ _ (λ keys, key_sets (Active key) (Some keys))).
  - unfold class_objects_create. eapply unless_bind; [apply set_create_follows|]. intros sn [Hkey _]. simpl. by rewrite Hkey, Hheard.
  - intros keys Hkeys. eapply in_step_class; [exact Hin|exact Hn|done|done|exact Hres| |simpl; by rewrite lookup_insert_eq|done].
    intros m Hne. simpl. by rewrite lookup_insert_ne.
Qed.
Lemma activated_followed req : new_key_activated rc req = Some rc' → event_follows ca' objects force (KeyRollActivated n req).
Proof.
  unfold new_key_activated. intros Heff. destruct (rc_key_state rc) as [|?|? ?|nw k|] eqn:Hst; simplify_eq/=.
  eapply unless_bind; [|by intros o Ho]. eapply on_class_follows; [done..| |].
  - rewrite Hst. intros [|sg cu|] Hk; simpl in Hk; try done. destruct Hk as (?&?&?). simpl. done.
  - unfold certified, current_key. rewrite Hst. by eexists.
Qed.
Lemma finished_followed : old_key_removed rc = Some rc' → event_follows ca' objects force (KeyRollFinished n).
Proof.
  unfold old_key_removed. intros Heff. destruct (rc_key_state rc) as [|?|? ?|? ?|k old] eqn:Hst; simplify_eq/=.
  pose proof Hin as [_ Hc]. specialize (Hc n). rewrite Hn in Hc. simpl in Hc. rewrite Hst in Hc.
  destruct (co_classes objects !! n) as [[| |cu ol]|] eqn:Hk; simpl in Hc; try done. destruct Hc as (?&?&?).
  unfold event_follows. simpl. unfold objects_keyroll_finish, get_class_mut. rewrite Hk. simpl.
  eapply in_step_class; [exact Hin|exact Hn| |done|exact Hres| | |].
  - case_match; [|done]. unfold deprecate_repo_if_no_longer_used. by case_match.
  - intros m Hne. case_match; [unfold deprecate_repo_if_no_longer_used; case_match|]; simpl; by rewrite lookup_insert_ne.
  - case_match; [unfold deprecate_repo_if_no_longer_used; case_match|]; simpl; by rewrite lookup_insert_eq.
  - done.
Qed.
(** Events that change objects of the current set. *)
Lemma products_followed e f :
  (listen_event timing now signer (objects, force) e = (objects ← on_current_set objects n f; Ok (objects, true))) →
  rc_key_state rc' = rc_key_state rc → certified rc → (∀ s, edits now s (f s)) → event_follows ca' objects force e.
Proof.
  intros He Hst Hcert Hf. unfold event_follows. rewrite He. eapply unless_bind; [|by intros o Ho].
  by eapply current_set_followed.
Qed.
(** Events that the listener does not act on. *)
Lemma ignored_followed e :
  listen_event timing now signer (objects, force) e = Ok (objects, force) →
  (∀ keys, key_sets (rc_key_state rc) keys → key_sets (rc_key_state rc') keys) → event_follows ca' objects force e.
Proof.
  intros He Hk. unfold event_follows. rewrite He. simpl. pose proof Hin as [_ Hc]. specialize (Hc n). rewrite Hn in Hc.
  eapply in_step_class; [exact Hin|exact Hn|done|done|exact Hres|done|done|by apply Hk].
Qed.
End key_events.

Lemma class_event_followed t ca objects force e ca' n :
  event_class e = Some n → in_step ca objects → (∀ rc, ca_resources ca !! n = Some rc → class_heard e rc) →
  apply_details t ca e = Some ca' → event_follows ca' objects force e.
Proof.
  intros He Hin Hheard Ha.
  assert ((∃ r, e = UnexpectedKeyFound n r) ∨ ∀ r, e ≠ UnexpectedKeyFound n r) as [(r&->)|Hno].
  { destruct e; try (by right). left. simplify_eq/=. eauto. }
  { by simplify_eq/=. }
  destruct (class_event_inv t ca e ca' n He Hno Ha) as (Hrepo&rc&rc'&Hn&Heff&Hres). specialize (Hheard rc Hn). clear Ha.
  destruct e; simplify_eq/=.
  - by eapply products_followed; [..|intros; apply update_certs_edits].
  - eapply ignored_followed; [done..|]. intros keys. apply request_key_sets.
  - by eapply received_followed.
  - eapply ignored_followed; [done..|]. unfold pending_key_id_added in Heff. intros keys.
    destruct (rc_key_state rc); by simplify_eq/=.
  - by eapply staged_followed.
  - by eapply first_key_followed.
  - by eapply activated_followed.
  - by eapply finished_followed.
  - by destruct (Hno revoke_req).
  - by eapply products_followed; [..|intros; apply update_roas_edits].
  - by eapply products_followed; [..|intros; apply update_aspas_edits].
  - by eapply products_followed; [..|intros; apply update_bgpsec_edits].
Qed.

Lemma repo_updated_followed t ca objects contact ca' :
  in_step ca objects → apply_details t ca (RepoUpdated contact) = Some ca' → in_step ca' (objects_update_repo objects contact).
Proof.
  intros [Hr Hc] [= <-]. unfold objects_update_repo. rewrite Hr. destruct (ca_repository ca) as [current|]; simpl; [|done].
  split; [done|]. intros n. specialize (Hc n). simpl. rewrite !lookup_fmap. destruct (ca_resources ca !! n) as [rc|]; simpl in *.
  - by apply old_repo_key_sets, set_old_repo_key_sets.
  - by rewrite Hc.
Qed.

(** Events on children leave classes alone. *)
Lemma on_child_inv child f ca ca' :
  on_child child f ca = Some ca' → ∃ d, ca_children ca !! child = Some d ∧ ca' = with_children (<[child := f d]> (ca_children ca)) ca.
Proof. unfold on_child. destruct (ca_children ca !! child) as [d|]; [|done]. intros [= <-]. eauto. Qed.

Lemma event_followed t ca objects force e ca' :
  in_step ca objects → names_inv ca → event_heard ca e → apply_details t ca e = Some ca' →
  event_follows ca' objects force e.
Proof.
  intros Hin Hnames Hheard Ha.
  destruct (event_class e) as [n|] eqn:He.
  { eapply class_event_followed; [done|done| |done]. by destruct e; simplify_eq/=. }
  destruct e; simplify_eq/=; try (unfold event_follows; simpl; by eapply in_step_same);
    try (apply on_child_inv in Ha as (d&_&->); unfold event_follows; simpl; by eapply in_step_same).
  - unfold event_follows. simpl. eapply in_step_new; [done|by apply fresh_name| | |done]; done.
  - destruct (on_class _ _ _) as [ca1|] eqn:Hc; [|done]. simpl in Ha.
    apply on_class_inv in Hc as (rc&rc'&Hn&?&->). apply on_child_inv in Ha as (d&_&->). simplify_eq/=.
    unfold event_follows. simpl. eapply in_step_class; [exact Hin|exact Hn|done|done|done|done|done|]. simpl.
    destruct Hin as [_ Hc]. specialize (Hc resource_class_name). by rewrite Hn in Hc.
  - unfold event_follows. simpl. eapply in_step_same; [done|done|]. simpl.
    apply map_filter_id. intros n rc Hn. by eapply Hheard.
  - unfold event_follows. simpl. destruct Hheard as [-> _]. eapply in_step_new; [done|by apply fresh_name| | |done]; done.
  - unfold event_follows. simpl. by eapply in_step_removed.
  - destruct (aspa_apply_update _ _ _); [|done]. simplify_eq/=. unfold event_follows. simpl. by eapply in_step_same.
  - unfold event_follows. simpl. by eapply (repo_updated_followed t).
Qed.
End listener.

(** ** Names and children stay in order *)

Definition child_ok ca (d : ChildDetails) : Prop :=
  ∀ ki n, cd_used_keys d !! ki = Some (InUse n) → given_out ca n ∧ ∀ rc, ca_resources ca !! n = Some rc → certified rc.

(** A state with no new name, whose classes have kept their certificates and whose children have no
    new keys. *)
Lemma names_inv_keep ca ca' :
  names_inv ca → ca_next_class_name ca' = ca_next_class_name ca →
  (∀ n rc', ca_resources ca' !! n = Some rc' → ∃ rc, ca_resources ca !! n = Some rc ∧ (certified rc → certified rc')) →
  (∀ child d', ca_children ca' !! child = Some d' → (∀ ki n, cd_used_keys d' !! ki = Some (InUse n) →
     ∃ child0 d, ca_children ca !! child0 = Some d ∧ cd_used_keys d !! ki = Some (InUse n)) ∨ child_ok ca d') →
  names_inv ca'.
Proof.
  intros [Hn Hk] Hnext Hres Hch.
  assert (∀ n, given_out ca n → given_out ca' n) as Hgo by (unfold given_out; by rewrite Hnext).
  assert (∀ n, (∀ rc, ca_resources ca !! n = Some rc → certified rc) → ∀ rc', ca_resources ca' !! n = Some rc' → certified rc') as Hcert.
  { intros n Hc rc' (rc&Hrc&Himp)%Hres. by apply Himp, Hc. }
  split.
  - intros n [rc' (rc&Hrc&_)%Hres]. apply Hgo, Hn. by rewrite Hrc.
  - intros child d ki n Hd Hki. destruct (Hch child d Hd) as [Hold|Hok].
    + destruct (Hold ki n Hki) as (child0&d0&Hd0&Hki0). destruct (Hk _ _ _ _ Hd0 Hki0). eauto.
    + destruct (Hok ki n Hki). eauto.
Qed.
Lemma same_classes ca n rc' : ca_resources ca !! n = Some rc' → ∃ rc, ca_resources ca !! n = Some rc ∧ (certified rc → certified rc').
Proof. eauto. Qed.
Lemma same_children ca child d' : ca_children ca !! child = Some d' → (∀ ki n, cd_used_keys d' !! ki = Some (InUse n) →
     ∃ child0 d, ca_children ca !! child0 = Some d ∧ cd_used_keys d !! ki = Some (InUse n)) ∨ child_ok ca d'.
Proof. left. eauto. Qed.

(** A child whose keys in use were in use. *)
Lemma on_child_names child f ca ca' :
  (∀ d ki n, cd_used_keys (f d) !! ki = Some (InUse n) → cd_used_keys d !! ki = Some (InUse n)) →
  names_inv ca → on_child child f ca = Some ca' → names_inv ca'.
Proof.
  intros Hf Hi (d&Hd&->)%on_child_inv. eapply names_inv_keep; [exact Hi|done|exact (same_classes ca)|]. simpl.
  intros c d' [[-> <-]|[_ Hc]]%lookup_insert_Some; [|by apply same_children in Hc]. left. eauto.
Qed.
Lemma revoked_in_use ki d ki' n :
  cd_used_keys (add_revoke_response ki d) !! ki' = Some (InUse n) → cd_used_keys d !! ki' = Some (InUse n).
Proof. simpl. by intros [[_ [=]]|[_ ?]]%lookup_insert_Some. Qed.
Lemma revoke_for_children_in_use cs removed child d' ki n :
  revoke_for_children cs removed !! child = Some d' → cd_used_keys d' !! ki = Some (InUse n) →
  ∃ d, cs !! child = Some d ∧ cd_used_keys d !! ki = Some (InUse n).
Proof.
  unfold revoke_for_children. revert cs. induction removed as [|r removed IH]; intros cs; simpl; [eauto|].
  intros Hd Hki. destruct (IH _ Hd Hki) as (d1&Hd1&Hki1). rewrite lookup_fmap, fmap_Some in Hd1. destruct Hd1 as (d&Hd0&->).
  exists d. split; [done|]. case_match; [by apply revoked_in_use in Hki1|done].
Qed.

(** Classes keep their certificates. *)
Lemma class_effect_certified e rc rc' : class_effect e rc = Some rc' → certified rc → certified rc'.
Proof.
  unfold certified, current_key. destruct rc as [????????? st], e; simpl; try (by intros [= <-]);
    unfold received_cert, pending_key_id_added, pending_key_to_new, pending_key_to_active, new_key_activated, old_key_removed;
    simpl; destruct st; simpl; intros ?; simplify_eq/=; repeat case_decide; eauto.
Qed.
Lemma set_old_repo_certified rc repo : certified rc → certified (class_set_old_repo rc repo).
Proof. unfold certified, current_key. by destruct rc as [????????? []]. Qed.

Lemma names_inv_new ca ca' rc :
  names_inv ca → names_left ca → ca_next_class_name ca' = u32_succ (ca_next_class_name ca) → ca_children ca' = ca_children ca →
  ca_resources ca' = <[pretty (ca_next_class_name ca) := rc]> (ca_resources ca) → names_inv ca'.
Proof.
  intros [Hn Hk] Hleft Hnext Hch Hres. unfold names_left, u32_succ in *.
  assert (∀ n, given_out ca n → given_out ca' n) as Hgo.
  { intros n (k&->&Hlt). exists k. split; [done|]. rewrite Hnext, N.mod_small by lia. lia. }
  split.
  - intros n. rewrite Hres, lookup_insert_is_Some'. intros [<-|Hs]; [|by apply Hgo, Hn].
    exists (ca_next_class_name ca). split; [done|]. rewrite Hnext, N.mod_small by lia. lia.
  - intros child d ki n. rewrite Hch, Hres. intros Hd Hki. destruct (Hk child d ki n Hd Hki) as [Hg Hc]. split; [by apply Hgo|].
    intros rc'. rewrite lookup_insert_ne; [by apply Hc|]. intros <-. destruct Hg as (k&Heq&Hlt). apply (inj pretty) in Heq. lia.
Qed.

(** What an event of a class does to the classes and the children. *)
Lemma class_event_lookup t ca e ca' n :
  event_class e = Some n → apply_details t ca e = Some ca' →
  ca_next_class_name ca' = ca_next_class_name ca
  ∧ (∀ m, ca_resources ca' !! m = if decide (m = n) then ca_resources ca !! n ≫= class_effect e else ca_resources ca !! m)
  ∧ ∀ child d' ki m, ca_children ca' !! child = Some d' → cd_used_keys d' !! ki = Some (InUse m) →
      ∃ d, ca_children ca !! child = Some d ∧ cd_used_keys d !! ki = Some (InUse m).
Proof.
  intros He Ha.
  assert (∀ f ca1, on_class n f ca = Some ca1 → ca_next_class_name ca1 = ca_next_class_name ca ∧ ca_children ca1 = ca_children ca
    ∧ ∀ m, ca_resources ca1 !! m = if decide (m = n) then ca_resources ca !! n ≫= f else ca_resources ca !! m) as Hon.
  { intros f ca1 (rc&rc'&Hn&Hf&->)%on_class_inv. split; [done|]. split; [done|]. intros m. simpl. case_decide as Hm.
    - subst m. by rewrite lookup_insert_eq, Hn.
    - by rewrite lookup_insert_ne. }
  destruct e; simplify_eq/=; try (apply Hon in Ha as (?&->&?); by eauto).
  - destruct (on_class n _ ca) as [ca1|] eqn:Hc; [|done]. simplify_eq/=. apply Hon in Hc as (?&Hch&?). split; [done|]. split; [done|].
    rewrite Hch. intros child d' ki m. apply revoke_for_children_in_use.
  - split; [done|]. split; [|by eauto]. intros m. case_decide; [subst m|done]. by destruct (ca_resources ca' !! n).
Qed.

Lemma event_names t ca e ca' : names_inv ca → event_heard ca e → apply_details t ca e = Some ca' → names_inv ca'.
Proof.
  intros Hi Hheard Ha. destruct (event_class e) as [n|] eqn:He.
  { destruct (class_event_lookup t ca e ca' n He Ha) as (Hnext&Hres&Hch). eapply names_inv_keep; [exact Hi|done| |].
    - intros m rc'. rewrite Hres. case_decide as Hm; [|eauto]. subst m. destruct (ca_resources ca !! n) as [rc|]; [|done].
      simpl. intros Heff. exists rc. split; [done|]. by eapply class_effect_certified.
    - intros child d' Hd. left. intros ki m Hki. destruct (Hch _ _ _ _ Hd Hki) as (d&?&?). eauto. }
  destruct e; simplify_eq/=;
    try (eapply names_inv_keep; [exact Hi|done|exact (same_classes ca)|exact (same_children ca)]);
    try (eapply on_child_names; [|done|done]; done).
  - by eapply names_inv_new.
  - eapply names_inv_keep; [exact Hi|done|exact (same_classes ca)|]. simpl.
    intros c d' [[-> <-]|[_ Hc]]%lookup_insert_Some; [|by apply same_children in Hc]. right. intros ki n Hki. by simplify_map_eq.
  - apply on_child_inv in Ha as (d&Hd&->). eapply names_inv_keep; [exact Hi|done|exact (same_classes ca)|]. simpl.
    intros c d' [[-> <-]|[_ Hc]]%lookup_insert_Some; [|by apply same_children in Hc]. right.
    destruct Hheard as (rc&Hrc&Hcert). intros ki' n. simpl. intros [[-> [= <-]]|[_ Hki]]%lookup_insert_Some.
    + split; [apply Hi; by rewrite Hrc|]. intros rc' ?. by simplify_eq.
    + destruct Hi as [_ Hk]. by eapply Hk.
  - destruct (on_class _ _ _) as [ca1|] eqn:Hc; [|done]. simpl in Ha. apply on_class_inv in Hc as (rc&rc'&Hn&Hf&->).
    eapply on_child_names; [intros d; apply revoked_in_use| |exact Ha]. eapply names_inv_keep; [exact Hi|done| |exact (same_children ca)].
    simpl. intros m rcm [[-> <-]|[_ Hm]]%lookup_insert_Some; [|eauto]. simplify_eq/=. eauto.
  - eapply names_inv_keep; [exact Hi|done|exact (same_classes ca)|]. simpl. intros c d' [_ Hc]%lookup_delete_Some.
    by apply same_children in Hc.
  - eapply names_inv_keep; [exact Hi|done| |exact (same_children ca)]. simpl. intros n rc [? _]%map_lookup_filter_Some. eauto.
  - destruct Hheard as [-> ?]. by eapply names_inv_new.
  - eapply names_inv_keep; [exact Hi|done| |exact (same_children ca)]. simpl. intros n rc [_ ?]%lookup_delete_Some. eauto.
  - destruct (aspa_apply_update _ _ _); [|done]. simplify_eq/=.
    eapply names_inv_keep; [exact Hi|done|exact (same_classes ca)|exact (same_children ca)].
  - destruct (ca_repository ca); [|eapply names_inv_keep; [exact Hi|done|exact (same_classes ca)|exact (same_children ca)]].
    eapply names_inv_keep; [exact Hi|done| |exact (same_children ca)]. simpl. intros n rc'. rewrite lookup_fmap, fmap_Some.
    intros (rc&Hrc&->). exists rc. split; [done|]. apply set_old_repo_certified.
Qed.

(** ** Lists of events *)

Fixpoint heard_all (t : Instant) ca (ds : list CaEvent) : Prop :=
  match ds with
  | [] => True
  | e :: ds => event_heard ca e ∧ ∀ ca', apply_details t (with_version (u64_succ (ca_version ca)) ca) e = Some ca' → heard_all t ca' ds
  end.

Lemma heard_app t ca ds1 ds2 :
  heard_all t ca ds1 → (∀ ca1, apply_list t ca ds1 = Some ca1 → heard_all t ca1 ds2) → heard_all t ca (ds1 ++ ds2).
Proof.
  revert ca. induction ds1 as [|e ds1 IH]; intros ca H1 H2; [by apply H2|]. destruct H1 as [He H1]. split; [done|].
  intros ca' Hca'. apply IH; [by apply H1|]. intros ca1 Hca1. apply H2. simpl. by rewrite Hca'.
Qed.

Section listener2.
Context (timing : IssuanceTimingConfig) (now : Instant) (signer : ObjectSigner).
Abbreviation unless r P := (unless_signing_fails signer r P).

Lemma events_followed t ca objects force ds ca' :
  in_step ca objects → names_inv ca → heard_all t ca ds → apply_list t ca ds = Some ca' →
  unless (fold_each (listen_event timing now signer) (objects, force) ds) (λ st', in_step ca' st'.1 ∧ names_inv ca').
Proof.
  revert ca objects force. induction ds as [|e ds IH]; intros ca objects force Hin Hi Hh Ha; simpl in Ha.
  { simplify_eq. by split. }
  destruct (apply_details _ _ e) as [ca1|] eqn:He; [|done]. simpl in Ha. destruct Hh as [Hhe Hh].
  pose proof (event_followed timing now signer t (with_version (u64_succ (ca_version ca)) ca) objects force e ca1) as Hst1.
  assert (event_heard (with_version (u64_succ (ca_version ca)) ca) e) as Hhe' by (by destruct e).
  specialize (Hst1 Hin Hi Hhe' He). unfold event_follows in Hst1. cbn [fold_each].
  destruct (listen_event timing now signer (objects, force) e) as [[o1 f1]|]; simpl in Hst1; [|done].
  apply (IH ca1); [done|by eapply event_names; [..|exact He]|by apply Hh|done].
Qed.

(** Re-issuing keeps the keys. *)
Lemma re_issue_followed ca objects force :
  in_step ca objects → unless (objects_re_issue timing now signer force objects) (λ res, in_step ca res.1).
Proof.
  intros Hin. unfold objects_re_issue.
  assert (∀ n keys, (n, keys) ∈ hm_iter (co_classes objects) → class_in_step (ca_resources ca !! n) (Some keys)) as Hl.
  { intros n keys Hk%elem_of_hm_iter. destruct Hin as [_ Hc]. rewrite <-Hk. apply Hc. }
  revert Hl. assert (in_step ca (objects, false).1) as Hst by done. revert Hst. generalize (objects, false).
  induction (hm_iter (co_classes objects)) as [|[n keys] l IH]; intros st Hst Hl; simpl; [done|].
  pose proof (Hl n keys ltac:(by left)) as Hk. destruct (ca_resources ca !! n) as [rc|] eqn:Hn; [|done].
  assert (∀ m keys', (m, keys') ∈ l → class_in_step (ca_resources ca !! m) (Some keys')) as Hl' by (intros; apply Hl; by right).
  destruct (_ || _); [|by apply IH]. pose proof (class_reissue_follows timing now signer (rc_key_state rc) keys Hk) as Hk'.
  destruct (class_reissue timing now signer keys) as [keys'|]; simpl in Hk'; [|done]. simpl. apply IH; [|done]. destruct Hst as [Hr Hc]. split; [done|]. intros m. simpl.
  destruct (decide (m = n)) as [->|Hne]; [by rewrite lookup_insert_eq, Hn|]. rewrite lookup_insert_ne by done. apply Hc.
Qed.

Lemma listen_followed t ca objects ds ca' :
  in_step ca objects → names_inv ca → heard_all t ca ds → apply_list t ca ds = Some ca' →
  unless (listen_objects timing now signer objects ds) (λ objects', in_step ca' objects' ∧ names_inv ca').
Proof.
  intros Hin Hi Hh Ha. unfold listen_objects. eapply unless_bind; [by eapply events_followed|]. intros st' [Hin' Hn'].
  eapply unless_bind; [by eapply re_issue_followed|]. intros res Hres. done.
Qed.
End listener2.
End follow.
