(* ===== verification/CaFollowProps.v ===== *)
(** * The listener follows every command, and a CA together with its published objects

    The events of each command of a CA are events that the listener of published objects can
    follow.  The aggregate store gives the events of a command to the listener before it saves
    them, and the listener may refuse.  Commands are seen here without the storage of events and
    snapshots, which is in [EventSourcing]. *)

From stdpp Require Import base gmap strings list pretty.
From S2P Require Import Prelude Rpki Rrdp Roas Routes EventSourcing CaCerts CaEvents CaKeys CaChildren CaProducts CaClass CertAuth CertAuthCmds CaFacts CaCertFacts CaInvariant CaSteps CaStepFacts CaObjects CaObjectsStore CaObjectsFacts CaFollow CaDemo CaObjectsDemo.

Section commands.
Context `{PA : !PrefixApi, RP : !Rpki, CA : !CaApi, HO : !HashOrder}.
Context (config : Config) (now : Instant) (signer : Signer).
Implicit Types (ca : CertAuth).

(** ** Events that are heard in any state *)

Definition quiet (e : CaEvent) : Prop := ∀ ca, event_heard ca e.

Lemma quiet_heard t ca ds : Forall quiet ds → heard_all t ca ds.
Proof. revert ca. induction ds as [|e ds IH]; intros ca Hds; [done|]. apply Forall_cons in Hds as [He Hds]. split; [by apply He|auto]. Qed.
Lemma quiet_one t ca e : quiet e → heard_all t ca [e].
Proof. intros He. by apply quiet_heard, Forall_singleton. Qed.

(** ** Events of classes *)

Fixpoint class_heard_all (ds : list CaEvent) (rc : ResourceClass) : Prop :=
  match ds with
  | [] => True
  | e :: ds => class_heard e rc ∧ ∀ rc', class_effect e rc = Some rc' → class_heard_all ds rc'
  end.
Definition class_hears (n : string) (rc : ResourceClass) (ds : list CaEvent) : Prop := events_of n ds ∧ class_heard_all ds rc.

Lemma class_event_heard ca e n rc :
  event_class e = Some n → ca_resources ca !! n = Some rc → class_heard e rc → event_heard ca e.
Proof. intros He Hn Hh. destruct e; simplify_eq/=; intros; by simplify_eq. Qed.

Lemma class_hears_heard t ca n rc ds : ca_resources ca !! n = Some rc → class_hears n rc ds → heard_all t ca ds.
Proof.
  revert ca rc. induction ds as [|e ds IH]; intros ca rc Hn [Hof Hh]; [done|]. apply Forall_cons in Hof as [He Hof].
  destruct Hh as [Hhe Hh]. split; [by eapply class_event_heard|]. intros ca' Hca'.
  destruct (class_event_lookup t _ e ca' n He Hca') as (_&Hres&_). specialize (Hres n). rewrite decide_True in Hres by done.
  simpl in Hres. rewrite Hn in Hres. simpl in Hres. destruct (class_effect e rc) as [rc'|] eqn:Heff.
  - apply (IH ca' rc'); [done|]. split; [done|by apply Hh].
  - clear -Hres Hof. revert ca' Hres. induction ds as [|e ds IH]; intros ca' Hres; [done|]. apply Forall_cons in Hof as [He Hof].
    split; [destruct e; simplify_eq/=; intros; by simplify_eq|]. intros ca1 Hca1. apply IH; [done|].
    destruct (class_event_lookup t _ e ca1 n He Hca1) as (_&Hres1&_). rewrite Hres1, decide_True by done. simpl. by rewrite Hres.
Qed.

Lemma class_events_others t ca n ds ca' m :
  events_of n ds → apply_list t ca ds = Some ca' → m ≠ n → ca_resources ca' !! m = ca_resources ca !! m.
Proof.
  revert ca. induction ds as [|e ds IH]; intros ca Hof Ha Hne; simpl in Ha; [by simplify_eq|].
  apply Forall_cons in Hof as [He Hof]. destruct (apply_details _ _ e) as [ca1|] eqn:Hca1; [|done]. simpl in Ha.
  rewrite (IH ca1) by done. destruct (class_event_lookup t _ e ca1 n He Hca1) as (_&Hres&_). by rewrite Hres, decide_False.
Qed.

Lemma classes_hear t ca l dss :
  NoDup l.*1 → (∀ n rc, (n, rc) ∈ l → ca_resources ca !! n = Some rc) →
  Forall2 (λ (nrc : string * ResourceClass) d, class_hears nrc.1 nrc.2 d) l dss → heard_all t ca (concat dss).
Proof.
  intros Hnd Hl Hf. revert ca Hnd Hl. induction Hf as [|[n rc] d l dss Hd Hf IH]; intros ca Hnd Hl; [done|]. simpl in *.
  apply NoDup_cons in Hnd as [Hn Hnd]. apply heard_app; [by eapply class_hears_heard; [apply Hl; by left|]|].
  intros ca1 Hca1. apply IH; [done|]. intros m rcm Hm. destruct Hd as [Hof _].
  rewrite (class_events_others t ca n d ca1 m Hof Hca1); [apply Hl; by right|]. intros ->. apply Hn. apply list_elem_of_fmap. by exists (n, rcm).
Qed.
Lemma all_classes_hear t ca ca0 dss :
  ca_resources ca0 = ca_resources ca →
  Forall2 (λ (nrc : string * ResourceClass) d, class_hears nrc.1 nrc.2 d) (hm_iter (ca_resources ca)) dss → heard_all t ca0 (concat dss).
Proof.
  intros Hr Hf. eapply classes_hear; [apply NoDup_hm_keys| |exact Hf]. intros n rc. rewrite Hr. by rewrite elem_of_hm_iter.
Qed.

(** Events of a class that has a certificate. *)
Definition needs_cert (e : CaEvent) : bool :=
  match e with ChildCertificatesUpdated _ _ => true | _ => product_event e end.
Lemma certified_hears n rc ds : certified rc → Forall (λ e, needs_cert e = true) ds → events_of n ds → class_hears n rc ds.
Proof.
  intros Hc Hds Hof. split; [done|]. clear Hof. revert rc Hc. induction ds as [|e ds IH]; intros rc Hc; [done|].
  apply Forall_cons in Hds as [He Hds]. split; [by destruct e|]. intros rc' Heff. apply IH; [done|]. by eapply class_effect_certified.
Qed.
Lemma product_needs ds : Forall (λ e, product_event e = true) ds → Forall (λ e, needs_cert e = true) ds.
Proof. intros H. eapply Forall_impl; [exact H|]. by intros []. Qed.
Lemma certs_event_needs rc u : Forall (λ e, needs_cert e = true) (certs_event rc u).
Proof. unfold certs_event. case_match; by repeat constructor. Qed.

(** ** Commands on a class *)

Lemma received_current_hears n rc k routes aspas bgpsecs cert ds :
  class_inv n rc → current_key rc = Some k → update_rcvd_cert_current config now signer routes aspas bgpsecs rc k cert = Ok ds →
  class_hears n rc ds.
Proof.
  intros (<-&_) Hk. unfold update_rcvd_cert_current. case_bool_decide as Hki; simpl; [|done].
  assert (class_heard (CertificateReceived (rc_name rc) cert (cert_key_identifier cert)) rc) as Hh.
  { simpl. rewrite Hki. unfold current_key in Hk. destruct (rc_key_state rc); simplify_eq/=; auto. }
  assert (certified rc) as Hc by (by eexists).
  destruct (rs_difference_is_empty _ _); simpl.
  - intros [= <-]. split; [by repeat constructor|]. done.
  - intros H. inv_ok. split; [apply events_of_cons; [done|]; auto with krill|]. split; [done|]. intros rc' Heff. simpl in Heff.
    apply (certified_hears (rc_name rc)); [|rewrite !Forall_app; split_and!; eauto using certs_event_needs, product_needs with krill|auto with krill].
    by eapply (class_effect_certified (CertificateReceived (rc_name rc) cert (cert_key_identifier cert))).
Qed.

Lemma received_cert_hears n rc routes aspas bgpsecs cert ds :
  class_inv n rc → class_update_received_cert config now signer routes aspas bgpsecs rc cert = Ok ds → class_hears n rc ds.
Proof.
  intros Hinv. pose proof Hinv as (<-&_). unfold class_update_received_cert.
  destruct (rc_key_state rc) as [p|c|p c|nw c|c o] eqn:Hst.
  - case_bool_decide; simpl; [|done]. intros H'. inv_ok. split; [apply events_of_cons; [done|]; auto with krill|].
    split; [done|]. intros rc' Heff. simpl in Heff. unfold pending_key_to_active in Heff. rewrite Hst in Heff. simplify_eq/=.
    apply (certified_hears (rc_name rc)); [by eexists|rewrite !Forall_app; split_and!; eauto using product_needs with krill|auto with krill].
  - apply received_current_hears; [done|by unfold current_key; rewrite Hst].
  - case_bool_decide; [|apply received_current_hears; [done|by unfold current_key; rewrite Hst]].
    intros [= <-]. split; [by repeat constructor|]. by split.
  - case_bool_decide as Hki; [|apply received_current_hears; [done|by unfold current_key; rewrite Hst]].
    intros [= <-]. split; [by repeat constructor|]. split; [|done]. simpl. rewrite Hst. by left.
  - apply received_current_hears; [done|by unfold current_key; rewrite Hst].
Qed.

Lemma initiate_hears n rc repo duration ds :
  class_inv n rc → class_keyroll_initiate now signer rc repo duration = Ok ds → class_hears n rc ds.
Proof.
  intros (<-&_). unfold class_keyroll_initiate, key_keyroll_initiate. destruct (_ && _); [intros [= <-]; split; [constructor|done]|].
  destruct (rc_key_state rc); try (intros [= <-]; split; [constructor|done]). intros H. inv_ok. split; [by repeat constructor|]. by repeat split.
Qed.
Lemma activate_hears n rc staging ds :
  class_inv n rc → class_keyroll_activate config now signer rc staging = Ok ds → class_hears n rc ds.
Proof.
  intros (<-&_). unfold class_keyroll_activate. destruct (rc_key_state rc) as [p|c|p c|nw c|c o] eqn:Hst; try (intros [= <-]; split; [constructor|done]).
  simpl. destruct (_ && _); [intros [= <-]; split; [constructor|done]|]. intros H. inv_ok.
  split; [apply events_of_cons; [done|]; auto with krill|]. split; [done|]. intros rc' Heff.
  apply (certified_hears (rc_name rc)); [|rewrite !Forall_app; split_and!; eauto using certs_event_needs, product_needs with krill|auto with krill].
  eapply class_effect_certified; [exact Heff|]. unfold certified, current_key. rewrite Hst. by eexists.
Qed.
Lemma finish_hears n rc e : class_inv n rc → class_keyroll_finish rc = Ok e → class_hears n rc [e].
Proof.
  intros (<-&_). unfold class_keyroll_finish. destruct (rc_key_state rc); try done. intros [= <-].
  split; [by repeat constructor|]. by repeat split.
Qed.

(** ** Commands of a CA *)

Section one_command.
Variable (ca : CertAuth).
Hypotheses (Hinv : ca_inv ca) (Hnames : names_inv ca).

Lemma child_certify_heard child request evs :
  child_certify config now signer ca child request = Ok evs → heard_all now ca (ev_details <$> evs).
Proof.
  unfold child_certify. intros H'. inv_ok. case_match; [done|]. inv_ok. unfold issue_child_certificate, issue_cert in *. inv_ok. known.
  simpl. split; [eexists; split; [done|by eexists]|]. intros ca' (d&_&->)%on_child_inv. split; [|done].
  simpl. intros rc ?. simplify_eq. by eexists.
Qed.

Lemma child_revoke_key_heard child request evs :
  (∃ rc, ca_resources ca !! rr_class_name request = Some rc ∧ certified rc) →
  child_revoke_key ca child request = Ok evs → heard_all now ca (ev_details <$> evs).
Proof.
  intros (rc&Hn&Hc). unfold child_revoke_key. intros H'. inv_ok. case_match; [done|]. inv_ok. simpl. split; [done|].
  intros ca'. destruct (on_class _ _ _) as [ca1|] eqn:Hca1; [|done]. simpl. intros (d&_&->)%on_child_inv. split; [|done].
  apply on_class_inv in Hca1 as (rc0&rc'&Hn0&?&->). simpl in *. rewrite lookup_insert_eq. intros rc1 ?. by simplify_eq/=.
Qed.

(** The children of the CA have keys only in classes with a certificate. *)
Lemma for_child_classes_heard child d f :
  ca_children ca !! child = Some d → heard_all now ca (ev_details <$> (for_child_classes ca d f).2).
Proof.
  intros Hd.
  assert (∃ dss, ev_details <$> (for_child_classes ca d f).2 = concat dss
    ∧ Forall2 (λ nrc d, class_hears nrc.1 nrc.2 d) (hm_iter (ca_resources ca)) dss) as (dss&->&?); [|by eapply all_classes_hear].
  unfold for_child_classes.
  assert (∀ n rc, (n, rc) ∈ hm_iter (ca_resources ca) → child_issued d n = [] ∨ certified rc) as Hall.
  { intros n rc Hn%elem_of_hm_iter. destruct (child_issued d n) as [|k ks] eqn:Hk; [by left|right].
    assert (k ∈ child_issued d n) as Hin by (rewrite Hk; by left). unfold child_issued in Hin.
    apply list_elem_of_omap in Hin as ([ki [m|]]&Hki%elem_of_hm_iter&Heq); [|done]. case_decide; simplify_eq.
    destruct Hnames as [_ Hch]. destruct (Hch _ _ _ _ Hd Hki) as [_ Hc]. by apply Hc. }
  change (concat ?x) with ((ev_details <$> (ca_version ca, @nil CaEvt).2) ++ concat x).
  generalize (ca_version ca, @nil CaEvt). induction (hm_iter (ca_resources ca)) as [|[n rc] l IH]; intros st.
  { exists []. simpl. by rewrite app_nil_r. }
  simpl. destruct (child_issued d n) as [|k ks] eqn:Hks.
  - destruct (IH ltac:(intros; apply Hall; by right) st) as (dss&Heq&?). exists ([] :: dss). split; [done|].
    constructor; [|done]. split; [constructor|done].
  - destruct (IH ltac:(intros; apply Hall; by right) (push_event ca st (ChildCertificatesUpdated n (foldl (f rc) no_child_updates (k :: ks)))))
      as (dss&Heq&?).
    eexists ([_] :: dss). split.
    { simpl in Heq |- *. rewrite Heq, fmap_app, <-app_assoc. done. }
    constructor; [|done]. apply certified_hears; [|by repeat constructor..].
    destruct (Hall n rc) as [|]; [by left|congruence|done].
Qed.
Lemma child_classes_heard child d f e :
  ca_children ca !! child = Some d → quiet e → heard_all now ca (ev_details <$> (push_event ca (for_child_classes ca d f) e).2).
Proof.
  intros Hd He. simpl. rewrite fmap_app. apply heard_app; [by eapply for_child_classes_heard|]. intros ca1 _. by apply quiet_one.
Qed.

Lemma child_remove_heard child evs : child_remove ca child = Ok evs → heard_all now ca (ev_details <$> evs).
Proof. unfold child_remove. intros H'. inv_ok. known. by eapply child_classes_heard. Qed.
Lemma child_suspend_heard child evs : child_suspend_inactive ca child = Ok evs → heard_all now ca (ev_details <$> evs).
Proof.
  unfold child_suspend_inactive. intros H'. inv_ok. known. case_match; [by inv_ok|].
  match goal with H : context [match ?l with [] => _ | _ => _ end] |- _ => destruct l eqn:?; [by inv_ok|] end.
  injection H' as <-. by eapply child_classes_heard.
Qed.
Lemma child_unsuspend_heard child evs : child_unsuspend now ca child = Ok evs → heard_all now ca (ev_details <$> evs).
Proof.
  unfold child_unsuspend. intros H'. inv_ok. known. case_match; [by inv_ok|]. injection H' as <-. by eapply child_classes_heard.
Qed.

(** *** Parents *)

Definition removal (e : CaEvent) : Prop := ∃ n p r, e = ResourceClassRemoved n p r.
Lemma removal_quiet e : removal e → quiet e.
Proof. by intros (n&p&r&->). Qed.
Lemma removals_lookup ds ca0 ca' n rc :
  Forall removal ds → apply_list now ca0 ds = Some ca' → ca_resources ca' !! n = Some rc →
  ca_resources ca0 !! n = Some rc ∧ Forall (λ e, ∀ p r, e ≠ ResourceClassRemoved n p r) ds.
Proof.
  revert ca0. induction ds as [|e ds IH]; intros ca0 Hds Ha Hn; simpl in Ha; [simplify_eq; auto|].
  apply Forall_cons in Hds as [(m&p&r&->) Hds]. simpl in Ha. destruct (IH _ Hds Ha Hn) as [Hn' Hne].
  simpl in Hn'. apply lookup_delete_Some in Hn' as [Hm Hn']. split; [done|]. constructor; [|done]. congruence.
Qed.
Lemma removals_next ds ca0 ca' :
  Forall removal ds → apply_list now ca0 ds = Some ca' → ca_next_class_name ca' = ca_next_class_name ca0.
Proof.
  revert ca0. induction ds as [|e ds IH]; intros ca0 Hds Ha; simpl in Ha; [by simplify_eq|].
  apply Forall_cons in Hds as [(m&p&r&->) Hds]. simpl in Ha. by rewrite (IH _ Hds Ha).
Qed.

Lemma remove_parent_heard parent evs : remove_parent ca parent = Ok evs → heard_all now ca (ev_details <$> evs).
Proof.
  unfold remove_parent. case_match; [done|]. intros [= <-]. rewrite events_from_details_details.
  set (step := λ (res : list CaEvent) '(rcn, rc), _).
  assert (∀ l acc, Forall removal acc → Forall removal (foldl step acc l)) as Hrem.
  { intros l acc Hacc. apply foldl_preserves; [done|]. intros res [n rc] Hres. unfold step. case_match; [|done].
    apply Forall_app. split; [done|]. repeat constructor. by do 3 eexists. }
  assert (∀ l acc n rc, (n, rc) ∈ l ∧ rc_parent_handle rc = parent ∨ ResourceClassRemoved n parent [] ∈ acc →
    ResourceClassRemoved n parent [] ∈ foldl step acc l) as Hin.
  { induction l as [|[m rcm] l IH]; intros acc n rc Hl; simpl.
    - destruct Hl as [[Hl _]|]; [by apply elem_of_nil in Hl|done].
    - eapply (IH _ _ rc). destruct Hl as [[[Heq|Hl]%elem_of_cons Hp]|Hl]; [|by left|].
      + simplify_eq. right. rewrite bool_decide_eq_true_2 by done. apply elem_of_app. right. by left.
      + right. case_match; [apply elem_of_app; by left|done]. }
  apply heard_app; [eapply quiet_heard, Forall_impl; [by apply Hrem|apply removal_quiet]|].
  intros ca1 Hca1. split; [|done]. simpl. intros n rc Hn Hp.
  eapply removals_lookup in Hn as [Hn Hne]; [|by apply Hrem|exact Hca1]. eapply Forall_forall in Hne; [by eapply Hne|].
  apply (Hin _ _ n rc). left. split; [by apply elem_of_hm_iter|done].
Qed.

(** Requests for certificates. *)
Definition asks_event (e : CaEvent) : bool :=
  match e with CertificateRequested _ _ _ | UnexpectedKeyFound _ _ => true | _ => false end.
Lemma entitlement_events_requests rc ent repo ds :
  class_entitlement_events now signer rc ent repo = Ok ds → Forall (λ e, asks_event e = true) ds.
Proof.
  unfold class_entitlement_events, key_entitlement_events. intros H'. inv_ok.
  match goal with H : fold_each _ [] _ = Ok ?x |- _ =>
    assert (Forall (λ e, asks_event e = true) x) as Hx; [eapply fold_each_preserves; [| |exact H]; [|constructor]|] end.
  { intros s [r k] s' _ Hs Hr. unfold request_event in Hr. inv_ok. apply Forall_app. split; [done|by repeat constructor]. }
  apply foldl_preserves; [done|]. intros s c Hs. case_match; [done|]. apply Forall_app. split; [done|by repeat constructor].
Qed.
Lemma requests_next ds ca0 ca' :
  Forall (λ e, asks_event e = true) ds → apply_list now ca0 ds = Some ca' → ca_next_class_name ca' = ca_next_class_name ca0.
Proof.
  revert ca0. induction ds as [|e ds IH]; intros ca0 Hds Ha; simpl in Ha; [by simplify_eq|].
  apply Forall_cons in Hds as [He Hds]. destruct (apply_details _ _ e) as [ca1|] eqn:Hca1; [|done]. simpl in Ha.
  assert (∃ n, event_class e = Some n) as [n Hn] by (destruct e; naive_solver).
  rewrite (IH ca1) by done. by destruct (class_event_lookup now _ e ca1 n Hn Hca1) as (->&_).
Qed.
Lemma requests_quiet ds : Forall (λ e, asks_event e = true) ds → Forall quiet ds.
Proof. intros H. eapply Forall_impl; [exact H|]. intros [] He; try done; by intros ca0 rc Hrc. Qed.

(** After the events so far the next class has the name that the loop has for it. *)
Definition names_follow (st : N * list CaEvent) : Prop :=
  heard_all now ca st.2 ∧ ∀ ca', apply_list now ca st.2 = Some ca' → ca_next_class_name ca' = st.1.

Lemma update_entitlement_follows parent st ent st' :
  (st.1 < 4294967295)%N → names_follow st → update_entitlement now signer ca parent st ent = Ok st' →
  names_follow st' ∧ (st'.1 ≤ st.1 + 1)%N.
Proof.
  intros Hlt [Hh Hn] H'. destruct st as [next ds]. unfold update_entitlement, make_request_events in H'. simpl in *.
  destruct (find_parent_rc ca parent (ent_class_name ent)) as [rc|]; inv_ok; simpl.
  - match goal with H : class_entitlement_events _ _ _ _ _ = Ok _ |- _ => apply entitlement_events_requests in H as Hreq end.
    split; [|lia]. split; simpl.
    + apply heard_app; [done|]. intros. by apply quiet_heard, requests_quiet.
    + intros ca'. rewrite apply_list_app. destruct (apply_list now ca ds) as [ca1|]; [|done]. simpl.
      intros Hca'. erewrite requests_next by done. by apply Hn.
  - match goal with H : class_entitlement_events _ _ _ _ _ = Ok _ |- _ => apply entitlement_events_requests in H as Hreq end.
    assert (u32_succ next = next + 1)%N as Hsucc by (unfold u32_succ; rewrite N.mod_small by lia; done).
    split; [|lia]. split; simpl.
    + apply heard_app; [done|]. intros ca1 Hca1. simpl. apply Hn in Hca1 as Hnext. unfold names_left. rewrite Hnext. split; [done|].
      intros ca' _. by apply quiet_heard, requests_quiet.
    + intros ca'. rewrite apply_list_app. destruct (apply_list now ca ds) as [ca1|]; [|done]. simpl.
      intros Hca'. erewrite requests_next by done. simpl. by rewrite Hn.
Qed.

Lemma entitlements_follow parent ents st st' :
  (st.1 + N.of_nat (length ents) < 4294967296)%N → names_follow st →
  fold_each (update_entitlement now signer ca parent) st ents = Ok st' → names_follow st'.
Proof.
  revert st. induction ents as [|ent ents IH]; intros st Hlt Hst H'; simpl in H', Hlt; [by inv_ok|].
  destruct (update_entitlement _ _ _ _ st ent) as [st1|] eqn:Hst1; [|done].
  destruct (update_entitlement_follows parent st ent st1) as [Hf Hle]; [lia|done|done|]. eapply (IH st1); [lia|done|done].
Qed.

Lemma update_entitlements_heard parent ents evs :
  (ca_next_class_name ca + N.of_nat (length ents) < 4294967296)%N →
  update_entitlements now signer ca parent ents = Ok evs → heard_all now ca (ev_details <$> evs).
Proof.
  intros Hlt. unfold update_entitlements. intros H'. inv_ok. rewrite events_from_details_details.
  assert (Forall removal x) as Hrem.
  { eapply fold_each_preserves; [| |eassumption]; [|constructor]. intros s [n rc] s' _ Hs Hr. unfold remove_lost_class in Hr. inv_ok.
    apply Forall_app. split; [done|]. repeat constructor. by do 3 eexists. }
  eapply entitlements_follow; [..|eassumption]; [done|]. split; simpl.
  - eapply quiet_heard, Forall_impl; [done|apply removal_quiet].
  - intros ca' Ha. by eapply removals_next.
Qed.

Lemma update_received_cert_heard rcn cert evs :
  update_received_cert config now signer ca rcn cert = Ok evs → heard_all now ca (ev_details <$> evs).
Proof.
  unfold update_received_cert. intros H'. inv_ok. known. rewrite events_from_details_details.
  eapply class_hears_heard; [done|]. by eapply received_cert_hears; [by apply Hinv|].
Qed.
Lemma drop_resource_class_heard rcn evs : drop_resource_class signer ca rcn = Ok evs → heard_all now ca (ev_details <$> evs).
Proof. unfold drop_resource_class. intros H'. inv_ok. rewrite events_from_details_details. by apply quiet_one. Qed.

(** *** Key rolls *)

Lemma each_class_heard (f : ResourceClass → KrillResult (list CaEvent)) l dss :
  (∀ n rc d, class_inv n rc → f rc = Ok d → class_hears n rc d) → (∀ n rc, (n, rc) ∈ l → ca_resources ca !! n = Some rc) →
  Forall2 (λ (nrc : string * ResourceClass) d, f nrc.2 = Ok d) l dss →
  Forall2 (λ (nrc : string * ResourceClass) d, class_hears nrc.1 nrc.2 d) l dss.
Proof.
  intros Hf Hl Hds. induction Hds as [|[n rc] d l dss Hd Hds IH]; [constructor|]. constructor.
  - apply Hf; [|done]. apply Hinv. apply Hl. by left.
  - apply IH. intros ???. apply Hl. by right.
Qed.
Lemma push_loop_heard (f : ResourceClass → KrillResult (list CaEvent)) st :
  (∀ n rc d, class_inv n rc → f rc = Ok d → class_hears n rc d) →
  fold_each (λ st (nrc : string * ResourceClass), d ← f nrc.2; Ok (foldl (push_event ca) st d)) (ca_version ca, [])
    (hm_iter (ca_resources ca)) = Ok st → heard_all now ca (ev_details <$> st.2).
Proof.
  intros Hf (dss&->&Hds)%(push_loop ca (λ nrc, f nrc.2)). eapply all_classes_hear; [done|].
  eapply each_class_heard; [done| |done]. intros n rc. by rewrite elem_of_hm_iter.
Qed.

Lemma keyroll_initiate_heard duration evs : keyroll_initiate now signer ca duration = Ok evs → heard_all now ca (ev_details <$> evs).
Proof.
  unfold keyroll_initiate. case_match; [by intros [= <-]|]. intros H'. inv_ok.
  match goal with H : fold_each _ _ _ = Ok _ |- _ =>
    rewrite (fold_each_ext _ (λ st nrc, d ← (repo ← repository_contact ca; class_keyroll_initiate now signer nrc.2 (rc_repo_info repo) duration);
      Ok (foldl (push_event ca) st d))) in H end.
  - eapply (push_loop_heard (λ rc, repo ← repository_contact ca; class_keyroll_initiate now signer rc (rc_repo_info repo) duration)); [|done].
    intros n rc d Hrc Hd. inv_ok. by eapply initiate_hears.
  - intros st [n rc]. simpl. by destruct (repository_contact ca).
Qed.
Lemma keyroll_activate_heard staging evs :
  keyroll_activate config now signer ca staging = Ok evs → heard_all now ca (ev_details <$> evs).
Proof.
  unfold keyroll_activate. case_match; [by intros [= <-]|]. intros H'. inv_ok.
  match goal with H : fold_each _ _ _ = Ok _ |- _ =>
    rewrite (fold_each_ext _ (λ st nrc, d ← class_keyroll_activate config now signer nrc.2 staging;
      Ok (foldl (push_event ca) st d))) in H end; [|by intros ? []].
  eapply (push_loop_heard (λ rc, class_keyroll_activate config now signer rc staging)); [|done].
  intros n rc d Hrc Hd. by eapply activate_hears.
Qed.
Lemma keyroll_finish_heard rcn evs : keyroll_finish ca rcn = Ok evs → heard_all now ca (ev_details <$> evs).
Proof.
  unfold keyroll_finish. case_match; [by intros [= <-]|]. intros H'. inv_ok. known.
  eapply (class_hears_heard now ca rcn _ [_]); [done|]. by eapply finish_hears; [by apply Hinv|].
Qed.
Lemma update_repo_heard contact evs : update_repo now signer ca contact = Ok evs → heard_all now ca (ev_details <$> evs).
Proof.
  unfold update_repo. intros H'. inv_ok. rewrite events_from_details_details.
  apply heard_app; [|intros ca1 _; by apply quiet_one].
  destruct (ca_repository ca) as [existing|]; [|by inv_ok]. case_match; [done|]. unfold hm_values in *.
  match goal with H : fold_each _ _ _ = Ok _ |- _ =>
    apply (fold_each_concat _ (λ rc d, class_keyroll_initiate now signer rc (rc_repo_info contact) 0 = Ok d)) in H as (dss&->&Hds) end.
  - apply Forall2_fmap_l in Hds. eapply all_classes_hear; [done|].
    eapply (each_class_heard (λ rc, class_keyroll_initiate now signer rc (rc_repo_info contact) 0)); [by intros; eapply initiate_hears| |exact Hds].
    intros n rc. by rewrite elem_of_hm_iter.
  - intros res rc res' _ Hres. case_match; [done|]. inv_ok. eauto.
Qed.

(** *** Products *)

(** Classes without a certificate have no updates. *)
Lemma class_events_heard {U} ca0 (updates : ResourceClass → KrillResult U) event ds :
  ca_resources ca0 = ca_resources ca → class_events ca updates event = Ok ds →
  (∀ n u, Forall (λ e, product_event e = true) (event n u) ∧ events_of n (event n u)) →
  (∀ n rc u, get_current_key rc = Err KeyUseNoCurrentKey → updates rc = Ok u → event n u = []) → heard_all now ca0 ds.
Proof.
  intros Hr (dss&->&Hds)%class_events_spec Hev Hnone. eapply all_classes_hear; [exact Hr|].
  eapply Forall2_impl; [exact Hds|]. simpl. intros [n rc] d (u&Hu&->). simpl in *. destruct (Hev n u) as [Hp Hof].
  destruct (current_key rc) as [k|] eqn:Hk; [by apply certified_hears; [eexists|apply product_needs|]|].
  rewrite (Hnone n rc u); [split; [constructor|done]| |done]. unfold get_current_key. by rewrite Hk.
Qed.
Lemma config_quiet ds : Forall (λ e, config_event e = true) ds → Forall quiet ds.
Proof. intros H. eapply Forall_impl; [exact H|]. by intros []. Qed.
Lemma aspa_config_quiet ds : Forall (λ e, aspa_config_event e = true) ds → Forall quiet ds.
Proof. intros H. eapply Forall_impl; [exact H|]. by intros []. Qed.
Lemma config_resources ds ca0 ca1 :
  Forall (λ e, config_event e = true) ds → apply_list now ca0 ds = Some ca1 → ca_resources ca1 = ca_resources ca0.
Proof. intros Hds Ha. destruct (config_events_go now ds ca0 Hds) as (ca2&?&?). by simplify_eq. Qed.

Ltac no_key := intros n rc u Hk Hu; unfold update_roas, renew_roas, update_aspas, renew_aspas, update_bgpsec_certs, renew_bgpsec_certs in Hu;
  rewrite Hk in Hu; by simplify_eq.

Lemma routes_update_heard updates evs :
  ca_route_authorizations_update config now signer ca updates = Ok evs → heard_all now ca (ev_details <$> evs).
Proof.
  unfold ca_route_authorizations_update. intros H'. apply bind_Ok in H' as ([routes dets]&_&H'). inv_ok.
  rewrite events_from_details_details.
  assert (Forall (λ e, config_event e = true) (RouteEvent <$> dets)) as Hc by (by apply Forall_fmap, Forall_true).
  apply heard_app; [by apply quiet_heard, config_quiet|]. intros ca1 Hca1.
  eapply class_events_heard; [by eapply config_resources|done|apply roas_updated_event_ok|no_key].
Qed.
Lemma routes_renew_heard force evs :
  route_authorizations_renew config now signer ca force = Ok evs → heard_all now ca (ev_details <$> evs).
Proof.
  unfold route_authorizations_renew. intros H'. inv_ok. rewrite events_from_details_details.
  eapply class_events_heard; [done|done|apply roas_updated_event_ok|no_key].
Qed.
Lemma aspas_renew_heard evs : aspas_renew config now signer ca = Ok evs → heard_all now ca (ev_details <$> evs).
Proof.
  unfold aspas_renew. intros H'. inv_ok. rewrite events_from_details_details.
  eapply class_events_heard; [done|done|apply aspas_updated_event_ok|no_key].
Qed.
Lemma bgpsec_renew_heard evs : bgpsec_renew config now signer ca = Ok evs → heard_all now ca (ev_details <$> evs).
Proof.
  unfold bgpsec_renew. intros H'. inv_ok. rewrite events_from_details_details.
  eapply class_events_heard; [done|done|apply bgpsec_updated_event_ok|no_key].
Qed.
Lemma bgpsec_update_heard updates evs :
  bgpsec_definitions_update config now signer ca updates = Ok evs → heard_all now ca (ev_details <$> evs).
Proof.
  unfold bgpsec_definitions_update. intros H'. inv_ok. rewrite events_from_details_details.
  assert (Forall (λ e, config_event e = true) x0.2) as Hc by (by eapply bgpsec_config_events).
  apply heard_app; [by apply quiet_heard, config_quiet|]. intros ca1 Hca1.
  eapply class_events_heard; [by eapply config_resources|done|apply bgpsec_updated_event_ok|no_key].
Qed.
Lemma aspas_update_all_heard updates evs :
  aspas_definitions_update config now signer ca updates = Ok evs → heard_all now ca (ev_details <$> evs).
Proof.
  unfold aspas_definitions_update. intros H'. inv_ok. rewrite events_from_details_details.
  assert (Forall (λ e, aspa_config_event e = true) x0.2) as Hc by (by eapply aspa_config_events).
  apply heard_app; [by apply quiet_heard, aspa_config_quiet|]. intros ca1 Hca1.
  eapply class_events_heard; [by eapply aspa_config_resources|done|apply aspas_updated_event_ok|no_key].
Qed.
Lemma aspas_update_heard customer update evs :
  aspas_update config now signer ca customer update = Some (Ok evs) → heard_all now ca (ev_details <$> evs).
Proof.
  unfold aspas_update. destruct (ca_verify_update ca customer update); [|done].
  destruct (aspa_apply_update _ _ _) as [all|]; [|done]. simpl. intros [= H']. inv_ok.
  rewrite events_from_details_details. apply heard_app; [|intros ca1 _; by apply quiet_one].
  eapply class_events_heard; [done|done|apply aspas_updated_event_ok|no_key].
Qed.

(** *** All commands *)

(** Commands that the listener can follow: a key is revoked in a class with a certificate, and
    there are names left for new classes. *)
Definition command_followed (cmd : CmdDet) : Prop :=
  match cmd with
  | MakeTrustAnchor _ _ => names_left ca
  | UpdateEntitlements _ ents => (ca_next_class_name ca + N.of_nat (length ents) < 4294967296)%N
  | ChildRevokeKey _ request => ∃ rc, ca_resources ca !! rr_class_name request = Some rc ∧ certified rc
  | _ => True
  end.

Lemma command_heard cmd evs :
  command_followed cmd → ca_process_command config now signer ca cmd = Some (Ok evs) → heard_all now ca (ev_details <$> evs).
Proof.
  destruct cmd; simpl; intros Hok H'; try injection H' as H'.
  - unfold trust_anchor_make in H'. case_match; [done|]. inv_ok. by split.
  - unfold child_add in H'. repeat (case_match; try done). simplify_eq. by apply quiet_one.
  - unfold child_update_resources in H'. repeat (case_match; try done); inv_ok; repeat case_match; inv_ok; [by apply quiet_one|done].
  - unfold child_update_id_cert in H'. inv_ok. case_match; inv_ok; [by apply quiet_one|done].
  - by eapply child_certify_heard.
  - by eapply child_revoke_key_heard.
  - by eapply child_remove_heard.
  - by eapply child_suspend_heard.
  - by eapply child_unsuspend_heard.
  - unfold generate_new_id_key in H'. inv_ok. by apply quiet_one.
  - unfold add_parent in H'. repeat (case_match; try done). simplify_eq. by apply quiet_one.
  - unfold update_parent in H'. repeat (case_match; try done). simplify_eq. by apply quiet_one.
  - by eapply remove_parent_heard.
  - by eapply update_entitlements_heard.
  - by eapply update_received_cert_heard.
  - by eapply drop_resource_class_heard.
  - by eapply keyroll_initiate_heard.
  - by eapply keyroll_activate_heard.
  - by eapply keyroll_finish_heard.
  - by eapply routes_update_heard.
  - by eapply routes_renew_heard.
  - by eapply routes_renew_heard.
  - by eapply aspas_update_all_heard.
  - by eapply aspas_update_heard.
  - by eapply aspas_renew_heard.
  - by eapply bgpsec_update_heard.
  - by eapply bgpsec_renew_heard.
  - by eapply update_repo_heard.
Qed.
End one_command.
End commands.

(** ** A CA with its listener *)

Section server.
Context `{PA : !PrefixApi, RP : !Rpki, CA : !CaApi, PU : !PubApi, HO : !HashOrder}.

(** ** Commands with the listener *)

Record CaServer := mkCaServer { sv_ca : CertAuth; sv_objects : CaObjectsStore }.

(** The state after a command and the reply; [None] is a panic.  On a refusal by the listener the
    CA and its objects are as before; that the store of CAs has recorded the command by then as one
    that succeeded is not part of this state (it is in the model of that store, [EventSourcing]). *)
Definition server_command (config : Config) (now : Instant) (signer : Signer) (osigner : ObjectSigner) (self : CaServer) (cmd : CmdDet)
    : option (CaServer * KrillResult unit) :=
  match ca_process_command config now signer (sv_ca self) cmd with
  | None => None
  | Some (Err e) => Some (self, Err e)
  | Some (Ok []) => Some (self, Ok tt)
  | Some (Ok events) =>
      ca ← ca_apply_all now (sv_ca self) events;
      Some (match listen (issuance_timing config) now osigner (sv_objects self) ca events with
            | Ok (objects, _) => (mkCaServer ca objects, Ok tt)
            | Err e => (self, Err e)
            end)
  end.

(** The objects of the CA are also changed in the background. *)
Definition with_sv_objects (f : CaObjects → CaObjects) (self : CaServer) : CaServer :=
  let handle := ca_handle (sv_ca self) in mkCaServer (sv_ca self) (put_ca_objects (sv_objects self) handle (f (ca_objects (sv_objects self) handle))).

(** The states of a CA and its objects: commands that the listener can follow, at any time, with
    any configuration and with a signer of CRLs and manifests that may fail; objects re-issued and
    deprecated repositories taken off the list at any time. *)
Inductive server_reachable : CaServer → Prop :=
| server_init handle id : server_reachable (mkCaServer (ca_init handle id) ∅)
| server_step config now signer osigner sv cmd sv' reply :
    server_reachable sv → SignerOk signer → command_followed (sv_ca sv) cmd →
    server_command config now signer osigner sv cmd = Some (sv', reply) → server_reachable sv'
| server_reissue timing now osigner force sv objects required :
    server_reachable sv →
    objects_re_issue timing now osigner force (ca_objects (sv_objects sv) (ca_handle (sv_ca sv))) = Ok (objects, required) →
    server_reachable (with_sv_objects (λ _, objects) sv)
| server_cleaned sv contact :
    server_reachable sv → server_reachable (with_sv_objects (λ objects, deprecated_repo_remove objects contact) sv)
| server_attempt sv contact :
    server_reachable sv → server_reachable (with_sv_objects (λ objects, deprecated_repo_inc_clean_attempts objects contact) sv).

(** ** The invariant *)

Definition server_objects (sv : CaServer) : CaObjects := ca_objects (sv_objects sv) (ca_handle (sv_ca sv)).
Definition server_inv (sv : CaServer) : Prop :=
  ca_inv (sv_ca sv) ∧ names_inv (sv_ca sv) ∧ in_step (sv_ca sv) (server_objects sv).

Lemma apply_handle t ca e ca' : apply_details t ca e = Some ca' → ca_handle ca' = ca_handle ca.
Proof.
  destruct e; simpl; try (by intros [= <-]); try (by intros (?&?&?&?&->)%on_class_inv); try (by intros (?&?&->)%on_child_inv).
  - destruct (on_class _ _ _) as [ca1|] eqn:Hc; [|done]. apply on_class_inv in Hc as (?&?&?&?&->). by intros (?&?&->)%on_child_inv.
  - destruct (on_class _ _ _) as [ca1|] eqn:Hc; [|done]. apply on_class_inv in Hc as (?&?&?&?&->). by intros [= <-].
  - destruct (aspa_apply_update _ _ _); [|done]. by intros [= <-].
  - intros [= <-]. by destruct (ca_repository ca).
Qed.
Lemma apply_list_handle t ca ds ca' : apply_list t ca ds = Some ca' → ca_handle ca' = ca_handle ca.
Proof.
  revert ca. induction ds as [|e ds IH]; intros ca Ha; simpl in Ha; [by simplify_eq|].
  destruct (apply_details _ _ e) as [ca1|] eqn:He; [|done]. rewrite (IH _ Ha). by apply apply_handle in He.
Qed.

(** One command: the listener follows, unless signing fails. *)
Lemma server_command_follows `{RL : !ResourceLaws} config now signer osigner sv cmd evs ca' :
  SignerOk signer → server_inv sv → command_followed (sv_ca sv) cmd →
  ca_process_command config now signer (sv_ca sv) cmd = Some (Ok evs) → ca_apply_all now (sv_ca sv) evs = Some ca' →
  (∃ sv', server_command config now signer osigner sv cmd = Some (sv', Ok tt) ∧ sv_ca sv' = ca' ∧ server_inv sv')
  ∨ ∃ e, server_command config now signer osigner sv cmd = Some (sv, Err e) ∧ signing_error osigner e.
Proof.
  intros HS (Hinv&Hnames&Hin) Hok Hp Ha. unfold server_command. rewrite Hp.
  assert (ca_inv ca') as Hinv'.
  { eapply (step_inv config now signer (sv_ca sv) Hinv cmd). unfold ca_step. by rewrite Hp. }
  destruct evs as [|e evs]; [left; simpl in Ha; simplify_eq; by exists sv|]. set (events := e :: evs) in *. rewrite Ha. simpl.
  eapply command_heard in Hp; [|done..]. rewrite apply_all_list in Ha. apply apply_list_handle in Ha as Hh.
  pose proof (listen_followed (issuance_timing config) now osigner now (sv_ca sv) (server_objects sv) (ev_details <$> events) ca'
    Hin Hnames Hp Ha) as Hl. unfold listen, with_ca_objects. rewrite Hh. unfold server_objects in Hl.
  destruct (listen_objects _ now osigner _ _) as [objects'|err]; simpl in Hl |- *; [|right; by exists err].
  destruct Hl as [Hin' Hnames']. left.
  eexists. split; [done|]. split; [done|]. split; [done|]. split; [done|]. unfold server_objects. simpl.
  rewrite Hh. change (<[?h := ?o]> ?m) with (put_ca_objects m h o). by rewrite ca_objects_put.
Qed.

Lemma with_sv_objects_inv f sv :
  server_inv sv → in_step (sv_ca sv) (f (server_objects sv)) → server_inv (with_sv_objects f sv).
Proof.
  intros (?&?&_) Hf. split; [done|]. split; [done|]. unfold server_objects, with_sv_objects. simpl.
  by rewrite ca_objects_put.
Qed.

Lemma server_reachable_inv `{RL : !ResourceLaws} sv : server_reachable sv → server_inv sv.
Proof.
  induction 1 as [handle id|config now signer osigner sv cmd sv' reply _ IH HS Hok Hc
    |timing now osigner force sv objects required _ IH Hr|sv contact _ IH|sv contact _ IH].
  - split; [by apply map_Forall_empty|]. split; [|done]. split; [intros n [rc Hrc]|intros child d ki n Hd]; by simplify_map_eq.
  - destruct (ca_process_command config now signer (sv_ca sv) cmd) as [[evs|]|] eqn:Hp;
      [|unfold server_command in Hc; rewrite Hp in Hc; by simplify_eq..].
    destruct (ca_apply_all now (sv_ca sv) evs) as [ca'|] eqn:Ha.
    + destruct (server_command_follows config now signer osigner sv cmd evs ca') as [(sv1&?&?&?)|(e&?&_)]; [done..| |]; by simplify_eq.
    + unfold server_command in Hc. rewrite Hp in Hc. destruct evs; [done|]. by rewrite Ha in Hc.
  - apply with_sv_objects_inv; [done|]. destruct IH as (_&_&Hin).
    pose proof (re_issue_followed timing now osigner (sv_ca sv) (server_objects sv) force Hin) as Hres.
    unfold server_objects in Hres. by rewrite Hr in Hres.
  - apply with_sv_objects_inv; [done|]. by destruct IH as (_&_&Hin).
  - apply with_sv_objects_inv; [done|]. by destruct IH as (_&_&Hin).
Qed.

(** ** Properties *)

(** Where events are heard and applied, the reply is that of the CA itself. *)
Lemma listener_accepts_commands `{RL : !ResourceLaws} config now signer osigner sv cmd :
  SignerOk signer → server_inv sv → command_safe (sv_ca sv) cmd → command_followed (sv_ca sv) cmd →
  ∃ reply, ca_process_command config now signer (sv_ca sv) cmd = Some reply
    ∧ ((∃ sv', server_command config now signer osigner sv cmd = Some (sv', (_ ← reply; Ok tt))
         ∧ ca_step config now signer (sv_ca sv) cmd = Some (sv_ca sv'))
       ∨ ∃ e, server_command config now signer osigner sv cmd = Some (sv, Err e) ∧ signing_error osigner e).
Proof.
  intros HS Hr Hsafe Hok. pose proof Hr as (Hinv&_&Hin).
  destruct (safe_step config now signer (sv_ca sv) Hinv cmd Hsafe) as (ca'&Hstep&_). unfold ca_step in *.
  destruct (ca_process_command config now signer (sv_ca sv) cmd) as [[evs|e]|] eqn:Hp; [| |done]; (eexists; split; [done|]).
  - destruct (server_command_follows config now signer osigner sv cmd evs ca') as [(sv'&Hsv&<-&_)|?]; [done..| |by right].
    left. by exists sv'.
  - left. unfold server_command. rewrite Hp. by exists sv.
Qed.

(** C20. In every state that a CA and its published objects reach, the objects follow the CA: they
    are for the repository of the CA; a resource class has sets of objects exactly if it has a
    certificate, one for each key that has one, in the role that the key has (current, new or
    old); and only the set of the current key publishes anything besides its CRL and manifest.
    And the listener refuses a command only if signing a CRL or a manifest fails, and then the CA
    and its objects stay as they are: else the reply and the next state of the CA are those of the
    CA alone.  This is for commands that do not panic ([command_safe]: a key is revoked in a class
    that the CA has, and no customer is removed and added in one update of ASPA definitions) and
    that the listener can follow ([command_followed]: a key is revoked in a class with a
    certificate, and names are left for new classes), and states reached with such commands. *)
Theorem published_objects_follow_keys `{RL : !ResourceLaws} sv :
  server_reachable sv →
  in_step (sv_ca sv) (server_objects sv)
  ∧ ∀ config now signer osigner cmd,
      SignerOk signer → command_safe (sv_ca sv) cmd → command_followed (sv_ca sv) cmd →
      ∃ reply, ca_process_command config now signer (sv_ca sv) cmd = Some reply
        ∧ ((∃ sv', server_command config now signer osigner sv cmd = Some (sv', (_ ← reply; Ok tt))
             ∧ ca_step config now signer (sv_ca sv) cmd = Some (sv_ca sv'))
           ∨ ∃ e, server_command config now signer osigner sv cmd = Some (sv, Err e) ∧ signing_error osigner e).
Proof. intros Hr%server_reachable_inv. split; [by destruct Hr as (_&_&?)|]. intros. by apply listener_accepts_commands. Qed.
End server.

(** ** Concrete states *)

Section witnesses.
Import CaDemo CaObjectsDemo.

Lemma osigner_signs e : ¬ signing_error osigner e.
Proof. intros (msg&_&[(?&?&?)|[(?&?&?&?)|(?&?&?)]]); discriminate. Qed.

(** The state that a command leads to, where it has an effect. *)
Definition served (tag : string) (serial : N) (sv : CaServer) (cmd : CmdDet) : CaServer :=
  match server_command config now (signer tag serial) osigner sv cmd with Some (sv', _) => sv' | None => sv end.
Lemma served_reachable tag serial sv cmd :
  server_reachable sv → command_followed (sv_ca sv) cmd → server_reachable (served tag serial sv cmd).
Proof.
  intros Hr Hok. unfold served. destruct (server_command _ _ _ _ sv cmd) as [[sv' reply]|] eqn:Hc; [|done].
  by eapply server_step; [exact Hr|apply signer_ok|exact Hok|exact Hc].
Qed.

(** A trust anchor that receives its certificate and then moves to another repository. *)
Definition sv_new : CaServer := mkCaServer fresh ∅.
Definition sv_repo : CaServer := served "ta-" 1 sv_new (RepoUpdate repo).
Definition sv_anchored : CaServer := served "ta-" 1 sv_repo (MakeTrustAnchor [] "rsync://rpki.example/ta/ta.cer").
Definition sv_ready : CaServer := served "ta-" 2 sv_anchored (UpdateRcvdCert "0" ta_cert).
Definition sv_moving : CaServer := served "new-" 3 sv_ready (RepoUpdate child_repo).

Lemma sv_anchored_reachable : server_reachable sv_anchored.
Proof. apply served_reachable; [apply served_reachable; [apply server_init|done]|]. by vm_compute. Qed.
Lemma sv_moving_reachable : server_reachable sv_moving.
Proof. apply served_reachable; [apply served_reachable; [apply sv_anchored_reachable|done]|done]. Qed.

Lemma published_objects_follow_keys_witness :
  in_step (sv_ca sv_moving) (server_objects sv_moving) ∧ is_Some (co_classes (server_objects sv_moving) !! "0")
  ∧ co_repo (server_objects sv_moving) = Some child_repo
  ∧ ∃ reply sv', ca_process_command config now (signer "ta-" 2) (sv_ca sv_anchored) (UpdateRcvdCert "0" ta_cert) = Some reply
      ∧ server_command config now (signer "ta-" 2) osigner sv_anchored (UpdateRcvdCert "0" ta_cert) = Some (sv', (_ ← reply; Ok tt))
      ∧ ca_step config now (signer "ta-" 2) (sv_ca sv_anchored) (UpdateRcvdCert "0" ta_cert) = Some (sv_ca sv').
Proof.
  split; [apply (published_objects_follow_keys sv_moving), sv_moving_reachable|].
  split; [apply (bool_decide_eq_true_1 _); by vm_compute|]. split; [by vm_compute|].
  destruct (proj2 (published_objects_follow_keys sv_anchored sv_anchored_reachable) config now (signer "ta-" 2) osigner
    (UpdateRcvdCert "0" ta_cert)) as (reply&Hreply&[(sv'&Hsv&Hstep)|(e&_&He)]);
    [apply signer_ok|exact I|exact I| |by destruct (osigner_signs e)].
  exists reply, sv'. split; [exact Hreply|]. split; [exact Hsv|exact Hstep].
Defined.
End witnesses.
