(* ===== verification/CaObjectsProps.v ===== *)
(** * Properties of the published objects of CAs and of their synchronisation with repositories *)

From stdpp Require Import base gmap strings list pretty.
From S2P Require Import Prelude Rpki Rrdp RrdpFacts Roas Routes EventSourcing CaCerts CaEvents CaKeys CaChildren CaProducts CaClass CertAuth CertAuthCmds TaskQueue CaObjects CaObjectsStore CaRepoSync CaFacts CaObjectsFacts CaListenFacts CaRepoSyncFacts CaDemo CaObjectsDemo.

Section theorems.
Context `{PA : !PrefixApi, RP : !Rpki, CA : !CaApi, PU : !PubApi, HO : !HashOrder, RO : !ReadsObjects}.

(** ** The states of the objects of a CA *)

(** The objects start empty; events are listened to, and objects re-issued and deprecated
    repositories taken off the list, at any time and with any signer. *)
Inductive objects_reachable : CaObjects → Prop :=
| objects_reach_empty ca : objects_reachable (ca_objects_empty ca)
| objects_reach_listen timing now signer objects events objects' :
    objects_reachable objects → ObjectSignerOk signer → listen_objects timing now signer objects events = Ok objects' →
    objects_reachable objects'
| objects_reach_reissue timing now signer force objects objects' required :
    objects_reachable objects → ObjectSignerOk signer → objects_re_issue timing now signer force objects = Ok (objects', required) →
    objects_reachable objects'
| objects_reach_cleaned objects contact : objects_reachable objects → objects_reachable (deprecated_repo_remove objects contact)
| objects_reach_attempt objects contact :
    objects_reachable objects → objects_reachable (deprecated_repo_inc_clean_attempts objects contact).

Lemma reachable_good objects : objects_reachable objects → objects_good (objects, false).
Proof.
  induction 1 as [ca|timing now signer objects events objects' _ IH HS Hl
    |timing now signer force objects objects' required _ IH HS Hr|objects contact _ IH|objects contact _ IH].
  - apply map_Forall_empty.
  - unfold listen_objects in Hl. inv_ok.
    destruct x as [o f], x0 as [o' b]. eapply listen_events_goes in H as [Hg _]; [|done|done].
    by eapply re_issue_goes in H0 as (?&_).
  - eapply re_issue_goes in Hr as (?&_); [done|done|]. destruct force; [|done]. by apply objects_good_force in IH.
  - done.
  - done.
Qed.

(** C23. In every state of the objects of a CA and for each of its keys, the published CRL and
    manifest belong together and to what is published: both are of the revision of the key's
    objects, the CRL lists the revocations, and the manifest lists every published object and the
    CRL with the hashes of their contents, once each, and nothing else. *)
Theorem manifests_list_published_objects objects n keys s :
  objects_reachable objects → co_classes objects !! n = Some keys → s ∈ class_sets keys →
  ∃ crl mft, read_crl (it_base64 (ks_crl s)) = Some crl ∧ read_mft (it_base64 (ks_manifest s)) = Some mft
    ∧ tcl_aki crl = set_key s ∧ tcl_entries crl = to_crl_entries (ks_revocations s)
    ∧ tcl_number crl = serial_from (rn_number (ks_revision s)) ∧ mc_number mft = serial_from (rn_number (ks_revision s))
    ∧ tcl_next_update crl = rn_next_update (ks_revision s) ∧ mc_next_update mft = rn_next_update (ks_revision s)
    ∧ NoDup (mc_entries mft).*1
    ∧ ∀ name h, (name, h) ∈ mc_entries mft ↔
        match ks_published_objects s !! name with
        | Some o => h = to_hash (it_base64 o)
        | None => name = crl_for_key (set_key s) ∧ h = to_hash (it_base64 (ks_crl s))
        end.
Proof.
  intros Hr%reachable_good Hn Hs. specialize (Hr _ _ Hn). eapply Forall_forall in Hr; [|exact Hs]. by destruct Hr as [_ H]; apply H.
Qed.

(** ** Revocation *)

(** What the events of a command make of a set that none of them ends. *)
Lemma listen_set timing now signer objects events objects' n keys s :
  ObjectSignerOk signer → objects_good (objects, false) → listen_objects timing now signer objects events = Ok objects' →
  Forall (λ e, ends_set n e = false) events → co_classes objects !! n = Some keys → s ∈ class_sets keys →
  ∃ keys' s1 s', co_classes objects' !! n = Some keys' ∧ s' ∈ class_sets keys' ∧ edits now s s1 ∧ renews now s1 s'.
Proof.
  intros HS Hg Hl Hends Hn Hs. unfold listen_objects in Hl. inv_ok. destruct x as [o f], x0 as [o' b].
  eapply listen_events_goes in H as [Hg1 Hc]; [|done|done]. eapply re_issue_goes in H0 as (_&_&_&_&Hr); [|done|done].
  destruct (Hc n Hends keys Hn) as (keys1&Hn1&Hcont). destruct (Hr n keys1 Hn1) as (keys'&Hn'&Hren).
  eapply Forall_forall in Hcont; [|exact Hs]. apply Exists_exists in Hcont as (s1&Hs1&He).
  apply list_elem_of_lookup in Hs1 as [i Hi]. eapply Forall2_lookup_l in Hren as (s'&Hi'&Hren); [|exact Hi].
  exists keys', s1, s'. split; [done|]. split; [by eapply list_elem_of_lookup_2|]. done.
Qed.

(** C24. What is no longer published is revoked.  After any events that do not end the key's set of
    objects (a finished key roll and the removal of the class do, and its objects then vanish), a
    key of a CA has every ROA, ASPA object and certificate that it had published still published,
    by its serial number, or revoked on the CRL that is published, unless it has expired; and the
    manifest and the CRL, which are not among these objects, are the same as before or have the
    next number. *)
Theorem withdrawn_objects_are_revoked timing now signer objects events objects' n keys s :
  ObjectSignerOk signer → objects_reachable objects → listen_objects timing now signer objects events = Ok objects' →
  Forall (λ e, ends_set n e = false) events → co_classes objects !! n = Some keys → s ∈ class_sets keys →
  ∃ keys' s', co_classes objects' !! n = Some keys' ∧ s' ∈ class_sets keys' ∧ set_key s' = set_key s
    ∧ (∀ name o, ks_published_objects s !! name = Some o →
        (it_expires o ≤ now)%Z
        ∨ (∃ name' o', ks_published_objects s' !! name' = Some o' ∧ it_serial o' = it_serial o)
        ∨ ∃ crl date, read_crl (it_base64 (ks_crl s')) = Some crl ∧ (it_serial o, date) ∈ tcl_entries crl)
    ∧ (ks_manifest s' = ks_manifest s ∧ ks_crl s' = ks_crl s
       ∨ rn_number (ks_revision s') = u64_succ (rn_number (ks_revision s))).
Proof.
  intros HS Hr%reachable_good Hl Hends Hn Hs.
  destruct (listen_set timing now signer objects events objects' n keys s) as (keys'&s1&s'&Hn'&Hs'&He&Hren); [done..|].
  destruct He as ([Hk1 Hrem1]&_&Hrev1&Hm1&Hc1), Hren as ([Hk2 Hrem2]&[_ Hsig]&_&_&_&Hnum).
  destruct (Hsig eq_refl) as (crl&mft&Hcrl&_&_&Hent&_).
  exists keys', s'. split; [done|]. split; [done|]. split; [congruence|]. split.
  - intros name o Ho. destruct (Hrem1 (it_serial o) (it_expires o)) as [Hkn|]; [left; eauto| |by left].
    apply Hrem2 in Hkn as [[(name'&o'&?&?&_)|(r&Hin&<-&_)]|]; [right; left; eauto| |by left].
    right; right. exists crl, (rv_revocation_date r). split; [done|]. rewrite Hent. apply list_elem_of_fmap. eauto.
  - destruct Hnum as [->|Hnum]; [left; split; congruence|right]. by rewrite Hnum, Hrev1.
Qed.

(** An update of child certificates that a class without a key roll hears of. *)
Lemma listen_certs timing now signer objects n u e objects' current :
  ObjectSignerOk signer → objects_good (objects, false) → (∀ st, listen_event timing now signer st e = Ok st) →
  co_classes objects !! n = Some (KeysCurrent current) →
  listen_objects timing now signer objects [ChildCertificatesUpdated n u; e] = Ok objects' →
  ∃ current', co_classes objects' !! n = Some (KeysCurrent current') ∧ renews now (set_update_certs now current u) current'.
Proof.
  intros HS Hg He Hn Hl. unfold listen_objects in Hl. inv_ok. destruct x as [o f], x0 as [o' b].
  pose proof H as Hfold. eapply listen_events_goes in Hfold as [Hg1 _]; [|done|done].
  eapply re_issue_goes in H0 as (_&_&_&_&Hr); [|done|done]. 
  assert (listen_event timing now signer (objects, false) (ChildCertificatesUpdated n u)
    = Ok (with_classes objects (<[n := KeysCurrent (set_update_certs now current u)]> (co_classes objects)), true)) as Hev.
  { simpl. unfold on_current_set, on_class_objects, get_class_mut. by rewrite Hn. }
  cbn [fold_each] in H. rewrite Hev, He in H. injection H as <- <-.
  destruct (Hr n (KeysCurrent (set_update_certs now current u))) as (keys'&Hn'&Hren); [simpl; by rewrite lookup_insert_eq|].
  unfold class_renews in Hren. destruct keys'; simpl in Hren; inversion Hren as [|???? Hs Hnil]; subst; try by inversion Hnil. eauto.
Qed.

(** C25. A certificate of a child that is suspended and later unsuspended is published again and
    stays on the CRL: the revocation that unsuspending takes back is made with the current time
    and differs from the one that was made when it was suspended. *)
Theorem unsuspended_certificate_stays_revoked timing t1 t2 s1 s2 n child1 child2 cert objects objects1 objects2 current :
  ObjectSignerOk s1 → ObjectSignerOk s2 → objects_reachable objects → t1 ≠ t2 → (cert_expires cert > t1)%Z → (cert_expires cert > t2)%Z →
  co_classes objects !! n = Some (KeysCurrent current) →
  ks_published_objects current !! cert_name cert = Some (for_cert_info cert) →
  listen_objects timing t1 s1 objects [ChildCertificatesUpdated n (mkChildUpdates [] [] [cert] []); ChildSuspended child1] = Ok objects1 →
  listen_objects timing t2 s2 objects1 [ChildCertificatesUpdated n (mkChildUpdates [] [] [] [cert]); ChildUnsuspended child2] = Ok objects2 →
  ∃ current2 crl, co_classes objects2 !! n = Some (KeysCurrent current2)
    ∧ ks_published_objects current2 !! cert_name cert = Some (for_cert_info cert)
    ∧ read_crl (it_base64 (ks_crl current2)) = Some crl ∧ (cert_info_serial cert, t1) ∈ tcl_entries crl.
Proof.
  intros HS1 HS2 Hr Hne Hexp1 Hexp2 Hn Hpub Hl1 Hl2. pose proof (reachable_good _ Hr) as Hg.
  assert (objects_good (objects1, false)) as Hg1
    by (apply reachable_good; by eapply objects_reach_listen; [exact Hr| |exact Hl1]).
  apply (listen_certs timing t1 s1) with (current := current) in Hl1 as (c1&Hn1&Hren1); [|done|done|by intros []|done].
  apply (listen_certs timing t2 s2) with (current := c1) in Hl2 as (c2&Hn2&Hren2); [|done|done|by intros []|done].
  destruct Hren1 as (_&_&Hp1&_&Hrv1&_), Hren2 as (_&[_ Hsig]&Hp2&_&Hrv2&_).
  destruct (Hsig eq_refl) as (crl&mft&Hcrl&_&_&Hent&_). exists c2, crl. split; [done|]. split; [|split; [done|]].
  - rewrite Hp2. simpl. by rewrite lookup_insert_eq.
  - rewrite Hent. apply list_elem_of_fmap. exists (mkRevocation (cert_info_serial cert) t1 (cert_expires cert)). split; [done|].
    apply Hrv2; [|done]. assert (ks_published_objects c1 !! cert_name cert = None) as Hgone.
    { rewrite Hp1. simpl. by rewrite lookup_delete_eq. }
    simpl. rewrite Hgone. unfold revocations_remove. apply list_elem_of_filter. split.
    + intros Heq. apply (f_equal rv_revocation_date) in Heq. simpl in Heq. congruence.
    + apply Hrv1; [|done]. simpl. rewrite Hpub. apply elem_of_app. right. by left.
Qed.

(** ** Synchronising repositories *)

(** The repository of a contact holds one object for each URI, below the URI of the CA. *)
Definition repo_holds (repos : Repositories) (contact : RepositoryContact) (m : gmap Rsync Base64) : Prop :=
  represents (rs_objects repos contact) m ∧ ∀ u c, m !! u = Some c → is_parent_of (rs_base repos contact) u = true.

Lemma ca_repo_sync_holds repos contact elements m :
  Inj (=) (=) to_hash → rs_online repos contact = true → repo_holds repos contact m → content_unique (element_contents elements) →
  (∀ u c u' c', element_contents elements !! u = Some c → m !! u' = Some c' → to_hash c' = to_hash c → u' = u) →
  (∀ u c, element_contents elements !! u = Some c → is_parent_of (rs_base repos contact) u = true) →
  ∃ repos', ca_repo_sync repos contact elements = Ok repos' ∧ repo_holds repos' contact (element_contents elements)
    ∧ (∀ c, c ≠ contact → rs_objects repos' c = rs_objects repos c) ∧ rs_base repos' = rs_base repos ∧ rs_online repos' = rs_online repos.
Proof.
  intros Hinj Hon [Hrep Hjail] Hu Hst Hin. unfold ca_repo_sync, send_rfc8181_list, send_rfc8181_delta. rewrite Hon. simpl.
  pose proof (sync_represents _ m elements Hrep Hinj Hu Hst) as Hafter.
  pose proof (sync_verified _ m elements Hrep Hst (rs_base repos contact) Hin Hjail) as Hver.
  destruct (sync_delta (to_list_reply (rs_objects repos contact)) elements) as [|el els] eqn:Hd.
  - exists repos. by repeat (split; [done|]).
  - rewrite Hver. eexists. split; [done|]. split; [|split; [|done]].
    + split; [|done]. simpl. by rewrite decide_True.
    + intros c Hc. simpl. by rewrite decide_False.
Qed.

(** C26. Synchronising a repository makes it hold exactly what the CA publishes there.  The delta
    that the CA computes from the list of the repository is accepted by the publication server,
    which then has for each URI the content that the CA has for it and nothing else; other
    repositories are left alone, and synchronising once more sends nothing.  This holds if the
    server answers and holds the objects of the CA in order, different contents have different hashes, the CA publishes no content under two URIs and does not move
    content from one URI to another, and all URIs are below the base URI of the CA. *)
Theorem repository_synchronised repos contact elements m :
  Inj (=) (=) to_hash → rs_online repos contact = true → repo_holds repos contact m → content_unique (element_contents elements) →
  (∀ u c u' c', element_contents elements !! u = Some c → m !! u' = Some c' → to_hash c' = to_hash c → u' = u) →
  (∀ u c, element_contents elements !! u = Some c → is_parent_of (rs_base repos contact) u = true) →
  ∃ repos', ca_repo_sync repos contact elements = Ok repos' ∧ represents (rs_objects repos' contact) (element_contents elements)
    ∧ (∀ c, c ≠ contact → rs_objects repos' c = rs_objects repos c) ∧ ca_repo_sync repos' contact elements = Ok repos'.
Proof.
  intros Hinj Hon Hh Hu Hst Hin. destruct (ca_repo_sync_holds repos contact elements m) as (repos'&Hs&[Hrep _]&Ho&Hb&Hon'); [done..|].
  exists repos'. split; [done|]. split; [done|]. split; [done|]. unfold ca_repo_sync, send_rfc8181_list. rewrite Hon', Hon. simpl.
  by rewrite (sync_nothing _ (element_contents elements)).
Qed.

Lemma ca_repo_sync_empties repos contact m :
  Inj (=) (=) to_hash → rs_online repos contact = true → repo_holds repos contact m →
  ∃ repos', ca_repo_sync repos contact [] = Ok repos' ∧ rs_objects repos' contact = ∅
    ∧ (∀ c, c ≠ contact → rs_objects repos' c = rs_objects repos c) ∧ rs_base repos' = rs_base repos ∧ rs_online repos' = rs_online repos.
Proof.
  intros Hinj Hon Hh. assert (∀ u c, element_contents [] !! u = Some c → False) as Hnil by done.
  destruct (ca_repo_sync_holds repos contact [] m) as (repos'&Hs&[Hrep _]&Hrest); [done..| | | |].
  - by intros ???? []%Hnil.
  - by intros ???? []%Hnil.
  - by intros ?? []%Hnil.
  - exists repos'. split; [done|]. split; [|done]. by eapply represents_functional, represents_empty.
Qed.

(** Deprecated repositories that answer are emptied and taken off the list. *)
Lemma clean_deprecated_empties repos objects deprecated :
  Inj (=) (=) to_hash → (∀ d, d ∈ deprecated → rs_online repos (dr_contact d) = true ∧ ∃ m, repo_holds repos (dr_contact d) m) →
  ∃ repos' objects', clean_deprecated repos objects deprecated = (repos', objects', Ok tt)
    ∧ (∀ d, d ∈ deprecated → rs_objects repos' (dr_contact d) = ∅)
    ∧ ∀ c, c ∉ dr_contact <$> deprecated → rs_objects repos' c = rs_objects repos c.
Proof.
  intros Hinj. revert repos objects. induction deprecated as [|d deprecated IH]; intros repos objects Hall.
  { exists repos, objects. split; [done|]. split; [|done]. by intros ? ?%elem_of_nil. }
  destruct (Hall d) as [Hon [m Hm]]; [by left|].
  destruct (ca_repo_sync_empties repos (dr_contact d) m) as (repos1&Hs&He&Ho&Hb&Hon1); [done..|]. simpl. rewrite Hs.
  destruct (IH repos1 (deprecated_repo_remove objects (dr_contact d))) as (repos'&objects'&->&Hemp&Hrest).
  { intros d' Hd'. destruct (Hall d') as [? [m' [Hm' Hj']]]; [by right|]. rewrite Hon1. split; [done|]. unfold repo_holds. rewrite Hb.
    destruct (decide (dr_contact d' = dr_contact d)) as [Heq|Hne].
    - exists ∅. rewrite Heq, He. split; [apply represents_empty|]. intros ??. by rewrite lookup_empty.
    - exists m'. by rewrite Ho. }
  exists repos', objects'. split; [done|]. split.
  - intros d' [->|Hd']%elem_of_cons; [|by apply Hemp].
    destruct (decide (dr_contact d ∈ dr_contact <$> deprecated)) as [(d'&Heq&Hd')%list_elem_of_fmap|Hnot].
    + rewrite Heq. by apply Hemp.
    + by rewrite Hrest.
  - intros c [Hne Hnot]%not_elem_of_cons. rewrite Hrest by done. by apply Ho.
Qed.

(** The listener hears events that do not move the CA. *)
Inductive hears_on : CaObjects → CaObjects → Prop :=
| hears_on_events timing now signer objects events objects' :
    Forall (λ e, ∀ contact, e ≠ RepoUpdated contact) events →
    listen_objects timing now signer objects events = Ok objects' → hears_on objects objects'
| hears_on_reissue timing now signer force objects objects' required :
    objects_re_issue timing now signer force objects = Ok (objects', required) → hears_on objects objects'.

Lemma hears_on_repos objects objects' :
  rtc hears_on objects objects' →
  co_repo objects' = co_repo objects ∧ co_deprecated_repos objects ⊆ co_deprecated_repos objects'.
Proof.
  induction 1 as [|o1 o2 o3 Hon _ [-> Hd]]; [done|].
  destruct Hon as [timing now signer o1 events o2 Hev Hl|timing now signer force o1 o2 required Hl].
  - apply listen_objects_repos in Hl as [-> Hd']; [|done]. split; [done|by etrans].
  - apply re_issue_repos in Hl as [-> Hd']. rewrite Hd' in Hd. done.
Qed.

Lemma update_repo_details config t s ca contact evs :
  ca_process_command config t s ca (RepoUpdate contact) = Some (Ok evs) →
  ∃ dets, ev_details <$> evs = dets ++ [RepoUpdated contact].
Proof.
  intros H. injection H as H. unfold update_repo in H. inv_ok. rewrite events_from_details_details. by eexists.
Qed.

(** C27. A CA that moves back to a repository that it still has to clean up loses what it
    publishes there.  Let the repository be on the list of deprecated ones when the CA accepts the
    command to move to it, let the listener hear the events of that command and, before the next
    synchronisation, any others and re-issuances; then the repository is the current one, and it
    is still on the list: a synchronisation that reaches all repositories publishes to it and then
    empties it.  (Hashes of different contents differ, and the deprecated repositories answer and
    hold objects of the CA below its base URI, no content twice.) *)
Theorem current_repository_emptied config t s ca timing now signer objects objects1 objects2 contact attempts evs repos repos1 :
  Inj (=) (=) to_hash → mkDeprecated contact attempts ∈ co_deprecated_repos objects →
  ca_process_command config t s ca (RepoUpdate contact) = Some (Ok evs) →
  listen_objects timing now signer objects (ev_details <$> evs) = Ok objects1 → rtc hears_on objects1 objects2 →
  sync_all repos (repo_elements_map objects2) = (repos1, Ok tt) →
  (∀ d, d ∈ co_deprecated_repos objects2 → rs_online repos1 (dr_contact d) = true ∧ ∃ m, repo_holds repos1 (dr_contact d) m) →
  co_repo objects2 = Some contact ∧ mkDeprecated contact attempts ∈ co_deprecated_repos objects2
  ∧ ∃ repos' objects', cas_repo_sync_single repos objects2 = (repos', objects', Ok tt) ∧ rs_objects repos' contact = ∅.
Proof.
  intros Hinj Hd [dets Hdets]%update_repo_details Hl Hon Hsync Hall. rewrite Hdets in Hl.
  apply listen_move_repos in Hl as [Hr1 Hd1]. apply hears_on_repos in Hon as [Hr2 Hd2].
  assert (mkDeprecated contact attempts ∈ co_deprecated_repos objects2) as Hd' by auto.
  split; [congruence|]. split; [done|]. unfold cas_repo_sync_single. rewrite Hsync.
  destruct (clean_deprecated_empties repos1 objects2 (co_deprecated_repos objects2)) as (repos'&objects'&Hc&Hemp&_); [done..|].
  exists repos', objects'. split; [done|]. exact (Hemp _ Hd').
Qed.

(** ** Deleted CAs *)

(** A CA that is deleted and created again under its name cannot use the certificate for the
    first key of a class that it had before: deleting a CA leaves its objects in the store, and
    the listener refuses the events of the certificate because it has objects for the class. *)
Theorem recreated_ca_cannot_activate {Status} timing now signer config t s parent_revoke (mgr mgr' : CaManager Status) repos repos'
    handle n keys ca rc p cert evs :
  delete_ca parent_revoke mgr repos handle = Ok (mgr', repos') →
  co_classes (ca_objects (cm_ca_objects_store _ mgr) handle) !! n = Some keys →
  ca_handle ca = handle → ca_resources ca !! n = Some rc → rc_name rc = n → rc_key_state rc = Pending p →
  ca_process_command config t s ca (UpdateRcvdCert n cert) = Some (Ok evs) →
  cm_ca_store _ mgr' !! handle = None
  ∧ listen timing now signer (cm_ca_objects_store _ mgr') ca evs = Err (PublishingObjects "Duplicate resource class").
Proof.
  intros Hdel Hkeys Hh Hn Hname Hp Hev. unfold delete_ca in Hdel.
  destruct (cm_ca_store _ mgr !! handle); simplify_eq/=. split; [apply lookup_delete_eq|].
  unfold update_received_cert in Hev. rewrite Hn in Hev. simpl in Hev. unfold class_update_received_cert in Hev. rewrite Hp in Hev.
  destruct (bool_decide (cert_key_identifier cert = pk_key_id p)); simpl in Hev; [|done]. inv_ok. unfold listen, with_ca_objects.
  rewrite events_from_details_details. unfold listen_objects. simpl. unfold add_class. rewrite Hkeys.
  by rewrite bool_decide_eq_true_2.
Qed.
End theorems.

(** ** Witnesses *)

Section witnesses.
Import CaDemo CaObjectsDemo.

Lemma heard_reachable t objects events : objects_reachable objects → objects_reachable (heard t objects events).
Proof.
  intros Hr. unfold heard. destruct (listen_objects timing t osigner objects events) eqn:Hl; [|done].
  eapply objects_reach_listen; [exact Hr|apply osigner_ok|exact Hl].
Qed.
Lemma objects_parent_reachable : objects_reachable objects_parent.
Proof. apply heard_reachable, heard_reachable, heard_reachable, objects_reach_empty. Qed.

(** The class of a key that is not rolled. *)
Definition is_current (keys : option ResourceClassKeyState) : bool := match keys with Some (KeysCurrent _) => true | _ => false end.
Lemma found_current objects n : is_current (co_classes objects !! n) = true → co_classes objects !! n = Some (KeysCurrent (current_of objects n)).
Proof. unfold current_of, keys_of. destruct (co_classes objects !! n) as [[]|]; done. Qed.

Lemma manifests_list_published_objects_witness :
  let s := current_of objects_parent "0" in
  ∃ crl mft, read_crl (it_base64 (ks_crl s)) = Some crl ∧ read_mft (it_base64 (ks_manifest s)) = Some mft
    ∧ tcl_aki crl = set_key s ∧ tcl_entries crl = to_crl_entries (ks_revocations s)
    ∧ tcl_number crl = serial_from (rn_number (ks_revision s)) ∧ mc_number mft = serial_from (rn_number (ks_revision s))
    ∧ tcl_next_update crl = rn_next_update (ks_revision s) ∧ mc_next_update mft = rn_next_update (ks_revision s)
    ∧ NoDup (mc_entries mft).*1
    ∧ ∀ name h, (name, h) ∈ mc_entries mft ↔
        match ks_published_objects s !! name with
        | Some o => h = to_hash (it_base64 o)
        | None => name = crl_for_key (set_key s) ∧ h = to_hash (it_base64 (ks_crl s))
        end.
Proof.
  apply (manifests_list_published_objects objects_parent "0" (KeysCurrent (current_of objects_parent "0")));
    [apply objects_parent_reachable|apply found_current; reflexivity|by left].
Defined.

Lemma withdrawn_objects_are_revoked_witness :
  let s := current_of objects_parent "0" in
  let objects' := heard later objects_parent withdrawn in
  ∃ keys' s', co_classes objects' !! "0" = Some keys' ∧ s' ∈ class_sets keys' ∧ set_key s' = set_key s
    ∧ (∀ name o, ks_published_objects s !! name = Some o →
        (it_expires o ≤ later)%Z
        ∨ (∃ name' o', ks_published_objects s' !! name' = Some o' ∧ it_serial o' = it_serial o)
        ∨ ∃ crl date, read_crl (it_base64 (ks_crl s')) = Some crl ∧ (it_serial o, date) ∈ tcl_entries crl)
    ∧ (ks_manifest s' = ks_manifest s ∧ ks_crl s' = ks_crl s
       ∨ rn_number (ks_revision s') = u64_succ (rn_number (ks_revision s))).
Proof.
  intros s objects'.
  apply (withdrawn_objects_are_revoked timing later osigner objects_parent
    withdrawn objects' "0" (KeysCurrent s) s).
  - apply osigner_ok.
  - apply objects_parent_reachable.
  - apply hears_heard. reflexivity.
  - by repeat constructor.
  - apply found_current. reflexivity.
  - by left.
Defined.

Lemma unsuspended_certificate_stays_revoked_witness :
  let cert := issued_to parent "0" "kid-0" in
  let objects2 := heard later (heard now objects_parent suspended) unsuspended in
  ∃ current2 crl, co_classes objects2 !! "0" = Some (KeysCurrent current2)
    ∧ ks_published_objects current2 !! cert_name cert = Some (for_cert_info cert)
    ∧ read_crl (it_base64 (ks_crl current2)) = Some crl ∧ (cert_info_serial cert, now) ∈ tcl_entries crl.
Proof.
  intros cert objects2.
  apply (unsuspended_certificate_stays_revoked timing now later osigner osigner "0" "child" "child" cert objects_parent
    (heard now objects_parent suspended) objects2 (current_of objects_parent "0")).
  - apply osigner_ok.
  - apply osigner_ok.
  - apply objects_parent_reachable.
  - done.
  - reflexivity.
  - reflexivity.
  - apply found_current. reflexivity.
  - refine (bool_decide_eq_true_1 (_ = _) _). reflexivity.
  - apply hears_heard. reflexivity.
  - apply hears_heard. reflexivity.
Defined.

(** What a repository holds, read from its objects. *)
Definition held (co : CurrentObjects) : gmap Rsync Base64 := by_uri ((λ e, (pe_uri e, pe_base64 e)) <$> (map_to_list co).*2).
Lemma held_represents (co : CurrentObjects) :
  forallb (λ he, bool_decide (he.1 = to_hash (pe_base64 he.2))) (map_to_list co)
    && bool_decide (NoDup (pe_uri <$> (map_to_list co).*2)) = true →
  represents co (held co).
Proof.
  intros [Hfiled Hnd%bool_decide_eq_true]%andb_true_iff. rewrite forallb_forall in Hfiled. intros h e. unfold held.
  rewrite by_uri_lookup by (rewrite <-list_fmap_compose; exact Hnd).
  assert (∀ h e, co !! h = Some e → h = to_hash (pe_base64 e)) as Hh.
  { intros h' e' Hco. apply elem_of_map_to_list, list_elem_of_In, Hfiled, bool_decide_eq_true in Hco. done. }
  rewrite list_elem_of_fmap. split.
  - intros Hco. split; [by apply Hh|]. exists e. split; [done|]. apply list_elem_of_fmap. exists (h, e). split; [done|].
    by apply elem_of_map_to_list.
  - intros [-> (e'&Heq&([h' e'']&->&Hin)%list_elem_of_fmap)]. apply elem_of_map_to_list in Hin. pose proof (Hh _ _ Hin) as ->.
    simpl in *. destruct e, e''; simpl in *; by simplify_eq.
Qed.

Lemma one_object_holds : repo_holds one_object repo {[uri_a := content "a"]}.
Proof.
  split.
  - intros h [c u]. unfold one_object. simpl. rewrite !lookup_singleton_Some. split.
    + by intros [<- [= <- <-]].
    + by intros [-> [<- <-]].
  - intros u c. rewrite lookup_singleton_Some. by intros [<- _].
Qed.
Lemma two_elements_contents u c :
  element_contents two_elements !! u = Some c →
  (u = uri_a ∧ c = content "a2") ∨ (u = uri_b ∧ c = content "b").
Proof.
  unfold element_contents. rewrite by_uri_lookup; [|refine (bool_decide_eq_true_1 (NoDup _) _); reflexivity].
  unfold two_elements. rewrite !fmap_cons, !elem_of_cons. intros [[= -> ->]|[[= -> ->]|[]%elem_of_nil]]; auto.
Qed.

Lemma repository_synchronised_witness :
  ∃ repos', ca_repo_sync one_object repo two_elements = Ok repos'
    ∧ represents (rs_objects repos' repo) (element_contents two_elements)
    ∧ (∀ c, c ≠ repo → rs_objects repos' c = rs_objects one_object c) ∧ ca_repo_sync repos' repo two_elements = Ok repos'.
Proof.
  apply (repository_synchronised one_object repo two_elements {[uri_a := content "a"]}).
  - by intros ??.
  - done.
  - apply one_object_holds.
  - by intros u1 u2 c1 c2 [[-> ->]|[-> ->]]%two_elements_contents [[-> ->]|[-> ->]]%two_elements_contents.
  - intros u c u' c' [[-> ->]|[-> ->]]%two_elements_contents; rewrite lookup_singleton_Some; by intros [<- <-].
  - by intros u c [[-> ->]|[-> ->]]%two_elements_contents.
Defined.

Lemma sync_all_done (rs : Repositories) elements :
  (sync_all rs elements).2 = Ok tt → sync_all rs elements = ((sync_all rs elements).1, Ok tt).
Proof. destruct (sync_all rs elements) as [r e]. simpl. by intros ->. Qed.

Lemma current_repository_emptied_witness :
  objects_reachable moved_away ∧ co_repo moved_away = Some child_repo ∧ rs_objects repos_synced repo ≠ ∅
  ∧ co_repo moved = Some repo ∧ mkDeprecated repo 0 ∈ co_deprecated_repos moved
  ∧ ∃ repos' objects', cas_repo_sync_single repos moved = (repos', objects', Ok tt) ∧ rs_objects repos' repo = ∅.
Proof.
  split; [repeat apply heard_reachable; apply objects_reach_empty|]. split; [reflexivity|]. split.
  { assert (bool_decide (rs_objects repos_synced repo = ∅) = false) as H by reflexivity. by apply bool_decide_eq_false in H. }
  assert (co_deprecated_repos moved = [mkDeprecated repo 0]) as Hdep by reflexivity.
  assert (∃ evs, ca_process_command config now (signer "new-" 6) child (RepoUpdate repo) = Some (Ok evs)) as [evs Hevs].
  { assert (accepts (signer "new-" 6) child (RepoUpdate repo) = true) as Hacc by reflexivity. by apply accepts_events in Hacc. }
  assert (ev_details <$> evs = moving_back) as Hmoving by (unfold moving_back, events_of_command; by rewrite Hevs).
  apply (current_repository_emptied config now (signer "new-" 6) child timing now osigner moved_away moved_back moved repo 0 evs repos repos_synced).
  - by intros ??.
  - assert (co_deprecated_repos moved_away = [mkDeprecated repo 0]) as -> by reflexivity. by left.
  - exact Hevs.
  - rewrite Hmoving. apply hears_heard. reflexivity.
  - apply rtc_once. eapply (hears_on_events timing now osigner _ [KeyPendingToNew "0" (key "three")]); [by repeat constructor|].
    apply hears_heard. reflexivity.
  - apply sync_all_done. reflexivity.
  - rewrite Hdep. intros d ->%list_elem_of_singleton. split; [reflexivity|]. exists (held (rs_objects repos_synced repo)).
    split; [apply held_represents; reflexivity|].
    apply (map_Forall_to_list (λ u _, is_parent_of (rs_base repos_synced repo) u = true)).
    refine (bool_decide_eq_true_1 (Forall _ _) _). reflexivity.
Defined.

Lemma foldl_same {A B} (x : A) (l : list B) : foldl (λ x _, x) x l = x.
Proof. induction l; done. Qed.
Lemma recreated_ca_cannot_activate_witness :
  ∃ evs, ca_process_command config now (signer "kid-" 5) asking (UpdateRcvdCert "0" kid_cert) = Some (Ok evs)
    ∧ delete "child" ({["child" := child]} : gmap string CertAuth) !! "child" = None
    ∧ listen timing now osigner leftover asking evs = Err (PublishingObjects "Duplicate resource class").
Proof.
  destruct (accepted_events (signer "kid-" 5) asking (UpdateRcvdCert "0" kid_cert)) as [evs Hevs]; [reflexivity|].
  exists evs. split; [done|].
  refine (recreated_ca_cannot_activate timing now osigner config now (signer "kid-" 5) (λ _ _ cas, cas)
    (mkCaManager unit {["child" := child]} leftover ∅ ∅)
    (mkCaManager unit (delete "child" {["child" := child]}) leftover (delete "child" ∅) (remove_tasks_for_ca ∅ "child"))
    repos (clean_all_repos repos (ca_objects leftover "child")) "child" "0"
    (KeysCurrent (current_of (ca_objects leftover "child") "0")) asking (class_of asking "0") (mkPendingKey kid (Some request)) kid_cert evs _ _ _ _ _ _ _).
  - unfold delete_ca. simpl. rewrite lookup_singleton_eq. simpl. by rewrite foldl_same.
  - apply found_current. reflexivity.
  - reflexivity.
  - assert (bool_decide (is_Some (ca_resources asking !! "0")) = true) as [rc Hrc]%bool_decide_eq_true by reflexivity.
    unfold class_of. by rewrite Hrc.
  - reflexivity.
  - reflexivity.
  - exact Hevs.
Defined.
End witnesses.
