(* ===== verification/Scheduler.v ===== *)
(** * The scheduler of background tasks ([src/src/daemon/scheduler.rs])

    One thread takes due tasks from the queue and runs them, one at a time; other threads change
    the queue meanwhile.  What the managers of CAs and of the publication server answer is given
    to each handler: the handlers are modelled for all answers. *)

From stdpp Require Import base gmap strings list pretty.
From S2P Require Import Prelude Rpki Roas Routes EventSourcing CaCerts CaEvents CaKeys CaChildren CaProducts CaClass CertAuth TaskQueue.

(** ** Configuration ([daemon/config.rs]) and constants *)

Record SchedulerConfig := mkSchedulerConfig {
  test_mode_enabled : bool;
  ca_refresh_seconds : Z;
  ca_refresh_jitter_seconds : Z;
  ca_refresh_parents_batch_size : nat;
  suspend_child_after_inactive_secs : option Z;
  suspend_child_after_inactive_hours : option Z;
}.
Definition CA_REFRESH_SECONDS_MIN : Z := 3600.
Definition CA_REFRESH_SECONDS_MAX : Z := 3 * 24 * 3600.
Definition SCHEDULER_REQUEUE_DELAY_SECONDS : Z := 300.
Definition SCHEDULER_RESYNC_REPO_CAS_THRESHOLD : nat := 5.
Definition SCHEDULER_USE_JITTER_CAS_THRESHOLD : nat := 50.
Definition SCHEDULER_INTERVAL_REPUBLISH_MINS : Z := 5.
Definition SCHEDULER_INTERVAL_RENEW_MINS : Z := 60.

(** The values are clamped when the configuration is read. *)
Definition config_fix (c : SchedulerConfig) : SchedulerConfig :=
  let secs := if (ca_refresh_seconds c <? CA_REFRESH_SECONDS_MIN)%Z then CA_REFRESH_SECONDS_MIN else ca_refresh_seconds c in
  let secs := if (secs >? CA_REFRESH_SECONDS_MAX)%Z then CA_REFRESH_SECONDS_MAX else secs in
  let half_refresh := (secs / 2)%Z in
  let jitter := if (ca_refresh_jitter_seconds c >? half_refresh)%Z then half_refresh else ca_refresh_jitter_seconds c in
  mkSchedulerConfig (test_mode_enabled c) secs jitter (ca_refresh_parents_batch_size c)
    (suspend_child_after_inactive_secs c) (suspend_child_after_inactive_hours c).
Definition suspend_child_after_inactive_seconds (c : SchedulerConfig) : option Z :=
  match suspend_child_after_inactive_secs c with
  | Some seconds => Some seconds
  | None => (λ hours, hours * 3600)%Z <$> suspend_child_after_inactive_hours c
  end.

Section scheduler.
Context `{PA : !PrefixApi, RP : !Rpki, CA : !CaApi, HO : !HashOrder, QP : !QueuePeek}.

(** What the managers answer while a task is run. *)
Record Answers := mkAnswers {
  an_ca_list : KrillResult (list string);
  an_get_ca : string → KrillResult CertAuth;
  an_repo_sync : KrillResult unit;
  an_sync_parent : KrillResult unit;
  an_republish : KrillResult (list string);
  an_renew : KrillResult unit;
  an_rrdp : KrillResult (option Instant);
}.

(** ** Handlers *)

Section handlers.
(** [draw] is the number drawn at random below a bound, for a task. *)
Variable (config : SchedulerConfig) (now : Instant) (draw : Task → Z → Z) (an : Answers).

Definition requeue_remote_failed : Priority :=
  if test_mode_enabled config then in_seconds now 5 else in_seconds now SCHEDULER_REQUEUE_DELAY_SECONDS.
Definition ca_refresh_next_from (task : Task) (regular_seconds jitter_seconds : Z) : Priority :=
  let random_seconds := if (jitter_seconds =? 0)%Z then 0%Z else draw task jitter_seconds in
  in_seconds now (regular_seconds + random_seconds).
Definition ca_refresh_next (task : Task) : Priority :=
  ca_refresh_next_from task (ca_refresh_seconds config) (ca_refresh_jitter_seconds config).
Definition ca_refresh_start_up (task : Task) (use_jitter : bool) : Priority :=
  ca_refresh_next_from task 0 (if use_jitter then ca_refresh_jitter_seconds config else 0).

(** The tasks for one CA. *)
Definition start_ca (nr_cas : nat) (q : TaskQueue) (ca : CertAuth) : TaskQueue :=
  let too_many_cas_resync_parent := bool_decide (SCHEDULER_USE_JITTER_CAS_THRESHOLD ≤ nr_cas) in
  let too_many_cas_resync_repo := bool_decide (SCHEDULER_RESYNC_REPO_CAS_THRESHOLD ≤ nr_cas) in
  let too_many_parents := bool_decide (ca_refresh_parents_batch_size config ≤ size (ca_parents ca)) in
  let use_parent_sync_jitter := too_many_cas_resync_parent || too_many_parents in
  let q := foldl (λ q parent,
    let task := SyncParent (ca_handle ca) parent in
    schedule q task (ca_refresh_start_up task use_parent_sync_jitter)) q (hm_keys (ca_parents ca)) in
  let q := if too_many_cas_resync_repo then q else schedule q (SyncRepo (ca_handle ca)) (priority_from now) in
  match suspend_child_after_inactive_seconds config with
  | Some _ => schedule q (SuspendChildrenIfNeeded (ca_handle ca)) (priority_from now)
  | None => q
  end.
Fixpoint start_cas (nr_cas : nat) (q : TaskQueue) (cas : list string) : TaskQueue * KrillResult unit :=
  match cas with
  | [] => (q, Ok tt)
  | handle :: cas =>
      match an_get_ca an handle with
      | Ok ca => start_cas nr_cas (start_ca nr_cas q ca) cas
      | Err e => (q, Err e)
      end
  end.
Definition queue_start_tasks (q : TaskQueue) : TaskQueue * KrillResult unit :=
  match an_ca_list an with
  | Err e => (q, Err e)
  | Ok cas =>
      match start_cas (length cas) q cas with
      | (q, Err e) => (q, Err e)
      | (q, Ok _) =>
          let q := schedule q RepublishIfNeeded (priority_from now) in
          let q := schedule q RenewObjectsIfNeeded (priority_from now) in
          let q := schedule q RefreshAnnouncementsInfo (priority_from now) in
          let q := schedule q SweepLoginCache (in_minutes now 1) in
          (schedule q UpdateSnapshots (in_hours now 24), Ok tt)
      end
  end.

Definition sync_repo (ca : string) (q : TaskQueue) : TaskQueue :=
  match an_repo_sync an with
  | Ok _ => q
  | Err _ => schedule q (SyncRepo ca) requeue_remote_failed
  end.
Definition sync_parent (ca parent : string) (q : TaskQueue) : TaskQueue :=
  let task := SyncParent ca parent in
  schedule q task (match an_sync_parent an with Ok _ => ca_refresh_next task | Err _ => requeue_remote_failed end).
Definition suspend_children_if_needed (ca : string) (q : TaskQueue) : TaskQueue :=
  schedule q (SuspendChildrenIfNeeded ca) (in_hours now 1).
Definition republish_if_needed (q : TaskQueue) : TaskQueue * KrillResult unit :=
  match an_republish an with
  | Err e => (q, Err e)
  | Ok cas =>
      let q := foldl (λ q ca, schedule q (SyncRepo ca) (priority_from now)) q cas in
      (schedule q RepublishIfNeeded (in_minutes now SCHEDULER_INTERVAL_REPUBLISH_MINS), Ok tt)
  end.
Definition announcements_refresh (q : TaskQueue) : TaskQueue := schedule q RefreshAnnouncementsInfo (in_minutes now 10).
Definition renew_objects_if_needed (q : TaskQueue) : TaskQueue * KrillResult unit :=
  match an_renew an with
  | Err e => (q, Err e)
  | Ok _ => (schedule q RenewObjectsIfNeeded (in_minutes now SCHEDULER_INTERVAL_RENEW_MINS), Ok tt)
  end.
Definition sweep_login_cache (q : TaskQueue) : TaskQueue := schedule q SweepLoginCache (in_minutes now 1).
Definition scheduler_update_snapshots (q : TaskQueue) : TaskQueue := schedule q UpdateSnapshots (in_hours now 24).
Definition update_rrdp_if_needed (q : TaskQueue) : TaskQueue :=
  match an_rrdp an with
  | Err _ => schedule q RrdpUpdateIfNeeded (in_hours now 1)
  | Ok None => q
  | Ok (Some later_time) => schedule q RrdpUpdateIfNeeded (priority_from later_time)
  end.

(** The handler of a task: an error ends the scheduler.  Revocations for removed classes and
    unexpected keys are sent once, errors are only logged. *)
Definition run_task (task : Task) (q : TaskQueue) : TaskQueue * KrillResult unit :=
  match task with
  | QueueStartTasks => queue_start_tasks q
  | SyncRepo ca => (sync_repo ca q, Ok tt)
  | SyncParent ca parent => (sync_parent ca parent q, Ok tt)
  | SuspendChildrenIfNeeded ca => (suspend_children_if_needed ca q, Ok tt)
  | RepublishIfNeeded => republish_if_needed q
  | RenewObjectsIfNeeded => renew_objects_if_needed q
  | RefreshAnnouncementsInfo => (announcements_refresh q, Ok tt)
  | SweepLoginCache => (sweep_login_cache q, Ok tt)
  | UpdateSnapshots => (scheduler_update_snapshots q, Ok tt)
  | RrdpUpdateIfNeeded => (update_rrdp_if_needed q, Ok tt)
  | TaskResourceClassRemoved _ _ _ _ | TaskUnexpectedKey _ _ _ => (q, Ok tt)
  end.
End handlers.

(** ** What other parts of the server do to the queue

    Commands of CAs are saved; a publisher publishes or is removed ([pubd/manager.rs]); a CA is
    deleted; synchronisation and suspension are asked for through the API ([daemon/ca/manager.rs]). *)
Inductive QueueOp :=
| EventsSaved (ca : CertAuth) (events : list CaEvt)
| ContentChanged
| CaDeleted (ca : string)
| RepoSyncWanted (ca : string)
| ParentSyncWanted (ca parent : string)
| SuspendWanted (ca : string).
Definition queue_op (now : Instant) (q : TaskQueue) (op : QueueOp) : TaskQueue :=
  match op with
  | EventsSaved ca events => queue_listen now q ca events
  | ContentChanged => schedule q RrdpUpdateIfNeeded (priority_from now)
  | CaDeleted ca => remove_tasks_for_ca q ca
  | RepoSyncWanted ca => schedule q (SyncRepo ca) (priority_from now)
  | ParentSyncWanted ca parent => schedule q (SyncParent ca parent) (priority_from now)
  | SuspendWanted ca => schedule q (SuspendChildrenIfNeeded ca) (priority_from now)
  end.

(** ** The thread of the scheduler *)

Record SchedulerState := mkScheduler {
  sch_now : Instant;
  sch_queue : TaskQueue;
  sch_running : option Task;
  sch_stopped : bool;
}.
(** [server_started] *)
Definition server_started (now : Instant) : SchedulerState :=
  mkScheduler now (schedule ∅ QueueStartTasks (priority_from now)) None false.

Inductive SchedulerAction :=
| Wait (until : Instant)
| Take
| Finish (draw : Task → Z → Z) (an : Answers)
| Other (op : QueueOp).
(** A task is taken, it is finished, or something else happens; nothing is taken once the scheduler
    has stopped. *)
Definition scheduler_act (config : SchedulerConfig) (st : SchedulerState) (action : SchedulerAction) : SchedulerState :=
  let '(mkScheduler now q running stopped) := st in
  match action with
  | Wait until => mkScheduler (Z.max now until) q running stopped
  | Take =>
      match running, stopped, pop (priority_from now) q with
      | None, false, Some (task, q) => mkScheduler now q (Some task) false
      | _, _, _ => st
      end
  | Finish draw an =>
      match running with
      | Some task =>
          let '(q, res) := run_task config now draw an task q in
          mkScheduler now q None (match res with Ok _ => stopped | Err _ => true end)
      | None => st
      end
  | Other op => mkScheduler now (queue_op now q op) running stopped
  end.
Definition scheduler_run (config : SchedulerConfig) : SchedulerState → list SchedulerAction → SchedulerState := foldl (scheduler_act config).
End scheduler.
