(* ===== verification/TaskFacts.v ===== *)
(** * Lemmas on the task queue and the scheduler *)

From stdpp Require Import base gmap strings list pretty.
From S2P Require Import Prelude Rpki Roas Routes EventSourcing CaCerts CaEvents CaKeys CaChildren CaProducts CaClass CertAuth TaskQueue Scheduler.

Section queue.
Context `{PA : !PrefixApi, RP : !Rpki, CA : !CaApi, HO : !HashOrder, QP : !QueuePeek}.
Implicit Types (q : TaskQueue) (P : Task → Prop).

(** ** Queues that keep tasks

    A task is in the queue and due from some time on at the latest; a change of the queue keeps
    the tasks of some kind if it only ever moves them forward. *)
Definition due_by q (task : Task) (p : Priority) : Prop := ∃ p' : Priority, q !! task = Some p' ∧ (p' ≤ p)%Z.
Definition keeps P q q' : Prop := ∀ task p, P task → due_by q task p → due_by q' task p.

#[export] Instance keeps_preorder P : PreOrder (keeps P).
Proof. split; [by intros q task p|]. intros q1 q2 q3 H12 H23 task p HP H. by apply H23, H12. Qed.
Lemma keeps_weaken P P' q q' : (∀ task, P task → P' task) → keeps P' q q' → keeps P q q'.
Proof. intros Hw Hk task p HP. by apply Hk, Hw. Qed.
Lemma keeps_trans P q1 q2 q3 : keeps P q1 q2 → keeps P q2 q3 → keeps P q1 q3.
Proof. apply transitivity. Qed.

Lemma due_by_mono q task p p' : due_by q task p → (p ≤ p')%Z → due_by q task p'.
Proof. intros (x&?&?) ?. exists x. split; [done|lia]. Qed.

(** The queue is a map. *)
Lemma queue_insert_eq q task p : (<[task := p]> q : TaskQueue) !! task = Some p.
Proof. apply (lookup_insert_eq (M := gmap Task)). Qed.
Lemma queue_empty task : (∅ : TaskQueue) !! task = None.
Proof. apply (lookup_empty (M := gmap Task)). Qed.
Lemma queue_delete_eq q task : (delete task q : TaskQueue) !! task = None.
Proof. apply (lookup_delete_eq (M := gmap Task)). Qed.
Lemma queue_insert_ne q task task' p : task' ≠ task → (<[task := p]> q : TaskQueue) !! task' = q !! task'.
Proof. intros Hne. by apply (lookup_insert_ne (M := gmap Task)). Qed.
Lemma queue_delete_ne q task task' : task' ≠ task → (delete task q : TaskQueue) !! task' = q !! task'.
Proof. intros Hne. by apply (lookup_delete_ne (M := gmap Task)). Qed.

Lemma schedule_due q task p : due_by (schedule q task p) task p.
Proof.
  unfold schedule, priority_gt. destruct (q !! task) as [e|] eqn:He; [|exists p; rewrite queue_insert_eq; split; [done|lia]].
  destruct (Z.ltb_spec p e); [exists p; rewrite queue_insert_eq; split; [done|lia]|]. by exists e.
Qed.
Lemma schedule_ne q task task' p : task' ≠ task → schedule q task p !! task' = q !! task'.
Proof.
  intros Hne. unfold schedule. destruct (q !! task); [|by rewrite queue_insert_ne].
  case_match; [by rewrite queue_insert_ne|done].
Qed.
Lemma schedule_keeps P q task p : keeps P q (schedule q task p).
Proof.
  intros task' p' _ (x&Hx&?). destruct (decide (task' = task)) as [->|Hne]; [|exists x; by rewrite schedule_ne].
  unfold schedule, priority_gt. rewrite Hx. destruct (Z.ltb_spec p x); [|by exists x].
  exists p. rewrite queue_insert_eq. split; [done|lia].
Qed.
Lemma schedule_due_by q task p task' p' : due_by q task' p' → due_by (schedule q task p) task' p'.
Proof. by apply (schedule_keeps (λ _, True)). Qed.
Lemma schedule_all_keeps {A} P (f : A → Task) (g : A → Priority) q l : keeps P q (foldl (λ q x, schedule q (f x) (g x)) q l).
Proof. revert q. induction l as [|x l IH]; intros q; [done|]. simpl. etrans; [apply schedule_keeps|apply IH]. Qed.
Lemma delete_keeps P q task : (¬ P task) → keeps P q (delete task q).
Proof. intros HP task' p HP' (x&Hx&?). exists x. rewrite queue_delete_ne; [done|]. by intros ->. Qed.

Lemma remove_tasks_lookup q ca task : task_ca task ≠ Some ca → remove_tasks_for_ca q ca !! task = q !! task.
Proof.
  intros Hca. unfold remove_tasks_for_ca. etrans; [apply (foldl_delete_lookup (q : gmap Task Priority))|]. case_decide as Hin; [|done].
  by apply list_elem_of_filter in Hin as [? _].
Qed.

Create HintDb tasks.
#[local] Hint Resolve schedule_keeps : tasks.

(** ** The listener *)

(** No event removes a task other than the synchronisation with a removed parent. *)
Definition no_parent_sync (task : Task) : Prop := match task with SyncParent _ _ => False | _ => True end.
Lemma listen_event_keeps now ca handle q e : keeps no_parent_sync q (queue_listen_event now ca handle q e).
Proof.
  assert (∀ q rcn, keeps no_parent_sync q (sync_class_parent now ca handle q rcn)) as Hclass.
  { intros q0 rcn. unfold sync_class_parent. case_match; [apply schedule_keeps|done]. }
  destruct e; simpl; try done; unfold sync_repo_now, sync_parent_now, drop_sync_parent; eauto with tasks.
  - case_match; [apply schedule_keeps|done].
  - etrans; [|apply schedule_keeps]. apply delete_keeps. by intros [].
  - etrans; apply schedule_keeps.
  - etrans; [apply Hclass|apply schedule_keeps].
  - apply (schedule_all_keeps _ (SyncParent handle) (λ _, priority_from now)).
Qed.
Lemma queue_listen_keeps now q ca events : keeps no_parent_sync q (queue_listen now q ca events).
Proof.
  revert q. unfold queue_listen. induction events as [|e events IH]; intros q; [done|]. simpl.
  etrans; [apply listen_event_keeps|apply IH].
Qed.

(** ** Handlers *)

Section handlers.
Context (config : SchedulerConfig) (now : Instant) (draw : Task → Z → Z) (an : Answers).

Lemma start_ca_keeps P n q ca : keeps P q (start_ca config now draw n q ca).
Proof.
  unfold start_ca. set (q1 := foldl _ q _).
  assert (keeps P q q1) as Hq1 by apply (schedule_all_keeps _ (SyncParent (ca_handle ca))).
  set (q2 := if bool_decide (SCHEDULER_RESYNC_REPO_CAS_THRESHOLD ≤ n) then q1 else _).
  assert (keeps P q1 q2) as Hq2 by (unfold q2; case_match; [done|apply schedule_keeps]).
  etrans; [exact Hq1|]. etrans; [exact Hq2|]. case_match; [apply schedule_keeps|done].
Qed.
Lemma start_cas_keeps P n q cas : keeps P q (start_cas config now draw an n q cas).1.
Proof.
  revert q. induction cas as [|handle cas IH]; intros q; [done|]. simpl.
  destruct (an_get_ca an handle); [|done]. etrans; [apply start_ca_keeps|apply IH].
Qed.
Lemma run_task_keeps P task q : keeps P q (run_task config now draw an task q).1.
Proof.
  destruct task; simpl; try done;
    try (unfold sync_parent, suspend_children_if_needed, announcements_refresh, sweep_login_cache, scheduler_update_snapshots;
         by apply schedule_keeps).
  - unfold queue_start_tasks. destruct (an_ca_list an) as [cas|]; [|done].
    pose proof (start_cas_keeps P (length cas) q cas) as Hk. destruct (start_cas config now draw an (length cas) q cas) as [q1 []]; [|done].
    simpl in *. do 5 (etrans; [|apply schedule_keeps]). done.
  - unfold sync_repo. case_match; [done|apply schedule_keeps].
  - unfold republish_if_needed. destruct (an_republish an) as [cas|]; [|done]. simpl. etrans; [|apply schedule_keeps].
    apply (schedule_all_keeps _ SyncRepo (λ _, priority_from now)).
  - unfold renew_objects_if_needed. case_match; [apply schedule_keeps|done].
  - unfold update_rrdp_if_needed. case_match; [case_match; [apply schedule_keeps|done]|apply schedule_keeps].
Qed.
End handlers.

(** Operations of other threads keep what they do not remove. *)
Definition removes (op : QueueOp) (task : Task) : Prop :=
  match op with
  | CaDeleted ca => task_ca task = Some ca
  | EventsSaved _ _ => ¬ no_parent_sync task
  | _ => False
  end.
Lemma queue_op_keeps now q op : keeps (λ task, ¬ removes op task) q (queue_op now q op).
Proof.
  destruct op as [ca events| |ca|ca|ca parent|ca]; simpl; auto with tasks.
  - eapply keeps_weaken; [|apply queue_listen_keeps]. intros []; simpl; tauto.
  - intros task p Hno (x&Hx&?). exists x. by rewrite remove_tasks_lookup.
Qed.

(** ** Tasks that are not for a CA are not touched by the listener *)

Lemma schedule_all_ne {A} (f : A → Task) (g : A → Priority) q l task :
  (∀ x, f x ≠ task) → foldl (λ q x, schedule q (f x) (g x)) q l !! task = q !! task.
Proof. intros Hne. revert q. induction l as [|x l IH]; intros q; [done|]. simpl. rewrite IH, schedule_ne; [done|]. intros ->. by eapply Hne. Qed.
Lemma listen_event_global now ca handle q e task : task_ca task = None → queue_listen_event now ca handle q e !! task = q !! task.
Proof.
  intros Hg. assert (∀ q t p, task_ca t ≠ None → schedule q t p !! task = q !! task) as Hs.
  { intros q0 t p Ht. apply schedule_ne. by intros ->. }
  assert (∀ q rcn, sync_class_parent now ca handle q rcn !! task = q !! task) as Hclass.
  { intros q0 rcn. unfold sync_class_parent. case_match; [by apply Hs|done]. }
  destruct e; simpl; try done; unfold sync_repo_now, sync_parent_now, drop_sync_parent; rewrite ?Hs, ?Hclass by done; try done.
  - case_match; [by apply Hs|done].
  - apply queue_delete_ne. by intros ->.
  - apply (schedule_all_ne (SyncParent handle) (λ _, priority_from now)). by intros ? <-.
Qed.
Lemma queue_listen_global now q ca events task : task_ca task = None → queue_listen now q ca events !! task = q !! task.
Proof.
  intros Hg. revert q. unfold queue_listen. induction events as [|e events IH]; intros q; [done|]. simpl.
  by rewrite IH, listen_event_global.
Qed.

Lemma start_ca_global config now draw n q ca task : task_ca task = None → start_ca config now draw n q ca !! task = q !! task.
Proof.
  intros Hg. unfold start_ca. set (q1 := foldl _ q _).
  assert (q1 !! task = q !! task) as Hq1.
  { apply (schedule_all_ne (SyncParent (ca_handle ca))). by intros ? <-. }
  set (q2 := if bool_decide (SCHEDULER_RESYNC_REPO_CAS_THRESHOLD ≤ n) then q1 else _).
  assert (q2 !! task = q !! task) as Hq2.
  { unfold q2. case_match; [done|]. rewrite schedule_ne; [done|]. by intros ->. }
  case_match; [|done]. rewrite schedule_ne; [done|]. by intros ->.
Qed.
Lemma start_cas_global config now draw an n q cas task :
  task_ca task = None → (start_cas config now draw an n q cas).1 !! task = q !! task.
Proof.
  intros Hg. revert q. induction cas as [|handle cas IH]; intros q; [done|]. simpl.
  destruct (an_get_ca an handle); [|done]. by rewrite IH, start_ca_global.
Qed.
(** Only its own handler schedules an update of RRDP. *)
Lemma run_task_rrdp config now draw an task q :
  task ≠ RrdpUpdateIfNeeded → (run_task config now draw an task q).1 !! RrdpUpdateIfNeeded = q !! RrdpUpdateIfNeeded.
Proof.
  intros Hne. destruct task; simpl; try done; try by apply schedule_ne.
  - unfold queue_start_tasks. destruct (an_ca_list an) as [cas|]; [|done].
    pose proof (start_cas_global config now draw an (length cas) q cas RrdpUpdateIfNeeded eq_refl) as Hg.
    destruct (start_cas config now draw an (length cas) q cas) as [q1 []]; [|done]. simpl in *. by rewrite !schedule_ne.
  - unfold sync_repo. case_match; [done|by apply schedule_ne].
  - unfold republish_if_needed. destruct (an_republish an) as [cas|]; [|done]. simpl. rewrite schedule_ne by done.
    by apply (schedule_all_ne SyncRepo (λ _, priority_from now)).
  - unfold renew_objects_if_needed. case_match; [by apply schedule_ne|done].
Qed.

(** ** Taking a task *)

Lemma pop_spec p q task q' : pop p q = Some (task, q') → q' = delete task q ∧ ∃ x : Priority, q !! task = Some x ∧ (x < p)%Z ∧ ∀ t' (p' : Priority), q !! t' = Some p' → (x ≤ p')%Z.
Proof.
  unfold pop. destruct (peek q) as [[t x]|] eqn:Hp; [|done]. apply peek_highest in Hp as [Ht Hmin].
  destruct (priority_gt x p) eqn:Hgt; [|done]. intros [= <- <-]. split; [done|]. exists x.
  apply Z.ltb_lt in Hgt. split; [done|]. split; [done|]. intros t' p' H. specialize (Hmin _ _ H). by apply Z.ltb_ge in Hmin.
Qed.
(** If a task is due then one is taken. *)
Lemma pop_due p q task (x : Priority) : q !! task = Some x → (x < p)%Z → ∃ task' q', pop p q = Some (task', q').
Proof.
  intros Ht Hx. unfold pop. destruct (peek q) as [[t y]|] eqn:Hp.
  - apply peek_highest in Hp as [_ Hmin]. specialize (Hmin _ _ Ht). apply Z.ltb_ge in Hmin.
    unfold priority_gt. destruct (Z.ltb_spec y p); [by eexists _, _|lia].
  - apply peek_empty in Hp. subst. by rewrite queue_empty in Ht.
Qed.

Lemma timestamp_add t n : timestamp (t + seconds n)%Z = (timestamp t + n)%Z.
Proof. unfold timestamp, seconds. apply Z.div_add. done. Qed.
Lemma in_seconds_mono t t' n : (t ≤ t')%Z → (in_seconds t n ≤ in_seconds t' n)%Z.
Proof. intros. unfold in_seconds, priority_from. rewrite !timestamp_add. apply Z.add_le_mono_r, Z.div_le_mono; [done|lia]. Qed.

(** ** A queue that takes the first of the soonest tasks *)

Definition soonest (l : list (Task * Priority)) : option (Task * Priority) :=
  foldr (λ (tp : Task * Priority) (best : option (Task * Priority)), match best with Some b => if priority_gt b.2 tp.2 then Some b else Some tp | None => Some tp end) None l.
Lemma soonest_spec l :
  match soonest l with
  | Some x => x ∈ l ∧ ∀ y : Task * Priority, y ∈ l → (x.2 ≤ y.2)%Z
  | None => l = []
  end.
Proof.
  induction l as [|x l IH]; [done|]. simpl. destruct (soonest l) as [b|].
  - destruct IH as [Hin Hle]. destruct (priority_gt b.2 x.2) eqn:Hgt; [apply Z.ltb_lt in Hgt|apply Z.ltb_ge in Hgt].
    + split; [by right|]. intros y [->|Hy]%elem_of_cons; [lia|auto].
    + split; [by left|]. intros y [->|Hy]%elem_of_cons; [lia|]. specialize (Hle _ Hy). lia.
  - subst. split; [by left|]. intros y ->%list_elem_of_singleton. lia.
Qed.
End queue.

(** The interface has an implementation. *)
Section peek.
Context `{PA : !PrefixApi, RP : !Rpki, CA : !CaApi}.

Definition first_peek : QueuePeek.
Proof.
  refine {| peek q := soonest (map_to_list q) |}.
  - intros q t p Hp. pose proof (soonest_spec (map_to_list q)) as Hs. rewrite Hp in Hs. destruct Hs as [Hin Hle].
    split; [by apply (elem_of_map_to_list (M := gmap Task))|]. intros t' p' H%(elem_of_map_to_list (M := gmap Task)). apply Hle in H. by apply Z.ltb_ge.
  - intros q Hp. pose proof (soonest_spec (map_to_list q)) as Hs. rewrite Hp in Hs. by apply (map_to_list_empty_iff (M := gmap Task)).
Defined.
End peek.
