(* ===== verification/TaskProps.v ===== *)
(** * Properties of the background tasks *)

From stdpp Require Import base gmap strings list pretty.
From S2P Require Import Prelude Rpki Rrdp Roas Routes EventSourcing CaCerts CaEvents CaKeys CaChildren CaProducts CaClass CertAuth CaObjects CaObjectsStore CaObjectsFacts TaskQueue Scheduler TaskFacts CertAuthCmds CaDemo CaObjectsDemo.

Section scheduler.
Context `{PA : !PrefixApi, RP : !Rpki, CA : !CaApi, HO : !HashOrder, QP : !QueuePeek}.
Implicit Types (st : SchedulerState).

(** A task waits in the queue or is being run. *)
Definition pending st (task : Task) : Prop := is_Some (sch_queue st !! task) ∨ sch_running st = Some task.

(** ** Recurring tasks *)

(** The tasks that are repeated for ever, with the seconds after which they are due again. *)
Definition recurring : list (Task * Z) :=
  [(RepublishIfNeeded, 300); (RenewObjectsIfNeeded, 3600); (RefreshAnnouncementsInfo, 600);
   (UpdateSnapshots, 86400); (SweepLoginCache, 60)]%Z.
Definition repeats st (task : Task) (secs : Z) : Prop :=
  sch_running st = Some task ∨ due_by (sch_queue st) task (in_seconds (sch_now st) secs).
Definition background_inv st : Prop :=
  sch_stopped st = true ∨ pending st QueueStartTasks ∨ ∀ task secs, (task, secs) ∈ recurring → repeats st task secs.

Lemma recurring_kept op task secs : (task, secs) ∈ recurring → ¬ removes op task.
Proof. unfold recurring. rewrite !elem_of_cons, elem_of_nil. intros Hr. destruct op; simpl; naive_solver. Qed.
Lemma in_minutes_seconds t n : in_minutes t n = in_seconds t (n * 60).
Proof. done. Qed.
Lemma in_hours_seconds t n : in_hours t n = in_seconds t (n * 3600).
Proof. done. Qed.

(** A task that is run is due again, unless the scheduler stops; the start leaves all of them. *)
Lemma run_repeats config now draw an task secs q q' u :
  (task, secs) ∈ recurring → run_task config now draw an task q = (q', Ok u) → due_by q' task (in_seconds now secs).
Proof.
  unfold recurring. rewrite !elem_of_cons, elem_of_nil. intros Hr H.
  destruct Hr as [[= -> ->]|[[= -> ->]|[[= -> ->]|[[= -> ->]|[[= -> ->]|[]]]]]]; simpl in H.
  - unfold republish_if_needed in H. destruct (an_republish an); simplify_eq. apply schedule_due.
  - unfold renew_objects_if_needed in H. destruct (an_renew an); simplify_eq. apply schedule_due.
  - simplify_eq. apply schedule_due.
  - simplify_eq. apply schedule_due.
  - simplify_eq. apply schedule_due.
Qed.
Lemma start_repeats config now draw an task secs q q' u :
  (task, secs) ∈ recurring → queue_start_tasks config now draw an q = (q', Ok u) → due_by q' task (in_seconds now secs).
Proof.
  intros Hr H. unfold queue_start_tasks in H. destruct (an_ca_list an) as [cas|]; [|done].
  destruct (start_cas config now draw an (length cas) q cas) as [q1 []]; simplify_eq.
  assert (∀ n, (0 ≤ n)%Z → (priority_from now ≤ in_seconds now n)%Z) as Hle.
  { intros n Hn. unfold in_seconds, priority_from. rewrite timestamp_add. lia. }
  unfold recurring in Hr. rewrite !elem_of_cons, elem_of_nil in Hr.
  destruct Hr as [[= -> ->]|[[= -> ->]|[[= -> ->]|[[= -> ->]|[[= -> ->]|[]]]]]].
  - apply due_by_mono with (priority_from now); [|by apply Hle]. do 4 apply schedule_due_by. apply schedule_due.
  - apply due_by_mono with (priority_from now); [|by apply Hle]. do 3 apply schedule_due_by. apply schedule_due.
  - apply due_by_mono with (priority_from now); [|by apply Hle]. do 2 apply schedule_due_by. apply schedule_due.
  - apply schedule_due.
  - apply schedule_due_by, schedule_due.
Qed.

(** Whatever happens, a task that the step does not remove stays. *)
Lemma act_keeps config st action task p :
  due_by (sch_queue st) task p → (∀ op, action = Other op → ¬ removes op task) →
  due_by (sch_queue (scheduler_act config st action)) task p ∨ sch_running (scheduler_act config st action) = Some task.
Proof.
  destruct st as [now q running stopped]. simpl. intros Hdue Hop. destruct action as [until| |draw an|op]; simpl.
  - by left.
  - destruct running; [by left|]. destruct stopped; [by left|]. destruct (pop (priority_from now) q) as [[t q']|] eqn:Hp; [|by left].
    apply pop_spec in Hp as [-> _]. destruct (decide (t = task)) as [->|Hne]; [by right|]. left. simpl.
    apply (delete_keeps (λ t', t' ≠ t)); auto.
  - destruct running as [t|]; [|by left]. left. pose proof (run_task_keeps config now draw an (λ _, True) t q task p I Hdue) as Hk.
    by destruct (run_task config now draw an t q).
  - left. apply (queue_op_keeps now q op); [|done]. by apply Hop.
Qed.
Lemma act_now config st action : (sch_now st ≤ sch_now (scheduler_act config st action))%Z.
Proof.
  destruct st as [now q running stopped]. destruct action as [until| |draw an|op]; simpl; [lia|..|lia].
  - repeat case_match; simpl; lia.
  - destruct running as [t|]; [|simpl; lia]. destruct (run_task config now draw an t q). simpl; lia.
Qed.
(** A task that is run stays so until it is finished. *)
Lemma act_running config st action task :
  sch_running st = Some task →
  sch_running (scheduler_act config st action) = Some task
  ∨ ∃ draw an, action = Finish draw an ∧ scheduler_act config st action =
      let '(q, res) := run_task config (sch_now st) draw an task (sch_queue st) in
      mkScheduler (sch_now st) q None (match res with Ok _ => sch_stopped st | Err _ => true end).
Proof.
  destruct st as [now q running stopped]. simpl. intros ->. destruct action as [until| |draw an|op]; simpl; eauto.
Qed.
Lemma act_stopped config st action : sch_stopped st = true → sch_stopped (scheduler_act config st action) = true.
Proof.
  destruct st as [now q running stopped]. simpl. intros ->. destruct action as [until| |draw an|op]; simpl; [done| |..|done].
  - by destruct running.
  - destruct running as [t|]; [|done]. destruct (run_task config now draw an t q) as [q' []]; done.
Qed.

Lemma act_repeats config st action task secs :
  (task, secs) ∈ recurring → repeats st task secs →
  sch_stopped (scheduler_act config st action) = true ∨ repeats (scheduler_act config st action) task secs.
Proof.
  intros Hr [Hrun|Hdue].
  - destruct (act_running config st action task Hrun) as [?|(draw&an&->&->)]; [right; by left|].
    destruct (run_task config (sch_now st) draw an task (sch_queue st)) as [q [u|]] eqn:Hq; [|by left]. right. right.
    by eapply run_repeats.
  - right. destruct (act_keeps config st action task _ Hdue) as [Hd|?]; [|right|by left].
    + intros op _. by eapply recurring_kept.
    + eapply due_by_mono; [exact Hd|]. apply in_seconds_mono, act_now.
Qed.
Lemma act_background config st action : background_inv st → background_inv (scheduler_act config st action).
Proof.
  intros [Hs|[[[p Hp]|Hrun]|Hrep]].
  - left. by apply act_stopped.
  - right. left. destruct (act_keeps config st action QueueStartTasks p) as [(x&?&_)|?]; [by exists p| |left; by exists x|by right].
    intros [] _; simpl; auto.
  - destruct (act_running config st action _ Hrun) as [?|(draw&an&->&->)]; [right; left; by right|].
    destruct (run_task config (sch_now st) draw an QueueStartTasks (sch_queue st)) as [q [u|]] eqn:Hq; [|by left]. right. right.
    intros task secs Hr. right. by eapply start_repeats.
  - destruct (sch_stopped (scheduler_act config st action)) eqn:Hs; [by left|]. right. right. intros task secs Hr.
    destruct (act_repeats config st action task secs Hr) as [?|?]; [by apply Hrep|congruence|done].
Qed.

(** C28. Background work goes on.  Whatever is done by the scheduler, by the managers that answer
    it and by other threads after the server has started, the tasks that are repeated for ever
    (re-issuing manifests, renewing objects, refreshing announcements, writing snapshots,
    sweeping the login cache) are each being run or in the queue, and due within their interval
    from now, as soon as the tasks of the start were queued, unless an error has stopped the
    scheduler; and the scheduler takes a task whenever one is due and none is run. *)
Theorem background_tasks_kept config t0 actions :
  let st := scheduler_run config (server_started t0) actions in
  sch_stopped st = false →
  (pending st QueueStartTasks
   ∨ ∀ task secs, (task, secs) ∈ recurring →
       sch_running st = Some task ∨ ∃ p, sch_queue st !! task = Some p ∧ (p ≤ in_seconds (sch_now st) secs)%Z)
  ∧ ∀ task p, sch_running st = None → sch_queue st !! task = Some p → (p < priority_from (sch_now st))%Z →
      ∃ task' p', sch_running (scheduler_act config st Take) = Some task' ∧ sch_queue st !! task' = Some p' ∧ (p' ≤ p)%Z.
Proof.
  intros st Hs. split.
  - assert (background_inv st) as [?|?]; [|congruence|done].
    assert (∀ l st0, background_inv st0 → background_inv (scheduler_run config st0 l)) as Hall.
    { induction l as [|a l IH]; intros st0 H; [done|]. by apply IH, act_background. }
    apply Hall. right. left. left. simpl. unfold schedule. rewrite queue_empty, queue_insert_eq. by eexists.
  - intros task p Hrun Hp Hdue. destruct st as [now q running stopped]. simpl in *. subst.
    destruct (pop_due (priority_from now) q task p) as (task'&q'&Hpop); [done..|]. rewrite Hpop. simpl.
    apply pop_spec in Hpop as [_ (x&Hx&_&Hmin)]. exists task', x. eauto.
Qed.

(** ** RRDP after a restart *)

(** C30. Changes that were staged for RRDP when the server stopped are not published after a
    restart: as long as no publisher publishes or is removed, an update of RRDP is never queued
    or run, whatever else the scheduler and other threads do. *)
Theorem rrdp_update_not_resumed config t0 actions :
  Other ContentChanged ∉ actions →
  let st := scheduler_run config (server_started t0) actions in ¬ pending st RrdpUpdateIfNeeded.
Proof.
  intros Hno. unfold scheduler_run.
  assert (∀ st, ¬ pending st RrdpUpdateIfNeeded → ¬ pending (foldl (scheduler_act config) st actions) RrdpUpdateIfNeeded) as Hall.
  { induction actions as [|a l IH]; intros st Hst; [done|]. simpl. apply not_elem_of_cons in Hno as [Ha Hl]. apply IH; [done|].
    destruct st as [now q running stopped]. unfold pending in *. simpl in *.
    apply Decidable.not_or in Hst as [Hq%eq_None_not_Some Hr]. destruct a as [until| |draw an|op]; simpl.
    - rewrite Hq. intros [[]|?]; done.
    - destruct running as [t|]; simpl; [rewrite Hq; by intros [[]|?]|]. destruct stopped; simpl; [rewrite Hq; by intros [[]|?]|].
      destruct (pop (priority_from now) q) as [[t q']|] eqn:Hp; simpl; [|rewrite Hq; by intros [[]|?]].
      apply pop_spec in Hp as [-> (x&Hx&_)]. rewrite (proj2 (lookup_delete_None (M := gmap Task) q t RrdpUpdateIfNeeded) (or_intror Hq)). intros [[]|[= ->]]; [done|congruence].
    - destruct running as [t|]; simpl; [|rewrite Hq; by intros [[]|?]].
      pose proof (run_task_rrdp config now draw an t q) as Hrun. destruct (run_task config now draw an t q) as [q' res]. simpl in *.
      rewrite Hrun, Hq by congruence. by intros [[]|?].
    - assert (queue_op now q op !! RrdpUpdateIfNeeded = None) as ->; [|by intros [[]|?]].
      destruct op as [ca events| |ca|ca|ca parent|ca]; simpl; try (by rewrite schedule_ne); [by rewrite queue_listen_global|].
      by rewrite remove_tasks_lookup. }
  apply Hall. unfold pending. simpl. unfold schedule. rewrite queue_empty, queue_insert_ne by done. by intros [[]|?].
Qed.

(** ** Parents that are removed *)

(** The synchronisation with a parent is queued again when it ends, with whatever result, even if
    the parent or the CA was removed while it was run: it is repeated for ever, and fails. *)
Lemma removed_parent_retried config st h parent actions draw an :
  (∀ a, a ∈ actions → ∃ op, a = Other op) → sch_running st = Some (SyncParent h parent) →
  is_Some (sch_queue (scheduler_act config (scheduler_run config st actions) (Finish draw an)) !! SyncParent h parent).
Proof.
  intros Hops Hrun. assert (sch_running (scheduler_run config st actions) = Some (SyncParent h parent)) as Hr.
  { revert st Hrun. induction actions as [|a l IH]; intros st Hrun; [done|]. simpl. apply IH.
    - intros a' Ha'. apply Hops. by right.
    - destruct (Hops a) as [op ->]; [by left|]. by destruct st. }
  destruct (scheduler_run config st actions) as [now q running stopped]. simpl in *. subst. simpl.
  destruct (schedule_due q (SyncParent h parent)
    (match an_sync_parent an with Ok _ => ca_refresh_next config now draw (SyncParent h parent) | Err _ => requeue_remote_failed config now end))
    as (p&Hp&_). by exists p.
Qed.
End scheduler.

(** ** Changes of what is published *)

Section published.
Context `{PA : !PrefixApi, RP : !Rpki, CA : !CaApi, PU : !PubApi, HO : !HashOrder, QP : !QueuePeek}.
Implicit Types (s : KeyObjectSet) (keys : ResourceClassKeyState) (objects : CaObjects).

(** What a CA has for a repository. *)
Definition in_repo (map : RepoElements) (contact : RepositoryContact) (el : PublishElement) : Prop :=
  ∃ els, (contact, els) ∈ map ∧ el ∈ els.
Definition published_at objects : RepositoryContact → PublishElement → Prop := in_repo (repo_elements_map objects).

Lemma in_repo_cons r es map contact el : in_repo ((r, es) :: map) contact el ↔ contact = r ∧ el ∈ es ∨ in_repo map contact el.
Proof.
  unfold in_repo. split.
  - intros (els&[[= -> ->]|H]%elem_of_cons&?); [by left|]. right. by exists els.
  - intros [[-> ?]|(els&?&?)]; [exists es; split; [by left|done]|exists els; split; [by right|done]].
Qed.
Lemma in_repo_add map repo elements contact el :
  in_repo (add_to_repo map repo elements) contact el ↔ in_repo map contact el ∨ contact = repo ∧ el ∈ elements.
Proof.
  induction map as [|[r es] map IH]; simpl.
  - rewrite in_repo_cons. unfold in_repo. setoid_rewrite elem_of_nil. naive_solver.
  - case_decide as Hr; rewrite !in_repo_cons; [subst; rewrite elem_of_app; tauto|]. rewrite IH. tauto.
Qed.
Lemma in_repo_sets repo map sets contact el :
  in_repo (foldl (set_add_elements repo) map sets) contact el ↔
  in_repo map contact el ∨ ∃ s, s ∈ sets ∧ contact = default repo (ks_old_repo s) ∧ el ∈ set_elements s.
Proof.
  revert map. induction sets as [|s sets IH]; intros map; simpl.
  - setoid_rewrite elem_of_nil. naive_solver.
  - rewrite IH. unfold set_add_elements. rewrite in_repo_add. setoid_rewrite elem_of_cons. naive_solver.
Qed.
Lemma published_at_sets objects contact el :
  published_at objects contact el ↔
  ∃ repo n keys s, co_repo objects = Some repo ∧ co_classes objects !! n = Some keys ∧ s ∈ class_sets keys
    ∧ contact = default repo (ks_old_repo s) ∧ el ∈ set_elements s.
Proof.
  unfold published_at, repo_elements_map. destruct (co_repo objects) as [repo|].
  2: { unfold in_repo. setoid_rewrite elem_of_nil. naive_solver. }
  assert (∀ l map, in_repo (foldl (class_add_elements repo) map l) contact el ↔
    in_repo map contact el ∨ ∃ keys s, keys ∈ l ∧ s ∈ class_sets keys ∧ contact = default repo (ks_old_repo s) ∧ el ∈ set_elements s) as Hl.
  { induction l as [|keys l IH]; intros map; simpl; [setoid_rewrite elem_of_nil; naive_solver|].
    rewrite IH. unfold class_add_elements. rewrite in_repo_sets. setoid_rewrite elem_of_cons. naive_solver. }
  rewrite Hl, in_repo_cons. setoid_rewrite elem_of_hm_values. unfold in_repo. setoid_rewrite elem_of_nil. naive_solver.
Qed.

(** ** Sets that publish the same objects *)

Definition same_set s s' : Prop :=
  set_key s' = set_key s
  ∧ ci_ca_repository (cert_csr_info (ks_signing_cert s')) = ci_ca_repository (cert_csr_info (ks_signing_cert s))
  ∧ ks_revision s' = ks_revision s ∧ ks_manifest s' = ks_manifest s ∧ ks_crl s' = ks_crl s
  ∧ ks_published_objects s' = ks_published_objects s ∧ ks_old_repo s' = ks_old_repo s.
#[export] Instance same_set_equiv : Equivalence same_set.
Proof. split; [by intros s|intros s1 s2 (?&?&?&?&?&?&?); repeat split; congruence|]. intros s1 s2 s3 (?&?&?&?&?&?&?) (?&?&?&?&?&?&?). repeat split; congruence. Qed.
Definition same_class keys keys' : Prop := Forall2 same_set (class_sets keys) (class_sets keys').
#[export] Instance same_class_equiv : Equivalence same_class.
Proof. unfold same_class. split; [by intros keys|intros k1 k2 H; by symmetry|]. intros k1 k2 k3 H1 H2. by etrans. Qed.
Definition same_objects objects objects' : Prop :=
  co_repo objects' = co_repo objects ∧ ∀ n, option_Forall2 same_class (co_classes objects !! n) (co_classes objects' !! n).
#[export] Instance same_objects_equiv : Equivalence same_objects.
Proof.
  split; [by intros objects|intros o1 o2 [? H]; split; [done|]; intros n; symmetry; apply H|]. intros o1 o2 o3 [Hr1 H1] [Hr2 H2]. split; [congruence|]. intros n.
  etrans; [apply H1|apply H2].
Qed.

Lemma same_set_elements s s' : same_set s s' → set_elements s' = set_elements s.
Proof.
  intros (Hk&Hu&_&Hm&Hc&Ho&_). unfold set_key in Hk. unfold set_elements, mft_uri, crl_uri, mft_name, crl_name, uri_for_name.
  by rewrite Hk, Hu, Hm, Hc, Ho.
Qed.
Lemma same_objects_published objects objects' contact el :
  same_objects objects objects' → published_at objects contact el ↔ published_at objects' contact el.
Proof.
  assert (∀ o o', same_objects o o' → published_at o contact el → published_at o' contact el) as Hone.
  { intros o o' [Hr Hn]. rewrite !published_at_sets. intros (repo&n&keys&s&Hrepo&Hkeys&Hs&->&Hel). specialize (Hn n).
    rewrite Hkeys in Hn. inversion Hn as [? keys' Hc|]; subst. apply list_elem_of_lookup in Hs as [i Hi].
    destruct (Forall2_lookup_l _ _ _ _ _ Hc Hi) as (s'&Hi'&Hs'). exists repo, n, keys', s'.
    split; [congruence|]. split; [done|]. split; [by eapply list_elem_of_lookup_2|]. rewrite (same_set_elements _ _ Hs').
    destruct Hs' as (_&_&_&_&_&_&->). done. }
  intros H. split; apply Hone; [done|by symmetry].
Qed.
(** Whether the sets must be re-issued only depends on when the next update is. *)
Lemma requires_sets now before keys : requires_re_issuance now before keys = existsb (requires_reissuance now before) (class_sets keys).
Proof. destruct keys; simpl; by rewrite ?orb_false_r, 1?orb_comm. Qed.
Lemma same_class_requires now before keys keys' :
  same_class keys keys' → requires_re_issuance now before keys' = requires_re_issuance now before keys.
Proof.
  rewrite !requires_sets. unfold same_class. induction 1 as [|s s' l l' (_&_&Hr&_) _ IH]; [done|]. simpl.
  unfold requires_reissuance at 1 3. by rewrite Hr, IH.
Qed.

(** ** Events after which the repository is synchronised *)

Definition syncs_repo (e : CaEvent) : bool :=
  match e with
  | RoasUpdated _ _ | AspaObjectsUpdated _ _ | ChildCertificatesUpdated _ _ | BgpSecCertificatesUpdated _ _
  | ChildKeyRevoked _ _ _ | KeyPendingToNew _ _ | KeyPendingToActive _ _ | KeyRollFinished _ | KeyRollActivated _ _
  | ParentRemoved _ | ResourceClassRemoved _ _ _ => true
  | _ => false
  end.
Lemma syncs_repo_scheduled now ca handle q e :
  syncs_repo e = true → due_by (queue_listen_event now ca handle q e) (SyncRepo handle) (priority_from now).
Proof. destruct e; simpl; try done; intros _; try apply schedule_due. apply schedule_due_by, schedule_due. Qed.

(** A certificate for a key that the CA has objects for keeps the place where it publishes. *)
Definition same_place objects (e : CaEvent) : Prop :=
  match e with
  | CertificateReceived n cert _ =>
      ∀ keys s, co_classes objects !! n = Some keys → s ∈ class_sets keys → set_key s = cert_key_identifier cert →
        ci_ca_repository (cert_csr_info (ks_signing_cert s)) = ci_ca_repository (cert_csr_info cert)
  | RepoUpdated _ => False
  | _ => True
  end.

Lemma update_signing_same s cert s' :
  (set_key s = cert_key_identifier cert → ci_ca_repository (cert_csr_info (ks_signing_cert s)) = ci_ca_repository (cert_csr_info cert)) →
  update_signing_cert s cert = Ok s' → same_set s s'.
Proof.
  unfold update_signing_cert, set_key. intros Hplace H. case_bool_decide as Hk; simplify_eq. unfold same_set, set_key. simpl. by rewrite Hplace, Hk.
Qed.
Lemma received_same keys cert keys' :
  (∀ s, s ∈ class_sets keys → set_key s = cert_key_identifier cert →
    ci_ca_repository (cert_csr_info (ks_signing_cert s)) = ci_ca_repository (cert_csr_info cert)) →
  class_objects_received_cert keys cert = Ok keys' → same_class keys keys'.
Proof.
  intros Hplace H. assert (∀ s s', s ∈ class_sets keys → update_signing_cert s cert = Ok s' → same_set s s') as Hup.
  { intros s s' Hs. apply update_signing_same. by apply Hplace. }
  unfold same_class. destruct keys as [cu|sg cu|cu old]; simpl in *.
  - destruct (update_signing_cert cu cert) eqn:Hu; simplify_eq/=. apply Forall2_cons; split; [|done]. apply Hup; [by left|done].
  - destruct (update_signing_cert sg cert) eqn:Hg; simplify_eq/=.
    + apply Forall2_cons; split; [done|]. apply Forall2_cons; split; [|done]. apply Hup; [by right; left|done].
    + destruct (update_signing_cert cu cert) eqn:Hu; simplify_eq/=. apply Forall2_cons; split; [|done]. apply Hup; [by left|done].
  - destruct (update_signing_cert old cert) eqn:Hg; simplify_eq/=.
    + apply Forall2_cons; split; [done|]. apply Forall2_cons; split; [|done]. apply Hup; [by right; left|done].
    + destruct (update_signing_cert cu cert) eqn:Hu; simplify_eq/=. apply Forall2_cons; split; [|done]. apply Hup; [by left|done].
Qed.

Section listener.
Context (timing : IssuanceTimingConfig) (now : Instant) (signer : ObjectSigner).

Lemma quiet_event st e st' :
  syncs_repo e = false → same_place st.1 e → listen_event timing now signer st e = Ok st' → same_objects st.1 st'.1 ∧ st'.2 = st.2.
Proof.
  destruct st as [objects force]. intros Hq Hp H. destruct e; simpl in *; try done; inv_ok; simpl; try done.
  unfold objects_received_cert, on_class_objects, get_class_mut in *. inv_ok. split; [|done]. split; [done|]. intros n. simpl.
  destruct (co_classes objects !! resource_class_name) as [keys|] eqn:Hn; simplify_eq/=.
  destruct (decide (n = resource_class_name)) as [->|Hne]; [|by rewrite lookup_insert_ne].
  rewrite lookup_insert_eq, Hn. constructor. eapply received_same; [|done]. intros s. by apply Hp.
Qed.
Lemma same_place_same objects objects' e : same_objects objects objects' → same_place objects e → same_place objects' e.
Proof.
  intros [_ Hn]. destruct e; simpl; try done. intros Hp keys s Hkeys Hs. specialize (Hn resource_class_name). rewrite Hkeys in Hn.
  inversion Hn as [keys0 ? Hc Heq|]; subst. apply list_elem_of_lookup in Hs as [i Hi].
  destruct (Forall2_lookup_r _ _ _ _ _ Hc Hi) as (s0&Hi0&(Hk&Hu&_)). rewrite Hk, Hu. eapply Hp; [done|].
  by eapply list_elem_of_lookup_2.
Qed.
Lemma quiet_events es st st' :
  Forall (λ e, syncs_repo e = false) es → Forall (same_place st.1) es → fold_each (listen_event timing now signer) st es = Ok st' →
  same_objects st.1 st'.1 ∧ st'.2 = st.2.
Proof.
  revert st. induction es as [|e es IH]; intros st Hq Hp H; simpl in H; [by simplify_eq|].
  destruct (listen_event timing now signer st e) as [st1|] eqn:He; [|done].
  apply Forall_cons in Hq as [Hqe Hq]. apply Forall_cons in Hp as [Hpe Hp].
  destruct (quiet_event _ _ _ Hqe Hpe He) as [Hs1 Hf1]. destruct (IH st1) as [Hs Hf]; [done| |done|].
  - eapply Forall_impl; [done|]. intros e'. by apply same_place_same.
  - split; [by etrans|congruence].
Qed.

Lemma re_issue_nothing objects :
  (∀ n keys, co_classes objects !! n = Some keys → requires_re_issuance now (timing_publish_hours_before_next timing) keys = false) →
  objects_re_issue timing now signer false objects = Ok (objects, false).
Proof.
  intros Hno. unfold objects_re_issue.
  assert (∀ n keys, (n, keys) ∈ hm_iter (co_classes objects) → requires_re_issuance now (timing_publish_hours_before_next timing) keys = false) as Hl.
  { intros n keys H%elem_of_hm_iter. by eapply Hno. }
  induction (hm_iter (co_classes objects)) as [|[n keys] l IH]; [done|]. simpl. rewrite (Hl n keys) by (by left). simpl. apply IH.
  intros n' keys' H'. apply (Hl n'). by right.
Qed.
End listener.

(** ** A synchronisation that is wanted is not forgotten *)

(** The action with which a wanted synchronisation ends: it is done, or its CA is deleted. *)
Definition ends_sync (h : string) (st : SchedulerState) (a : SchedulerAction) : Prop :=
  a = Other (CaDeleted h)
  ∨ ∃ draw an, a = Finish draw an ∧ sch_running st = Some (SyncRepo h) ∧ is_ok (an_repo_sync an) = true.
Lemma act_sync config st a h : pending st (SyncRepo h) → pending (scheduler_act config st a) (SyncRepo h) ∨ ends_sync h st a.
Proof.
  intros [[p Hp]|Hrun].
  - assert (a = Other (CaDeleted h) ∨ ∀ op, a = Other op → ¬ removes op (SyncRepo h)) as [->|Hop]; [|right; by left|].
    { destruct a as [| | |[| |h'| | |]]; try (right; intros op [= <-]; simpl; auto; fail); try (by right).
      destruct (decide (h' = h)) as [->|Hne]; [by left|]. right. intros op [= <-]. simpl. congruence. }
    left. destruct (act_keeps config st a (SyncRepo h) p) as [(x&?&_)|?]; [by exists p|done|left; by exists x|by right].
  - destruct (act_running config st a _ Hrun) as [?|(draw&an&->&->)]; [left; by right|].
    simpl. unfold sync_repo. destruct (an_repo_sync an) eqn:Han; [right|left; left].
    + right. exists draw, an. by rewrite Han.
    + simpl. destruct (schedule_due (sch_queue st) (SyncRepo h) (requeue_remote_failed config (sch_now st))) as (x&Hx&_). by exists x.
Qed.
Lemma run_sync config st actions h :
  pending st (SyncRepo h) →
  pending (scheduler_run config st actions) (SyncRepo h)
  ∨ ∃ earlier a later, actions = earlier ++ a :: later ∧ ends_sync h (scheduler_run config st earlier) a.
Proof.
  revert st. induction actions as [|a l IH]; intros st Hp; [by left|].
  destruct (act_sync config st a h Hp) as [Hp'|He]; [|right; by exists [], a, l].
  destruct (IH _ Hp') as [?|(earlier&a'&later&->&He)]; [by left|]. right. by exists (a :: earlier), a', later.
Qed.

(** C29. What a CA publishes reaches its repository.  If the events of a command change what the
    CA has for some repository then a synchronisation with its repositories is due at once, and
    whatever happens next it is queued or being run until it succeeds or the CA is deleted.  This
    holds for all events but those of a new repository, if certificates for keys in use keep the
    place where the keys publish and no manifest was due to be re-issued. *)
Theorem published_changes_are_synchronised timing now signer objects objects' config st ca h events actions :
  Forall (λ e, ev_id e = h) events →
  listen_objects timing now signer objects (ev_details <$> events) = Ok objects' →
  Forall (same_place objects) (ev_details <$> events) →
  (∀ n keys, co_classes objects !! n = Some keys → requires_re_issuance now (timing_publish_hours_before_next timing) keys = false) →
  (∃ contact el, ¬ (published_at objects contact el ↔ published_at objects' contact el)) →
  let st1 := scheduler_act config st (Other (EventsSaved ca events)) in
  due_by (sch_queue st1) (SyncRepo h) (priority_from (sch_now st))
  ∧ (pending (scheduler_run config st1 actions) (SyncRepo h)
     ∨ ∃ earlier a later, actions = earlier ++ a :: later ∧ ends_sync h (scheduler_run config st1 earlier) a).
Proof.
  intros Hid Hlisten Hplace Hdue (contact&el&Hchg) st1.
  assert (due_by (sch_queue st1) (SyncRepo h) (priority_from (sch_now st))) as Hd; [|split; [done|]].
  2: { apply run_sync. left. destruct Hd as (x&?&_). by exists x. }
  assert (Exists (λ e, syncs_repo (ev_details e) = true) events) as Hex.
  { destruct (decide (Exists (λ e, syncs_repo (ev_details e) = true) events)) as [?|Hno]; [done|]. destruct Hchg.
    unfold listen_objects in Hlisten. inv_ok. destruct x as [objects1 force1], x0 as [objects2 force2].
    apply quiet_events in H as [Hs Hf]; [|by apply Forall_fmap, Forall_forall; intros e He; apply not_true_is_false; intros Ht;
      apply Hno, Exists_exists; exists e|done]. simpl in *. subst.
    rewrite re_issue_nothing in H0; [simplify_eq; by apply same_objects_published|].
    intros n keys Hk. destruct Hs as [_ Hs]. specialize (Hs n). rewrite Hk in Hs. inversion Hs as [keys0 ? Hc Heq|]; subst.
    rewrite (same_class_requires _ _ _ _ Hc). by eapply Hdue. }
  destruct st as [t q running stopped]. simpl in *. unfold queue_listen. clear -Hid Hex. revert q.
  induction Hex as [e events He|e events Hex IH]; intros q; apply Forall_cons in Hid as [<- Hid]; simpl.
  - apply (queue_listen_keeps t _ ca events); [done|]. by apply syncs_repo_scheduled.
  - by apply IH.
Qed.
End published.

(** ** Witnesses *)

Section witnesses.
Import CaDemo CaObjectsDemo.
#[local] Existing Instance first_peek.

Definition schedule_config : SchedulerConfig := config_fix (mkSchedulerConfig false 600 600 10 None None).
Definition nothing : Answers := mkAnswers (Ok []) (λ _, Err (Custom "unknown")) (Ok tt) (Ok tt) (Ok []) (Ok tt) (Ok None).
(** The server starts and runs the tasks of the start. *)
Definition start_up : list SchedulerAction := [Wait (now + seconds 2)%Z; Take; Finish (λ _ _, 0%Z) nothing].

Lemma background_tasks_kept_witness :
  let st := scheduler_run schedule_config (server_started now) start_up in
  ¬ pending st QueueStartTasks
  ∧ ∀ task secs, (task, secs) ∈ recurring →
      sch_running st = Some task ∨ ∃ p, sch_queue st !! task = Some p ∧ (p ≤ in_seconds (sch_now st) secs)%Z.
Proof.
  intros st. assert (sch_queue st !! QueueStartTasks = None) as Hq by reflexivity.
  assert (¬ pending st QueueStartTasks) as Hno by (intros [H|H]; [rewrite Hq in H; by destruct H|discriminate H]).
  split; [done|]. destruct (background_tasks_kept schedule_config now start_up) as [[?|H] _]; [reflexivity|done|exact H].
Defined.

Lemma rrdp_update_not_resumed_witness : ¬ pending (scheduler_run schedule_config (server_started now) start_up) RrdpUpdateIfNeeded.
Proof.
  apply (rrdp_update_not_resumed schedule_config now start_up).
  unfold start_up. rewrite !not_elem_of_cons. split; [discriminate|]. split; [discriminate|]. split; [discriminate|]. apply not_elem_of_nil.
Defined.

(** The parent of [CaDemo] issues a certificate to its child. *)
Definition issuing : list CaEvt :=
  match ca_process_command config now (signer "ta-" 4) ready (ChildCertify "child" request) with Some (Ok evs) => evs | _ => [] end.
Definition keeps_place (e : CaEvent) : bool := match e with CertificateReceived _ _ _ | RepoUpdated _ => false | _ => true end.
Lemma keeps_place_same objects e : keeps_place e = true → same_place objects e.
Proof. by destruct e. Qed.
Lemma added_element_changes objects objects' :
  bool_decide (Forall (λ el, pe_uri el ∈ pe_uri <$> all_publish_elements objects) (all_publish_elements objects')) = false →
  ∃ contact el, ¬ (published_at objects contact el ↔ published_at objects' contact el).
Proof.
  assert (∀ o el, el ∈ all_publish_elements o ↔ ∃ contact, published_at o contact el) as Hall.
  { intros o el. unfold all_publish_elements, published_at, in_repo. rewrite list_elem_of_In, in_concat.
    setoid_rewrite <-list_elem_of_In. setoid_rewrite list_elem_of_fmap. split.
    - intros (els&([contact els']&->&?)&?). eauto.
    - intros (contact&els&?&?). exists els. split; [|done]. by exists (contact, els). }
  intros Hno%bool_decide_eq_false. apply not_Forall_Exists in Hno; [|apply _].
  apply Exists_exists in Hno as (el&[contact Hin]%Hall&Hnot). exists contact, el. intros [_ Hiff].
  apply Hnot, list_elem_of_fmap. exists el. split; [done|]. apply Hall. eauto.
Qed.

Lemma published_changes_are_synchronised_witness :
  let st := scheduler_run schedule_config (server_started now) start_up in
  let st1 := scheduler_act schedule_config st (Other (EventsSaved parent issuing)) in
  due_by (sch_queue st1) (SyncRepo "ta") (priority_from (sch_now st))
  ∧ (pending (scheduler_run schedule_config st1 [Wait later; Take]) (SyncRepo "ta")
     ∨ ∃ earlier a after, [Wait later; Take] = earlier ++ a :: after ∧ ends_sync "ta" (scheduler_run schedule_config st1 earlier) a).
Proof.
  intros st. apply (published_changes_are_synchronised timing now osigner objects_ready (heard now objects_ready (ev_details <$> issuing))
    schedule_config st parent "ta" issuing [Wait later; Take]).
  - refine (bool_decide_eq_true_1 (Forall _ _) _). reflexivity.
  - apply hears_heard. reflexivity.
  - assert (forallb keeps_place (ev_details <$> issuing) = true) as Hk by reflexivity. apply Forall_forall. intros e He.
    apply keeps_place_same. rewrite forallb_forall in Hk. apply Hk. by apply list_elem_of_In.
  - intros n keys Hk. assert (forallb (λ nk, negb (requires_re_issuance now 8 nk.2)) (map_to_list (co_classes objects_ready)) = true)
      as Hno by reflexivity. rewrite forallb_forall in Hno. apply negb_true_iff, (Hno (n, keys)), list_elem_of_In.
    by apply elem_of_map_to_list.
  - apply added_element_changes. reflexivity.
Defined.
End witnesses.
