(* ===== verification/BgpTree.v ===== *)
(** * Announcements and trees of prefixes ([src/src/commons/bgp/iptree.rs], [announcements.rs])

    Prefixes as ranges of addresses, the trees in which announcements and ROAs are looked up by
    range, and the validation of an announcement against a tree of ROAs. *)

From stdpp Require Import base gmap strings list.
From Stdlib Require Import NArith ZArith Lia.
From S2P Require Import Prelude Text Roas Routes.

(** ** What is used of other crates *)

(** [Range<u128>]: the start and the end, which a range does not include. *)
Abbreviation Range := (N * N)%type.

(** Addresses and blocks of resource sets of the [rpki] crate, and [query] and [iter] of the
    [intervaltree] crate on the elements of a tree. *)
Class BgpApi `{PA : !PrefixApi} : Type := {
  to_v4 : N → N;
  to_v6 : N → N;
  rs_ipv4 : ResourceSet → list (N * N);
  rs_ipv6 : ResourceSet → list (N * N);
  rs_default : ResourceSet;
  rs_union : ResourceSet → ResourceSet → ResourceSet;
  rs_of_prefix : TypedPrefix → ResourceSet;
  tree_query : ∀ {V : Type}, list (Range * list V) → Range → list (Range * list V);
  tree_iter : ∀ {V : Type}, list (Range * list V) → list (Range * list V);
}.

(** A query yields the elements that overlap the range, each once.  What it does with ranges that
    hold no address is left open. *)
Class BgpLaws `{BA : BgpApi} : Prop := {
  query_sub : ∀ V (t : list (Range * list V)) q, tree_query t q ⊆+ t;
  query_overlap : ∀ V (t : list (Range * list V)) q r vs,
    (q.1 < q.2)%N → (r.1 < r.2)%N → (r, vs) ∈ t →
    (r, vs) ∈ tree_query t q ↔ (q.1 < r.2 ∧ r.1 < q.2)%N;
  iter_perm : ∀ V (t : list (Range * list V)), tree_iter t ≡ₚ t;
}.

Section tree.
Context `{BA : BgpApi} `{HO : !HashOrder}.

(** ** Ranges *)

(** [to_v4().to_ipv6_mapped()] as a number *)
Definition ipv6_mapped (a : N) : N := (281470681743360 + to_v4 a)%N.

Definition ip_range (tp : TypedPrefix) : Range :=
  match tp with
  | V4 pfx => (ipv6_mapped (pfx_min pfx), ipv6_mapped (pfx_max pfx))
  | V6 pfx => (to_v6 (pfx_min pfx), to_v6 (pfx_max pfx))
  end.

Definition for_resource_set (set : ResourceSet) : list Range * list Range :=
  ((λ '(min, max), (ipv6_mapped min, ipv6_mapped max)) <$> rs_ipv4 set,
   (λ '(min, max), (to_v6 min, to_v6 max)) <$> rs_ipv6 set).

Definition range_contains (self other : Range) : bool := (self.1 <=? other.1)%N && (other.2 <=? self.2)%N.
Definition is_contained_by (self other : Range) : bool := (other.1 <=? self.1)%N && (self.2 <=? other.2)%N.

(** ** Trees *)

Section prefix_tree.
(** [AsRef<TypedPrefix>] *)
Context {V : Type} (as_ref : V → TypedPrefix).

Definition TypedPrefixTree : Type := list (Range * list V).

Definition builder_add (values : gmap Range (list V)) (value : V) : gmap Range (list V) :=
  let range := ip_range (as_ref value) in <[range := default [] (values !! range) ++ [value]]> values.
Definition builder_build (values : gmap Range (list V)) : TypedPrefixTree := hm_iter values.
Definition make_tree (els : list V) : TypedPrefixTree := builder_build (foldl builder_add ∅ els).

Definition tree_more_specific (self : TypedPrefixTree) (range : Range) : list V :=
  concat ((λ el, if range_contains range el.1 then el.2 else []) <$> tree_query self range).
Definition tree_less_specific (self : TypedPrefixTree) (range : Range) : list V :=
  concat ((λ el, if is_contained_by range el.1 then el.2 else []) <$> tree_query self range).
Definition tree_size (self : TypedPrefixTree) : nat := length (tree_iter self).
Definition tree_all (self : TypedPrefixTree) : list V := concat (snd <$> tree_iter self).
End prefix_tree.

(** ** Announcements *)

Record Announcement := mkAnnouncement { ann_asn : AsNumber; ann_prefix : TypedPrefix }.

#[export] Instance Announcement_eq_dec : EqDecision Announcement.
Proof. unfold AsNumber. solve_decision. Defined.
#[export] Instance Announcement_countable : Countable Announcement.
Proof.
  refine (inj_countable' (λ a, (ann_asn a : N, ann_prefix a)) (λ '(a, p), mkAnnouncement a p) _). by intros [].
Defined.

Definition roa_of_announcement (a : Announcement) : RoaPayload := mkRoaPayload (ann_asn a) (ann_prefix a) None.
Definition announcement_of_roa (d : RoaPayload) : Announcement := mkAnnouncement (rp_asn d) (rp_prefix d).

Definition announcement_from_str (s : string) : result string Announcement :=
  as_roa ← map_err (λ _, s) (roa_payload_from_str s);
  if bool_decide (is_Some (rp_max_length as_roa)) then Err s else Ok (announcement_of_roa as_roa).

Definition announcement_cmp (self other : Announcement) : comparison :=
  match typed_prefix_cmp (ann_prefix self) (ann_prefix other) with
  | Eq => N.compare (ann_asn self) (ann_asn other)
  | o => o
  end.

Inductive AnnouncementValidity := Valid | InvalidLength | InvalidAsn | Disallowed | NotFound.

#[export] Instance AnnouncementValidity_eq_dec : EqDecision AnnouncementValidity.
Proof. solve_decision. Defined.

Record ValidatedAnnouncement := mkValidated {
  va_announcement : Announcement;
  va_validity : AnnouncementValidity;
  va_authorizing : option RoaPayload;
  va_disallowing : list RoaPayload;
}.

(** The loop over the covering ROAs, with what it has found so far. *)
Fixpoint validate_loop (self : Announcement) (covering : list RoaPayload)
    (same_asn_found none_as0_found : bool) (invalidating : list RoaPayload) : ValidatedAnnouncement :=
  match covering with
  | [] =>
      mkValidated self
        (if same_asn_found then InvalidLength else if none_as0_found then InvalidAsn else Disallowed)
        None invalidating
  | roa :: covering =>
      let none_as0_found := none_as0_found || negb (bool_decide (rp_asn roa = 0%N)) in
      if bool_decide (rp_asn roa = ann_asn self) then
        if matching_or_less_specific (rp_prefix roa) (ann_prefix self)
           && (tp_addr_len (ann_prefix self) <=? effective_max_length roa)%N
        then mkValidated self Valid (Some roa) []
        else validate_loop self covering true none_as0_found (invalidating ++ [roa])
      else validate_loop self covering same_asn_found none_as0_found (invalidating ++ [roa])
  end.

Definition validate (self : Announcement) (roas : TypedPrefixTree (V := RoaPayload)) : ValidatedAnnouncement :=
  match tree_less_specific roas (ip_range (ann_prefix self)) with
  | [] => mkValidated self NotFound None []
  | covering => validate_loop self covering false false []
  end.

Definition make_roa_tree (roas : list RoaPayload) : TypedPrefixTree := make_tree rp_prefix roas.
Definition va_prefix (v : ValidatedAnnouncement) : TypedPrefix := ann_prefix (va_announcement v).
Definition make_validated_announcement_tree (validated : list ValidatedAnnouncement) : TypedPrefixTree :=
  make_tree va_prefix validated.

(** ** The announcements seen *)

Record Announcements := mkAnnouncements {
  seen : TypedPrefixTree (V := Announcement);
  last_updated : option Instant;
  last_checked : option Instant;
}.

Definition no_announcements : Announcements := mkAnnouncements (builder_build ∅) None None.

Definition announcements_update (self : Announcements) (announcements : list Announcement) (now : Instant) : Announcements :=
  mkAnnouncements (make_tree ann_prefix announcements) (Some now) (Some now).
Definition update_checked (self : Announcements) (now : Instant) : Announcements :=
  mkAnnouncements (seen self) (last_updated self) (Some now).

Definition announcements_all (self : Announcements) : list Announcement := tree_all (seen self).

Definition equivalent (self : Announcements) (announcements : list Announcement) : bool :=
  bool_decide (list_to_set (C := gset Announcement) (announcements_all self) = list_to_set announcements).

Definition contained_by (self : Announcements) (range : Range) : list Announcement :=
  tree_more_specific (seen self) range.
End tree.
Arguments TypedPrefixTree : clear implicits.
