(* ===== verification/BgpAnalysis.v ===== *)
(** * The analysis of ROAs against announcements ([src/src/commons/bgp/analyser.rs], [report.rs])

    The report on configured ROAs and announcements, the suggestions derived from it, and how the
    server uses them for an update ([daemon/krillserver.rs], [daemon/http/server.rs]).  A panic is
    [None]. *)

From stdpp Require Import base gmap strings list.
From Stdlib Require Import NArith ZArith Lia.
From S2P Require Import Prelude Text Roas Routes BgpTree.

(** [sort], which is stable *)
Section sort.
Context {A : Type} (cmp : A → A → comparison).
Fixpoint insert_by (x : A) (l : list A) : list A :=
  match l with
  | [] => [x]
  | y :: l => match cmp x y with Gt => y :: insert_by x l | _ => x :: y :: l end
  end.
Definition sort_by (l : list A) : list A := foldr insert_by [] l.
End sort.

Section analysis.
Context `{BA : BgpApi} `{HO : !HashOrder}.
(** The ROA objects of a configuration, which are only shown. *)
Context {RoaInfo : Type} `{!EqDecision RoaInfo}.

(** ** Entries *)

Record ConfiguredRoa := mkConfiguredRoa { roa_configuration : RoaConfiguration; roa_objects : list RoaInfo }.
Definition cr_payload (self : ConfiguredRoa) : RoaPayload := rc_payload (roa_configuration self).

Inductive ConfiguredRoaOrAnnouncement := IsRoa (roa : ConfiguredRoa) | IsAnnouncement (announcement : Announcement).

Definition as_payload (self : ConfiguredRoaOrAnnouncement) : RoaPayload :=
  match self with
  | IsAnnouncement ann => mkRoaPayload (ann_asn ann) (ann_prefix ann) None
  | IsRoa roa => cr_payload roa
  end.

Inductive BgpAnalysisState :=
| RoaSeen | RoaRedundant | RoaUnseen | RoaDisallowing | RoaTooPermissive | RoaAs0 | RoaAs0Redundant | RoaNotHeld
| AnnouncementValid | AnnouncementInvalidLength | AnnouncementInvalidAsn | AnnouncementDisallowed
| AnnouncementNotFound | RoaNoAnnouncementInfo.

(** The derived order is that of the declaration. *)
Definition state_number (s : BgpAnalysisState) : N :=
  match s with
  | RoaSeen => 0 | RoaRedundant => 1 | RoaUnseen => 2 | RoaDisallowing => 3 | RoaTooPermissive => 4 | RoaAs0 => 5
  | RoaAs0Redundant => 6 | RoaNotHeld => 7 | AnnouncementValid => 8 | AnnouncementInvalidLength => 9
  | AnnouncementInvalidAsn => 10 | AnnouncementDisallowed => 11 | AnnouncementNotFound => 12
  | RoaNoAnnouncementInfo => 13
  end.

Record BgpAnalysisEntry := mkEntry {
  roa_or_announcement : ConfiguredRoaOrAnnouncement;
  state : BgpAnalysisState;
  allowed_by : option RoaPayload;
  disallowed_by : list RoaPayload;
  made_redundant_by : list RoaPayload;
  authorizes : list Announcement;
  disallows : list Announcement;
}.

#[export] Instance RoaConfiguration_eq_dec : EqDecision RoaConfiguration.
Proof. solve_decision. Defined.
#[export] Instance ConfiguredRoa_eq_dec : EqDecision ConfiguredRoa.
Proof. solve_decision. Defined.
#[export] Instance ConfiguredRoaOrAnnouncement_eq_dec : EqDecision ConfiguredRoaOrAnnouncement.
Proof. solve_decision. Defined.
#[export] Instance BgpAnalysisState_eq_dec : EqDecision BgpAnalysisState.
Proof. solve_decision. Defined.
#[export] Instance BgpAnalysisEntry_eq_dec : EqDecision BgpAnalysisEntry.
Proof. solve_decision. Defined.

Definition is_invalid (self : BgpAnalysisState) : bool :=
  match self with AnnouncementInvalidAsn | AnnouncementInvalidLength => true | _ => false end.

Definition entry_cmp (self other : BgpAnalysisEntry) : comparison :=
  match N.compare (state_number (state self)) (state_number (state other)) with
  | Eq => roa_payload_cmp (as_payload (roa_or_announcement self)) (as_payload (roa_or_announcement other))
  | o => o
  end.

Definition entry_configured_roa (self : BgpAnalysisEntry) : option ConfiguredRoa :=
  match roa_or_announcement self with IsRoa roa => Some roa | IsAnnouncement _ => None end.
Definition entry_announcement (self : BgpAnalysisEntry) : option Announcement :=
  match roa_or_announcement self with IsAnnouncement a => Some a | IsRoa _ => None end.

Definition sort_anns : list Announcement → list Announcement := sort_by announcement_cmp.

Definition roa_seen (roa : ConfiguredRoa) (authorizes disallows : list Announcement) : BgpAnalysisEntry :=
  mkEntry (IsRoa roa) RoaSeen None [] [] (sort_anns authorizes) (sort_anns disallows).
Definition roa_disallowing (roa : ConfiguredRoa) (disallows : list Announcement) : BgpAnalysisEntry :=
  mkEntry (IsRoa roa) RoaDisallowing None [] [] [] (sort_anns disallows).
Definition roa_as0 (roa : ConfiguredRoa) (disallows : list Announcement) : BgpAnalysisEntry :=
  mkEntry (IsRoa roa) RoaAs0 None [] [] [] (sort_anns disallows).
Definition roa_as0_redundant (roa : ConfiguredRoa) (made_redundant_by : list RoaPayload) : BgpAnalysisEntry :=
  mkEntry (IsRoa roa) RoaAs0Redundant None [] (sort_payloads made_redundant_by) [] [].
Definition roa_redundant (roa : ConfiguredRoa) (authorizes disallows : list Announcement)
    (made_redundant_by : list RoaPayload) : BgpAnalysisEntry :=
  mkEntry (IsRoa roa) RoaRedundant None [] (sort_payloads made_redundant_by) (sort_anns authorizes) (sort_anns disallows).
Definition roa_too_permissive (roa : ConfiguredRoa) (authorizes disallows : list Announcement) : BgpAnalysisEntry :=
  mkEntry (IsRoa roa) RoaTooPermissive None [] [] (sort_anns authorizes) (sort_anns disallows).
Definition roa_unseen (roa : ConfiguredRoa) : BgpAnalysisEntry := mkEntry (IsRoa roa) RoaUnseen None [] [] [] [].
Definition roa_not_held (roa : ConfiguredRoa) : BgpAnalysisEntry := mkEntry (IsRoa roa) RoaNotHeld None [] [] [] [].
Definition roa_no_announcement_info (roa : ConfiguredRoa) : BgpAnalysisEntry :=
  mkEntry (IsRoa roa) RoaNoAnnouncementInfo None [] [] [] [].
Definition announcement_valid (a : Announcement) (allowed_by : RoaPayload) : BgpAnalysisEntry :=
  mkEntry (IsAnnouncement a) AnnouncementValid (Some allowed_by) [] [] [] [].
Definition announcement_invalid (a : Announcement) (st : BgpAnalysisState) (disallowed_by : list RoaPayload)
    : BgpAnalysisEntry :=
  mkEntry (IsAnnouncement a) st None (sort_payloads disallowed_by) [] [] [].
Definition announcement_not_found (a : Announcement) : BgpAnalysisEntry :=
  mkEntry (IsAnnouncement a) AnnouncementNotFound None [] [] [] [].

(** [BgpAnalysisReport]: sorted entries *)
Definition report_new (entries : list BgpAnalysisEntry) : list BgpAnalysisEntry := sort_by entry_cmp entries.
Definition contains_invalids (report : list BgpAnalysisEntry) : bool :=
  bool_decide (Exists (λ e, is_invalid (state e) = true) report).
Definition matching_entries (report : list BgpAnalysisEntry) (st : BgpAnalysisState) : list BgpAnalysisEntry :=
  filter (λ e, state e = st) report.
Definition matching_announcements (report : list BgpAnalysisEntry) (st : BgpAnalysisState) : option (list Announcement) :=
  mapM entry_announcement (matching_entries report st).

(** ** The analysis *)

(** For a ROA, in the loop over the ROAs: other ROAs for its prefix or a less specific one, those
    that make it redundant, and the announcements below it that it authorizes and disallows. *)
Definition other_roas_covering (roa_tree : TypedPrefixTree RoaPayload) (p : RoaPayload) : list RoaPayload :=
  filter (λ other, p ≠ other) (tree_less_specific roa_tree (ip_range (rp_prefix p))).
Definition other_roas_including (roa_tree : TypedPrefixTree RoaPayload) (p : RoaPayload) : list RoaPayload :=
  filter (λ other, rp_asn other = rp_asn p ∧ (tp_addr_len (rp_prefix other) ≤ tp_addr_len (rp_prefix p))%N
    ∧ (effective_max_length p ≤ effective_max_length other)%N) (other_roas_covering roa_tree p).
Definition authorizes_of (p : RoaPayload) (covered : list ValidatedAnnouncement) : list Announcement :=
  va_announcement <$>
    filter (λ va, va_validity va = Valid ∧ (tp_addr_len (va_prefix va) ≤ effective_max_length p)%N
      ∧ ann_asn (va_announcement va) = rp_asn p) covered.
Definition disallows_of (covered : list ValidatedAnnouncement) : list Announcement :=
  va_announcement <$> filter (λ va, va_validity va = InvalidLength ∨ va_validity va = InvalidAsn) covered.
Definition authorizes_excess (p : RoaPayload) (authorizes : list Announcement) : option bool :=
  let max_length := effective_max_length p in
  let nr_of_specific_ann := N.of_nat (length (filter (λ a, tp_addr_len (ann_prefix a) = max_length) authorizes)) in
  if (0 <? nr_of_specific_ann)%N then (λ nr, (nr_of_specific_ann <? nr)%N) <$> nr_of_specific_prefixes p
  else Some false.

Definition roa_entry (roa_tree : TypedPrefixTree RoaPayload) (validated_tree : TypedPrefixTree ValidatedAnnouncement)
    (roa : ConfiguredRoa) : option BgpAnalysisEntry :=
  let p := cr_payload roa in
  let covered := tree_more_specific validated_tree (ip_range (rp_prefix p)) in
  let covering := other_roas_covering roa_tree p in
  let including := other_roas_including roa_tree p in
  let authorizes := authorizes_of p covered in
  let disallows := disallows_of covered in
  excess ← authorizes_excess p authorizes;
  Some (if bool_decide (rp_asn p = 0%N) then
          if bool_decide (covering = []) then roa_as0 roa (va_announcement <$> covered)
          else roa_as0_redundant roa covering
        else if negb (bool_decide (including = [])) then roa_redundant roa authorizes disallows including
        else if bool_decide (authorizes = [] ∧ disallows = []) then roa_unseen roa
        else if excess : bool then roa_too_permissive roa authorizes disallows
        else if bool_decide (authorizes = []) then roa_disallowing roa disallows
        else roa_seen roa authorizes disallows).

(** The entry of a validated announcement; [allowed_by.unwrap()]. *)
Definition announcement_entry (v : ValidatedAnnouncement) : option BgpAnalysisEntry :=
  let a := va_announcement v in
  match va_validity v with
  | Valid => announcement_valid a <$> va_authorizing v
  | Disallowed => Some (announcement_invalid a AnnouncementDisallowed (va_disallowing v))
  | InvalidLength => Some (announcement_invalid a AnnouncementInvalidLength (va_disallowing v))
  | InvalidAsn => Some (announcement_invalid a AnnouncementInvalidAsn (va_disallowing v))
  | NotFound => Some (announcement_not_found a)
  end.

Definition roas_in_scope (roas : list ConfiguredRoa) (limited_scope : option ResourceSet) : list ConfiguredRoa :=
  match limited_scope with
  | None => roas
  | Some limit => filter (λ roa, holds limit (cr_payload roa) = true) roas
  end.

Definition scoped_announcements (seen : Announcements) (scope : ResourceSet) : list Announcement :=
  let '(v4_scope, v6_scope) := for_resource_set scope in
  concat (contained_by seen <$> v4_scope) ++ concat (contained_by seen <$> v6_scope).

Definition analyse (seen : Announcements) (roas : list ConfiguredRoa) (resources_held : ResourceSet)
    (limited_scope : option ResourceSet) : option (list BgpAnalysisEntry) :=
  let roas := roas_in_scope roas limited_scope in
  let roas_held := filter (λ roa, holds resources_held (cr_payload roa) = true) roas in
  let roas_not_held := filter (λ roa, ¬ holds resources_held (cr_payload roa) = true) roas in
  let not_held := roa_not_held <$> roas_not_held in
  match last_checked seen with
  | None => Some (report_new (not_held ++ (roa_no_announcement_info <$> roas_held)))
  | Some _ =>
      let scope := default resources_held limited_scope in
      let roa_tree := make_roa_tree (cr_payload <$> roas_held) in
      let validated := (λ a, validate a roa_tree) <$> scoped_announcements seen scope in
      let validated_tree := make_validated_announcement_tree validated in
      on_roas ← mapM (roa_entry roa_tree validated_tree) roas_held;
      on_announcements ← mapM announcement_entry validated;
      Some (report_new (not_held ++ on_roas ++ on_announcements))
  end.

(** [BgpAnalyser::update]: the loader, if there is one, with what it downloads; whether the
    announcements changed. *)
Definition refresh_interval : Z := 60 * 60 * nanos_per_sec.
Definition analyser_update {E : Type} (dump_loader : option (result E (list Announcement))) (seen : Announcements)
    (now : Instant) : result E (Announcements * bool) :=
  match dump_loader with
  | None => Ok (seen, false)
  | Some download =>
      if from_option (λ last_time, (now <? last_time + refresh_interval)%Z) false (last_checked seen) then Ok (seen, false)
      else
        announcements ← download;
        if equivalent seen announcements then Ok (update_checked seen now, false)
        else Ok (announcements_update seen announcements now, true)
  end.

(** ** Suggestions *)

Record BgpAnalysisSuggestion := mkSuggestion {
  stale : list ConfiguredRoa;
  not_found : list Announcement;
  invalid_asn : list Announcement;
  invalid_length : list Announcement;
  too_permissive : list (ConfiguredRoa * list RoaPayload);
  disallowing : list ConfiguredRoa;
  redundant : list ConfiguredRoa;
  not_held : list ConfiguredRoa;
  as0_redundant : list ConfiguredRoa;
  keep : list ConfiguredRoa;
  keep_disallowing : list Announcement;
}.
Definition no_suggestion : BgpAnalysisSuggestion := mkSuggestion [] [] [] [] [] [] [] [] [] [] [].

Definition add_stale (s : BgpAnalysisSuggestion) (r : ConfiguredRoa) : BgpAnalysisSuggestion :=
  mkSuggestion (stale s ++ [r]) (not_found s) (invalid_asn s) (invalid_length s) (too_permissive s) (disallowing s)
    (redundant s) (not_held s) (as0_redundant s) (keep s) (keep_disallowing s).
Definition add_not_found (s : BgpAnalysisSuggestion) (a : Announcement) : BgpAnalysisSuggestion :=
  mkSuggestion (stale s) (not_found s ++ [a]) (invalid_asn s) (invalid_length s) (too_permissive s) (disallowing s)
    (redundant s) (not_held s) (as0_redundant s) (keep s) (keep_disallowing s).
Definition add_invalid_asn (s : BgpAnalysisSuggestion) (a : Announcement) : BgpAnalysisSuggestion :=
  mkSuggestion (stale s) (not_found s) (invalid_asn s ++ [a]) (invalid_length s) (too_permissive s) (disallowing s)
    (redundant s) (not_held s) (as0_redundant s) (keep s) (keep_disallowing s).
Definition add_invalid_length (s : BgpAnalysisSuggestion) (a : Announcement) : BgpAnalysisSuggestion :=
  mkSuggestion (stale s) (not_found s) (invalid_asn s) (invalid_length s ++ [a]) (too_permissive s) (disallowing s)
    (redundant s) (not_held s) (as0_redundant s) (keep s) (keep_disallowing s).
Definition add_too_permissive (s : BgpAnalysisSuggestion) (r : ConfiguredRoa) (new : list RoaPayload)
    : BgpAnalysisSuggestion :=
  mkSuggestion (stale s) (not_found s) (invalid_asn s) (invalid_length s) (too_permissive s ++ [(r, new)])
    (disallowing s) (redundant s) (not_held s) (as0_redundant s) (keep s) (keep_disallowing s).
Definition add_disallowing (s : BgpAnalysisSuggestion) (r : ConfiguredRoa) : BgpAnalysisSuggestion :=
  mkSuggestion (stale s) (not_found s) (invalid_asn s) (invalid_length s) (too_permissive s) (disallowing s ++ [r])
    (redundant s) (not_held s) (as0_redundant s) (keep s) (keep_disallowing s).
Definition add_redundant (s : BgpAnalysisSuggestion) (r : ConfiguredRoa) : BgpAnalysisSuggestion :=
  mkSuggestion (stale s) (not_found s) (invalid_asn s) (invalid_length s) (too_permissive s) (disallowing s)
    (redundant s ++ [r]) (not_held s) (as0_redundant s) (keep s) (keep_disallowing s).
Definition add_not_held (s : BgpAnalysisSuggestion) (r : ConfiguredRoa) : BgpAnalysisSuggestion :=
  mkSuggestion (stale s) (not_found s) (invalid_asn s) (invalid_length s) (too_permissive s) (disallowing s)
    (redundant s) (not_held s ++ [r]) (as0_redundant s) (keep s) (keep_disallowing s).
Definition add_as0_redundant (s : BgpAnalysisSuggestion) (r : ConfiguredRoa) : BgpAnalysisSuggestion :=
  mkSuggestion (stale s) (not_found s) (invalid_asn s) (invalid_length s) (too_permissive s) (disallowing s)
    (redundant s) (not_held s) (as0_redundant s ++ [r]) (keep s) (keep_disallowing s).
Definition add_keep (s : BgpAnalysisSuggestion) (r : ConfiguredRoa) : BgpAnalysisSuggestion :=
  mkSuggestion (stale s) (not_found s) (invalid_asn s) (invalid_length s) (too_permissive s) (disallowing s)
    (redundant s) (not_held s) (as0_redundant s) (keep s ++ [r]) (keep_disallowing s).
Definition add_keep_disallowing (s : BgpAnalysisSuggestion) (a : Announcement) : BgpAnalysisSuggestion :=
  mkSuggestion (stale s) (not_found s) (invalid_asn s) (invalid_length s) (too_permissive s) (disallowing s)
    (redundant s) (not_held s) (as0_redundant s) (keep s) (keep_disallowing s ++ [a]).

(** What a ROA that is too permissive is to be replaced with: the announcements it authorizes that
    no other entry authorizes. *)
Definition replace_with (entries : list BgpAnalysisEntry) (entry : BgpAnalysisEntry) : list RoaPayload :=
  roa_of_announcement <$>
    filter (λ ann, ¬ Exists (λ other, other ≠ entry ∧ ann ∈ authorizes other) entries) (authorizes entry).

Definition suggest_entry (entries : list BgpAnalysisEntry) (s : BgpAnalysisSuggestion) (entry : BgpAnalysisEntry)
    : option BgpAnalysisSuggestion :=
  match state entry with
  | RoaUnseen => add_stale s <$> entry_configured_roa entry
  | RoaTooPermissive => r ← entry_configured_roa entry; Some (add_too_permissive s r (replace_with entries entry))
  | RoaSeen | RoaAs0 | RoaNoAnnouncementInfo => add_keep s <$> entry_configured_roa entry
  | RoaDisallowing => add_disallowing s <$> entry_configured_roa entry
  | RoaRedundant => add_redundant s <$> entry_configured_roa entry
  | RoaNotHeld => add_not_held s <$> entry_configured_roa entry
  | RoaAs0Redundant => add_as0_redundant s <$> entry_configured_roa entry
  | AnnouncementValid => Some s
  | AnnouncementNotFound => add_not_found s <$> entry_announcement entry
  | AnnouncementInvalidAsn => add_invalid_asn s <$> entry_announcement entry
  | AnnouncementInvalidLength => add_invalid_length s <$> entry_announcement entry
  | AnnouncementDisallowed => add_keep_disallowing s <$> entry_announcement entry
  end.

Fixpoint suggest_loop (all entries : list BgpAnalysisEntry) (s : BgpAnalysisSuggestion) : option BgpAnalysisSuggestion :=
  match entries with [] => Some s | e :: entries => s ← suggest_entry all s e; suggest_loop all entries s end.

Definition suggest (seen : Announcements) (roas : list ConfiguredRoa) (resources_held : ResourceSet)
    (limited_scope : option ResourceSet) : option BgpAnalysisSuggestion :=
  entries ← analyse seen roas resources_held limited_scope; suggest_loop entries entries no_suggestion.

(** The update that a suggestion stands for. *)
Definition updates_of_suggestion (s : BgpAnalysisSuggestion) : RoaConfigurationUpdates :=
  mkUpdates
    (((λ a, mkRoaConfiguration (roa_of_announcement a) None) <$> (not_found s ++ invalid_asn s ++ invalid_length s))
     ++ concat ((λ t : ConfiguredRoa * list RoaPayload, (λ p, mkRoaConfiguration p None) <$> t.2) <$> too_permissive s))
    ((cr_payload <$> stale s) ++ ((λ t : ConfiguredRoa * list RoaPayload, cr_payload t.1) <$> too_permissive s)
     ++ (cr_payload <$> as0_redundant s) ++ (cr_payload <$> redundant s)).

(** ** The server *)

Definition affected_prefixes (updates : RoaConfigurationUpdates) : ResourceSet :=
  foldl (λ resources p, rs_union resources (rs_of_prefix (rp_prefix p)))
    (foldl (λ resources c, rs_union resources (rs_of_prefix (rp_prefix (rc_payload c)))) rs_default (upd_added updates))
    (upd_removed updates).

(** [matching_roa_infos] of the resource classes of the CA *)
Context (roa_infos : RoaConfiguration → list RoaInfo).
Definition configured_roas_for_configs (cs : list RoaConfiguration) : list ConfiguredRoa :=
  (λ c, mkConfiguredRoa c (roa_infos c)) <$> cs.

Definition ca_routes_bgp_analysis (seen : Announcements) (routes : Routes) (resources_held : ResourceSet)
    : option (list BgpAnalysisEntry) :=
  analyse seen (configured_roas_for_configs (roa_configurations routes)) resources_held None.

Definition ca_routes_bgp_dry_run (seen : Announcements) (routes : Routes) (resources_held : ResourceSet) (now : Instant)
    (updates : RoaConfigurationUpdates) : result RoaDeltaError (option (list BgpAnalysisEntry)) :=
  let updates := updates_explicit_max_length updates in
  '(would_be_routes, _) ← update_authorizations routes resources_held now updates;
  Ok (analyse seen (configured_roas_for_configs (roa_configurations would_be_routes)) resources_held
        (Some (affected_prefixes updates))).

Definition ca_routes_bgp_suggest (seen : Announcements) (routes : Routes) (resources_held : ResourceSet)
    (limit : option ResourceSet) : option BgpAnalysisSuggestion :=
  suggest seen (configured_roas_for_configs (roa_configurations routes)) resources_held limit.

(** The answer to an update that is only to be applied if it is safe. *)
Inductive TryUpdate :=
| Rejected (e : RoaDeltaError)
| Updated (routes : Routes)
| Advice (effect : list BgpAnalysisEntry) (suggestion : BgpAnalysisSuggestion)
| Panicked.

Definition api_ca_routes_try_update (seen : Announcements) (routes : Routes) (resources_held : ResourceSet)
    (now : Instant) (updates : RoaConfigurationUpdates) : TryUpdate :=
  match ca_routes_bgp_dry_run seen routes resources_held now updates with
  | Err e => Rejected e
  | Ok None => Panicked
  | Ok (Some effect) =>
      if negb (contains_invalids effect) then
        match route_authorizations_update routes resources_held now updates with
        | Ok (desired, _) => Updated desired
        | Err e => Rejected e
        end
      else
        match ca_routes_bgp_suggest seen routes resources_held
                (Some (affected_prefixes (updates_explicit_max_length updates))) with
        | Some suggestion => Advice effect suggestion
        | None => Panicked
        end
  end.

(** ** Statistics *)

Record BgpStats := mkStats {
  announcements_valid : nat;
  announcements_invalid_asn : nat;
  announcements_invalid_length : nat;
  announcements_disallowed : nat;
  announcements_not_found : nat;
  roas_too_permissive : nat;
  roas_redundant : nat;
  roas_stale : nat;
  roas_disallowing : nat;
  roas_not_held : nat;
  roas_total : nat;
}.

Definition count_state (st : BgpStats) (s : BgpAnalysisState) : BgpStats :=
  let 'mkStats v ia il d nf tp r sl dl nh t := st in
  match s with
  | AnnouncementValid => mkStats (S v) ia il d nf tp r sl dl nh t
  | AnnouncementInvalidAsn => mkStats v (S ia) il d nf tp r sl dl nh t
  | AnnouncementInvalidLength => mkStats v ia (S il) d nf tp r sl dl nh t
  | AnnouncementDisallowed => mkStats v ia il (S d) nf tp r sl dl nh t
  | AnnouncementNotFound => mkStats v ia il d (S nf) tp r sl dl nh t
  | RoaUnseen => mkStats v ia il d nf tp r (S sl) dl nh (S t)
  | RoaTooPermissive => mkStats v ia il d nf (S tp) r sl dl nh (S t)
  | RoaRedundant | RoaAs0Redundant => mkStats v ia il d nf tp (S r) sl dl nh (S t)
  | RoaNotHeld => mkStats v ia il d nf tp r sl dl (S nh) (S t)
  | RoaDisallowing => mkStats v ia il d nf tp r sl (S dl) nh (S t)
  | RoaAs0 | RoaNoAnnouncementInfo | RoaSeen => mkStats v ia il d nf tp r sl dl nh (S t)
  end.
Definition bgp_stats (report : list BgpAnalysisEntry) : BgpStats :=
  foldl (λ st e, count_state st (state e)) (mkStats 0 0 0 0 0 0 0 0 0 0 0) report.
End analysis.
