(* ===== verification/BgpFacts.v ===== *)
(** * Lemmas on trees of prefixes and the validation of announcements

    What a tree returns for a range, when ranges stand for prefixes faithfully, and the validation
    of RFC 6811 as a reference. *)

From stdpp Require Import base gmap strings list sorting.
From Stdlib Require Import NArith ZArith Lia.
From S2P Require Import Prelude Text Roas Routes BgpTree BgpAnalysis.

(** ** Lists *)

Lemma concat_perm {A B} (f : A → list B) l k : l ≡ₚ k → concat (f <$> l) ≡ₚ concat (f <$> k).
Proof.
  induction 1 as [|x l k H IH|x y l|l k m H1 IH1 H2 IH2]; simpl; [done|by rewrite IH| |by rewrite IH1].
  rewrite !app_assoc. by rewrite (Permutation_app_comm (f y)).
Qed.

Lemma concat_filter {A B} (f : A → list B) (P : A → Prop) `{∀ x, Decision (P x)} (l : list A) :
  (∀ x, x ∈ l → ¬ P x → f x = []) → concat (f <$> filter P l) = concat (f <$> l).
Proof.
  induction l as [|x l IH]; intros Hf; [done|]. rewrite filter_cons. specialize (IH (λ y Hy, Hf y (list_elem_of_further _ _ _ Hy))).
  case_decide as Hp; rewrite ?fmap_cons; simpl concat; rewrite IH; [done|]. by rewrite (Hf x (list_elem_of_here _ _) Hp).
Qed.

Section facts.
Context `{BA : BgpApi} `{!BgpLaws} `{HO : !HashOrder}.

(** ** Trees *)

(** A range that holds an address. *)
Definition proper_range (r : Range) : Prop := (r.1 < r.2)%N.

Section prefix_tree.
Context {V : Type} (as_ref : V → TypedPrefix).
Implicit Types (m : gmap Range (list V)) (els : list V).

Definition pick (g : Range → bool) (el : Range * list V) : list V := if g el.1 then el.2 else [].

Lemma builder_add_pick g m v :
  concat (pick g <$> map_to_list (builder_add as_ref m v))
  ≡ₚ concat (pick g <$> map_to_list m) ++ (if g (ip_range (as_ref v)) then [v] else []).
Proof.
  unfold builder_add. set (r := ip_range (as_ref v)). destruct (m !! r) as [vs|] eqn:Hr; simpl.
  - rewrite <-insert_delete_eq. rewrite (concat_perm _ _ _ (map_to_list_insert _ _ _ (lookup_delete_eq m r))).
    rewrite <-(concat_perm _ _ _ (map_to_list_delete m r vs Hr)). simpl. unfold pick at 1 3. simpl.
    destruct (g r); [|by rewrite app_nil_r]. rewrite <-!app_assoc. f_equiv. apply Permutation_app_comm.
  - rewrite (concat_perm _ _ _ (map_to_list_insert m r [v] Hr)). simpl. unfold pick at 1. simpl.
    apply Permutation_app_comm.
Qed.

Lemma make_tree_pick g els :
  concat (pick g <$> make_tree as_ref els) ≡ₚ filter (λ v, g (ip_range (as_ref v)) = true) els.
Proof.
  unfold make_tree, builder_build. rewrite (concat_perm _ _ _ (hm_iter_perm _)).
  enough (∀ m, concat (pick g <$> map_to_list (foldl (builder_add as_ref) m els))
    ≡ₚ concat (pick g <$> map_to_list m) ++ filter (λ v, g (ip_range (as_ref v)) = true) els) as Hm.
  { rewrite Hm, map_to_list_empty. done. }
  induction els as [|v els IH]; intros m; simpl; [by rewrite app_nil_r|].
  rewrite IH, builder_add_pick, filter_cons, <-app_assoc. f_equiv. by destruct (g _).
Qed.

Lemma make_tree_NoDup els : NoDup (make_tree as_ref els).
Proof. unfold make_tree, builder_build. rewrite hm_iter_perm. apply NoDup_map_to_list. Qed.

(** The ranges of a tree are those of its values. *)
Lemma make_tree_ranges els r vs : (r, vs) ∈ make_tree as_ref els → ∃ v, v ∈ els ∧ ip_range (as_ref v) = r.
Proof.
  unfold make_tree, builder_build. rewrite elem_of_hm_iter.
  enough (∀ m, foldl (builder_add as_ref) m els !! r = Some vs →
    is_Some (m !! r) ∨ ∃ v, v ∈ els ∧ ip_range (as_ref v) = r) as Hm.
  { intros [Hs|Hv]%Hm; [|done]. rewrite lookup_empty in Hs. by destruct Hs. }
  induction els as [|v els IH]; intros m; simpl; [by left|]. intros [Hs|(w&Hw&Hr)]%IH.
  - unfold builder_add in Hs. destruct (decide (ip_range (as_ref v) = r)) as [Hr|Hr].
    + right. exists v. split; [by left|done].
    + rewrite lookup_insert_ne in Hs by done. by left.
  - right. exists w. split; [by right|done].
Qed.

Lemma query_perm (t : list (Range * list V)) q :
  NoDup t → proper_range q → (∀ r vs, (r, vs) ∈ t → proper_range r) →
  tree_query t q ≡ₚ filter (λ el, (q.1 < el.1.2 ∧ el.1.1 < q.2)%N) t.
Proof.
  intros Hnd Hq Ht. pose proof (query_sub V t q) as Hsub.
  assert (NoDup (tree_query t q)) as Hnq.
  { destruct (submseteq_Permutation _ _ Hsub) as [k Hk]. rewrite Hk in Hnd. by apply NoDup_app in Hnd as (?&_). }
  apply NoDup_Permutation; [done|by apply NoDup_filter|]. intros [r vs]. rewrite list_elem_of_filter. split.
  - intros Hin. assert ((r, vs) ∈ t) as Hint by (by eapply elem_of_submseteq). split; [|done].
    apply (query_overlap V t q r vs); [done|by eapply Ht|done..].
  - intros [Ho Hin]. apply (query_overlap V t q r vs); [done|by eapply Ht|done..].
Qed.

Definition all_proper els : Prop := ∀ v, v ∈ els → proper_range (ip_range (as_ref v)).

Lemma tree_pick g els q :
  all_proper els → proper_range q →
  (∀ r, proper_range r → g r = true → (q.1 < r.2 ∧ r.1 < q.2)%N) →
  concat (pick g <$> tree_query (make_tree as_ref els) q) ≡ₚ filter (λ v, g (ip_range (as_ref v)) = true) els.
Proof.
  intros Hels Hq Hg. assert (∀ r vs, (r, vs) ∈ make_tree as_ref els → proper_range r) as Ht.
  { intros r vs (v&Hv&<-)%make_tree_ranges. by apply Hels. }
  rewrite (concat_perm _ _ _ (query_perm _ q (make_tree_NoDup els) Hq Ht)).
  rewrite concat_filter; [apply make_tree_pick|]. intros [r vs] Hin Hno. unfold pick. simpl in *.
  destruct (g r) eqn:Hgr; [|done]. destruct Hno. apply Hg; [by eapply Ht|done].
Qed.

(** Looking up a range yields the values whose ranges contain it, or are contained in it. *)
Lemma tree_less_specific_perm els q :
  all_proper els → proper_range q →
  tree_less_specific (make_tree as_ref els) q ≡ₚ filter (λ v, range_contains (ip_range (as_ref v)) q = true) els.
Proof.
  intros Hels Hq. apply (tree_pick (is_contained_by q)); [done..|]. unfold is_contained_by, proper_range in *.
  intros r Hr. rewrite andb_true_iff, !N.leb_le. lia.
Qed.

Lemma tree_more_specific_perm els q :
  all_proper els →
  tree_more_specific (make_tree as_ref els) q ≡ₚ filter (λ v, range_contains q (ip_range (as_ref v)) = true) els.
Proof.
  intros Hels. unfold range_contains. destruct (decide (q.1 < q.2)%N) as [Hq|Hq].
  - apply (tree_pick (range_contains q)); [done..|]. unfold range_contains, proper_range in *.
    intros r Hr. rewrite andb_true_iff, !N.leb_le. lia.
  - rewrite filter_none.
    2: { intros v Hv%Hels. unfold proper_range in Hv. rewrite andb_true_iff, !N.leb_le. lia. }
    unfold tree_more_specific. rewrite <-(concat_filter _ (λ _, False)); [by rewrite filter_none by naive_solver|].
    intros [r vs] Hin _. pose proof (elem_of_submseteq _ _ _ Hin (query_sub _ _ _)) as Hint.
    apply make_tree_ranges in Hint as (v&Hv%Hels&<-). unfold proper_range in Hv. unfold range_contains. simpl.
    rewrite (proj2 (andb_false_iff _ _)); [done|]. rewrite !N.leb_gt. lia.
Qed.

Lemma tree_all_perm els : tree_all (make_tree as_ref els) ≡ₚ els.
Proof.
  unfold tree_all. rewrite (concat_perm _ _ _ (iter_perm V (make_tree as_ref els))).
  pose proof (make_tree_pick (λ _, true) els) as Hp. rewrite filter_all in Hp by done. done.
Qed.
End prefix_tree.

(** ** Prefixes and their ranges *)

(** The representation of prefixes: an IPv4 address is in the upper 32 bits. *)
Definition prefix_ok (tp : TypedPrefix) : Prop :=
  match tp with
  | V4 p => let a := to_v4 (pfx_min p) in let b := to_v4 (pfx_max p) in
            (b < 2 ^ 32)%N ∧ pfx_min p = (a * 2 ^ 96)%N ∧ pfx_max p = (b * 2 ^ 96 + (2 ^ 96 - 1))%N
  | V6 p => to_v6 (pfx_min p) = pfx_min p ∧ to_v6 (pfx_max p) = pfx_max p
  end.

(** An IPv6 prefix apart from the addresses that IPv4 is mapped to. *)
Definition unmapped (tp : TypedPrefix) : Prop :=
  match tp with
  | V4 _ => True
  | V6 p => (pfx_max p < 281470681743360 ∨ 281474976710655 < pfx_min p)%N
  end.

(** A prefix of more than one address. *)
Definition proper (tp : TypedPrefix) : Prop := proper_range (ip_range tp).

(** The end of a range is the last address of the prefix: the range of a single address is empty. *)
Lemma host_range_empty tp : pfx_min (prefix tp) = pfx_max (prefix tp) → ¬ proper tp.
Proof. unfold proper, proper_range. destruct tp; simpl; intros ->; lia. Qed.

Record good_prefix (tp : TypedPrefix) : Prop := {
  gp_ok : prefix_ok tp;
  gp_unmapped : unmapped tp;
  gp_proper : proper tp;
}.

Lemma covering_ranges t u :
  good_prefix t → good_prefix u → range_contains (ip_range t) (ip_range u) = matching_or_less_specific t u.
Proof.
  intros [Ot Mt Pt] [Ou Mu Pu]. unfold proper, proper_range, range_contains, matching_or_less_specific in *.
  apply eq_iff_eq_true. rewrite !andb_true_iff, !N.leb_le. unfold prefix_ok, unmapped, ip_range, ipv6_mapped in *.
  destruct t as [p|p], u as [q|q]; simpl in *.
  - destruct Ot as (Ht&Et&Ft), Ou as (Hu&Eu&Fu). rewrite Et, Eu, Ft, Fu.
    rewrite <-Et, <-Eu, <-Ft, <-Fu at 1. rewrite <-Ft, <-Fu at 1. lia.
  - destruct Ot as (Ht&Et&Ft), Ou as (Eu&Fu). rewrite Eu, Fu in *. lia.
  - destruct Ot as (Et&Ft), Ou as (Hu&Eu&Fu). rewrite Et, Ft in *. lia.
  - destruct Ot as (Et&Ft), Ou as (Eu&Fu). rewrite Et, Ft, Eu, Fu. naive_solver.
Qed.

(** ** Validation *)

Definition roa_covers (a : Announcement) (roa : RoaPayload) : bool :=
  matching_or_less_specific (rp_prefix roa) (ann_prefix a).
Definition roa_authorizes (a : Announcement) (roa : RoaPayload) : bool :=
  roa_covers a roa && bool_decide (rp_asn roa = ann_asn a)
  && (tp_addr_len (ann_prefix a) <=? effective_max_length roa)%N.

(** The validity of an announcement by RFC 6811, with the invalid ones told apart: a ROA for the
    AS number covers the prefix but not the length, some ROA is for another AS number than 0, or
    all are for AS 0. *)
Definition rfc6811 (roas : list RoaPayload) (a : Announcement) : AnnouncementValidity :=
  let covering := filter (λ r, roa_covers a r = true) roas in
  if bool_decide (covering = []) then NotFound
  else if bool_decide (Exists (λ r, roa_authorizes a r = true) roas) then Valid
  else if bool_decide (Exists (λ r, rp_asn r = ann_asn a) covering) then InvalidLength
  else if bool_decide (Exists (λ r, rp_asn r ≠ 0%N) covering) then InvalidAsn
  else Disallowed.

Lemma validate_loop_spec a covering same none inval :
  Forall (λ r, roa_covers a r = true) covering →
  (∃ r, r ∈ covering ∧ roa_authorizes a r = true ∧
    validate_loop a covering same none inval = mkValidated a Valid (Some r) [])
  ∨ (¬ Exists (λ r, roa_authorizes a r = true) covering ∧
    validate_loop a covering same none inval =
      mkValidated a
        (if same || bool_decide (Exists (λ r, rp_asn r = ann_asn a) covering) then InvalidLength
         else if none || bool_decide (Exists (λ r, rp_asn r ≠ 0%N) covering) then InvalidAsn else Disallowed)
        None (inval ++ covering)).
Proof.
  intros Hcov. revert same none inval. induction Hcov as [|r covering Hr Hcov IH]; intros same none inval.
  - right. split; [by inversion 1|]. simpl. by rewrite !orb_false_r, app_nil_r.
  - simpl. assert (roa_authorizes a r = bool_decide (rp_asn r = ann_asn a)
      && (tp_addr_len (ann_prefix a) <=? effective_max_length r)%N) as Hauth by (unfold roa_authorizes; by rewrite Hr).
    unfold roa_covers in Hr. rewrite Hr. simpl.
    assert (∀ P : RoaPayload → Prop, ∀ D : ∀ x, Decision (P x),
      bool_decide (Exists P (r :: covering)) = bool_decide (P r) || bool_decide (Exists P covering)) as Hex.
    { intros P D. rewrite <-bool_decide_or. apply bool_decide_ext, Exists_cons. }
    rewrite !Hex. case_bool_decide as Hasn; simpl in *.
    + destruct (_ <=? _)%N eqn:Hlen; [left; exists r; split_and!; [by left|done..]|].
      destruct (IH true (none || negb (bool_decide (rp_asn r = 0%N))) (inval ++ [r])) as [(r'&Hin&Ha&->)|[Hno ->]].
      * left. exists r'. split_and!; [by right|done..].
      * right. split; [by intros [|]%Exists_cons; [congruence|]|]. rewrite orb_true_r. by rewrite <-app_assoc.
    + destruct (IH same (none || negb (bool_decide (rp_asn r = 0%N))) (inval ++ [r])) as [(r'&Hin&Ha&->)|[Hno ->]].
      * left. exists r'. split_and!; [by right|done..].
      * right. split; [by intros [|]%Exists_cons; [congruence|]|]. rewrite <-app_assoc. simpl.
        rewrite <-bool_decide_not, !orb_assoc. done.
Qed.

Lemma Exists_perm {A} (P : A → Prop) (l k : list A) : l ≡ₚ k → Exists P l ↔ Exists P k.
Proof. intros Hp. rewrite !Exists_exists. by setoid_rewrite Hp. Qed.

Lemma validate_spec roas a :
  (∀ r, r ∈ roas → good_prefix (rp_prefix r)) → good_prefix (ann_prefix a) →
  let v := validate a (make_roa_tree roas) in
  va_announcement v = a ∧ va_validity v = rfc6811 roas a ∧
  (va_validity v = Valid → ∃ r, va_authorizing v = Some r ∧ r ∈ roas ∧ roa_authorizes a r = true) ∧
  (va_validity v ≠ Valid → va_authorizing v = None ∧ va_disallowing v ≡ₚ filter (λ r, roa_covers a r = true) roas).
Proof.
  intros Hroas Ha v.
  assert (tree_less_specific (make_roa_tree roas) (ip_range (ann_prefix a))
          ≡ₚ filter (λ r, roa_covers a r = true) roas) as Hcov.
  { unfold make_roa_tree. rewrite tree_less_specific_perm; [|intros r Hr; by apply Hroas|by apply Ha].
    apply reflexive_eq, filter_same. intros r Hr. unfold roa_covers. by rewrite covering_ranges by auto. }
  subst v. unfold validate, rfc6811. set (covering := filter _ roas) in *.
  destruct (tree_less_specific _ _) as [|r0 l0] eqn:Hl.
  { apply Permutation_nil in Hcov. rewrite Hcov. simpl. split_and!; done. }
  assert (covering ≠ []) as Hne by (intros Hn; rewrite Hn in Hcov; by apply Permutation_nil_r in Hcov).
  clear Hl. set (less := r0 :: l0) in *. clearbody less.
  rewrite (bool_decide_false (covering = [])) by done.
  assert (Forall (λ r, roa_covers a r = true) less) as Hall.
  { rewrite Hcov. apply Forall_forall. by intros r [? _]%list_elem_of_filter. }
  assert (∀ r, roa_authorizes a r = true → r ∈ roas → r ∈ less) as Hin.
  { intros r Hr Hrs. rewrite Hcov. apply list_elem_of_filter. unfold roa_authorizes in Hr.
    by apply andb_true_iff in Hr as [[? _]%andb_true_iff _]. }
  destruct (validate_loop_spec a less false false [] Hall) as [(r&Hr&Hauth&->)|[Hno ->]]; simpl.
  - rewrite Hcov in Hr. apply list_elem_of_filter in Hr as [_ Hr]. split_and!; try done; [|eauto].
    rewrite bool_decide_true; [done|]. apply Exists_exists; eauto.
  - assert (¬ Exists (λ r, roa_authorizes a r = true) roas) as Hno'.
    { rewrite !Exists_exists in *. naive_solver. }
    rewrite (bool_decide_false _ Hno'). rewrite !(bool_decide_ext _ _ (Exists_perm _ _ _ Hcov)).
    split_and!; try done. by repeat case_bool_decide.
Qed.
End facts.
