(* ===== verification/BgpAnalysisFacts.v ===== *)
(** * Lemmas on the analysis of ROAs against announcements *)

From stdpp Require Import base gmap strings list sorting.
From Stdlib Require Import NArith ZArith Lia.
From S2P Require Import Prelude Text Roas Routes RouteFacts BgpTree BgpAnalysis BgpFacts.

(** ** Sorting *)

Section sort.
Context {A : Type} (cmp : A → A → comparison).
Lemma insert_by_perm x l : insert_by cmp x l ≡ₚ x :: l.
Proof.
  induction l as [|y l IH]; simpl; [done|]. destruct (cmp x y); [done..|]. rewrite IH. apply Permutation_swap.
Qed.
Lemma sort_by_perm l : sort_by cmp l ≡ₚ l.
Proof. induction l as [|x l IH]; simpl; [done|]. by rewrite insert_by_perm, IH. Qed.
End sort.

Lemma omap_perm {A B} (f : A → option B) l k : l ≡ₚ k → omap f l ≡ₚ omap f k.
Proof. intros H. by rewrite H. Qed.

(** A loop that succeeds on each element, with what it yields. *)
Lemma mapM_total {A B} (f : A → option B) l : (∀ x, x ∈ l → is_Some (f x)) → ∃ k, mapM f l = Some k ∧ Forall2 (λ x y, f x = Some y) l k.
Proof.
  intros Hf. destruct (mapM f l) as [k|] eqn:Hk.
  - exists k. split; [done|]. by apply mapM_Some.
  - exfalso. apply mapM_None, Exists_exists in Hk as (x&Hx&Hn). destruct (Hf x Hx). congruence.
Qed.

Lemma omap_Forall2 {A B C} (R : A → B → Prop) (f : A → C) (g : B → option C) l k :
  Forall2 R l k → (∀ x y, R x y → g y = Some (f x)) → omap g k = f <$> l.
Proof. intros H Hg. induction H as [|x y l k Hxy H IH]; csimpl; [done|]. by rewrite (Hg x y Hxy), IH. Qed.

Lemma Forall2_impl_in {A B} (R Q : A → B → Prop) l k :
  Forall2 R l k → (∀ x y, x ∈ l → y ∈ k → R x y → Q x y) → Forall2 Q l k.
Proof.
  induction 1 as [|x y l k Hxy Hl IH]; intros HRQ; constructor.
  - apply HRQ; [by left|by left|done].
  - apply IH. intros x' y' Hx Hy. apply HRQ; by right.
Qed.

Lemma omap_none {A B} (g : A → option B) l : (∀ x, x ∈ l → g x = None) → omap g l = [].
Proof.
  induction l as [|x l IH]; intros Hg; csimpl; [done|]. rewrite (Hg x (list_elem_of_here _ _)).
  apply IH. intros y Hy. apply Hg. by right.
Qed.

Lemma elem_of_concat {A} (ls : list (list A)) x : x ∈ concat ls ↔ ∃ l, x ∈ l ∧ l ∈ ls.
Proof.
  rewrite list_elem_of_In, in_concat. setoid_rewrite <-list_elem_of_In. naive_solver.
Qed.

Section facts.
Context `{BA : BgpApi} `{!BgpLaws} `{HO : !HashOrder}.
Context {RoaInfo : Type} `{!EqDecision RoaInfo}.
Implicit Types (roa : ConfiguredRoa (RoaInfo := RoaInfo)) (e : BgpAnalysisEntry (RoaInfo := RoaInfo))
  (all entries : list (BgpAnalysisEntry (RoaInfo := RoaInfo))) (s : BgpAnalysisSuggestion (RoaInfo := RoaInfo)).

(** ** The announcements seen *)

(** An update that downloads leaves the announcements downloaded, as a set, and reports whether
    they changed. *)
Lemma analyser_update_exact {E} (anns : list Announcement) (seen : Announcements) (now : Instant) :
  from_option (λ last_time, (last_time + refresh_interval ≤ now)%Z) True (last_checked seen) →
  ∃ seen', analyser_update (E := E) (Some (Ok anns)) seen now = Ok (seen', negb (equivalent seen anns)) ∧
    last_checked seen' = Some now ∧
    list_to_set (C := gset Announcement) (announcements_all seen') = list_to_set anns.
Proof.
  intros Hlast. unfold analyser_update.
  assert (from_option (λ last_time, (now <? last_time + refresh_interval)%Z) false (last_checked seen) = false) as ->.
  { destruct (last_checked seen) as [t|]; [|done]. simpl in *. by apply Z.ltb_ge. }
  simpl. destruct (equivalent seen anns) eqn:Heq; eexists; (split; [reflexivity|]); (split; [done|]).
  - by apply bool_decide_eq_true in Heq.
  - unfold announcements_all. simpl. by rewrite tree_all_perm.
Qed.

(** ** Kinds of entries *)

(** The state of an entry fits what the entry is about. *)
Definition entry_ok e : Prop :=
  match roa_or_announcement e with
  | IsRoa _ => (state_number (state e) ≤ 7 ∨ state e = RoaNoAnnouncementInfo)%N
  | IsAnnouncement _ => (8 ≤ state_number (state e) ≤ 12)%N
  end.

Lemma suggest_entry_total all s e : entry_ok e → is_Some (suggest_entry all s e).
Proof.
  unfold entry_ok, suggest_entry, entry_configured_roa, entry_announcement. intros He.
  destruct (roa_or_announcement e), (state e); simpl in *; eauto; lia || naive_solver lia.
Qed.

Lemma suggest_loop_total all entries s : Forall entry_ok entries → is_Some (suggest_loop all entries s).
Proof.
  intros Hok. revert s. induction Hok as [|e entries He Hok IH]; intros s; simpl; [eauto|].
  destruct (suggest_entry_total all s e He) as [s' ->]. apply IH.
Qed.

Definition validity_state (v : AnnouncementValidity) : BgpAnalysisState :=
  match v with
  | Valid => AnnouncementValid | InvalidLength => AnnouncementInvalidLength | InvalidAsn => AnnouncementInvalidAsn
  | Disallowed => AnnouncementDisallowed | NotFound => AnnouncementNotFound
  end.

(** ** The scope *)

Definition in_scope (scope : ResourceSet) (a : Announcement) : Prop :=
  let '(v4, v6) := for_resource_set scope in
  Exists (λ r, range_contains r (ip_range (ann_prefix a)) = true) (v4 ++ v6).

Section scope.
Context (seen0 : Announcements) (anns : list Announcement) (now : Instant).
Hypothesis Hanns : ∀ a, a ∈ anns → good_prefix (ann_prefix a).
Abbreviation seen := (announcements_update seen0 anns now).

Lemma contained_by_perm r :
  contained_by seen r ≡ₚ filter (λ a, range_contains r (ip_range (ann_prefix a)) = true) anns.
Proof. unfold contained_by. simpl. apply tree_more_specific_perm. intros a Ha. by apply Hanns. Qed.

Lemma elem_of_scoped scope a : a ∈ scoped_announcements seen scope ↔ a ∈ anns ∧ in_scope scope a.
Proof.
  unfold scoped_announcements, in_scope. destruct (for_resource_set scope) as [v4 v6].
  rewrite <-concat_app, <-fmap_app. generalize (v4 ++ v6). intros l. rewrite elem_of_concat, Exists_exists.
  split.
  - intros (k&Hin&(r&->&Hr)%list_elem_of_fmap). rewrite contained_by_perm, list_elem_of_filter in Hin. naive_solver.
  - intros [Ha (r&Hr&Hc)]. exists (contained_by seen r). split.
    + by rewrite contained_by_perm, list_elem_of_filter.
    + apply list_elem_of_fmap. eauto.
Qed.
End scope.

(** ** Entries on ROAs *)

Section entries.
Context (payloads : list RoaPayload) (scoped : list Announcement).
Hypothesis Hpayloads : ∀ r, r ∈ payloads → good_prefix (rp_prefix r).
Hypothesis Hscoped : ∀ a, a ∈ scoped → good_prefix (ann_prefix a).
Abbreviation roa_tree := (make_roa_tree payloads).
Abbreviation validated := ((λ a, validate a roa_tree) <$> scoped).

Lemma validated_proper : all_proper va_prefix validated.
Proof.
  intros v (a&->&Ha)%list_elem_of_fmap. unfold va_prefix. destruct (validate_spec payloads a) as [-> _]; auto.
  by apply Hscoped.
Qed.

(** Choosing validated announcements is choosing announcements. *)
Lemma filter_validated (P : ValidatedAnnouncement → Prop) `{∀ v, Decision (P v)} (l : list Announcement) :
  (∀ a, a ∈ l → a ∈ scoped) →
  va_announcement <$> filter P ((λ a, validate a roa_tree) <$> l) = filter (λ a, P (validate a roa_tree)) l.
Proof.
  induction l as [|a l IH]; intros Hl; [done|]. rewrite fmap_cons, !filter_cons.
  specialize (IH (λ b Hb, Hl b (list_elem_of_further _ _ _ Hb))).
  destruct (validate_spec payloads a) as [Ha _]; [done|apply Hscoped, Hl, list_elem_of_here|].
  case_decide; [|done]. rewrite fmap_cons, IH. by rewrite Ha.
Qed.

Lemma authorizing_is_valid p a : p ∈ payloads → roa_authorizes a p = true → rfc6811 payloads a = Valid.
Proof.
  intros Hp Ha. unfold rfc6811. rewrite bool_decide_false.
  - rewrite bool_decide_true; [done|]. apply Exists_exists. eauto.
  - intros Hn. apply (filter_nil_not_elem_of (λ r, roa_covers a r = true) payloads p Hn); [|done].
    unfold roa_authorizes in Ha. by apply andb_true_iff in Ha as [[? _]%andb_true_iff _].
Qed.

(** What an entry on a held ROA says: which announcements the ROA authorizes, and why the ROA is
    redundant. *)
Record roa_entry_ok roa e : Prop := {
  re_roa : roa_or_announcement e = IsRoa roa;
  re_state : (state_number (state e) ≤ 6)%N;
  re_authorizes : rp_asn (cr_payload roa) ≠ 0%N →
    authorizes e ≡ₚ filter (λ a, roa_authorizes a (cr_payload roa) = true) scoped;
  re_redundant : state e = RoaRedundant →
    ∃ r, r ∈ payloads ∧ r ≠ cr_payload roa ∧ roa_includes r (cr_payload roa) = true;
  re_as0 : state e = RoaAs0 ∨ state e = RoaAs0Redundant ↔ rp_asn (cr_payload roa) = 0%N;
  re_none : state e ∈ [RoaUnseen; RoaDisallowing; RoaAs0; RoaAs0Redundant] → authorizes e = [];
}.

(** The announcements below a ROA that are valid and fit it are those that the ROA authorizes. *)
Lemma authorizes_of_perm p :
  p ∈ payloads →
  authorizes_of p (tree_more_specific (make_validated_announcement_tree validated) (ip_range (rp_prefix p)))
  ≡ₚ filter (λ a, roa_authorizes a p = true) scoped.
Proof.
  intros Hp. unfold authorizes_of, make_validated_announcement_tree.
  rewrite (tree_more_specific_perm _ _ _ validated_proper). rewrite list_filter_filter, filter_validated by done.
  apply reflexive_eq, filter_same. intros a Ha. destruct (validate_spec payloads a) as (Ean&Eval&_); [done|by apply Hscoped|].
  unfold va_prefix. rewrite Ean, Eval, covering_ranges by auto. unfold roa_authorizes, roa_covers.
  rewrite !andb_true_iff, bool_decide_eq_true, N.leb_le. split; [naive_solver|]. intros [[Hc Has] Hl].
  split_and!; try done. apply (authorizing_is_valid p); [done|].
  unfold roa_authorizes, roa_covers. by rewrite Hc, bool_decide_true, (proj2 (N.leb_le _ _) Hl).
Qed.

Lemma other_roas_including_spec p r :
  p ∈ payloads → r ∈ other_roas_including roa_tree p → r ∈ payloads ∧ r ≠ p ∧ roa_includes r p = true.
Proof.
  intros Hp. unfold other_roas_including, other_roas_covering, make_roa_tree.
  rewrite !list_elem_of_filter, tree_less_specific_perm, list_elem_of_filter; [|intros v Hv; by apply Hpayloads|by apply Hpayloads].
  intros ((Has&Hlen&Hmax)&Hne&Hc&Hr). split_and!; [done|naive_solver|].
  rewrite covering_ranges in Hc by auto. unfold roa_includes. rewrite Hc, bool_decide_true by done.
  by apply N.leb_le.
Qed.

Lemma roa_entry_spec roa :
  cr_payload roa ∈ payloads → is_Some (nr_of_specific_prefixes (cr_payload roa)) →
  ∃ e, roa_entry roa_tree (make_validated_announcement_tree validated) roa = Some e ∧ roa_entry_ok roa e.
Proof.
  intros Hin [nr Hnr]. unfold roa_entry.
  pose proof (authorizes_of_perm (cr_payload roa) Hin) as Hauth.
  assert (other_roas_including roa_tree (cr_payload roa) ≠ [] →
    ∃ r, r ∈ payloads ∧ r ≠ cr_payload roa ∧ roa_includes r (cr_payload roa) = true) as Hinc.
  { pose proof (other_roas_including_spec (cr_payload roa)) as Hinc. destruct (other_roas_including _ _) as [|r l]; [done|].
    intros _. exists r. apply Hinc; [done|by left]. }
  set (covered := tree_more_specific _ _) in *. set (auth := authorizes_of _ _) in *.
  assert (∃ b, authorizes_excess (cr_payload roa) auth = Some b) as [excess ->].
  { unfold authorizes_excess. rewrite Hnr. destruct (0 <? _)%N; simpl; eauto. }
  simpl. eexists. split; [reflexivity|].
  assert (sort_anns auth ≡ₚ auth) as Hsort by apply sort_by_perm.
  case_bool_decide as H0; [case_bool_decide; (split; simpl; [done|lia|done|done|naive_solver|done])|].
  case_bool_decide as Hi; simpl.
  2: { split; simpl; [done|lia|by rewrite Hsort|auto|naive_solver|set_solver]. }
  case_bool_decide as Hu; [destruct Hu as [Ha _]; rewrite Ha in *; split; simpl; [done|lia|done|done|naive_solver|done]|].
  destruct excess; [split; simpl; [done|lia|by rewrite Hsort|done|naive_solver|set_solver]|].
  case_bool_decide as Ha.
  - rewrite Ha in *. split; simpl; [done|lia|done|done|naive_solver|done].
  - split; simpl; [done|lia|by rewrite Hsort|done|naive_solver|set_solver].
Qed.

(** The entry of an announcement has its validity by RFC 6811. *)
Record announcement_entry_ok (a : Announcement) e : Prop := {
  ae_announcement : roa_or_announcement e = IsAnnouncement a;
  ae_state : state e = validity_state (rfc6811 payloads a);
  ae_authorizes : authorizes e = [];
}.

Lemma announcement_entry_spec a :
  a ∈ scoped → ∃ e, announcement_entry (RoaInfo := RoaInfo) (validate a roa_tree) = Some e ∧ announcement_entry_ok a e.
Proof.
  intros Ha. destruct (validate_spec payloads a) as (Ean&Eval&Hv&_); [done|by apply Hscoped|].
  unfold announcement_entry. rewrite Ean. rewrite Eval in *. destruct (rfc6811 payloads a) eqn:Hr;
    [destruct (Hv eq_refl) as (r&->&_)|..]; (eexists; split; [reflexivity|]); (split; [done| |done]); simpl; by rewrite Hr.
Qed.
End entries.

(** ** The report *)

Section report.
Context (seen0 : Announcements) (anns : list Announcement) (now : Instant).
Hypothesis Hanns : ∀ a, a ∈ anns → good_prefix (ann_prefix a).
Context (roas : list (ConfiguredRoa (RoaInfo := RoaInfo))).
Hypothesis Hroas : ∀ roa, roa ∈ roas →
  good_prefix (rp_prefix (cr_payload roa)) ∧ is_Some (nr_of_specific_prefixes (cr_payload roa)).
Context (resources_held : ResourceSet) (limit : option ResourceSet).

Abbreviation seen := (announcements_update seen0 anns now).
Abbreviation in_limit := (roas_in_scope roas limit).
Definition held_roas : list (ConfiguredRoa (RoaInfo := RoaInfo)) :=
  filter (λ roa, holds resources_held (cr_payload roa) = true) in_limit.
Definition held_payloads : list RoaPayload := cr_payload <$> held_roas.
Definition scoped_anns : list Announcement := scoped_announcements seen (default resources_held limit).

Lemma elem_of_held_roas roa : roa ∈ held_roas → roa ∈ roas.
Proof.
  unfold held_roas, roas_in_scope. destruct limit; rewrite !list_elem_of_filter; naive_solver.
Qed.
Lemma held_payloads_good r : r ∈ held_payloads → good_prefix (rp_prefix r).
Proof. intros (roa&->&Hin)%list_elem_of_fmap. by apply Hroas, elem_of_held_roas. Qed.
Lemma scoped_anns_good a : a ∈ scoped_anns → good_prefix (ann_prefix a).
Proof. intros Ha. apply elem_of_scoped in Ha; [|done]. by apply Hanns, Ha. Qed.

Lemma analyse_report : ∃ report on_roas on_anns,
  analyse seen roas resources_held limit = Some report ∧
  report ≡ₚ (roa_not_held <$> filter (λ roa, ¬ holds resources_held (cr_payload roa) = true) in_limit)
            ++ on_roas ++ on_anns ∧
  Forall2 (roa_entry_ok held_payloads scoped_anns) held_roas on_roas ∧
  Forall2 (announcement_entry_ok held_payloads) scoped_anns on_anns.
Proof.
  unfold analyse. simpl last_checked. cbv iota. fold held_roas held_payloads scoped_anns.
  set (tree := make_roa_tree held_payloads).
  set (vtree := make_validated_announcement_tree _).
  destruct (mapM_total (roa_entry tree vtree) held_roas) as (on_roas&->&Hon).
  { intros roa Hroa. destruct (roa_entry_spec held_payloads scoped_anns held_payloads_good scoped_anns_good roa)
      as (e&He&_); [apply list_elem_of_fmap; eauto|by apply Hroas, elem_of_held_roas|]. eauto. }
  destruct (mapM_total (announcement_entry (RoaInfo := RoaInfo)) ((λ a, validate a tree) <$> scoped_anns)) as (on_anns&->&Hona).
  { intros v (a&->&Ha)%list_elem_of_fmap.
    destruct (announcement_entry_spec held_payloads scoped_anns held_payloads_good scoped_anns_good a Ha) as (e&He&_). eauto. }
  simpl. eexists _, on_roas, on_anns. split_and!; [done|apply sort_by_perm| |].
  - eapply Forall2_impl_in; [exact Hon|]. intros roa e Hin _ He.
    destruct (roa_entry_spec held_payloads scoped_anns held_payloads_good scoped_anns_good roa) as (e'&He'&Hok);
      [apply list_elem_of_fmap; eauto|by apply Hroas, elem_of_held_roas|]. assert (Some e = Some e') as [= ->] by (by rewrite <-He, <-He'). done.
  - apply Forall2_fmap_l in Hona. eapply Forall2_impl_in; [exact Hona|]. intros a e Hin _ He.
    destruct (announcement_entry_spec held_payloads scoped_anns held_payloads_good scoped_anns_good a Hin) as (e'&He'&Hok).
    assert (Some e = Some e') as [= ->] by (by rewrite <-He, <-He'). done.
Qed.
End report.

(** ** Suggestions *)

(** The states for which a suggestion removes the ROA. *)
Definition removal_states : list BgpAnalysisState := [RoaUnseen; RoaTooPermissive; RoaAs0Redundant; RoaRedundant].

Definition removes e (r : RoaPayload) : Prop :=
  ∃ roa, roa_or_announcement e = IsRoa roa ∧ cr_payload roa = r ∧ state e ∈ removal_states.

Lemma suggest_entry_removed all s e s' r :
  suggest_entry all s e = Some s' →
  r ∈ upd_removed (updates_of_suggestion s') → r ∈ upd_removed (updates_of_suggestion s) ∨ removes e r.
Proof.
  unfold suggest_entry, entry_configured_roa, entry_announcement, removes, removal_states. intros Hs.
  destruct (roa_or_announcement e) as [roa|a], (state e) eqn:Hst; simplify_eq/=; auto;
    rewrite ?fmap_app; set_solver.
Qed.

Lemma suggest_entry_added all s e s' c :
  suggest_entry all s e = Some s' →
  c ∈ upd_added (updates_of_suggestion s) → c ∈ upd_added (updates_of_suggestion s').
Proof.
  unfold suggest_entry, entry_configured_roa, entry_announcement. intros Hs.
  destruct (roa_or_announcement e) as [roa|a], (state e) eqn:Hst; simplify_eq/=; auto;
    rewrite ?fmap_app, ?concat_app; set_solver.
Qed.

Lemma suggest_loop_removed all entries s s' r :
  suggest_loop all entries s = Some s' →
  r ∈ upd_removed (updates_of_suggestion s') →
  r ∈ upd_removed (updates_of_suggestion s) ∨ ∃ e, e ∈ entries ∧ removes e r.
Proof.
  revert s. induction entries as [|e entries IH]; intros s; simpl; [intros [= ->]; auto|].
  destruct (suggest_entry all s e) as [s1|] eqn:H1; [|done]. simpl. intros Hl Hr.
  destruct (IH s1 Hl Hr) as [Hs1|(e'&Hin&Hre)].
  - destruct (suggest_entry_removed _ _ _ _ _ H1 Hs1) as [|Hre]; [by left|]. right. exists e. split; [by left|done].
  - right. exists e'. split; [by right|done].
Qed.

Lemma suggest_loop_added all entries s s' c :
  suggest_loop all entries s = Some s' →
  c ∈ upd_added (updates_of_suggestion s) → c ∈ upd_added (updates_of_suggestion s').
Proof.
  revert s. induction entries as [|e entries IH]; intros s; simpl; [by intros [= ->]|].
  destruct (suggest_entry all s e) as [s1|] eqn:H1; [|done]. simpl. eauto using suggest_entry_added.
Qed.

(** What a ROA that is too permissive is replaced with is added. *)
Lemma suggest_loop_replaced all entries s s' e roa p :
  suggest_loop all entries s = Some s' → e ∈ entries → roa_or_announcement e = IsRoa roa → state e = RoaTooPermissive →
  p ∈ replace_with all e → mkRoaConfiguration p None ∈ upd_added (updates_of_suggestion s').
Proof.
  intros Hl Hin Hroa Hst Hp. revert s Hl. induction Hin as [e entries|e e0 entries Hin IH]; intros s; simpl.
  - destruct (suggest_entry all s e) as [s1|] eqn:H1; [|done]. simpl. intros Hl. eapply suggest_loop_added; [exact Hl|].
    unfold suggest_entry, entry_configured_roa in H1. rewrite Hst, Hroa in H1. injection H1 as <-. simpl.
    rewrite !fmap_app, concat_app. simpl. set_solver.
  - destruct (suggest_entry all s e0) as [s1|]; [|done]. simpl. eauto.
Qed.
End facts.
