(* ===== verification/BgpProps.v ===== *)
(** * The analysis of ROAs against announcements: theorems

    Validation agrees with RFC 6811, the report and its suggestions are what they promise, and
    where suggestions and safe updates go wrong. *)

From stdpp Require Import base gmap strings list sorting.
From Stdlib Require Import NArith ZArith Lia.
From S2P Require Import Prelude Text Roas Routes BgpTree BgpAnalysis BgpFacts BgpAnalysisFacts.

Section props.
Context `{BA : BgpApi} `{!BgpLaws} `{HO : !HashOrder}.
Context {RoaInfo : Type} `{!EqDecision RoaInfo}.
Implicit Types (roa : ConfiguredRoa (RoaInfo := RoaInfo)) (e : BgpAnalysisEntry (RoaInfo := RoaInfo)).

(** ** ROAs that authorize an announcement *)

Lemma includes_authorizes a r r' : roa_includes r' r = true → roa_authorizes a r = true → roa_authorizes a r' = true.
Proof.
  unfold roa_includes, roa_authorizes, roa_covers, matching_or_less_specific, matches_type.
  rewrite !andb_true_iff, !bool_decide_eq_true, !N.leb_le.
  intros [[Has [[Ht H1] H2]] Hm] [[[[Ht' H1'] H2'] Has'] Hl].
  destruct (rp_prefix r'), (rp_prefix r), (ann_prefix a); simpl in *; try done; repeat split; try lia; congruence.
Qed.

Lemma own_roa_authorizes a : roa_authorizes a (roa_of_announcement a) = true.
Proof.
  unfold roa_authorizes, roa_covers, matching_or_less_specific, matches_type, effective_max_length. simpl.
  rewrite !N.leb_refl, bool_decide_true by done. by destruct (ann_prefix a).
Qed.

(** ** One entry for each ROA *)

Lemma omap_not_held (l : list (ConfiguredRoa (RoaInfo := RoaInfo))) : omap entry_configured_roa (roa_not_held <$> l) = l.
Proof. induction l as [|roa l IH]; csimpl; [done|]. by rewrite IH. Qed.

Section report.
Context (payloads : list RoaPayload) (scoped : list Announcement).
Context (held : list (ConfiguredRoa (RoaInfo := RoaInfo))) (on_roas : list (BgpAnalysisEntry (RoaInfo := RoaInfo))).
Hypothesis Hents : Forall2 (roa_entry_ok payloads scoped) held on_roas.

Lemma entry_of_roa roa : roa ∈ held → ∃ e, e ∈ on_roas ∧ roa_entry_ok payloads scoped roa e.
Proof.
  intros [i Hi]%list_elem_of_lookup. destruct (Forall2_lookup_l _ _ _ _ _ Hents Hi) as (e&He&Hok).
  exists e. split; [|done]. by eapply list_elem_of_lookup_2.
Qed.

Lemma roa_of_entry e : e ∈ on_roas → ∃ roa, roa ∈ held ∧ roa_entry_ok payloads scoped roa e.
Proof.
  intros [i Hi]%list_elem_of_lookup. destruct (Forall2_lookup_r _ _ _ _ _ Hents Hi) as (roa&He&Hok).
  exists roa. split; [|done]. by eapply list_elem_of_lookup_2.
Qed.

(** Entries on ROAs with the same payload are the same. *)
Lemma entry_unique roa roa' e e' :
  NoDup (cr_payload <$> held) → e ∈ on_roas → e' ∈ on_roas →
  roa_or_announcement e = IsRoa roa → roa_or_announcement e' = IsRoa roa' → cr_payload roa = cr_payload roa' → e = e'.
Proof.
  intros Hnd [i Hi]%list_elem_of_lookup [j Hj]%list_elem_of_lookup He He' Hp.
  destruct (Forall2_lookup_r _ _ _ _ _ Hents Hi) as (r1&H1&O1). destruct (Forall2_lookup_r _ _ _ _ _ Hents Hj) as (r2&H2&O2).
  assert (r1 = roa ∧ r2 = roa') as [-> ->].
  { pose proof (re_roa _ _ _ _ O1). pose proof (re_roa _ _ _ _ O2). split; congruence. }
  assert (i = j) as ->; [|congruence]. eapply (NoDup_lookup _ _ _ (cr_payload roa) Hnd).
  - by rewrite list_lookup_fmap, H1.
  - by rewrite list_lookup_fmap, H2, Hp.
Qed.

Lemma entry_authorizes e a :
  e ∈ on_roas → a ∈ authorizes e → ∃ roa, roa ∈ held ∧ roa_or_announcement e = IsRoa roa ∧ roa_authorizes a (cr_payload roa) = true.
Proof.
  intros (roa&Hin&Hok)%roa_of_entry Ha. exists roa. split_and!; [done|apply Hok|].
  destruct (decide (rp_asn (cr_payload roa) = 0%N)) as [H0|H0].
  - apply (re_as0 _ _ _ _ Hok) in H0. rewrite (re_none _ _ _ _ Hok) in Ha; [by apply elem_of_nil in Ha|]. set_solver.
  - rewrite (re_authorizes _ _ _ _ Hok H0) in Ha. by apply list_elem_of_filter in Ha as [? _].
Qed.

Lemma report_entries_ok l on_anns report :
  report ≡ₚ (roa_not_held <$> l) ++ on_roas ++ on_anns →
  Forall2 (announcement_entry_ok payloads) scoped on_anns → Forall entry_ok report.
Proof.
  intros Hperm Ha. rewrite Hperm. apply Forall_forall. intros e [He|[He|He]%elem_of_app]%elem_of_app; unfold entry_ok.
  - apply list_elem_of_fmap in He as (roa&->&_). simpl. lia.
  - destruct (roa_of_entry e He) as (roa&_&Hok). rewrite (re_roa _ _ _ _ Hok). pose proof (re_state _ _ _ _ Hok). lia.
  - apply list_elem_of_lookup in He as [i Hi]. destruct (Forall2_lookup_r _ _ _ _ _ Ha Hi) as (a&_&Hok).
    rewrite (ae_announcement _ _ _ Hok), (ae_state _ _ _ Hok). destruct (rfc6811 _ a); simpl; lia.
Qed.

(** The entries that authorize an announcement are those on ROAs. *)
Lemma authorizing_entry l on_anns report e a :
  report ≡ₚ (roa_not_held <$> l) ++ on_roas ++ on_anns →
  Forall2 (announcement_entry_ok payloads) scoped on_anns → e ∈ report → a ∈ authorizes e → e ∈ on_roas.
Proof.
  intros Hperm Ha He Hin. rewrite Hperm in He. apply elem_of_app in He as [He|[He|He]%elem_of_app]; [|done|].
  - apply list_elem_of_fmap in He as (roa&->&_). by apply elem_of_nil in Hin.
  - apply list_elem_of_lookup in He as [i Hi]. destruct (Forall2_lookup_r _ _ _ _ _ Ha Hi) as (b&_&Hok).
    rewrite (ae_authorizes _ _ _ Hok) in Hin. by apply elem_of_nil in Hin.
Qed.

(** The entries for which a ROA is removed are on ROAs held. *)
Lemma removing_entry l on_anns report e r :
  report ≡ₚ (roa_not_held <$> l) ++ on_roas ++ on_anns →
  Forall2 (announcement_entry_ok payloads) scoped on_anns → e ∈ report → removes e r → e ∈ on_roas.
Proof.
  intros Hperm Ha He (roa'&Hre&_&Hst). rewrite Hperm in He. apply elem_of_app in He as [He|[He|He]%elem_of_app]; [|done|].
  - apply list_elem_of_fmap in He as (roa&->&_). unfold removal_states in Hst. set_solver.
  - apply list_elem_of_lookup in He as [i Hi]. destruct (Forall2_lookup_r _ _ _ _ _ Ha Hi) as (b&_&Hok).
    rewrite (ae_announcement _ _ _ Hok) in Hre. done.
Qed.

(** The entry on the only ROA that authorizes an announcement: the ROA is seen or too permissive. *)
Lemma sole_entry_state roa e a :
  roa_entry_ok payloads scoped roa e → a ∈ scoped → ann_asn a ≠ 0%N → roa_authorizes a (cr_payload roa) = true →
  (∀ r', r' ∈ payloads → roa_authorizes a r' = true → r' = cr_payload roa) →
  a ∈ authorizes e ∧ (state e = RoaSeen ∨ state e = RoaTooPermissive).
Proof.
  clear Hents. intros Hok Ha Hasn Hauth Hsole.
  assert (rp_asn (cr_payload roa) ≠ 0%N) as H0.
  { unfold roa_authorizes in Hauth. apply andb_true_iff in Hauth as [[_ Hb]%andb_true_iff _].
    apply bool_decide_eq_true in Hb. congruence. }
  assert (a ∈ authorizes e) as Hin by (rewrite (re_authorizes _ _ _ _ Hok H0); by apply list_elem_of_filter).
  split; [done|]. pose proof (re_state _ _ _ _ Hok) as Hst. pose proof (re_none _ _ _ _ Hok) as Hnone.
  pose proof (re_redundant _ _ _ _ Hok) as Hred.
  destruct (state e); simpl in Hst; try lia; auto;
    [|rewrite Hnone in Hin by set_solver; by apply elem_of_nil in Hin..].
  destruct (Hred eq_refl) as (r'&Hr'&Hne&Hinc). destruct Hne. apply Hsole; [done|]. by eapply includes_authorizes.
Qed.
End report.
End props.

(** ** Theorems *)

(** C14.  The validity computed for an announcement, by looking up ranges in a tree in any order of
    its map, is that of RFC 6811, for prefixes of more than one address and IPv6 prefixes apart
    from the IPv4-mapped addresses: a valid announcement names a ROA that authorizes it, any other
    all the ROAs that cover it. *)
Theorem announcement_validity_rfc6811 `{BA : BgpApi, !BgpLaws, HO : !HashOrder} (roas : list RoaPayload) (a : Announcement)
    (Hroas : ∀ r, r ∈ roas → good_prefix (rp_prefix r)) (Ha : good_prefix (ann_prefix a)) :
  let v := validate a (make_roa_tree roas) in
  va_announcement v = a ∧ va_validity v = rfc6811 roas a ∧
  (va_validity v = Valid → ∃ r, va_authorizing v = Some r ∧ r ∈ roas ∧ roa_authorizes a r = true) ∧
  (va_validity v ≠ Valid → va_authorizing v = None ∧ va_disallowing v ≡ₚ filter (λ r, roa_covers a r = true) roas).
Proof. by apply validate_spec. Qed.

(** C15.  The report on the ROAs of a CA: it has one entry for each ROA and one for each announcement
    seen below the resources of the CA.  An announcement is reported with its validity by RFC 6811
    under the ROAs held; a ROA held is reported with the announcements that it authorizes, and as
    redundant only if another ROA includes it.  A suggestion can be made from it: no entry is of
    the wrong kind for its state.  All announcements and ROAs are for prefixes of more than one
    address, no IPv4-mapped IPv6 ones ([good_prefix]), and the maximum length of each ROA is at
    least the length of its prefix and less than 128 more ([nr_of_specific_prefixes] is defined). *)
Theorem analysis_report_exact `{BA : BgpApi, !BgpLaws, HO : !HashOrder} {Info : Type} `{!EqDecision Info}
    (seen0 : Announcements) (anns : list Announcement) (now : Instant)
    (roas : list (ConfiguredRoa (RoaInfo := Info))) (resources : ResourceSet)
    (Hanns : ∀ a, a ∈ anns → good_prefix (ann_prefix a))
    (Hroas : ∀ roa, roa ∈ roas → good_prefix (rp_prefix (cr_payload roa)) ∧ is_Some (nr_of_specific_prefixes (cr_payload roa))) :
  let seen := announcements_update seen0 anns now in
  let held := cr_payload <$> filter (λ roa, holds resources (cr_payload roa) = true) roas in
  ∃ report, analyse seen roas resources None = Some report ∧
    is_Some (suggest seen roas resources None) ∧
    omap entry_configured_roa report ≡ₚ roas ∧
    (∀ a, a ∈ omap entry_announcement report ↔ a ∈ anns ∧ in_scope resources a) ∧
    ∀ e, e ∈ report →
      match roa_or_announcement e with
      | IsAnnouncement a => state e = validity_state (rfc6811 held a)
      | IsRoa roa =>
          if holds resources (cr_payload roa) then
            (rp_asn (cr_payload roa) ≠ 0%N → ∀ a, a ∈ authorizes e ↔
               a ∈ anns ∧ in_scope resources a ∧ roa_authorizes a (cr_payload roa) = true) ∧
            (state e = RoaRedundant → ∃ r, r ∈ held ∧ r ≠ cr_payload roa ∧ roa_includes r (cr_payload roa) = true)
          else state e = RoaNotHeld
      end.
Proof.
  intros seen held.
  destruct (analyse_report seen0 anns now Hanns roas Hroas resources None) as (report&on_roas&on_anns&Han&Hperm&Hr&Ha).
  exists report. fold seen in Han.
  assert (∀ a, a ∈ scoped_anns seen0 anns now resources None ↔ a ∈ anns ∧ in_scope resources a) as Hscoped.
  { intros a. unfold scoped_anns. simpl. by apply elem_of_scoped. }
  set (no := roa_not_held <$> _) in Hperm.
  assert (∀ e, e ∈ no → ∃ roa, holds resources (cr_payload roa) = false ∧ e = roa_not_held roa) as Hno.
  { intros e (roa&->&Hin)%list_elem_of_fmap. apply list_elem_of_filter in Hin as [Hh _].
    exists roa. split; [by apply not_true_is_false|done]. }
  split; [done|]. split; [|split; [|split]].
  - unfold suggest. rewrite Han. simpl. apply suggest_loop_total. by eapply report_entries_ok.
  - rewrite (omap_perm _ _ _ Hperm), !omap_app.
    rewrite (omap_Forall2 _ id _ _ _ Hr) by (intros roa e Hok; unfold entry_configured_roa; by rewrite (re_roa _ _ _ _ Hok)).
    rewrite (omap_none _ on_anns).
    2: { intros e [i Hi]%list_elem_of_lookup. destruct (Forall2_lookup_r _ _ _ _ _ Ha Hi) as (a&_&Hok).
         unfold entry_configured_roa. by rewrite (ae_announcement _ _ _ Hok). }
    assert (omap entry_configured_roa no = filter (λ roa, ¬ holds resources (cr_payload roa) = true) roas) as ->.
    { apply omap_not_held. }
    rewrite list_fmap_id, app_nil_r, Permutation_app_comm. unfold held_roas. simpl. apply filter_app_complement.
  - intros a. rewrite (omap_perm _ _ _ Hperm), !omap_app.
    rewrite (omap_Forall2 _ id _ _ _ Ha) by (intros b e Hok; unfold entry_announcement; by rewrite (ae_announcement _ _ _ Hok)).
    rewrite (omap_none _ no), (omap_none _ on_roas), list_fmap_id; [by rewrite <-Hscoped| |].
    + intros e (roa&_&Hok)%(roa_of_entry _ _ _ _ Hr). unfold entry_announcement. by rewrite (re_roa _ _ _ _ Hok).
    + intros e (roa&_&->)%Hno. done.
  - intros e He. rewrite Hperm in He. apply elem_of_app in He as [He|[He|He]%elem_of_app].
    + destruct (Hno e He) as (roa&Hh&->). simpl. by rewrite Hh.
    + destruct (roa_of_entry _ _ _ _ Hr e He) as (roa&Hin&Hok). rewrite (re_roa _ _ _ _ Hok).
      apply list_elem_of_filter in Hin as [-> _]. split; [|by apply Hok]. intros H0 a.
      rewrite (re_authorizes _ _ _ _ Hok H0), list_elem_of_filter, Hscoped. naive_solver.
    + apply list_elem_of_lookup in He as [i Hi]. destruct (Forall2_lookup_r _ _ _ _ _ Ha Hi) as (a&_&Hok).
      rewrite (ae_announcement _ _ _ Hok), (ae_state _ _ _ Hok). done.
Qed.

(** C16.  Following a suggestion keeps an announcement valid that exactly one of the ROAs held
    authorizes: that ROA is kept, or replaced with one for the announcement.  The announcement is
    below the resources of the CA and not for AS 0, the suggestion is for all resources of the CA
    (not for a limited scope), the ROAs configured have distinct payloads, and all announcements
    and ROAs are as in C15: for prefixes of more than one address, no IPv4-mapped IPv6 ones, with a
    maximum length at least the length of the prefix and less than 128 more. *)
Theorem suggestion_keeps_sole_authorization `{BA : BgpApi, !BgpLaws, HO : !HashOrder} {Info : Type} `{!EqDecision Info}
    (seen0 : Announcements) (anns : list Announcement) (now : Instant)
    (roas : list (ConfiguredRoa (RoaInfo := Info))) (resources : ResourceSet) (a : Announcement) (r : RoaPayload)
    (Hanns : ∀ a, a ∈ anns → good_prefix (ann_prefix a))
    (Hroas : ∀ roa, roa ∈ roas → good_prefix (rp_prefix (cr_payload roa)) ∧ is_Some (nr_of_specific_prefixes (cr_payload roa)))
    (Hnd : NoDup (cr_payload <$> roas))
    (Ha : a ∈ anns) (Hscope : in_scope resources a) (Hasn : ann_asn a ≠ 0%N) :
  let held := cr_payload <$> filter (λ roa, holds resources (cr_payload roa) = true) roas in
  r ∈ held → roa_authorizes a r = true → (∀ r', r' ∈ held → roa_authorizes a r' = true → r' = r) →
  ∃ s, suggest (announcements_update seen0 anns now) roas resources None = Some s ∧
    let u := updates_of_suggestion s in
    rfc6811 (filter (λ r, r ∉ upd_removed u) held ++ (rc_payload <$> upd_added u)) a = Valid.
Proof.
  intros held Hr Hauth Hsole.
  destruct (analyse_report seen0 anns now Hanns roas Hroas resources None) as (report&on_roas&on_anns&Han&Hperm&Hents&Hona).
  destruct (suggest_loop_total report report no_suggestion) as [s Hs]; [by eapply report_entries_ok|].
  exists s. split; [unfold suggest; by rewrite Han|]. cbv zeta. set (u := updates_of_suggestion s).
  apply list_elem_of_fmap in Hr as (roa&->&Hroa). fold (held_roas roas resources None) in Hroa.
  assert (NoDup (cr_payload <$> held_roas roas resources None)) as Hndh.
  { eapply sublist_NoDup; [exact Hnd|]. apply fmap_sublist, sublist_filter. }
  assert (a ∈ scoped_anns seen0 anns now resources None) as Hsc by (by apply elem_of_scoped).
  destruct (entry_of_roa _ _ _ _ Hents roa Hroa) as (e&He&Hok).
  destruct (sole_entry_state _ _ roa e a Hok Hsc Hasn Hauth Hsole) as [Hin Hst].
  assert (e ∈ report) as Hrep by (rewrite Hperm, !elem_of_app; auto).
  destruct Hst as [Hst|Hst].
  - apply (authorizing_is_valid _ (cr_payload roa)); [|done]. apply elem_of_app. left. apply list_elem_of_filter.
    split; [|by apply list_elem_of_fmap; exists roa]. intros Hrem.
    destruct (suggest_loop_removed _ _ _ _ _ Hs Hrem) as [Hn|(e'&He'&Hre)]; [by apply elem_of_nil in Hn|].
    assert (e' ∈ on_roas) as Hin' by (by eapply removing_entry). destruct Hre as (roa'&Hroa'&Hp&Hst').
    assert (e = e') as <- by (by eapply (entry_unique _ _ _ _ Hents roa roa'); [..|apply Hok| |]).
    rewrite Hst in Hst'. unfold removal_states in Hst'. set_solver.
  - apply (authorizing_is_valid _ (roa_of_announcement a)); [|apply own_roa_authorizes]. apply elem_of_app. right.
    apply list_elem_of_fmap. exists (mkRoaConfiguration (roa_of_announcement a) None). split; [done|].
    eapply suggest_loop_replaced; [exact Hs|exact Hrep|apply Hok|done|]. unfold replace_with. apply list_elem_of_fmap.
    exists a. split; [done|]. apply list_elem_of_filter. split; [|done]. intros (e'&He'&Hne&Hin')%Exists_exists.
    assert (e' ∈ on_roas) as Hon by (by eapply authorizing_entry).
    destruct (entry_authorizes _ _ _ _ Hents e' a Hon Hin') as (roa'&Hroa'&Hre'&Hau').
    destruct Hne. symmetry. eapply (entry_unique _ _ _ _ Hents roa roa'); [done..|apply Hok|done|]. symmetry.
    apply Hsole; [|done]. apply list_elem_of_fmap. by exists roa'.
Qed.

Lemma filter_of_fmap {A B} (f : A → B) (P : B → Prop) `{∀ x, Decision (P x)} (l : list A) :
  filter P (f <$> l) = f <$> filter (λ x, P (f x)) l.
Proof. induction l as [|x l IH]; [done|]. rewrite fmap_cons, !filter_cons. case_decide; by rewrite ?fmap_cons, IH. Qed.

(** An analysis finds something invalid exactly if an announcement in its scope is invalid under
    the ROAs held in its scope. *)
Lemma analysis_invalids `{BA : BgpApi, !BgpLaws, HO : !HashOrder} {Info : Type} `{!EqDecision Info}
    (seen0 : Announcements) (anns : list Announcement) (now : Instant)
    (roas : list (ConfiguredRoa (RoaInfo := Info))) (resources : ResourceSet) (limit : option ResourceSet) :
  (∀ a, a ∈ anns → good_prefix (ann_prefix a)) →
  (∀ roa, roa ∈ roas → good_prefix (rp_prefix (cr_payload roa)) ∧ is_Some (nr_of_specific_prefixes (cr_payload roa))) →
  ∃ report, analyse (announcements_update seen0 anns now) roas resources limit = Some report ∧
    (contains_invalids report = true ↔ ∃ a, a ∈ anns ∧ in_scope (default resources limit) a ∧
       rfc6811 (held_payloads roas resources limit) a ∈ [InvalidAsn; InvalidLength]).
Proof.
  intros Hanns Hroas.
  destruct (analyse_report seen0 anns now Hanns roas Hroas resources limit) as (report&on_roas&on_anns&->&Hperm&Hr&Ha).
  exists report. split; [done|]. unfold contains_invalids. rewrite bool_decide_eq_true, Exists_exists. split.
  - intros (e&He&Hinv). rewrite Hperm in He. apply elem_of_app in He as [He|[He|He]%elem_of_app].
    + apply list_elem_of_fmap in He as (roa&->&_). done.
    + destruct (roa_of_entry _ _ _ _ Hr e He) as (roa&_&Hok). pose proof (re_state _ _ _ _ Hok) as Hst.
      destruct (state e); simpl in Hst; (done || lia).
    + apply list_elem_of_lookup in He as [i Hi]. destruct (Forall2_lookup_r _ _ _ _ _ Ha Hi) as (a&Hia&Hok).
      rewrite (ae_state _ _ _ Hok) in Hinv. apply list_elem_of_lookup_2, elem_of_scoped in Hia as [Hin Hs]; [|done].
      exists a. split_and!; [done..|]. destruct (rfc6811 _ a); done || set_solver.
  - intros (a&Hin&Hs&Hinv). assert (a ∈ scoped_anns seen0 anns now resources limit) as [i Hi]%list_elem_of_lookup.
    { by apply elem_of_scoped. }
    destruct (Forall2_lookup_l _ _ _ _ _ Ha Hi) as (e&He&Hok). exists e. split.
    + rewrite Hperm, !elem_of_app. right. right. by eapply list_elem_of_lookup_2.
    + rewrite (ae_state _ _ _ Hok). destruct (rfc6811 _ a); done || set_solver.
Qed.

(** C17.  Which updates are applied as safe.  Take an update of the ROAs that is not refused, when
    the announcements and the ROAs configured after it are for prefixes of more than one address,
    no IPv4-mapped IPv6 ones, with maximum lengths as in C15.  It is applied exactly if no
    announcement below the prefixes of the update is invalid under the ROAs configured after it
    that are held and themselves within the prefixes of the update.  A full analysis of the
    same ROAs finds something invalid exactly if an announcement below the resources of the CA is
    invalid under all the ROAs held.  So ROAs for less specific prefixes are overlooked: an
    update after which no ROA is left within its prefixes is always applied, whatever a ROA for a
    less specific prefix makes invalid there. *)
Theorem try_update_overlooks_covering_roa `{BA : BgpApi, !BgpLaws, HO : !HashOrder} {Info : Type} `{!EqDecision Info}
    (roa_infos : RoaConfiguration → list Info) (seen0 : Announcements) (anns : list Announcement) (now t : Instant)
    (routes desired : Routes) (resources : ResourceSet) (u : RoaConfigurationUpdates) (evs : list CaEvtDet)
    (Hupd : route_authorizations_update routes resources t u = Ok (desired, evs))
    (Hanns : ∀ a, a ∈ anns → good_prefix (ann_prefix a))
    (Hroas : ∀ c, c ∈ roa_configurations desired →
       good_prefix (rp_prefix (rc_payload c)) ∧ is_Some (nr_of_specific_prefixes (rc_payload c))) :
  let seen := announcements_update seen0 anns now in
  let limit := affected_prefixes (updates_explicit_max_length u) in
  let held := filter (λ r, holds resources r = true) (rc_payload <$> roa_configurations desired) in
  let within := filter (λ r, holds limit r = true) held in
  (api_ca_routes_try_update roa_infos seen routes resources t u = Updated desired ↔
     ∀ a, a ∈ anns → in_scope limit a → rfc6811 within a ∉ [InvalidAsn; InvalidLength]) ∧
  (∃ after, ca_routes_bgp_analysis roa_infos seen desired resources = Some after ∧
     (contains_invalids after = true ↔
        ∃ a, a ∈ anns ∧ in_scope resources a ∧ rfc6811 held a ∈ [InvalidAsn; InvalidLength])) ∧
  (within = [] → api_ca_routes_try_update roa_infos seen routes resources t u = Updated desired).
Proof.
  intros seen limit held within.
  set (roas := configured_roas_for_configs roa_infos (roa_configurations desired)).
  assert (∀ roa, roa ∈ roas → good_prefix (rp_prefix (cr_payload roa)) ∧ is_Some (nr_of_specific_prefixes (cr_payload roa))) as Hr.
  { intros roa (c&->&Hc)%list_elem_of_fmap. by apply Hroas. }
  assert (cr_payload <$> roas = rc_payload <$> roa_configurations desired) as Hpay.
  { unfold roas, configured_roas_for_configs. rewrite <-list_fmap_compose. by apply list_fmap_ext. }
  assert (held_payloads roas resources None = held) as Hheld.
  { unfold held_payloads, held_roas, held. simpl. by rewrite <-Hpay, filter_of_fmap. }
  assert (held_payloads roas resources (Some limit) = within) as Hwithin.
  { unfold held_payloads, held_roas, within, held. simpl. rewrite <-Hpay, !filter_of_fmap, !list_filter_filter.
    f_equal. apply list_filter_iff. naive_solver. }
  destruct (analysis_invalids seen0 anns now roas resources (Some limit) Hanns Hr) as (effect&Heff&Hinv).
  destruct (analysis_invalids seen0 anns now roas resources None Hanns Hr) as (after&Haft&Hall).
  fold seen in Heff, Haft. rewrite Hwithin in Hinv. rewrite Hheld in Hall. simpl in Hinv, Hall.
  assert (api_ca_routes_try_update roa_infos seen routes resources t u = Updated desired ↔ contains_invalids effect = false) as Happ.
  { unfold api_ca_routes_try_update, ca_routes_bgp_dry_run. unfold route_authorizations_update in *. rewrite Hupd. simpl.
    fold roas limit. rewrite Heff. destruct (contains_invalids effect); simpl; [|done].
    destruct (ca_routes_bgp_suggest _ _ _ _ _); split; discriminate. }
  assert (contains_invalids effect = false ↔ ∀ a, a ∈ anns → in_scope limit a → rfc6811 within a ∉ [InvalidAsn; InvalidLength]) as Hnone.
  { rewrite <-not_true_iff_false, Hinv. naive_solver. }
  split; [by rewrite Happ|]. split; [exists after; by split|].
  intros Hnil. apply Happ, Hnone. intros a _ _. rewrite Hnil. set_solver.
Qed.

(** ** Concrete analyses *)

Module BgpDemo.
(** Addresses of 128 bits, IPv4 in the upper 32, and resources as a list of prefixes, marked
    whether they are of IPv4. *)
Definition max_of (p : N * N) : N := (p.1 + 2 ^ (128 - p.2) - 1)%N.
#[export] Instance prefixes : PrefixApi := {|
  Prefix := N * N;
  addr := fst; addr_len := snd; pfx_min := fst; pfx_max := max_of;
  from_v4_str _ := None; from_v6_str _ := None; addr_v4_str _ := ""; addr_v6_str _ := "";
  ResourceSet := list (bool * (N * N));
  contains_roa_address rs p _ :=
    existsb (λ b : bool * (N * N), (b.2.1 <=? p.1)%N && (max_of p <=? max_of b.2)%N) rs;
|}.
#[export] Instance api : BgpApi := {|
  to_v4 a := N.shiftr a 96; to_v6 a := a;
  rs_ipv4 rs := (λ b : bool * (N * N), (b.2.1, max_of b.2)) <$> filter (λ b, b.1 = true) rs;
  rs_ipv6 rs := (λ b : bool * (N * N), (b.2.1, max_of b.2)) <$> filter (λ b, b.1 = false) rs;
  rs_default := []; rs_union rs rs' := rs ++ rs';
  rs_of_prefix t := match t with V4 p => [(true, p)] | V6 p => [(false, p)] end;
  tree_query V t q := filter (λ el, (q.1 < el.1.2 ∧ el.1.1 < q.2)%N) t;
  tree_iter V t := t;
|}.
#[export] Instance laws : BgpLaws.
Proof.
  split; [|intros V t q r vs _ _ Hin; simpl; rewrite list_elem_of_filter; naive_solver|done].
  intros V t q. apply sublist_submseteq, sublist_filter.
Qed.

Definition v4 (a b c len : N) : TypedPrefix := V4 (N.shiftl (a * 16777216 + b * 65536 + c * 256) 96, len).
Definition roa (asn : N) (t : TypedPrefix) (max : N) : RoaPayload := mkRoaPayload asn t (Some max).
Definition configured (r : RoaPayload) : ConfiguredRoa (RoaInfo := unit) := mkConfiguredRoa (mkRoaConfiguration r None) [].
Definition ten : ResourceSet := [(true, prefix (v4 10 0 0 8))].
Definition seen (anns : list Announcement) : Announcements := announcements_update no_announcements anns 0%Z.

(** Two ROAs for one AS number that overlap, below a ROA for another, and what is announced. *)
Definition wide : RoaPayload := roa 1 (v4 10 0 0 16) 23.
Definition long : RoaPayload := roa 1 (v4 10 0 0 20) 24.
Definition top : RoaPayload := roa 2 (v4 10 0 0 8) 8.
Definition roas : list RoaPayload := [wide; long; top].
Definition shared : Announcement := mkAnnouncement 1%N (v4 10 0 0 22).
Definition below_wide : Announcement := mkAnnouncement 1%N (v4 10 0 16 23).
Definition announced : list Announcement :=
  [shared; below_wide; mkAnnouncement 1%N (v4 10 0 0 24); mkAnnouncement 2%N (v4 10 0 0 8)].

(** ROAs for a prefix and for a longer one of another AS number. *)
Definition cover : RoaPayload := roa 1 (v4 10 0 0 16) 16.
Definition customer : RoaPayload := roa 2 (v4 10 0 1 24) 24.
Definition info : RouteInfo := mkRouteInfo 0%Z None None.
Definition routes : Routes := <[cover := info]> (<[customer := info]> ∅).
Definition both : list Announcement := [mkAnnouncement 1%N (v4 10 0 0 16); mkAnnouncement 2%N (v4 10 0 1 24)].
Definition withdraw_customer : RoaConfigurationUpdates := mkUpdates [] [customer].
Definition withdrawal : option (Routes * list CaEvtDet) :=
  match route_authorizations_update routes ten 0%Z withdraw_customer with Ok r => Some r | Err _ => None end.
Definition routes_left : Routes := from_option fst ∅ withdrawal.
Lemma withdrawn :
  route_authorizations_update routes ten 0%Z withdraw_customer = Ok (routes_left, from_option snd [] withdrawal).
Proof.
  assert (from_option (λ _, true) false withdrawal = true) as Hsome by by vm_compute. revert Hsome.
  unfold routes_left, withdrawal. by destruct (route_authorizations_update _ _ _ _) as [[]|].
Qed.
Lemma both_good a : a ∈ both → good_prefix (ann_prefix a).
Proof. intros [->|[->|H%elem_of_nil]%elem_of_cons]%elem_of_cons; [split; by vm_compute..|done]. Qed.
Lemma left_good c :
  c ∈ roa_configurations routes_left → good_prefix (rp_prefix (rc_payload c)) ∧ is_Some (nr_of_specific_prefixes (rc_payload c)).
Proof. intros Hc. vm_compute in Hc. apply list_elem_of_singleton in Hc as ->. split; [split; by vm_compute|by vm_compute; eauto]. Qed.

(** All IPv6 addresses. *)
Definition any6 : TypedPrefix := V6 (0, 0)%N.
Definition ten_announced : Announcement := mkAnnouncement 1%N (v4 10 0 0 8).
End BgpDemo.
#[local] Existing Instances BgpDemo.prefixes BgpDemo.api BgpDemo.laws.

(**  A suggestion can lose an announcement that two ROAs authorize: when both are too permissive,
    each is replaced only with what no other entry authorizes, so that an announcement authorized
    by both is in neither replacement.  Below a ROA for another AS number it turns from valid to
    invalid. *)
Theorem suggestion_loses_shared_announcement :
  let held := BgpDemo.roas in
  BgpDemo.shared ∈ BgpDemo.announced ∧
  rfc6811 held BgpDemo.shared = Valid ∧
  ∃ s, suggest (BgpDemo.seen BgpDemo.announced) (BgpDemo.configured <$> held) BgpDemo.ten None = Some s ∧
    let u := updates_of_suggestion s in
    rfc6811 (filter (λ r, r ∉ upd_removed u) held ++ (rc_payload <$> upd_added u)) BgpDemo.shared = InvalidAsn.
Proof.
  split; [by left|]. split; [by vm_compute|].
  eexists. split; [vm_compute; reflexivity|by vm_compute].
Qed.

(**  IPv6 prefixes that include the IPv4-mapped addresses are taken for less specific than IPv4
    prefixes: an announcement that no ROA of its family covers is invalid because of a ROA for all
    IPv6 addresses, where RFC 6811 has it not found, and an announcement below the resources of a
    CA that holds all addresses is reported twice. *)
Theorem ipv6_roa_invalidates_ipv4 :
  let roas := [BgpDemo.roa 2 BgpDemo.any6 0] in
  va_validity (validate BgpDemo.ten_announced (make_roa_tree roas)) = InvalidAsn ∧
  rfc6811 roas BgpDemo.ten_announced = NotFound ∧
  scoped_announcements (BgpDemo.seen [BgpDemo.ten_announced]) [(true, (0, 0)%N); (false, (0, 0)%N)]
    = [BgpDemo.ten_announced; BgpDemo.ten_announced].
Proof. split_and!; by vm_compute. Qed.

(** ** Witnesses *)

Lemma demo_good :
  Forall (λ r, good_prefix (rp_prefix r) ∧ is_Some (nr_of_specific_prefixes r)) BgpDemo.roas ∧
  Forall (λ a, good_prefix (ann_prefix a)) BgpDemo.announced.
Proof.
  split; repeat (apply Forall_cons_2); try apply Forall_nil_2; try split; try split; try (by vm_compute); by vm_compute; eauto.
Qed.

Lemma demo_roas_good roa :
  roa ∈ BgpDemo.configured <$> BgpDemo.roas →
  good_prefix (rp_prefix (cr_payload roa)) ∧ is_Some (nr_of_specific_prefixes (cr_payload roa)).
Proof.
  intros (r&->&Hr)%list_elem_of_fmap. destruct demo_good as [Hroas _]. rewrite Forall_forall in Hroas. by apply Hroas.
Qed.
Lemma demo_announced_good a : a ∈ BgpDemo.announced → good_prefix (ann_prefix a).
Proof. destruct demo_good as [_ Hanns]. rewrite Forall_forall in Hanns. apply Hanns. Qed.

Lemma announcement_validity_rfc6811_witness :
  va_validity (validate BgpDemo.shared (make_roa_tree BgpDemo.roas)) = rfc6811 BgpDemo.roas BgpDemo.shared ∧
  rfc6811 BgpDemo.roas BgpDemo.shared = Valid.
Proof.
  split; [|by vm_compute]. apply (announcement_validity_rfc6811 BgpDemo.roas BgpDemo.shared).
  - intros r Hr. apply (demo_roas_good (BgpDemo.configured r)). apply list_elem_of_fmap. by exists r.
  - apply demo_announced_good. by left.
Defined.

Lemma analysis_report_exact_witness :
  ∃ report, analyse (BgpDemo.seen BgpDemo.announced) (BgpDemo.configured <$> BgpDemo.roas) BgpDemo.ten None = Some report ∧
    omap entry_configured_roa report ≡ₚ BgpDemo.configured <$> BgpDemo.roas.
Proof.
  destruct (analysis_report_exact no_announcements BgpDemo.announced 0%Z (BgpDemo.configured <$> BgpDemo.roas) BgpDemo.ten
    demo_announced_good demo_roas_good) as (report&Han&_&Hroas&_).
  exists report. split; [exact Han|exact Hroas].
Defined.

Lemma suggestion_keeps_sole_authorization_witness :
  ∃ s, suggest (BgpDemo.seen BgpDemo.announced) (BgpDemo.configured <$> BgpDemo.roas) BgpDemo.ten None = Some s ∧
    let u := updates_of_suggestion s in
    rfc6811 (filter (λ r, r ∉ upd_removed u) BgpDemo.roas ++ (rc_payload <$> upd_added u)) BgpDemo.below_wide = Valid.
Proof.
  apply (suggestion_keeps_sole_authorization no_announcements BgpDemo.announced 0%Z (BgpDemo.configured <$> BgpDemo.roas)
    BgpDemo.ten BgpDemo.below_wide BgpDemo.wide demo_announced_good demo_roas_good).
  - apply (bool_decide_unpack _). by vm_compute.
  - right. by left.
  - apply (bool_decide_unpack _). by vm_compute.
  - by vm_compute.
  - by left.
  - by vm_compute.
  - intros r' Hr' Ha'. assert (r' ∈ BgpDemo.roas) as Hin by exact Hr'. revert Ha'. unfold BgpDemo.roas in Hin.
    rewrite !elem_of_cons in Hin. destruct Hin as [->|[->|[->|Hn]]]; [done|by vm_compute..|by apply elem_of_nil in Hn].
Defined.

(** The ROA of a longer prefix is removed below a ROA for another AS number: nothing was invalid
    before, the update is applied, and then something is. *)
Lemma try_update_overlooks_covering_roa_witness :
  let seen := BgpDemo.seen BgpDemo.both in
  from_option contains_invalids true (ca_routes_bgp_analysis (λ _, @nil unit) seen BgpDemo.routes BgpDemo.ten) = false ∧
  api_ca_routes_try_update (λ _, @nil unit) seen BgpDemo.routes BgpDemo.ten 0%Z BgpDemo.withdraw_customer = Updated BgpDemo.routes_left ∧
  ∃ after, ca_routes_bgp_analysis (λ _, @nil unit) seen BgpDemo.routes_left BgpDemo.ten = Some after ∧ contains_invalids after = true.
Proof.
  destruct (try_update_overlooks_covering_roa (λ _, @nil unit) no_announcements BgpDemo.both 0%Z 0%Z BgpDemo.routes BgpDemo.routes_left
    BgpDemo.ten BgpDemo.withdraw_customer _ BgpDemo.withdrawn BgpDemo.both_good BgpDemo.left_good)
    as (_&(after&Hafter&Hinv)&Happ).
  split; [by vm_compute|]. split; [apply Happ; by vm_compute|].
  exists after. split; [exact Hafter|]. apply Hinv. exists (mkAnnouncement 2%N (BgpDemo.v4 10 0 1 24)).
  split; [right; by left|]. split; [apply (bool_decide_unpack _); by vm_compute|]. by left.
Defined.
