(* ===== verification/EventProps.v ===== *)
(** * Properties of event sourcing and of access to the publication server

    Theorems about [commons/eventsourcing/store.rs] for any aggregate, and about
    [RepositoryAccess] and [RepositoryManager]; they are evaluated on the store of the
    publication server's access aggregate. *)

From stdpp Require Import base gmap strings list pretty sorting relations.
From S2P Require Import Prelude Text Kv LogPath EventSourcing EventFacts Rpki Rrdp RrdpFacts Repository RepositoryFacts RepositoryInv RepositoryAccess AccessFacts.

(** ** Command keys *)

(** A command key is read back from its printed form, with or without the file extension,
    for every sequence number, every time of an [i64] in seconds (also before the epoch), and
    every label without a double dash that does not itself end in the extension. *)
Theorem command_key_roundtrip (k : CommandKey)
    (Hts : (i64_min ≤ ck_timestamp_secs k ≤ i64_max)%Z) (Hseq : (ck_sequence k ≤ u64_max)%N)
    (Hlabel : label_ok (ck_label k)) (Hjson : ends_with (ck_label k) ".json" = false) :
  command_key_from_str (command_key_display k) = Ok k ∧
  command_key_from_str (command_key_display k +:+ ".json") = Ok k.
Proof.
  unfold ends_with in Hjson. apply bool_decide_eq_false, eq_None_not_Some in Hjson. split.
  - rewrite <-(string_app_empty (command_key_display k)). apply command_key_from_parts; [done..|].
    by rewrite string_app_empty, Hjson.
  - apply command_key_from_parts; [done..|]. by rewrite strip_suffix_app.
Qed.

Lemma command_key_roundtrip_witness :
  let k := mkCommandKey 87 (-5) "cmd-ca-publish" in
  command_key_display k = "command---5--87--cmd-ca-publish" ∧
  command_key_from_str "command---5--87--cmd-ca-publish" = Ok k.
Proof.
  split; [reflexivity|].
  apply (command_key_roundtrip (mkCommandKey 87 (-5) "cmd-ca-publish")); by vm_compute.
Defined.

(** ** Runs of the store *)

Section event_props.
Context `{HO : !HashOrder} `{Ag : Aggregate A Cmd Storable Evt Init AErr AEnv} `{AL : !AggregateLaws}.
Context {V : Type} `{JA : !Json V A} `{JE : !Json V (StoredEvent Evt)} `{JI : !Json V (StoredEvent Init)}
  `{JC : !Json V (StoredCommand Storable)} `{JInfo : !Json V StoredValueInfo}.

(** A store without aggregates, with pre-save listeners. *)
Definition empty_agg_store (ls : list (A → list (StoredEvent Evt) → result AErr unit)) : AggregateStore A Evt AErr V :=
  mkAggStore kv_empty ∅ ls [].

(** A store in which an aggregate was added and that then went through a run. *)
Definition agg_store_after ls (i : StoredEvent Init) (a : A) (labs : list (option (AEnv * SentCommand Cmd)))
    (st : AggregateStore A Evt AErr V) : Prop :=
  ev_version i = 0%N ∧ agg_init i = Ok a ∧
  ∃ now st0, agg_add i now (empty_agg_store ls) = Some (st0, Ok a) ∧ agg_steps (ev_id i) labs st0 st.

(** Commands yield at most [m] events each, so that the numbers stay within their width. *)
Definition events_bounded (m : N) (n : nat) : Prop :=
  (∀ a env cmd evs, agg_process_command a env cmd = Ok evs → (N.of_nat (length evs) ≤ m)%N) ∧
  (1 + m * N.of_nat (S n) ≤ u64_max)%N ∧ (N.of_nat n < u64_max)%N.

Lemma agg_store_after_inv ls i a labs st m :
  agg_store_after ls i a labs st → accepting ls → events_bounded m (length labs) →
  ∃ info, agg_inv st (ev_id i) (foldl (agg_spec_label (ev_id i)) a labs) info ∧ as_pre_save st = ls ∧
    (last_command info < u64_max)%N ∧
    (agg_version (foldl (agg_spec_label (ev_id i)) a labs) + m ≤ u64_max)%N.
Proof.
  intros (Hv&Hi&now&st0&Hadd&Hsteps) Hacc (Hfew&Hw&Hn).
  destruct (agg_add_inv (empty_agg_store ls) i a now) as (st1&Hadd'&Hinv&Hl); [done..|].
  rewrite Hadd in Hadd'. injection Hadd' as ->. injection Hl as Hp _.
  destruct (agg_steps_inv m Hfew _ _ _ _ _ _ Hsteps Hinv ltac:(by rewrite Hp)) as (info&Hinv'&Hp'&Hl'&Hv').
  { simpl. lia. }
  { rewrite (agg_init_version _ _ Hi). lia. }
  rewrite (agg_init_version _ _ Hi) in Hv'. simpl in Hl'. exists info. split; [done|]. split; [by rewrite Hp'|]. lia.
Qed.
End event_props.

(** C7.  The aggregate store is the aggregate it stands for, if its pre-save listeners refuse
    nothing: after any run of commands, reads and restarts, and also when a snapshot or its back-up
    is lost or can no longer be read, reading returns the aggregate that results from the commands
    one after the other (conflicting versions and rejected commands change nothing), and the next
    command gets the reply, and has the effect, that it has on that aggregate.  The numbers of
    commands and events are to stay within 64 bits; C8 is what a listener that refuses does. *)
Theorem aggregate_store_linearizable `{HO : !HashOrder} `{Ag : Aggregate A Cmd Storable Evt Init AErr AEnv}
    `{AL : !AggregateLaws} {V : Type} `{JA : !Json V A} `{JE : !Json V (StoredEvent Evt)}
    `{JI : !Json V (StoredEvent Init)} `{JC : !Json V (StoredCommand Storable)} `{JInfo : !Json V StoredValueInfo}
    (ls : list (A → list (StoredEvent Evt) → result AErr unit)) (i : StoredEvent Init) (a : A)
    (labs : list (option (AEnv * SentCommand Cmd))) (st : AggregateStore A Evt AErr V)
    (m : N) (env : AEnv) (now : Instant) (cmd : SentCommand Cmd)
    (Hafter : agg_store_after ls i a labs st) (Haccept : accepting ls) (Hbound : events_bounded m (length labs))
    (Hcmd : sc_handle cmd = ev_id i) :
  let cur := foldl (agg_spec_label (ev_id i)) a labs in
  (∃ st', get_latest_no_lock (ev_id i) st = Some (st', Ok cur)) ∧
  (∃ st' st'', agg_command env now cmd st = Some (st', (agg_spec (ev_id i) cur env cmd).2) ∧
     get_latest_no_lock (ev_id i) st' = Some (st'', Ok (agg_spec (ev_id i) cur env cmd).1)).
Proof.
  destruct (agg_store_after_inv _ _ _ _ _ _ Hafter Haccept Hbound) as (info&Hinv&Hp&Hl&Hv). simpl. split.
  - destruct (agg_latest_inv _ _ _ _ _ _ Hinv) as (st'&?&_). eauto.
  - destruct (agg_command_inv _ _ _ _ env now cmd Hinv Hcmd ltac:(by rewrite Hp) Hl) as (st'&info'&Hc&Hinv'&_).
    { intros evs Hpr%(proj1 Hbound). lia. }
    destruct (agg_latest_inv _ _ _ _ _ _ Hinv') as (st''&?&_). eauto.
Qed.

(** ** The access aggregate's store *)

Inductive AccessValue :=
| AvAgg (a : RepositoryAccess (RP := string_rpki) (IdCertInfo := string))
| AvEvent (e : StoredEvent (RepositoryAccessEventDetails (RP := string_rpki) (IdCertInfo := string)))
| AvInit (e : StoredEvent (RepositoryAccessInitDetails (RP := string_rpki) (IdCertInfo := string)))
| AvCmd (c : StoredCommand StorableRepositoryCommand)
| AvInfo (i : StoredValueInfo)
| AvGarbage.

#[export] Instance av_agg_json : Json AccessValue (RepositoryAccess (RP := string_rpki) (IdCertInfo := string)) :=
  {| to_json := AvAgg; from_json v := match v with AvAgg a => Some a | _ => None end; from_to_json a := eq_refl |}.
#[export] Instance av_event_json :
  Json AccessValue (StoredEvent (RepositoryAccessEventDetails (RP := string_rpki) (IdCertInfo := string))) :=
  {| to_json := AvEvent; from_json v := match v with AvEvent a => Some a | _ => None end; from_to_json a := eq_refl |}.
#[export] Instance av_init_json :
  Json AccessValue (StoredEvent (RepositoryAccessInitDetails (RP := string_rpki) (IdCertInfo := string))) :=
  {| to_json := AvInit; from_json v := match v with AvInit a => Some a | _ => None end; from_to_json a := eq_refl |}.
#[export] Instance av_cmd_json : Json AccessValue (StoredCommand StorableRepositoryCommand) :=
  {| to_json := AvCmd; from_json v := match v with AvCmd a => Some a | _ => None end; from_to_json a := eq_refl |}.
#[export] Instance av_info_json : Json AccessValue StoredValueInfo :=
  {| to_json := AvInfo; from_json v := match v with AvInfo a => Some a | _ => None end; from_to_json a := eq_refl |}.

Module AccessDemo.
Abbreviation RA := (RepositoryAccess (RP := string_rpki) (IdCertInfo := string)).
Abbreviation Store := (AggregateStore RA (RepositoryAccessEventDetails (RP := string_rpki) (IdCertInfo := string)) AccessError AccessValue).

Definition ini : StoredEvent (RepositoryAccessInitDetails (RP := string_rpki) (IdCertInfo := string)) :=
  mkStoredEvent "0" 0 (mkRaInit "id" "https://repo/rrdp/" ("rsync://repo/" : Rsync (Rpki := string_rpki))).
Definition a0 : RA := mkRepositoryAccess "0" 1 "id" ∅ ("rsync://repo/" : Rsync (Rpki := string_rpki)) "https://repo/rrdp/".
Definition admin : Actor := mkActor "admin" true.
Definition add_alice : SentCommand (RepoAccessCmdDet (RP := string_rpki) (IdCertInfo := string)) :=
  sent_command_new "0" None (RacAddPublisher "alice-id" "alice" ("rsync://repo/alice/" : Rsync (Rpki := string_rpki))) admin.
Definition add_bob : SentCommand (RepoAccessCmdDet (RP := string_rpki) (IdCertInfo := string)) :=
  sent_command_new "0" None (RacAddPublisher "bob-id" "bob" ("rsync://repo/bob/" : Rsync (Rpki := string_rpki))) admin.
Definition refusing : RA → list (StoredEvent (RepositoryAccessEventDetails (RP := string_rpki) (IdCertInfo := string))) → result AccessError unit :=
  λ _ _, Err (AePublisherDuplicate "no").
Definition a1 : RA :=
  mkRepositoryAccess "0" 2 "id" {["alice" := mkPublisher (RP := string_rpki) "alice-id" ("rsync://repo/alice/" : Rsync (Rpki := string_rpki))]}
    ("rsync://repo/" : Rsync (Rpki := string_rpki)) "https://repo/rrdp/".

(** What a call returned. *)
Definition got {E X} (r : option (Store * result E X)) : option X :=
  match r with Some (_, Ok x) => Some x | _ => None end.

Lemma bounded n : (N.of_nat n < 1000)%N → events_bounded (A := RA) 1 n.
Proof.
  intros Hn. split; [|unfold u64_max; lia]. intros a env cmd evs. simpl. unfold ra_process_command.
  destruct (sc_details cmd); unfold ra_add_publisher, ra_remove_publisher;
    destruct (has_publisher _ _); simpl; intros [= <-]; done.
Qed.

(** A run: a publisher is added, the process restarts, the snapshot is corrupt. *)
Lemma access_demo_run : ∃ st : Store, agg_store_after [] ini a0 [Some (tt, add_alice); None; None] st.
Proof.
  destruct (agg_add_inv (empty_agg_store [] : Store) ini a0 (seconds 1)) as (st0&Hadd&Hinv&Hl); [done..|].
  injection Hl as Hp _.
  destruct (agg_command_inv _ _ _ _ tt (seconds 2) add_alice Hinv eq_refl ltac:(by rewrite Hp)) as (st1&info&Hc&_); [done| |].
  { intros evs Hpr. by apply (proj1 (bounded 1 ltac:(done))) in Hpr as ?; simpl; unfold u64_max; lia. }
  eexists. split; [done|]. split; [done|]. exists (seconds 1), st0. split; [done|].
  eapply ags_cons; [by eapply ag_command|]. eapply ags_cons; [apply ag_restart|].
  eapply ags_cons; [|constructor]. apply ag_lose, (lost_corrupt _ _ (key_for_snapshot "0") AvGarbage); [by left|done].
Qed.
End AccessDemo.

Lemma aggregate_store_linearizable_witness :
  ∃ st st' : AccessDemo.Store, get_latest_no_lock "0" st = Some (st', Ok AccessDemo.a1).
Proof.
  destruct AccessDemo.access_demo_run as [st Hst]. exists st.
  exact (proj1 (aggregate_store_linearizable [] AccessDemo.ini AccessDemo.a0 _ st 1 tt (seconds 3)
    AccessDemo.add_alice Hst (λ _ _, eq_refl) (AccessDemo.bounded 3 eq_refl) eq_refl)).
Defined.

(** ** Recorded commands *)

(**  A command that the aggregate rejects leaves the aggregate as it is and is on record: the
    reply is the aggregate's error, the stored command can be read back under its key with that
    error and the next sequence number, and later commands continue after that number. *)
Theorem rejected_command_recorded `{HO : !HashOrder} `{Ag : Aggregate A Cmd Storable Evt Init AErr AEnv}
    `{AL : !AggregateLaws} {V : Type} `{JA : !Json V A} `{JE : !Json V (StoredEvent Evt)}
    `{JI : !Json V (StoredEvent Init)} `{JC : !Json V (StoredCommand Storable)} `{JInfo : !Json V StoredValueInfo}
    (st : AggregateStore A Evt AErr V) (h : string) (a : A) (info : StoredValueInfo) (env : AEnv) (now : Instant)
    (cmd : SentCommand Cmd) (e : AErr)
    (Hinv : agg_inv st h a info) (Hh : sc_handle cmd = h) (Hlast : (last_command info < u64_max)%N)
    (Hv : version_conflict a cmd = false) (Hrej : agg_process_command a env cmd = Err e) :
  let c := finish_with_error (builder_for now a (last_command info + 1) cmd) (agg_err_display e) in
  ∃ st', agg_command env now cmd st = Some (st', CrError e) ∧
    get_command h (key_for_stored c) st' = Some (st', Ok c) ∧
    ∃ info', agg_inv st' h a info' ∧ last_command info' = (last_command info + 1)%N.
Proof.
  subst h. simpl. unfold agg_command, reply_of, command_body.
  rewrite (ste_bind_Some _ _ _ st info).
  2: { unfold get_info, ste_gets. by rewrite (ai_info _ _ _ _ _ _ Hinv). }
  destruct (agg_latest_inv _ _ _ _ _ _ Hinv) as (st1&Hg&Hinv1&_).
  rewrite (ste_bind_Some _ _ _ _ _ Hg). fold (version_conflict a cmd).
  rewrite Hv, Hrej, u64_succ_small by done. fold (builder_for now a (last_command info + 1) cmd).
  set (c := finish_with_error _ _).
  erewrite ste_bind_Some; [|eapply store_command_Ok; [exact Hinv1|done|done]].
  erewrite ste_bind_Some; [|done]. eexists. split; [done|]. split.
  - unfold get_command, kv_get, put. cbn [as_kv as_with_kv kv_files].
    rewrite lookup_insert_ne by done. by rewrite lookup_insert_eq, from_to_json.
  - eexists. split; [by eapply failed_command_inv|done].
Qed.

Lemma rejected_command_recorded_witness :
  ∃ st st' : AccessDemo.Store, ∃ info,
    agg_inv st "0" AccessDemo.a0 info ∧
    agg_command tt (seconds 5)
      (sent_command_new "0" None (RacRemovePublisher (RP := string_rpki) "bob") AccessDemo.admin) st
    = Some (st', CrError (AePublisherUnknown "bob")).
Proof.
  destruct (agg_add_inv (empty_agg_store [] : AccessDemo.Store) AccessDemo.ini AccessDemo.a0 (seconds 1))
    as (st0&_&Hinv&_); [done..|].
  destruct (rejected_command_recorded st0 "0" AccessDemo.a0 _ tt (seconds 5)
    (sent_command_new "0" None (RacRemovePublisher (RP := string_rpki) "bob") AccessDemo.admin)
    (AePublisherUnknown "bob") Hinv eq_refl eq_refl eq_refl eq_refl) as (st'&?&_).
  exists st0, st'. eexists. split; [exact Hinv|done].
Defined.

Section history.
Context `{HO : !HashOrder} `{Ag : Aggregate A Cmd Storable Evt Init AErr AEnv}.
Context {V : Type} `{JA : !Json V A} `{JE : !Json V (StoredEvent Evt)} `{JI : !Json V (StoredEvent Init)}
  `{JC : !Json V (StoredCommand Storable)} `{JInfo : !Json V StoredValueInfo}.

Lemma history_loop_page (kv : KeyValueStore V) id offset rows (f : CommandKey → StoredCommand Storable) ks :
  ∀ skipped total commands,
  (∀ k, k ∈ ks → kv_get kv (key_for_command id k) = Ok (Some (f k))) →
  skipped ≤ offset →
  history_loop kv id offset rows skipped total commands ks =
    Ok (total + length ks, commands ++ take (rows - length commands) (drop (offset - skipped) (f <$> ks))).
Proof.
  induction ks as [|k ks IH]; intros skipped total commands Hget Hle; simpl.
  - by rewrite drop_nil, take_nil, app_nil_r, Nat.add_0_r.
  - assert (∀ k, k ∈ ks → kv_get kv (key_for_command id k) = Ok (Some (f k))) as Hget'.
    { intros k' Hk'. apply Hget. by right. }
    case_bool_decide as Hskip.
    { rewrite IH by (done || lia). rewrite Nat.add_succ_r.
      replace (offset - skipped) with (S (offset - S skipped)) by lia. done. }
    replace (offset - skipped) with 0 by lia. rewrite drop_0. case_bool_decide as Hrows.
    + rewrite (Hget k) by (by left). rewrite IH by (done || lia).
      replace (offset - skipped) with 0 by lia. rewrite drop_0, length_app, Nat.add_succ_r. simpl.
      replace (rows - length commands) with (S (rows - (length commands + 1))) by lia. simpl.
      by rewrite <-app_assoc.
    + rewrite IH by (done || lia). replace (rows - length commands) with 0 by lia.
      by rewrite !take_0, Nat.add_succ_r.
Qed.
End history.

(** Paging through the history: when the command files can be read, the reply to a history
    request counts every command that meets the criteria, and holds the page of at most
    [rows_limit] of them that starts at the offset, in the order in which they were processed. *)
Theorem command_history_pages `{HO : !HashOrder} `{Ag : Aggregate A Cmd Storable Evt Init AErr AEnv}
    {V : Type} `{JC : !Json V (StoredCommand Storable)}
    (st : AggregateStore A Evt AErr V) (id : string) (crit : CommandHistoryCriteria)
    (f : CommandKey → StoredCommand Storable) (files : list KeyStoreKey)
    (Hkeys : keys (as_kv st) (Some id) "command--" = Ok files)
    (Hread : ∀ key k, key ∈ files → command_key_from_str (name key) = Ok k → matches_crit k crit = true →
      kv_get (as_kv st) (key_for_command id k) = Ok (Some (f k))) :
  ∃ ks, command_keys_ascending id crit st = Some (st, Ok ks) ∧ StronglySorted ck_le ks ∧
    (∀ k, k ∈ ks ↔ matches_crit k crit = true ∧ ∃ key, key ∈ files ∧ command_key_from_str (name key) = Ok k) ∧
    command_history id crit st = Some (st, Ok (crit_offset crit, length ks,
      match crit_rows_limit crit with
      | Some limit => take limit (drop (crit_offset crit) (f <$> ks))
      | None => drop (crit_offset crit) (f <$> ks)
      end)).
Proof.
  set (ks := merge_sort ck_le (omap (λ key, match command_key_from_str (name key) with
    | Ok k => if matches_crit k crit then Some k else None | Err _ => None end) files)).
  assert (command_keys_ascending id crit st = Some (st, Ok ks)) as Hasc.
  { unfold command_keys_ascending. erewrite ste_bind_Some; [|unfold read_kv, ste_gets; by rewrite Hkeys]. done. }
  assert (∀ k, k ∈ ks ↔ matches_crit k crit = true ∧ ∃ key, key ∈ files ∧ command_key_from_str (name key) = Ok k) as Hin.
  { intros k. unfold ks. rewrite merge_sort_Permutation, list_elem_of_omap. split.
    - intros (key&Hkey&Hk). destruct (command_key_from_str (name key)) as [k'|] eqn:Hk'; [|done].
      destruct (matches_crit k' crit) eqn:Hm; simplify_eq. eauto.
    - intros (Hm&key&Hkey&Hk). exists key. by rewrite Hk, Hm. }
  exists ks. split; [done|]. split; [apply StronglySorted_merge_sort; apply _|]. split; [done|].
  unfold command_history. rewrite (ste_bind_Some _ _ _ _ _ Hasc). unfold ste_gets.
  rewrite (history_loop_page _ _ _ _ f).
  - simpl. rewrite !Nat.sub_0_r. destruct (crit_rows_limit crit); [done|].
    by rewrite take_ge by (rewrite length_drop, length_fmap; lia).
  - intros k (Hm&key&Hkey&Hk)%Hin. by eapply Hread.
  - lia.
Qed.

Module HistoryDemo.
Definition cmd (seq : N) (t : Z) (name : string) : StoredCommand StorableRepositoryCommand :=
  mkStoredCommand "user:admin" (seconds t) "0" seq seq (SrcAddPublisher name) (EffectSuccess [seq]).
Definition key (c : StoredCommand StorableRepositoryCommand) : CommandKey :=
  command_key_new (cmd_sequence c) (cmd_time c) (src_label (cmd_details c)).
Definition files (c1 c2 : StoredCommand StorableRepositoryCommand) : gmap KeyStoreKey AccessValue :=
  {[ key_for_command "0" (key c1) := AvCmd c1; key_for_command "0" (key c2) := AvCmd c2;
     key_for_info "0" := AvInfo (mkInfo 3 2 2 (seconds 9)) ]}.
Definition st : AccessDemo.Store :=
  mkAggStore (mkKv (files (cmd 2 9 "bob") (cmd 1 8 "alice")) {["0" := tt]}) ∅ [] [].
Definition crit : CommandHistoryCriteria := mkCriteria None None None None None 1 (Some 5).
Definition read (k : CommandKey) : StoredCommand StorableRepositoryCommand :=
  if bool_decide (ck_sequence k = 1%N) then cmd 1 8 "alice" else cmd 2 9 "bob".
End HistoryDemo.

Lemma command_history_pages_witness :
  command_history (JC := av_cmd_json) "0" HistoryDemo.crit HistoryDemo.st
  = Some (HistoryDemo.st, Ok (1, 2, [HistoryDemo.cmd 2 9 "bob"])).
Proof.
  destruct (keys (as_kv HistoryDemo.st) (Some "0") "command--") as [l|] eqn:Hk; [|by vm_compute in Hk].
  vm_compute in Hk. injection Hk as <-.
  destruct (command_history_pages (JC := av_cmd_json) HistoryDemo.st "0" HistoryDemo.crit HistoryDemo.read _ eq_refl)
    as (ks&Hks&_&_&->).
  - intros key k Hin Hp _. vm_compute in Hin.
    repeat (apply elem_of_cons in Hin as [->|Hin]; [vm_compute in Hp; injection Hp as <-; reflexivity|]).
    by apply elem_of_nil in Hin.
  - apply (f_equal AccessDemo.got) in Hks. vm_compute in Hks. injection Hks as <-. reflexivity.
Defined.

(** ** Incomplete transactions *)

(** C8.  A command that a pre-save listener refuses has already been recorded.  Take any store
    after a run with listeners that refused nothing, and a listener that refuses a command's events:
    the reply is the listener's error, yet the command can be read back and says that it succeeded
    with its events; none of those is there, the aggregate and the number of the last command are as
    before; and whatever command with the same label comes next within that second, if it has
    events, finds its key taken, on which the process exits. *)
Theorem refused_command_recorded_as_success `{HO : !HashOrder} `{Ag : Aggregate A Cmd Storable Evt Init AErr AEnv}
    `{AL : !AggregateLaws} {V : Type} `{JA : !Json V A} `{JE : !Json V (StoredEvent Evt)}
    `{JI : !Json V (StoredEvent Init)} `{JC : !Json V (StoredCommand Storable)} `{JInfo : !Json V StoredValueInfo}
    (ls : list (A → list (StoredEvent Evt) → result AErr unit)) (l : A → list (StoredEvent Evt) → result AErr unit)
    (i : StoredEvent Init) (a : A) (labs : list (option (AEnv * SentCommand Cmd))) (st : AggregateStore A Evt AErr V)
    (m : N) (env : AEnv) (now : Instant) (cmd : SentCommand Cmd) (ev : StoredEvent Evt) (evs : list (StoredEvent Evt)) (e : AErr)
    (Hafter : agg_store_after ls i a labs st) (Haccept : accepting ls) (Hbound : events_bounded m (length labs))
    (Hcmd : sc_handle cmd = ev_id i) :
  let h := ev_id i in
  let cur := foldl (agg_spec_label h) a labs in
  version_conflict cur cmd = false → agg_process_command cur env cmd = Ok (ev :: evs) →
  check_events h (agg_version cur) (ev :: evs) = Ok tt → l (apply_all cur (ev :: evs)) (ev :: evs) = Err e →
  ∃ st' c info, agg_command env now cmd (add_pre_save_listener st l) = Some (st', CrError e) ∧
    cmd_details c = agg_store (sc_details cmd) ∧ get_command h (key_for_stored c) st' = Some (st', Ok c) ∧
    cmd_effect c = EffectSuccess (ev_version <$> ev :: evs) ∧
    (∀ x, x ∈ ev :: evs → get_event h (ev_version x) st' = Some (st', Ok None)) ∧
    get_info h st = Some (st, Ok info) ∧ get_info h st' = Some (st', Ok info) ∧
    (∃ st'', get_latest_no_lock h st' = Some (st'', Ok cur)) ∧
    ∀ env' now' cmd' ev' evs', sc_handle cmd' = h → version_conflict cur cmd' = false →
      agg_process_command cur env' cmd' = Ok (ev' :: evs') → check_events h (agg_version cur) (ev' :: evs') = Ok tt →
      agg_label (agg_store (sc_details cmd')) = agg_label (agg_store (sc_details cmd)) →
      timestamp now' = timestamp now → ∃ st'', agg_command env' now' cmd' st' = Some (st'', CrExit).
Proof.
  intros h cur Hv Hproc Hck Href.
  destruct (agg_store_after_inv _ _ _ _ _ _ Hafter Haccept Hbound) as (info&Hinv&Hp&Hl&Hw). fold h cur in Hinv, Hw.
  destruct (refused_command (add_pre_save_listener st l) h cur info env now cmd ev evs e)
    as (st'&Hrun&Hlog); [by apply agg_inv_add_listener|done..|simpl; by rewrite Hp, for_each_accepting|].
  set (c := finish_with_events _ _) in Hlog.
  exists st', c, info. split; [done|]. split; [done|]. split.
  { destruct (ai_commands _ _ _ _ _ _ Hlog) as [_ Hc]. unfold get_command, kv_get. by rewrite Hc, from_to_json. }
  split; [done|]. split.
  { intros x Hx. eapply no_event_past_end; [done|]. eapply check_events_versions; [done| |done].
    apply (proj1 Hbound) in Hproc. lia. }
  unfold get_info, ste_gets. rewrite (ai_info _ _ _ _ _ _ Hlog), (ai_info _ _ _ _ _ _ Hinv). split; [done|]. split; [done|]. split.
  { destruct (agg_latest_inv _ _ _ _ _ _ Hlog) as (st''&?&_). eauto. }
  intros env' now' cmd' ev' evs' Hh' Hv' Hproc' Hck' Hlabel Ht. eapply repeated_command_exits; [done..|].
  unfold command_key_new. by rewrite Hlabel, Ht.
Qed.

Lemma refused_command_recorded_as_success_witness :
  ∃ (st st' st'' : AccessDemo.Store) c,
    agg_command tt (seconds 5) AccessDemo.add_bob (add_pre_save_listener st AccessDemo.refusing)
    = Some (st', CrError (AePublisherDuplicate "no")) ∧
    get_command "0" (key_for_stored (A := AccessDemo.RA) c) st' = Some (st', Ok c) ∧ cmd_effect c = EffectSuccess [2%N] ∧
    agg_command tt (seconds 5) AccessDemo.add_bob st' = Some (st'', CrExit).
Proof.
  destruct AccessDemo.access_demo_run as [st Hst].
  destruct (refused_command_recorded_as_success [] AccessDemo.refusing AccessDemo.ini AccessDemo.a0 _ st 1
    tt (seconds 5) AccessDemo.add_bob _ _ (AePublisherDuplicate "no") Hst (λ _ _, eq_refl) (AccessDemo.bounded 3 eq_refl) eq_refl eq_refl eq_refl eq_refl eq_refl)
    as (st'&c&_&Hrun&_&Hget&Heff&_&_&_&_&Hexit).
  destruct (Hexit tt (seconds 5) AccessDemo.add_bob _ _ eq_refl eq_refl eq_refl eq_refl eq_refl eq_refl) as [st'' Hexit'].
  exists st, st', st'', c. split; [exact Hrun|]. split; [exact Hget|]. split; [exact Heff|exact Hexit'].
Defined.

Module Incomplete.
Definition after {X} (r : option (AccessDemo.Store * X)) : AccessDemo.Store :=
  match r with Some (st, _) => st | None => empty_agg_store [] end.
(** The process stopped after the command and its event were written, before the snapshot and
    the information with the last numbers. *)
Definition st0 : AccessDemo.Store := after (agg_add AccessDemo.ini (seconds 1) (empty_agg_store [])).
Definition event : StoredEvent (RepositoryAccessEventDetails (RP := string_rpki) (IdCertInfo := string)) :=
  mkStoredEvent "0" 1 (RaePublisherAdded (RP := string_rpki) "alice"
    (mkPublisher "alice-id" ("rsync://repo/alice/" : Rsync (Rpki := string_rpki)))).
Definition st1 : AccessDemo.Store := agg_restart (after (store_event event st0)).
Definition st2 : AccessDemo.Store := after (warm_aggregate "0" st1).
(** Later the snapshots are lost. *)
Definition lose (st : AccessDemo.Store) : AccessDemo.Store :=
  as_with_kv st (mkKv (delete (key_for_snapshot "0") (delete (key_for_backup_snapshot "0") (kv_files (as_kv st))))
                   (kv_dirs (as_kv st))).
Abbreviation handles st := (ra_publisher_handles <$> AccessDemo.got (get_latest_no_lock "0" st)).
End Incomplete.

(**  Warming up archives a surplus event as not having happened, but applies it all the same:
    afterwards the event is gone from the log, while the aggregate in memory and the snapshot that
    was saved include it, so that the aggregate read back depends on whether a snapshot is left. *)
Theorem warm_aggregate_keeps_surplus_event :
  AccessDemo.got (warm_aggregate "0" Incomplete.st1) = Some tt ∧
  AccessDemo.got (get_event "0" 1 Incomplete.st2) = Some None ∧
  last_event <$> AccessDemo.got (get_info "0" Incomplete.st2) = Some 0%N ∧
  Incomplete.handles Incomplete.st2 = Some ["alice"] ∧
  Incomplete.handles (agg_restart Incomplete.st2) = Some ["alice"] ∧
  Incomplete.handles (Incomplete.lose (agg_restart Incomplete.st2)) = Some [].
Proof. repeat split; vm_compute; reflexivity. Qed.

(** ** The manager *)

(** C9.  The two halves of the publication server agree: after any run of the manager's operations,
    with whatever replies, exactly the publishers with access have content, each publisher's base
    URI is the one derived from its name, and every object of a publisher lies below it. *)
Theorem manager_halves_agree `{RP : !Rpki, HO : !HashOrder} {IdCertInfo : Type} (rsync_base : Rsync)
    (m m' : RepositoryManager (IdCertInfo := IdCertInfo))
    (Hinit : manager_initial rsync_base m) (Hrun : rtc manager_step m m') (p : string) :
  (has_publisher (rm_access m') p = true ↔ is_Some (publishers (rm_content m') !! p)) ∧
  ∀ pub co h e, get_publisher (rm_access m') p = Ok pub → publishers (rm_content m') !! p = Some co →
    co !! h = Some e →
    pub_base_uri pub = jail_of rsync_base p ∧ is_parent_of (pub_base_uri pub) (pe_uri e) = true.
Proof.
  destruct (manager_run _ _ _ Hinit Hrun) as [[Hb Hboth Hjail] Hreach]. split.
  - unfold has_publisher. by rewrite bool_decide_eq_true.
  - intros pub co h e Hget Hco He. unfold get_publisher in Hget.
    destruct (ra_publishers (rm_access m') !! p) as [pub'|] eqn:Hp; simpl in Hget; [|done].
    injection Hget as ->. rewrite (Hjail _ _ Hp). split; [done|].
    exact (proj1 (jailed_reachable _ _ _ _ _ Hreach p co h e Hco He)).
Qed.

Module ManagerDemo.
Definition m0 : RepositoryManager (RP := string_rpki) (IdCertInfo := string) :=
  mkManager AccessDemo.a0 (content_init "https://repo/rrdp/" "rsync://repo/" "session-1" "/data/repo" (seconds 0) "r0") [].
Definition env (t : Z) : Env := mkEnv (seconds t) "r" "s".
Definition m1 := (create_publisher m0 (env 1) "alice-id" "alice" AccessDemo.admin).1.
Definition m2 := (rfc8181_message m1 (env 2) "alice"
  (QueryDelta [PdPublish None ("rsync://repo/alice/a.cer" : Rsync (Rpki := string_rpki)) "AAAA"])).1.

Lemma manager_demo_run : rtc manager_step m0 m2.
Proof.
  eapply rtc_l; [by eapply (ms_create m0 m1), surjective_pairing|].
  eapply rtc_l; [by eapply (ms_message m1 m2), surjective_pairing|]. done.
Qed.
End ManagerDemo.

Lemma manager_halves_agree_witness :
  has_publisher (rm_access ManagerDemo.m2) "alice" = true.
Proof.
  apply (proj1 (manager_halves_agree ("rsync://repo/" : Rsync (Rpki := string_rpki)) ManagerDemo.m0 ManagerDemo.m2
    ltac:(split; [done|]; split; [done|]; by repeat eexists) ManagerDemo.manager_demo_run "alice")).
  apply (bool_decide_eq_true_1 (is_Some _)). vm_compute. reflexivity.
Defined.
