(* ===== verification/RepositoryProps.v ===== *)
(** * Properties of the publication server

    The theorems about [pubd/repository.rs] and [commons/api/rrdp.rs], with an example run
    (a publisher is added, publishes, updates, and two RRDP updates are made) on which they
    are evaluated. *)

From stdpp Require Import base gmap strings list relations.
From S2P Require Import Prelude Text WalStore WalFacts Rpki Rrdp RrdpFacts Repository RepositoryFacts RepositoryInv RrdpClient.

(** ** An example run *)

Module Demo.
Definition jail (p : string) : Rsync (Rpki := string_rpki) := "rsync://repo/" +:+ p +:+ "/".
Definition valid_handle (p : string) : Prop := has_slash p = false.

Lemma jails_disjoint p q (u : Rsync (Rpki := string_rpki)) :
  valid_handle p → valid_handle q →
  is_parent_of (jail p) u = true → is_parent_of (jail q) u = true → p = q.
Proof.
  intros Hp Hq Hu Hu'. simpl in Hu, Hu'. unfold starts_with in *.
  apply bool_decide_eq_true in Hu as [r Hr], Hu' as [r' Hr'].
  apply strip_prefix_Some in Hr, Hr'. unfold jail in *. rewrite Hr in Hr'.
  rewrite !string_app_assoc in Hr'. apply string_app_inj in Hr'.
  by eapply before_slash_unique.
Qed.

Definition cfg : RrdpUpdatesConfig := dflt_rrdp_updates_config.
Definition env (now : Z) (random : string) : Env := mkEnv (seconds now) random "session-2".

Definition c0 : RepositoryContent :=
  content_init "https://repo/rrdp/" "rsync://repo/" "session-1" "/data/repo" (seconds 0) "r0".
Definition c1 : RepositoryContent := exec c0 (env 1 "r1") (AddPublisher "0" "alice").
Definition q1 : list PublishDeltaElement := [PdPublish None "rsync://repo/alice/a.cer" "AAAA"].
Definition c2 : RepositoryContent := exec c1 (env 2 "r2") (Publish "0" "alice" (delta_elements_from q1)).
Definition c3 : RepositoryContent := exec c2 (env 3 "r3") (CreateRrdpDelta "0" cfg).
Definition q2 : list PublishDeltaElement :=
  [PdUpdate None "rsync://repo/alice/a.cer" "A2A2" (to_hash (Rpki := string_rpki) "AAAA");
   PdPublish None "rsync://repo/alice/b.roa" "BBBB"].
Definition c4 : RepositoryContent := exec c3 (env 4 "r4") (Publish "0" "alice" (delta_elements_from q2)).
Definition c5 : RepositoryContent := exec c4 (env 5 "r5") (CreateRrdpDelta "0" cfg).

Lemma step01 strict resets : repo_step jail valid_handle strict resets c0 c1.
Proof. by apply rs_add. Qed.
Lemma step12 strict resets : repo_step jail valid_handle strict resets c1 c2.
Proof.
  apply (rs_publish _ _ _ _ _ _ "0" "alice" q1); [by vm_compute|].
  intros _. apply admissibleb_sound. by vm_compute.
Qed.
Lemma step23 strict resets : repo_step jail valid_handle strict resets c2 c3.
Proof. by apply rs_rrdp. Qed.
Lemma step34 strict resets : repo_step jail valid_handle strict resets c3 c4.
Proof.
  apply (rs_publish _ _ _ _ _ _ "0" "alice" q2); [by vm_compute|].
  intros _. apply admissibleb_sound. by vm_compute.
Qed.
Lemma step45 strict resets : repo_step jail valid_handle strict resets c4 c5.
Proof. by apply rs_rrdp. Qed.

Lemma reachable_c2 strict resets : reachable jail valid_handle strict resets c2.
Proof.
  exists c0. split; [repeat eexists|].
  eapply rtc_l; [apply step01|]. eapply rtc_once, step12.
Qed.
Lemma reachable_c3 strict resets : reachable jail valid_handle strict resets c3.
Proof.
  destruct (reachable_c2 strict resets) as (c&H0&Hr). exists c. split; [done|].
  eapply rtc_r; [done|apply step23].
Qed.
Lemma reachable_c4 strict resets : reachable jail valid_handle strict resets c4.
Proof.
  destruct (reachable_c3 strict resets) as (c&H0&Hr). exists c. split; [done|].
  eapply rtc_r; [done|apply step34].
Qed.
Lemma steps35 strict resets : rtc (repo_step jail valid_handle strict resets) c3 c5.
Proof. eapply rtc_l; [apply step34|]. eapply rtc_once, step45. Qed.
End Demo.

(** ** The snapshot *)

(** C1.  An RRDP update publishes exactly the publishers' objects: in any state reached by
    adding publishers, removing publishers of which no change is staged ([removable]), publishing
    verified and admissible deltas, earlier RRDP updates and session resets, the update that
    [create_rrdp_delta] makes leaves nothing staged and a snapshot that holds an object (URI and
    content) if and only if some publisher does.  A delta is [admissible] if its elements are for
    distinct objects, it publishes no object over one of the publisher, uses no content that is in
    use at another URI, and withdraws no object of which a change is staged; the server does not
    check these conditions, nor that of removals.  The base URIs of two publishers do not overlap. *)
Theorem rrdp_update_exact `{RP : !Rpki, HO : !HashOrder} (jail : string → Rsync)
    (valid_handle : string → Prop) (resets : bool) (c : RepositoryContent) (env : Env) (hdl : string)
    (cfg : RrdpUpdatesConfig)
    (jails_disjoint : ∀ p q u, valid_handle p → valid_handle q →
      is_parent_of (jail p) u = true → is_parent_of (jail q) u = true → p = q)
    (Hreach : reachable jail valid_handle true resets c)
    (Hneeded : update_rrdp_needed (rrdp c) (env_now env) cfg = UpdateYes) :
  let c' := exec c env (CreateRrdpDelta hdl cfg) in
  staged_elements (rrdp c') = ∅ ∧
  ∀ u x, holds (sd_current_objects (snapshot (rrdp c'))) u x ↔ published c' u x.
Proof.
  destruct (reachable_inv _ _ jails_disjoint _ _ Hreach) as (vs&mS&mP&Hinv). simpl.
  assert (exec c env (CreateRrdpDelta hdl cfg) =
    content_apply c [RrdpUpdatedChange (update_rrdp (rrdp c) (env_now env) (env_random env) cfg)]) as ->.
  { apply exec_changes; [|done]. simpl. unfold create_rrdp_delta. by rewrite Hneeded. }
  split; [done|]. intros u x. set (upd := update_rrdp _ _ _ _).
  pose proof (ri_rrdp_updated _ _ _ _ _ _ upd Hinv) as Hinv'.
  rewrite (ri_published _ _ _ _ _ _ u x Hinv'). apply represents_holds, Hinv'.
Qed.

Lemma rrdp_update_exact_witness :
  staged_elements (rrdp Demo.c5) = ∅ ∧
  ∀ u x, holds (sd_current_objects (snapshot (rrdp Demo.c5))) u x ↔ published Demo.c5 u x.
Proof.
  apply (rrdp_update_exact Demo.jail Demo.valid_handle true Demo.c4 (Demo.env 5 "r5") "0" Demo.cfg
    Demo.jails_disjoint (Demo.reachable_c4 true true)).
  by vm_compute.
Defined.

(** C2.  Relying parties catch up: a client that built its objects from the snapshot of an
    earlier state and applies, in the order of their serials, the delta files the server still
    keeps for the serials since then, accepts every one of them (RFC 8182: no publish over an
    object it has, every update and withdraw names the hash it has) and ends with exactly the
    objects of the current snapshot.  This is for states and runs as in C1 (admissible deltas, no
    publisher removed while a change of its objects is staged), without a session reset between
    the two states, and for as many kept deltas as there are serials in between. *)
Theorem rrdp_client_catches_up `{RP : !Rpki, HO : !HashOrder} (jail : string → Rsync)
    (valid_handle : string → Prop) (c c' : RepositoryContent)
    (jails_disjoint : ∀ p q u, valid_handle p → valid_handle q →
      is_parent_of (jail p) u = true → is_parent_of (jail q) u = true → p = q)
    (Hreach : reachable jail valid_handle true true c)
    (Hsteps : rtc (repo_step jail valid_handle true false) c c')
    (Hkept : N.to_nat (serial (rrdp c') - serial (rrdp c)) ≤ length (deltas (rrdp c'))) :
  client_run (client_view (sd_current_objects (snapshot (rrdp c))))
    (reverse (take (N.to_nat (serial (rrdp c') - serial (rrdp c))) (dd_elements <$> deltas (rrdp c'))))
  = Some (client_view (sd_current_objects (snapshot (rrdp c')))).
Proof.
  destruct (reachable_inv _ _ jails_disjoint _ _ Hreach) as (vs&mS&mP&Hinv).
  destruct (catches_up_steps _ _ jails_disjoint _ _ _ _ _ Hinv Hsteps) as (vs'&mS'&mP'&Hinv'&_&Hcu).
  rewrite (client_view_represents _ mS) by apply Hinv.
  rewrite (client_view_represents _ mS') by apply Hinv'. by apply Hcu.
Qed.

Lemma rrdp_client_catches_up_witness :
  client_run (client_view (sd_current_objects (snapshot (rrdp Demo.c3))))
    (reverse (take 1 (dd_elements <$> deltas (rrdp Demo.c5))))
  = Some (client_view (sd_current_objects (snapshot (rrdp Demo.c5)))).
Proof.
  apply (rrdp_client_catches_up Demo.jail Demo.valid_handle Demo.c3 Demo.c5 Demo.jails_disjoint
    (Demo.reachable_c3 true true) (Demo.steps35 true false)).
  vm_compute. lia.
Defined.

(** C3.  Publishers stay in their jail: in every state reached with verified deltas, whether
    or not they are admissible, each object of a publisher lies under the publisher's base URI
    and is filed under the hash of its content. *)
Theorem publishers_stay_in_jail `{RP : !Rpki, HO : !HashOrder} (jail : string → Rsync)
    (valid_handle : string → Prop) (c : RepositoryContent)
    (Hreach : reachable jail valid_handle false true c)
    (p : string) (co : CurrentObjects) (h : Hash) (e : PublishElement)
    (Hp : publishers c !! p = Some co) (He : co !! h = Some e) :
  is_parent_of (jail p) (pe_uri e) = true ∧ h = to_hash (pe_base64 e).
Proof. exact (jailed_reachable _ _ _ _ _ Hreach p co h e Hp He). Qed.

Lemma publishers_stay_in_jail_witness :
  is_parent_of (Demo.jail "alice") "rsync://repo/alice/a.cer" = true.
Proof.
  exact (proj1 (publishers_stay_in_jail Demo.jail Demo.valid_handle Demo.c2 (Demo.reachable_c2 false true)
    "alice" {["sha256:AAAA" := mkPublishElement (RP := string_rpki) "AAAA" "rsync://repo/alice/a.cer"]}
    "sha256:AAAA" (mkPublishElement (RP := string_rpki) "AAAA" "rsync://repo/alice/a.cer")
    eq_refl eq_refl)).
Defined.

(** The deltas listed in the notification form the contiguous run of serials that ends with
    the current one, newest first, in every reachable state. *)
Theorem delta_serials_contiguous `{RP : !Rpki, HO : !HashOrder} (jail : string → Rsync)
    (valid_handle : string → Prop) (c : RepositoryContent)
    (Hreach : reachable jail valid_handle false true c) (i : nat) (d : DeltaData)
    (Hi : deltas (rrdp c) !! i = Some d) :
  (dd_serial d + N.of_nat i = serial (rrdp c))%N.
Proof. by apply (serials_reachable _ _ _ _ _ Hreach). Qed.

Lemma delta_serials_contiguous_witness :
  (dd_serial (mkDeltaData (RP := string_rpki) "r3" 2 (seconds 3)
     (mkDeltaElements [mkPublishElement "AAAA" "rsync://repo/alice/a.cer"] [] [])) + 0 = serial (rrdp Demo.c3))%N.
Proof.
  exact (delta_serials_contiguous Demo.jail Demo.valid_handle Demo.c3 (Demo.reachable_c3 false true) 0 _ eq_refl).
Defined.

(** ** Verifying deltas, listing objects *)

Definition delta_error_uri `{RP : !Rpki} (e : PublicationDeltaError) : Rsync :=
  match e with UriOutsideJail u _ | ObjectAlreadyPresent u | NoObjectForHashAndOrUri u => u end.

(** C4.  [verify_delta] accepts a delta exactly when every element is inside the jail, no published
    content is already among the objects, and every update and withdraw names the hash of an object
    that is filed at that URI; a rejection names the URI of an element that fails this. *)
Theorem verify_delta_correct `{RP : !Rpki, HO : !HashOrder} (co : CurrentObjects) (d : DeltaElements)
    (jail : Rsync) :
  match verify_delta co d jail with
  | Ok _ => Forall (verified co jail) (delta_ops d)
  | Err e => Exists (λ el, el_uri el = delta_error_uri e ∧ ¬ verified co jail el) (delta_ops d)
  end.
Proof.
  destruct (verify_delta co d jail) as [[]|e] eqn:Hv; [by apply verify_delta_Ok|].
  unfold verify_delta in Hv. unfold delta_ops. rewrite !Exists_app, !Exists_fmap, !Exists_exists.
  destruct (for_each (verify_publish co jail) _) as [[]|e1] eqn:H1; simpl in Hv; simplify_eq.
  1: destruct (for_each (verify_update co jail) _) as [[]|e2] eqn:H2; simpl in Hv; simplify_eq.
  - right. right. apply for_each_Err in Hv as (l1&w&l2&->&_&Hw). exists w. split; [set_solver|].
    unfold verify_withdraw in Hw. unfold verified; simpl.
    destruct (is_parent_of _ _); simplify_eq/=; [|naive_solver].
    destruct (has_match _ _ _); simplify_eq/=. naive_solver.
  - right. left. apply for_each_Err in H2 as (l1&u&l2&->&_&Hu). exists u. split; [set_solver|].
    unfold verify_update in Hu. unfold verified; simpl.
    destruct (is_parent_of _ _); simplify_eq/=; [|naive_solver].
    destruct (has_match _ _ _); simplify_eq/=. naive_solver.
  - left. apply for_each_Err in H1 as (l1&p&l2&->&_&Hp). exists p. split; [set_solver|].
    unfold verify_publish in Hp. unfold verified; simpl.
    destruct (is_parent_of _ _); simplify_eq/=; [|naive_solver].
    destruct (co !! _); simplify_eq/=. naive_solver.
Qed.

(** A list query answers with exactly the publisher's objects: a pair of URI and hash is
    listed if and only if the publisher has an object at that URI with that content hash, nothing
    is listed twice, and an unknown publisher gets an error. *)
Theorem list_reply_exact `{RP : !Rpki, HO : !HashOrder} (jail : string → Rsync)
    (valid_handle : string → Prop) (c : RepositoryContent)
    (Hreach : reachable jail valid_handle false true c) (p : string) :
  match list_reply c p with
  | Ok l => NoDup l ∧ ∃ co, publishers c !! p = Some co ∧
      ∀ u h, (u, h) ∈ l ↔ ∃ x, holds co u x ∧ h = to_hash x
  | Err e => e = PublisherUnknown p ∧ publishers c !! p = None
  end.
Proof.
  pose proof (jailed_reachable _ _ _ _ _ Hreach p) as Hj. unfold list_reply, objects_for_publisher.
  destruct (publishers c !! p) as [co|]; simpl; [|done]. split.
  - unfold to_list_reply. apply NoDup_fmap_2_strong; [|apply NoDup_hm_iter].
    intros [h1 e1] [h2 e2] H1%elem_of_hm_iter H2%elem_of_hm_iter [= Hu ->]. simpl in *. congruence.
  - exists co. split; [done|]. intros u h. unfold to_list_reply. rewrite list_elem_of_fmap. split.
    + intros ([h' e]&[= -> ->]&Hin%elem_of_hm_iter). exists (pe_base64 e). split.
      * exists h'. by destruct e.
      * by eapply Hj.
    + intros (x&[h' Hh]&->). exists (h', mkPublishElement x u). simpl. split.
      * f_equal. symmetry. by apply (Hj co h' (mkPublishElement x u) eq_refl).
      * by apply elem_of_hm_iter.
Qed.

Lemma list_reply_exact_witness :
  match list_reply Demo.c2 "alice" with
  | Ok l => NoDup l ∧ ∃ co, publishers Demo.c2 !! "alice" = Some co ∧
      ∀ u h, (u, h) ∈ l ↔ ∃ x, holds co u x ∧ h = to_hash x
  | Err e => e = PublisherUnknown "alice" ∧ publishers Demo.c2 !! "alice" = None
  end.
Proof.
  exact (list_reply_exact Demo.jail Demo.valid_handle Demo.c2 (Demo.reachable_c2 false true) "alice").
Defined.

(** ** Truncating deltas *)

(** Truncation by size keeps a longest prefix of the deltas whose total size does not exceed
    the size of the snapshot. *)
Theorem deltas_truncate_size_correct `{RP : !Rpki, HO : !HashOrder} (snap : SnapshotData)
    (ds : list DeltaData) :
  ∃ k, deltas_truncate_size snap ds = take k ds ∧
    (total_size (deltas_truncate_size snap ds) ≤ snapshot_size snap)%N ∧
    ∀ j, k < j ≤ length ds → (snapshot_size snap < total_size (take j ds))%N.
Proof.
  exists (keep_by_size (snapshot_size snap) 0 ds). split; [done|]. split.
  - apply (keep_by_size_bound _ 0). lia.
  - intros j Hj. pose proof (keep_by_size_maximal (snapshot_size snap) 0 ds ltac:(lia)) as Hmax.
    eapply N.lt_le_trans; [apply Hmax|]. apply total_size_mono. lia.
Qed.

(** Truncation by age and number cuts at the first delta that is neither one of the newest
    [min_nr], nor younger than [min_seconds], and is at position [max_nr - 1] or older than
    [max_seconds]; without such a delta all are kept. *)
Theorem find_deltas_truncate_age_correct `{RP : !Rpki, HO : !HashOrder} (r : RrdpServer) (now : Instant)
    (cfg : RrdpUpdatesConfig) :
  let k := find_deltas_truncate_age r now cfg in
  (k ≤ N.of_nat (length (deltas r)))%N ∧
  (∀ i d, (N.of_nat i < k)%N → deltas r !! i = Some d → ¬ age_stop cfg now (N.of_nat i) d) ∧
  (∀ d, deltas r !! N.to_nat k = Some d → age_stop cfg now k d).
Proof.
  destruct (truncate_age_from_spec cfg now (deltas r) 0) as (H1&H2&H3).
  unfold find_deltas_truncate_age. split; [lia|]. split; [done|]. intros d Hd. apply H3.
  by rewrite N.sub_0_r.
Qed.

(**  The maximum number does not bound what is kept when it is reached among the deltas that
    are kept for being young: all later deltas are kept too, up to the maximum age. *)
Theorem truncate_age_passes_max_nr `{RP : !Rpki, HO : !HashOrder} (r : RrdpServer) (now : Instant)
    (cfg : RrdpUpdatesConfig) (young rest : list DeltaData)
    (Hds : deltas r = young ++ rest)
    (Hmax : (0 < rrdp_delta_files_max_nr cfg ≤ N.of_nat (length young))%N)
    (Hyoung : Forall (λ d, younger_than_seconds d now (Z.of_N (rrdp_delta_files_min_seconds cfg)) = true) young)
    (Hrest : Forall (λ d, older_than_seconds d now (Z.of_N (rrdp_delta_files_max_seconds cfg)) = false) rest) :
  find_deltas_truncate_age r now cfg = N.of_nat (length young + length rest).
Proof.
  destruct (truncate_age_from_spec cfg now (deltas r) 0) as (H1&_&H3).
  fold (find_deltas_truncate_age r now cfg) in H1, H3. set (k := find_deltas_truncate_age r now cfg) in *.
  rewrite N.sub_0_r in H3. rewrite Hds, length_app in H1.
  destruct (decide (k = N.of_nat (length young + length rest))) as [|Hne]; [done|]. exfalso.
  destruct (lookup_lt_is_Some_2 (deltas r) (N.to_nat k)) as [d Hd]; [rewrite Hds, length_app; lia|].
  destruct (H3 d Hd) as (Hmin&Hy&Hcut). rewrite Hds in Hd.
  apply lookup_app_Some in Hd as [Hd|[Hlen Hd]].
  - rewrite Forall_lookup in Hyoung. rewrite (Hyoung _ _ Hd) in Hy. done.
  - rewrite Forall_lookup in Hrest. rewrite (Hrest _ _ Hd) in Hcut. destruct Hcut as [Hcut|]; [|done].
    unfold u64_pred in Hcut. case_decide; lia.
Qed.

(** Deltas made every ten seconds: the first are younger than the minimum age of 20 minutes. *)
Definition demo_deltas (n : nat) : list (DeltaData (RP := string_rpki)) :=
  (λ i, mkDeltaData "r" 1 (seconds (100000 - 10 * Z.of_nat i)) (mkDeltaElements [] [] [])) <$> seq 0 n.
Definition demo_server (n : nat) : RrdpServer (RP := string_rpki) :=
  mkRrdpServer "" "" "" "s" 1 0%Z (mkSnapshotData "r" ∅) (demo_deltas n) ∅.

Lemma truncate_age_passes_max_nr_witness :
  find_deltas_truncate_age (demo_server 200) (seconds 100000) dflt_rrdp_updates_config = 200%N ∧
  rrdp_delta_files_max_nr dflt_rrdp_updates_config = 50%N.
Proof.
  split; [|done].
  apply (truncate_age_passes_max_nr (demo_server 200) (seconds 100000) dflt_rrdp_updates_config
    (take 120 (demo_deltas 200)) (drop 120 (demo_deltas 200))).
  - symmetry. apply take_drop.
  - vm_compute. split; [done|]. intros [=].
  - apply (bool_decide_eq_true_1 _). vm_compute. reflexivity.
  - apply (bool_decide_eq_true_1 _). vm_compute. reflexivity.
Defined.

(** ** Deltas that are not admissible *)

Module Stale.
(** After [c3], where the snapshot has [a.cer]: it is updated, withdrawn, and RRDP is updated. *)
Definition q_update : list (PublishDeltaElement (RP := string_rpki)) :=
  [PdUpdate None "rsync://repo/alice/a.cer" "A2A2" (to_hash (Rpki := string_rpki) "AAAA")].
Definition q_withdraw : list (PublishDeltaElement (RP := string_rpki)) :=
  [PdWithdraw None "rsync://repo/alice/a.cer" (to_hash (Rpki := string_rpki) "A2A2")].
Definition d1 : RepositoryContent := exec Demo.c3 (Demo.env 4 "r4") (Publish "0" "alice" (delta_elements_from q_update)).
Definition d2 : RepositoryContent := exec d1 (Demo.env 5 "r5") (Publish "0" "alice" (delta_elements_from q_withdraw)).
Definition d3 : RepositoryContent := exec d2 (Demo.env 6 "r6") (CreateRrdpDelta "0" Demo.cfg).

(** After [c2], where alice has [a.cer]: another content is published at the same URI. *)
Definition q_again : list (PublishDeltaElement (RP := string_rpki)) :=
  [PdPublish None "rsync://repo/alice/a.cer" "XXXX"].
Definition e1 : RepositoryContent := exec Demo.c2 (Demo.env 3 "r3") (Publish "0" "alice" (delta_elements_from q_again)).

Lemma step_d1 : repo_step Demo.jail Demo.valid_handle false false Demo.c3 d1.
Proof. apply (rs_publish _ _ _ _ _ _ "0" "alice" q_update); [by vm_compute|discriminate]. Qed.
Lemma step_d2 : repo_step Demo.jail Demo.valid_handle false false d1 d2.
Proof. apply (rs_publish _ _ _ _ _ _ "0" "alice" q_withdraw); [by vm_compute|discriminate]. Qed.
Lemma step_d3 : repo_step Demo.jail Demo.valid_handle false false d2 d3.
Proof. by apply rs_rrdp. Qed.

Lemma reachable_d3 : reachable Demo.jail Demo.valid_handle false false d3.
Proof.
  destruct (Demo.reachable_c3 false false) as (c&H0&Hr). exists c. split; [done|].
  eapply rtc_trans; [exact Hr|]. eapply rtc_l; [apply step_d1|].
  eapply rtc_l; [apply step_d2|]. apply rtc_once, step_d3.
Qed.
End Stale.

(** C5.  Staging is not exact for every verified delta: there is a reachable state with nothing
    left to publish whose snapshot holds an object that no publisher has.  An object is updated and
    then withdrawn before the next RRDP update; the staged withdraw keeps the hash of the update,
    which was never in the snapshot, so the old object stays there. *)
Theorem withdraw_of_staged_update_leaves_stale_object :
  ∃ c, reachable Demo.jail Demo.valid_handle false false c ∧ staged_elements (rrdp c) = ∅ ∧
    holds (sd_current_objects (snapshot (rrdp c))) "rsync://repo/alice/a.cer" "AAAA" ∧
    ∀ u x, ¬ published c u x.
Proof.
  exists Stale.d3. split; [apply Stale.reachable_d3|]. split; [by vm_compute|]. split.
  - exists "sha256:AAAA". by vm_compute.
  - intros u x Hpub%published_all_objects.
    assert (all_objects Stale.d3 = []) as Hnil by (vm_compute; reflexivity).
    rewrite Hnil in Hpub. by apply elem_of_nil in Hpub.
Qed.

(**  A publish to a URI at which the publisher already has an object is accepted when the
    content differs ([verify_delta] looks the content's hash up, not the URI), and leaves the
    publisher with two objects at one URI. *)
Theorem publish_over_existing_uri_accepted :
  proxy_publish Demo.c2 "0" "alice" Stale.q_again (Demo.jail "alice")
    = Ok (Publish "0" "alice" (delta_elements_from Stale.q_again)) ∧
  ∃ co, publishers Stale.e1 !! "alice" = Some co ∧
    holds co "rsync://repo/alice/a.cer" "AAAA" ∧ holds co "rsync://repo/alice/a.cer" "XXXX".
Proof.
  split; [by vm_compute|].
  assert ((co ← publishers Stale.e1 !! "alice"; co !! "sha256:AAAA") =
    Some (mkPublishElement (RP := string_rpki) "AAAA" "rsync://repo/alice/a.cer")) as H1
    by (vm_compute; reflexivity).
  assert ((co ← publishers Stale.e1 !! "alice"; co !! "sha256:XXXX") =
    Some (mkPublishElement (RP := string_rpki) "XXXX" "rsync://repo/alice/a.cer")) as H2
    by (vm_compute; reflexivity).
  destruct (publishers Stale.e1 !! "alice") as [co|]; [|discriminate H1].
  exists co. split; [reflexivity|]. split; [exists "sha256:AAAA"; exact H1|exists "sha256:XXXX"; exact H2].
Qed.

(** ** Session resets *)

(** A session reset starts a new session at serial 1 without deltas, and keeps the objects of
    the snapshot, of all publishers, and what is staged; it always succeeds. *)
Theorem session_reset_correct `{RP : !Rpki, HO : !HashOrder} (c : RepositoryContent) (env : Env) (hdl : string) :
  spec_send c env (ResetSession hdl) = (exec c env (ResetSession hdl), Ok (exec c env (ResetSession hdl))) ∧
  let c' := exec c env (ResetSession hdl) in
  session (rrdp c') = env_session env ∧ serial (rrdp c') = RRDP_FIRST_SERIAL ∧ deltas (rrdp c') = [] ∧
  last_update (rrdp c') = env_now env ∧
  sd_current_objects (snapshot (rrdp c')) = sd_current_objects (snapshot (rrdp c)) ∧
  publishers c' = publishers c ∧ staged_elements (rrdp c') = staged_elements (rrdp c) ∧
  revision c' = u64_succ (revision c).
Proof. repeat split. Qed.
