(* ===== verification/WalProps.v ===== *)
(** * Properties of the write-ahead log store

    The theorems about [commons/eventsourcing/wal.rs], for any type with write-ahead logging;
    they are evaluated on the store that holds the publication server's content. *)

From stdpp Require Import base gmap strings list pretty relations.
From S2P Require Import Prelude Text Kv WalStore WalFacts Rpki Rrdp Repository RepositoryInv RepositoryProps.

(** ** The store of the repository content *)

Inductive RepoValue `{RP : !Rpki} :=
| RvContent (c : RepositoryContent)
| RvSet (s : WalSet RepositoryContentChange).

#[export] Instance repo_content_json `{RP : !Rpki} : Json RepoValue RepositoryContent := {|
  to_json := RvContent;
  from_json v := match v with RvContent c => Some c | _ => None end;
  from_to_json c := eq_refl;
|}.
#[export] Instance repo_set_json `{RP : !Rpki} : Json RepoValue (WalSet RepositoryContentChange) := {|
  to_json := RvSet;
  from_json v := match v with RvSet s => Some s | _ => None end;
  from_to_json s := eq_refl;
|}.

Definition empty_store {T V} : WalStore T V := mkWalStore kv_empty ∅.

Section wal_props.
Context `{HO : !HashOrder} `{W : WalSupport T Command Change CError WEnv} `{WL : !WalLaws}.
Context {V : Type} `{JT : !Json V T} `{JS : !Json V (WalSet Change)}.

(** A store in which an instance was added for a handle and that then went through a run. *)
Definition store_after (h : string) (b : bool) (t : T) (labs : list (option (WEnv * Command)))
    (st : WalStore T V) : Prop :=
  ∃ st0 ph, wal_add empty_store h t = (st0, Ok tt) ∧ sys_run h b labs (st0, Idle) (st, ph).

Lemma store_after_inv h b t labs st :
  store_after h b t labs st → (wal_revision t + N.of_nat (length labs) ≤ u64_max)%N →
  wal_inv st h (foldl (spec_label h) t labs).
Proof.
  intros (st0&ph&Hadd&Hrun) Hle.
  destruct (wal_add_inv (empty_store (V := V)) h t) as (st1&Hadd'&Hinv); [done|].
  rewrite Hadd in Hadd'. injection Hadd' as ->.
  by destruct (sys_run_inv _ _ _ _ _ _ Hrun Hinv I Hle).
Qed.
End wal_props.

(** C6.  The store is the object it stands for: after any run in which commands for this and
    other handles, reads, restarts and the single steps of a concurrent snapshot update are
    interleaved, reading the handle returns the instance that results from processing its commands
    one after the other, and the next command gets the reply, and has the effect, that it has on
    that instance. *)
Theorem wal_store_linearizable `{HO : !HashOrder} `{W : WalSupport T Command Change CError WEnv}
    `{WL : !WalLaws} {V : Type} `{JT : !Json V T} `{JS : !Json V (WalSet Change)}
    (h : string) (b : bool) (t : T) (labs : list (option (WEnv * Command))) (st : WalStore T V)
    (env : WEnv) (cmd : Command)
    (Hafter : store_after h b t labs st)
    (Hwidth : (wal_revision t + N.of_nat (length labs) < u64_max)%N)
    (Hcmd : wal_handle cmd = h) :
  let now := foldl (spec_label h) t labs in
  (∃ st', get_latest_no_lock st h = Some (st', Ok now)) ∧
  (∃ st' st'', send_command st env cmd = Some (st', (spec_send now env cmd).2) ∧
     get_latest_no_lock st' h = Some (st'', Ok (spec_send now env cmd).1)).
Proof.
  pose proof (store_after_inv _ _ _ _ _ Hafter ltac:(lia)) as Hinv. simpl. split.
  - destruct (get_latest_inv _ _ _ Hinv) as (st'&?&_). eauto.
  - pose proof (spec_labels_revision h t labs ltac:(lia)) as Hrev.
    assert (wal_revision (foldl (spec_label h) t labs) < u64_max)%N as Hlt by lia.
    destruct (send_command_inv _ _ _ env cmd Hinv Hcmd Hlt) as (st'&Hs&Hinv'&_).
    destruct (get_latest_inv _ _ _ Hinv') as (st''&?&_). eauto.
Qed.

Module WalDemo.
Definition add_alice : Env (RP := string_rpki) * RepositoryContentCommand (RP := string_rpki) :=
  (Demo.env 1 "r1", AddPublisher "0" "alice").

(** A run: a command, a restart. *)
Lemma wal_demo_run : ∃ st, store_after (V := RepoValue) "0" false Demo.c0 [Some add_alice; None] st.
Proof.
  destruct (wal_add_inv (empty_store (V := RepoValue)) "0" Demo.c0) as (st0&Hadd&Hinv); [done|].
  destruct (send_command_inv _ _ _ add_alice.1 add_alice.2 Hinv) as (st1&Hs&_); [done..|].
  exists (wal_restart st1), st0, Idle. split; [done|].
  eapply run_cons; [by eapply step_command|]. eapply run_cons; [apply step_restart|]. constructor.
Qed.
End WalDemo.

Lemma wal_store_linearizable_witness :
  ∃ (st : WalStore RepositoryContent RepoValue) st', get_latest_no_lock st "0" = Some (st', Ok Demo.c1).
Proof.
  destruct WalDemo.wal_demo_run as [st Hst]. exists st.
  exact (proj1 (wal_store_linearizable "0" false Demo.c0 _ st (Demo.env 2 "r2") (ResetSession "0") Hst
    ltac:(by vm_compute) eq_refl)).
Defined.

(** Updating the snapshot always succeeds, archiving or deleting: afterwards the instance
    itself is the snapshot on disk, no change set is left behind, and a restarted process reads that
    instance back. *)
Theorem wal_update_snapshot_durable `{HO : !HashOrder} `{W : WalSupport T Command Change CError WEnv}
    `{WL : !WalLaws} {V : Type} `{JT : !Json V T} `{JS : !Json V (WalSet Change)}
    (h : string) (b archive_sets : bool) (t : T) (labs : list (option (WEnv * Command))) (st : WalStore T V)
    (Hafter : store_after h b t labs st)
    (Hwidth : (wal_revision t + N.of_nat (length labs) ≤ u64_max)%N) :
  let now := foldl (spec_label h) t labs in
  ∃ st' st'', update_snapshot st h archive_sets = Some (st', Ok tt) ∧
    kv_get (ws_kv st') (key_for_snapshot h) = Ok (Some now) ∧
    (∀ r, kv_has (ws_kv st') (key_for_wal_set h r) = false) ∧
    get_latest_no_lock (wal_restart st') h = Some (st'', Ok now).
Proof.
  pose proof (store_after_inv _ _ _ _ _ Hafter Hwidth) as Hinv. simpl.
  pose proof (spec_labels_revision h t labs Hwidth) as Hrev.
  assert (wal_revision (foldl (spec_label h) t labs) ≤ u64_max)%N as Hle by lia.
  destruct (update_snapshot_inv archive_sets _ _ _ Hinv Hle) as (st'&Hu&Hinv'&Hs&Hnone).
  destruct (get_latest_inv _ _ _ (restart_inv _ _ _ Hinv')) as (st''&Hg&_).
  exists st', st''. repeat split; [done..| |done].
  intros r. unfold kv_has. rewrite Hnone. by apply bool_decide_eq_false_2; intros [].
Qed.

Lemma wal_update_snapshot_durable_witness :
  ∃ st st' st'' : WalStore RepositoryContent RepoValue,
    update_snapshot st "0" true = Some (st', Ok tt) ∧
    get_latest_no_lock (wal_restart st') "0" = Some (st'', Ok Demo.c1).
Proof.
  destruct WalDemo.wal_demo_run as [st Hst].
  destruct (wal_update_snapshot_durable "0" false true Demo.c0 _ st Hst ltac:(by vm_compute))
    as (st'&st''&H1&_&_&H2).
  exists st, st', st''. split; [exact H1|exact H2].
Defined.
