(* ===== verification/RouteProps.v ===== *)
(** * Properties of route authorizations and ROAs

    The theorems about [daemon/ca/routes.rs], [CertAuth::update_authorizations] and
    [commons/api/roas.rs], with a small instance of prefixes on which they are evaluated. *)

From stdpp Require Import base gmap strings list pretty.
From S2P Require Import Prelude Text Roas Routes RouteFacts RouteUpdateFacts RoaRenewFacts.

(** ** Example data *)

Module RouteDemo.
(** Prefixes as an address (left-aligned to 128 bits) and a length; texts of two of them. *)
#[export] Instance demo_prefixes : PrefixApi := {|
  Prefix := N * N;
  addr := fst; addr_len := snd; pfx_min := fst;
  pfx_max p := (p.1 + N.shiftl 1 (128 - p.2) - 1)%N;
  from_v4_str s := if bool_decide (s = "10.0.0.0/8") then Some (N.shiftl 10 120, 8%N) else None;
  from_v6_str s := if bool_decide (s = "::/0") then Some (0%N, 0%N) else None;
  addr_v4_str _ := "10.0.0.0"; addr_v6_str _ := "::";
  ResourceSet := list (N * N);
  contains_roa_address rs p _ := bool_decide (p ∈ rs);
|}.

Definition ten : TypedPrefix := V4 (N.shiftl 10 120, 8%N).
Definition any6 : TypedPrefix := V6 (0%N, 0%N).
Definition r1 : RoaPayload := mkRoaPayload 64500%N ten (Some 8%N).
Definition r2 : RoaPayload := mkRoaPayload 64500%N ten (Some 24%N).
Definition r3 : RoaPayload := mkRoaPayload 64501%N ten (Some 8%N).
Definition far : RoaPayload := mkRoaPayload 64500%N any6 (Some 0%N).
Definition info : RouteInfo := mkRouteInfo 0%Z None None.
Definition all : Routes := <[r1 := info]> (<[r2 := info]> (<[r3 := info]> (<[far := info]> ∅))).
Definition held : ResourceSet (PrefixApi := demo_prefixes) := [prefix ten].

(** A ROA as its content and the time it expires. *)
Definition Roa : Type := AsNumber * list (TypedPrefix * option N) * Instant.
Definition sign (asn : AsNumber) (addrs : list (TypedPrefix * option N)) (name : string) : result unit Roa :=
  Ok (asn, addrs, 100%Z).
Definition content (r : Roa) : AsNumber * list (TypedPrefix * option N) := r.1.
Definition expires (r : Roa) : Instant := r.2.
Definition none : Roas := @mkRoas demo_prefixes Roa ∅ ∅.
Definition update := roas_update sign id.
Definition issued : RoaUpdates := match update none all held 2 2 with Ok u => u | Err _ => no_roa_updates end.
Definition aggregated : Roas := roas_updated none issued.
Definition renewal : RoaUpdates :=
  match roas_renew expires sign id aggregated false 101%Z with Ok u => u | Err _ => no_roa_updates end.

Lemma issued_Ok : update none all held 2 2 = Ok issued.
Proof. unfold issued. destruct (update none all held 2 2) eqn:Hu; [done|]. by apply (f_equal is_ok) in Hu; vm_compute in Hu. Qed.
Lemma renewal_Ok : roas_renew expires sign id aggregated false 101%Z = Ok renewal.
Proof. unfold renewal. destruct (roas_renew _ _ _ _ _ _) eqn:Hu; [done|]. by apply (f_equal is_ok) in Hu; vm_compute in Hu. Qed.
Lemma aggregated_first : ∃ roa, aggregate aggregated !! mkAggregateKey 64500%N None = Some (mkRoaInfo [r1; r2] roa).
Proof. by vm_compute; eexists. Qed.

Lemma sign_content asn addrs name roa : sign asn addrs name = Ok roa → content roa = (asn, addrs).
Proof. unfold sign. intros. by simplify_eq. Qed.
Lemma none_inv : roas_inv content none.
Proof. split_and!; [apply map_Forall_empty|apply map_Forall_empty|by left]. Qed.
Lemma aggregated_inv : roas_inv content aggregated.
Proof. apply (roas_update_on_roa sign id content sign_content none all held 2 2 _ none_inv issued_Ok). Qed.

Lemma demo_routes a : is_Some (all !! a) → a ∈ [r1; r2; r3; far].
Proof.
  unfold all. intros [i Hi]. repeat (apply (lookup_insert_Some (M:=gmap RoaPayload)) in Hi as [[<- _]|[_ Hi]]; [set_solver|]).
  by apply (lookup_empty_Some (M:=gmap RoaPayload)) in Hi.
Qed.

Lemma aggregated_on_roa a : a ∈ [r1; r2] → on_roa aggregated a.
Proof. intros Ha. destruct aggregated_first as [roa Hroa]. right. exists (mkAggregateKey 64500%N None), (mkRoaInfo [r1; r2] roa). split; [exact Hroa|exact Ha]. Qed.

Definition orderedb (l : list RoaPayload) : bool :=
  forallb (λ x, forallb (λ y, match roa_payload_cmp x y with Eq => bool_decide (x = y) | _ => true end) l) l.
Lemma demo_order x y : is_Some (all !! x) → is_Some (all !! y) → roa_payload_cmp x y = Eq → x = y.
Proof.
  intros Hx%demo_routes%list_elem_of_In Hy%demo_routes%list_elem_of_In Heq.
  assert (orderedb [r1; r2; r3; far] = true) as Ho by (by vm_compute). unfold orderedb in Ho.
  rewrite forallb_forall in Ho. specialize (Ho x Hx). rewrite forallb_forall in Ho. specialize (Ho y Hy).
  rewrite Heq in Ho. by apply bool_decide_eq_true in Ho.
Qed.
End RouteDemo.

(** ** ROA objects *)

(** C10.  Issuing ROAs keeps the objects well-formed (an object attests exactly the
    authorizations recorded with it, of one AS number, and objects per authorization and per AS
    number are not mixed) and, in whichever mode the thresholds select, leaves an authorization
    on some ROA if and only if it is configured and its prefix is held; issuing succeeds
    whenever signing does. *)
Theorem roas_update_issues `{PA : !PrefixApi, HO : !HashOrder} {Roa SignError : Type}
    (sign_roa : AsNumber → list (TypedPrefix * option N) → string → result SignError Roa) (hex_encode : string → string)
    (roa_content : Roa → AsNumber * list (TypedPrefix * option N))
    (sign_roa_content : ∀ asn addrs name roa, sign_roa asn addrs name = Ok roa → roa_content roa = (asn, addrs))
    (self : Roas) (all_routes : Routes) (resources : ResourceSet) (deaggregate aggregate : nat)
    (Hinv : roas_inv roa_content self) :
  ((∀ asn addrs name, ∃ roa, sign_roa asn addrs name = Ok roa) →
   ∃ u, roas_update sign_roa hex_encode self all_routes resources deaggregate aggregate = Ok u) ∧
  ∀ u, roas_update sign_roa hex_encode self all_routes resources deaggregate aggregate = Ok u →
  roas_inv roa_content (roas_updated self u) ∧
  ∀ a, on_roa (roas_updated self u) a ↔ is_Some (all_routes !! a) ∧ holds resources a = true.
Proof.
  split.
  - intros Hsigns. by apply roas_update_total.
  - intros u Hu. by eapply roas_update_on_roa.
Qed.

Lemma roas_update_issues_witness :
  (∃ u, roas_update RouteDemo.sign id RouteDemo.none RouteDemo.all RouteDemo.held 2 2 = Ok u) ∧
  on_roa RouteDemo.aggregated RouteDemo.r1 ∧ ¬ on_roa RouteDemo.aggregated RouteDemo.far.
Proof.
  destruct (roas_update_issues RouteDemo.sign id RouteDemo.content RouteDemo.sign_content RouteDemo.none RouteDemo.all
    RouteDemo.held 2 2 RouteDemo.none_inv) as [Htotal Hspec].
  destruct (Hspec _ RouteDemo.issued_Ok) as [_ Hon]. split_and!.
  - apply Htotal. intros. by eexists.
  - apply Hon. by split; [eexists|]; vm_compute.
  - intros [_ Hh]%Hon. by vm_compute in Hh.
Defined.

(**  The ROAs settle: after an update, another update with the same authorizations,
    resources and thresholds changes nothing, whatever the order in which either visits the
    maps, provided that the threshold to stop aggregating is at most one above the one to start
    and that no two authorizations compare as equal. *)
Theorem roas_update_settles `{PA : !PrefixApi} (first second : HashOrder) {Roa SignError : Type}
    (sign_roa : AsNumber → list (TypedPrefix * option N) → string → result SignError Roa) (hex_encode : string → string)
    (roa_content : Roa → AsNumber * list (TypedPrefix * option N))
    (sign_roa_content : ∀ asn addrs name roa, sign_roa asn addrs name = Ok roa → roa_content roa = (asn, addrs))
    (self : Roas) (all_routes : Routes) (resources : ResourceSet) (deaggregate aggregate : nat) (u : RoaUpdates)
    (Hinv : roas_inv roa_content self) (Hthresholds : deaggregate ≤ aggregate + 1)
    (Horder : ∀ x y, is_Some (all_routes !! x) → is_Some (all_routes !! y) → roa_payload_cmp x y = Eq → x = y)
    (Hu : roas_update (HO:=first) sign_roa hex_encode self all_routes resources deaggregate aggregate = Ok u) :
  roas_update (HO:=second) sign_roa hex_encode (roas_updated (HO:=first) self u) all_routes resources
    deaggregate aggregate = Ok no_roa_updates.
Proof. by eapply roas_update_again. Qed.

Lemma roas_update_settles_witness :
  roas_update RouteDemo.sign id RouteDemo.aggregated RouteDemo.all RouteDemo.held 2 2 = Ok no_roa_updates.
Proof.
  apply (roas_update_settles map_to_list_order map_to_list_order RouteDemo.sign id RouteDemo.content RouteDemo.sign_content
    RouteDemo.none RouteDemo.all RouteDemo.held 2 2 RouteDemo.issued RouteDemo.none_inv); [lia| |exact RouteDemo.issued_Ok].
  exact RouteDemo.demo_order.
Defined.

(** The ROA objects reported for a configured authorization: on well-formed objects the
    search finds exactly one object, which has the authorization (with its explicit maximum
    length), if there is one, and nothing otherwise. *)
Theorem matching_roa_infos_one `{PA : !PrefixApi, HO : !HashOrder} {Roa : Type}
    (roa_content : Roa → AsNumber * list (TypedPrefix * option N)) (self : Roas) (config : RoaConfiguration)
    (Hinv : roas_inv roa_content self) :
  let payload := into_explicit_max_length (rc_payload config) in
  (on_roa self payload → ∃ info, matching_roa_infos self config = [info] ∧ payload ∈ ri_authorizations info) ∧
  (¬ on_roa self payload → matching_roa_infos self config = []).
Proof. by apply (matching_roa_infos_spec roa_content). Qed.

(**  Renewing keeps the objects well-formed and the authorizations that are on a ROA; every
    object that is due (its certificate expires before the threshold, or renewal is forced) is
    replaced by one made for the same authorizations under the same name, and every other
    object is kept. *)
Theorem roas_renew_replaces_due `{PA : !PrefixApi, HO : !HashOrder} {Roa SignError : Type} (roa_expires : Roa → Instant)
    (sign_roa : AsNumber → list (TypedPrefix * option N) → string → result SignError Roa) (hex_encode : string → string)
    (roa_content : Roa → AsNumber * list (TypedPrefix * option N))
    (sign_roa_content : ∀ asn addrs name roa, sign_roa asn addrs name = Ok roa → roa_content roa = (asn, addrs))
    (self : Roas) (force : bool) (threshold : Instant) (u : RoaUpdates) (Hinv : roas_inv roa_content self)
    (Hu : roas_renew roa_expires sign_roa hex_encode self force threshold = Ok u) :
  let self' := roas_updated self u in
  roas_inv roa_content self' ∧ (∀ a, on_roa self' a ↔ on_roa self a) ∧
  (∀ k i, simple self !! k = Some i →
    renewed_info roa_expires sign_roa force threshold (roa_name hex_encode k) i (simple self' !! k)) ∧
  (∀ k i, aggregate self !! k = Some i →
    renewed_info roa_expires sign_roa force threshold (aggregate_name k) i (aggregate self' !! k)).
Proof.
  destruct (roas_renew_keeps roa_expires sign_roa hex_encode roa_content sign_roa_content self force threshold u Hinv Hu) as [? ?].
  destruct (roas_renew_spec roa_expires sign_roa hex_encode roa_content sign_roa_content self force threshold u Hinv Hu) as (?&?&_). by split_and!.
Qed.

Lemma roas_renew_replaces_due_witness :
  on_roa (roas_updated RouteDemo.aggregated RouteDemo.renewal) RouteDemo.r2.
Proof.
  destruct (roas_renew_replaces_due RouteDemo.expires RouteDemo.sign id RouteDemo.content RouteDemo.sign_content
    RouteDemo.aggregated false 101%Z RouteDemo.renewal RouteDemo.aggregated_inv RouteDemo.renewal_Ok) as (_&Hon&_).
  apply Hon, RouteDemo.aggregated_on_roa. right. by left.
Defined.

(** ** Updates of the authorizations *)

(** C11.  An accepted update: once its events are applied the CA has exactly the authorizations
    that were added and those that it had and that were not removed; an authorization that the
    update does not name is unchanged, one that is added has the comment given last, and the
    desired routes that ROAs are then issued for have the same payloads. *)
Theorem update_authorizations_applies `{PA : !PrefixApi} (self : Routes) (all_resources : ResourceSet) (now now' : Instant)
    (updates : RoaConfigurationUpdates) (desired : Routes) (events : list CaEvtDet)
    (Hok : update_authorizations self all_resources now updates = Ok (desired, events)) :
  let after := foldl (apply_route_event now') self events in
  (∀ a, is_Some (after !! a) ↔
    a ∈ rc_payload <$> upd_added updates ∨ (is_Some (self !! a) ∧ a ∉ upd_removed updates)) ∧
  (∀ a, a ∉ rc_payload <$> upd_added updates → a ∉ upd_removed updates → after !! a = self !! a) ∧
  (∀ l1 c l2, upd_added updates = l1 ++ c :: l2 → rc_payload c ∉ rc_payload <$> l2 →
    ∃ info, after !! rc_payload c = Some info ∧ route_comment info = rc_comment c) ∧
  (∀ a, is_Some (after !! a) ↔ is_Some (desired !! a)).
Proof.
  destruct (update_loops self all_resources now now' updates) as (r0&unk&(Hdom&Hin&Hout&_&Hi&Hn&Hc)&Hr0&Hunk).
  unfold update_authorizations in Hok. set (st := foldl (update_added _ _) _ _) in *.
  destruct (delta_errors_is_empty (us_errors st)) eqn:He; simpl in Hok; [|done]. injection Hok as <- <-.
  apply delta_errors_is_empty_iff in He as (Hd&Hnh&_&Hil). rewrite Hil in Hi. rewrite Hnh in Hn.
  assert (∀ c, c ∈ upd_added updates → admissible all_resources c) as Hadm.
  { intros c Hcin. by apply (admissible_of all_resources (upd_added updates)). }
  fold (applied self now' (us_events st)). split_and!.
  - intros a. rewrite Hdom, Hin, Hr0, list_elem_of_fmap. case_decide; naive_solver.
  - intros a Ha Hr. destruct (Hout a Ha) as [_ ->]. by rewrite Hr0, decide_False.
  - intros l1 c l2 Heq Hl2. apply (Hc Hd l1 c l2 Heq Hl2). apply Hadm. rewrite Heq. set_solver.
  - done.
Qed.

Lemma update_authorizations_applies_witness :
  ∃ desired events, update_authorizations RouteDemo.all RouteDemo.held 0%Z
    (mkUpdates [mkRoaConfiguration RouteDemo.r1 (Some "office")] [RouteDemo.r2]) = Ok (desired, events) ∧
  ∃ info, foldl (apply_route_event 0%Z) RouteDemo.all events !! RouteDemo.r1 = Some info ∧ route_comment info = Some "office".
Proof.
  set (upd := mkUpdates [mkRoaConfiguration RouteDemo.r1 (Some "office")] [RouteDemo.r2]).
  destruct (update_authorizations RouteDemo.all RouteDemo.held 0%Z upd) as [[desired events]|] eqn:Hu;
    [|by apply (f_equal is_ok) in Hu; vm_compute in Hu].
  exists desired, events. split; [done|].
  destruct (update_authorizations_applies RouteDemo.all RouteDemo.held 0%Z 0%Z upd desired events Hu) as (_&_&Hc&_).
  apply (Hc [] (mkRoaConfiguration RouteDemo.r1 (Some "office")) []); [done|]. by intros ?%elem_of_nil.
Defined.

(** C12.  A rejected update: the error lists, in order, exactly the additions with an invalid
    maximum length and those with a valid one whose prefix is not held, and as unknown exactly
    the removals of authorizations that the CA does not have or that the same update already
    removed; an update is rejected whenever one of these is not empty. *)
Theorem update_authorizations_errors `{PA : !PrefixApi} (self : Routes) (all_resources : ResourceSet) (now : Instant)
    (updates : RoaConfigurationUpdates) :
  match update_authorizations self all_resources now updates with
  | Err e =>
      de_invalid_length e = filter (λ c, max_length_valid (rc_payload c) = false) (upd_added updates) ∧
      de_notheld e = filter (λ c, max_length_valid (rc_payload c) = true ∧ holds all_resources (rc_payload c) = false)
        (upd_added updates) ∧
      ∀ a, a ∈ de_unknowns e ↔ ∃ l1 l2, upd_removed updates = l1 ++ a :: l2 ∧ (self !! a = None ∨ a ∈ l1)
  | Ok _ =>
      (∀ c, c ∈ upd_added updates → max_length_valid (rc_payload c) = true ∧ holds all_resources (rc_payload c) = true) ∧
      NoDup (upd_removed updates) ∧ ∀ a, a ∈ upd_removed updates → is_Some (self !! a)
  end.
Proof.
  destruct (update_loops self all_resources now now updates) as (r0&unk&(_&_&_&Hu&Hi&Hn&_)&_&Hunk).
  unfold update_authorizations. set (st := foldl (update_added _ _) _ _) in *.
  destruct (delta_errors_is_empty (us_errors st)) eqn:He; simpl.
  - apply delta_errors_is_empty_iff in He as (_&Hnh&Hun&Hil). rewrite Hil in Hi. rewrite Hnh in Hn.
    rewrite Hun in Hu. subst unk. split_and!.
    + intros c Hc. by apply (admissible_of all_resources (upd_added updates)).
    + apply NoDup_no_repeat. intros l1 a l2 Heq Ha.
      apply (not_elem_of_nil a), Hunk. exists l1, l2. split; [done|by right].
    + intros a (l1&l2&Heq)%list_elem_of_split. apply not_eq_None_Some. intros Hnone.
      apply (not_elem_of_nil a), Hunk. exists l1, l2. split; [done|by left].
  - split_and!; [|by rewrite Hn; apply list_filter_iff|by rewrite Hu].
    rewrite Hi. by apply list_filter_iff.
Qed.

(** ** Texts *)

(** C13.  A ROA configuration is read back from its text, for every AS number, maximum length
    and trimmed comment, when the text of its prefix is one word that is read back; and the
    text form of an aggregate key is read back. *)
Theorem roa_texts_roundtrip `{PA : !PrefixApi} (c : RoaConfiguration) (k : RoaAggregateKey)
    (Hprefix : prefix_text_ok (rp_prefix (rc_payload c))) (Hasn : (rp_asn (rc_payload c) ≤ 4294967295)%N)
    (Hmax : ∀ m, rp_max_length (rc_payload c) = Some m → (m ≤ 255)%N) (Hcomment : ∀ s, rc_comment c = Some s → trim s = s)
    (Hkey : (ak_asn k ≤ 4294967295)%N) (Hgroup : ∀ g, ak_group k = Some g → (g ≤ 4294967295)%N) :
  roa_configuration_from_str (roa_configuration_display c) = Ok c ∧
  aggregate_key_from_str (aggregate_key_display k) = Ok k.
Proof.
  split; [by apply roa_configuration_read_back|by apply aggregate_key_read_back].
Qed.

Lemma roa_texts_roundtrip_witness :
  roa_configuration_from_str "10.0.0.0/8-24 => 64500 # office"
    = Ok (mkRoaConfiguration RouteDemo.r2 (Some "office")).
Proof.
  refine (proj1 (roa_texts_roundtrip (mkRoaConfiguration RouteDemo.r2 (Some "office")) (mkAggregateKey 64500%N (Some 1%N))
    _ _ _ _ _ _)).
  - by split; vm_compute.
  - by vm_compute.
  - intros m [= <-]. by vm_compute.
  - intros s [= <-]. by vm_compute.
  - by vm_compute.
  - intros g [= <-]. by vm_compute.
Defined.
