(* ===== verification/JsNumber.v ===== *)
(** * Numbers of JavaScript

    What the web interface uses of the language's numbers: double precision values, comparison,
    the conversion of a text in arithmetic and comparisons ([Number]), [parseInt], and what
    becomes of a number in JSON. *)

From stdpp Require Import base strings list numbers pretty.
From Stdlib Require Import ZArith Ascii Lia.
From S2P Require Import Prelude Text.

(** ** Double precision values *)

(** [Fin m e] is [m * 2^e]; zeros of either sign are not told apart, since no code modelled here
    does. *)
Inductive Num := NaN | Infinity (negative : bool) | Fin (m e : Z).

(** The quotient of two numbers to the nearest integer, ties to even. *)
Definition half_even (p q : Z) : Z :=
  let t := (p / q)%Z in
  let r := (p mod q)%Z in
  if (2 * r <? q)%Z then t else if (q <? 2 * r)%Z then (t + 1)%Z else if Z.even t then t else (t + 1)%Z.

(** [p / q * 2^k] as a quotient of integers, for any sign of [k]. *)
Definition scaled (p q k : Z) : Z * Z := if (0 <=? k)%Z then (p * 2 ^ k, q)%Z else (p, q * 2 ^ (- k))%Z.

(** The largest [k] with [2^k <= p / q]. *)
Definition log2_quotient (p q : Z) : Z :=
  let k := (Z.log2 p - Z.log2 q)%Z in
  let '(a, b) := scaled p q (- k) in
  if (a <? b)%Z then (k - 1)%Z else k.

(** The double nearest to [n / d], for [d > 0]: 53 binary digits, the last not below [2^-1074]. *)
Definition nearest (n d : Z) : Num :=
  if (n =? 0)%Z then Fin 0 0
  else
    let a := Z.abs n in
    let e := Z.max (-1074) (log2_quotient a d - 52) in
    let '(p, q) := scaled a d (- e) in
    let m := half_even p q in
    if (2 ^ 1024 <=? m * 2 ^ Z.max e 0)%Z then Infinity (n <? 0)%Z else Fin (Z.sgn n * m) e.

Definition of_int (z : Z) : Num := nearest z 1.

Definition num_leb (x y : Num) : bool :=
  match x, y with
  | NaN, _ | _, NaN => false
  | Infinity true, _ | _, Infinity false => true
  | Infinity false, _ | _, Infinity true => false
  | Fin m1 e1, Fin m2 e2 => let e := Z.min e1 e2 in (m1 * 2 ^ (e1 - e) <=? m2 * 2 ^ (e2 - e))%Z
  end.

(** The value of an integral number. *)
Definition num_int (x : Num) : option Z :=
  match x with
  | Fin m e =>
      if (0 <=? e)%Z then Some (m * 2 ^ e)%Z
      else if (m mod 2 ^ (- e) =? 0)%Z then Some (m / 2 ^ (- e))%Z else None
  | _ => None
  end.

Definition num_neg (x : Num) : Num :=
  match x with NaN => NaN | Infinity b => Infinity (negb b) | Fin m e => Fin (- m) e end.

(** [x || 0] *)
Definition or_zero (x : Num) : Num :=
  match x with NaN => Fin 0 0 | Fin m e => if (m =? 0)%Z then Fin 0 0 else x | _ => x end.

(** ** From texts *)

Definition radix_digit (radix : N) (a : ascii) : option N :=
  let c := N_of_ascii a in
  let v := if (48 <=? c)%N && (c <=? 57)%N then Some (c - 48)%N
           else if (97 <=? c)%N && (c <=? 122)%N then Some (c - 87)%N
           else if (65 <=? c)%N && (c <=? 90)%N then Some (c - 55)%N else None in
  d ← v; if (d <? radix)%N then Some d else None.

(** The longest run of digits: its value, how many, and what follows. *)
Fixpoint digits_run (radix acc : N) (s : string) : N * nat * string :=
  match s with
  | EmptyString => (acc, 0, "")
  | String a r =>
      match radix_digit radix a with
      | Some d => let '(v, n, rest) := digits_run radix (acc * radix + d) r in (v, S n, rest)
      | None => (acc, 0, s)
      end
  end.

Definition take_sign (s : string) : bool * string :=
  match s with
  | String "-"%char r => (true, r)
  | String "+"%char r => (false, r)
  | _ => (false, s)
  end.

(** [m * 10^k] *)
Definition decimal (m k : Z) : Num := if (0 <=? k)%Z then nearest (m * 10 ^ k) 1 else nearest m (10 ^ (- k)).

(** A decimal literal without sign. *)
Definition decimal_literal (s : string) : Num :=
  if bool_decide (s = "Infinity") then Infinity false
  else
    let '(i, ni, r) := digits_run 10 0 s in
    let '(m, nf, r) := match r with String "."%char r' => digits_run 10 i r' | _ => (i, 0, r) end in
    if bool_decide (ni + nf = 0) then NaN
    else match r with
         | EmptyString => decimal (Z.of_N m) (- Z.of_nat nf)
         | String a r =>
             if bool_decide (a = "e"%char ∨ a = "E"%char) then
               let '(neg, r) := take_sign r in
               let '(x, nx, r) := digits_run 10 0 r in
               if bool_decide (nx = 0 ∨ r ≠ "") then NaN
               else decimal (Z.of_N m) ((if neg : bool then - Z.of_N x else Z.of_N x) - Z.of_nat nf)
             else NaN
         end.

(** The digits of a literal with a radix prefix. *)
Definition radix_literal (radix : N) (s : string) : Num :=
  match digits_run radix 0 s with
  | (v, S _, EmptyString) => of_int (Z.of_N v)
  | _ => NaN
  end.

(** The radix that a prefix such as [0x] stands for, and what follows it. *)
Definition radix_prefix (s : string) : option (N * string) :=
  match s with
  | String "0"%char (String a r) =>
      if bool_decide (a = "x"%char ∨ a = "X"%char) then Some (16%N, r)
      else if bool_decide (a = "o"%char ∨ a = "O"%char) then Some (8%N, r)
      else if bool_decide (a = "b"%char ∨ a = "B"%char) then Some (2%N, r)
      else None
  | _ => None
  end.

(** [Number(s)], also of a text in arithmetic and in comparisons with a number. *)
Definition to_number (s : string) : Num :=
  let s := trim s in
  if bool_decide (s = "") then Fin 0 0
  else match radix_prefix s with
       | Some (radix, r) => radix_literal radix r
       | None =>
           let '(neg, r) := take_sign s in
           if neg : bool then num_neg (decimal_literal r) else decimal_literal r
       end.

(** [parseInt(s)]: the longest numeral at the start. *)
Definition parseInt (s : string) : Num :=
  let '(neg, s) := take_sign (trim_start s) in
  let '(radix, s) := match s with
                     | String "0"%char (String a r) =>
                         if bool_decide (a = "x"%char ∨ a = "X"%char) then (16%N, r) else (10%N, s)
                     | _ => (10%N, s)
                     end in
  match digits_run radix 0 s with
  | (_, O, _) => NaN
  | (v, _, _) => let x := of_int (Z.of_N v) in if neg : bool then num_neg x else x
  end.

Example to_number_samples :
  (num_int (to_number " 12 "), num_int (to_number "1e3"), num_int (to_number "0x1F"), to_number "12a",
   num_int (to_number ""), num_int (to_number "4294967295.00000000001"), num_int (to_number "0.5"))
  = (Some 12%Z, Some 1000%Z, Some 31%Z, NaN, Some 0%Z, Some 4294967295%Z, None).
Proof. by vm_compute. Qed.
Example parseInt_samples :
  (num_int (parseInt " 12a"), num_int (parseInt "1e3"), num_int (parseInt "0x1F"), parseInt "a", parseInt "")
  = (Some 12%Z, Some 1%Z, Some 31%Z, NaN, NaN).
Proof. by vm_compute. Qed.

(** ** Integers below [2^53] are represented exactly *)

Lemma half_even_exact p q : (0 < q)%Z → half_even (p * q) q = p.
Proof.
  intros Hq. unfold half_even. rewrite Z.div_mul, Z.mod_mul by lia.
  rewrite (proj2 (Z.ltb_lt _ _)) by lia. done.
Qed.

Lemma half_even_ge p q : (0 < q)%Z → (p / q ≤ half_even p q)%Z.
Proof. intros Hq. unfold half_even. repeat case_match; lia. Qed.

(** The exponent of a positive integer. *)
Lemma log2_quotient_int n : (0 < n)%Z → log2_quotient n 1 = Z.log2 n.
Proof.
  intros Hn. unfold log2_quotient, scaled. simpl (Z.log2 1). rewrite Z.sub_0_r.
  pose proof (Z.log2_nonneg n). destruct (0 <=? - Z.log2 n)%Z eqn:Hs.
  - apply Z.leb_le in Hs. assert (Z.log2 n = 0%Z) as -> by lia. rewrite (proj2 (Z.ltb_ge _ _)); [done|]. simpl. lia.
  - rewrite Z.opp_involutive, Z.mul_1_l. rewrite (proj2 (Z.ltb_ge _ _)); [done|]. by apply Z.log2_spec.
Qed.

Lemma of_int_small n :
  (0 < n < 2 ^ 53)%Z → ∃ k, (0 ≤ k)%Z ∧ of_int n = Fin (n * 2 ^ k) (- k).
Proof.
  intros Hn. unfold of_int, nearest. rewrite (proj2 (Z.eqb_neq _ _)) by lia. rewrite Z.abs_eq by lia.
  rewrite log2_quotient_int by lia.
  assert (Z.log2 n < 53)%Z as Hlog by (apply Z.log2_lt_pow2; lia). pose proof (Z.log2_nonneg n).
  rewrite Z.max_r by lia. exists (52 - Z.log2 n)%Z. split; [lia|]. unfold scaled.
  rewrite (proj2 (Z.leb_le _ _)) by lia.
  replace (- (Z.log2 n - 52))%Z with (52 - Z.log2 n)%Z by lia.
  pose proof (half_even_exact (n * 2 ^ (52 - Z.log2 n)) 1 ltac:(lia)) as He. rewrite Z.mul_1_r in He. rewrite He.
  rewrite Z.max_r by lia. rewrite (proj2 (Z.leb_gt _ _)).
  - rewrite Z.sgn_pos, Z.mul_1_l by lia. f_equal. lia.
  - rewrite Z.pow_0_r, Z.mul_1_r. apply (Z.lt_le_trans _ (2 ^ 53 * 2 ^ (52 - Z.log2 n))).
    { apply Z.mul_lt_mono_pos_r; [apply Z.pow_pos_nonneg|]; lia. }
    apply (Z.le_trans _ (2 ^ 53 * 2 ^ 52)); [|by vm_compute].
    apply Z.mul_le_mono_nonneg_l; [lia|]. apply Z.pow_le_mono_r; lia.
Qed.

Lemma num_int_of_int n : (0 ≤ n < 2 ^ 53)%Z → num_int (of_int n) = Some n.
Proof.
  intros Hn. destruct (decide (n = 0%Z)) as [->|Hz]; [done|].
  destruct (of_int_small n) as (k&Hk&->); [lia|]. unfold num_int. rewrite Z.opp_involutive.
  destruct (0 <=? - k)%Z eqn:Hs.
  - apply Z.leb_le in Hs. assert (k = 0%Z) as -> by lia. f_equal. lia.
  - assert (0 < 2 ^ k)%Z by (apply Z.pow_pos_nonneg; lia). rewrite Z.mod_mul, Z.div_mul by lia. done.
Qed.

(** Comparing such integers is comparing their values. *)
Lemma num_leb_int a b : (0 ≤ a < 2 ^ 53)%Z → (0 ≤ b < 2 ^ 53)%Z → num_leb (of_int a) (of_int b) = (a <=? b)%Z.
Proof.
  assert (∀ n, (0 ≤ n < 2 ^ 53)%Z → ∃ k, (0 ≤ k)%Z ∧ of_int n = Fin (n * 2 ^ k) (- k)) as Hrep.
  { intros n Hn. destruct (decide (n = 0%Z)) as [->|]; [exists 0%Z; done|]. apply of_int_small. lia. }
  intros (j&Hj&->)%Hrep (k&Hk&->)%Hrep. unfold num_leb. set (e := Z.min (- j) (- k)).
  rewrite <-!Z.mul_assoc, <-!Z.pow_add_r by lia.
  replace (j + (- j - e))%Z with (- e)%Z by lia. replace (k + (- k - e))%Z with (- e)%Z by lia.
  assert (0 < 2 ^ (- e))%Z by (apply Z.pow_pos_nonneg; lia).
  apply Bool.eq_iff_eq_true. rewrite !Z.leb_le. split; intros; nia.
Qed.

(** Larger integers stay larger than any bound below [2^53]. *)
Lemma num_leb_big a b : (2 ^ 53 ≤ a)%Z → (0 ≤ b < 2 ^ 53)%Z → num_leb (of_int a) (of_int b) = false.
Proof.
  intros Ha Hb. assert (Hexp : (53 ≤ Z.log2 a)%Z) by (rewrite <-(Z.log2_pow2 53) by lia; by apply Z.log2_le_mono).
  assert (∃ k, (0 ≤ k)%Z ∧ of_int b = Fin (b * 2 ^ k) (- k)) as (k&Hk&->).
  { destruct (decide (b = 0%Z)) as [->|]; [exists 0%Z; done|]. apply of_int_small. lia. }
  unfold of_int, nearest. rewrite (proj2 (Z.eqb_neq _ _)) by lia. rewrite Z.abs_eq by lia.
  rewrite log2_quotient_int by lia. rewrite Z.max_r by lia. set (e := (Z.log2 a - 52)%Z).
  unfold scaled. destruct (0 <=? - e)%Z eqn:Hs; [apply Z.leb_le in Hs; lia|]. rewrite Z.opp_involutive, Z.mul_1_l.
  assert (0 < 2 ^ e)%Z as Hpos by (apply Z.pow_pos_nonneg; lia).
  destruct (2 ^ 1024 <=? _)%Z; [by rewrite (proj2 (Z.ltb_ge _ _)) by lia|].
  rewrite Z.sgn_pos, Z.mul_1_l by lia. unfold num_leb. rewrite Z.min_r by lia.
  replace (e - - k)%Z with (e + k)%Z by lia. rewrite Z.sub_diag, Z.pow_0_r, Z.mul_1_r, Z.pow_add_r by lia.
  apply Z.leb_gt. rewrite Z.mul_assoc. apply Z.mul_lt_mono_pos_r; [apply Z.pow_pos_nonneg; lia|].
  pose proof (half_even_ge a (2 ^ e) Hpos) as Hm.
  assert (2 ^ 52 ≤ a / 2 ^ e)%Z as Hq.
  { apply Z.div_le_lower_bound; [lia|]. rewrite <-Z.pow_add_r by lia. replace (e + 52)%Z with (Z.log2 a) by lia.
    apply Z.log2_spec. lia. }
  assert (2 ≤ 2 ^ e)%Z by (change 2%Z with (2 ^ 1)%Z at 1; apply Z.pow_le_mono_r; lia).
  replace (2 ^ 53)%Z with (2 ^ 52 * 2)%Z in Hb by done. nia.
Qed.

(** ** Texts of digits *)

Lemma radix_digit_10 a : radix_digit 10 a = digit_value a.
Proof. by destruct a as [[] [] [] [] [] [] [] []]. Qed.

Lemma digits_run_all acc s v :
  digits_value acc s = Some v → digits_run 10 acc s = (v, String.length s, "").
Proof.
  revert acc. induction s as [|a s IH]; intros acc; simpl; [by intros [= ->]|].
  rewrite radix_digit_10. destruct (digit_value a) as [d|] eqn:Ha; [|done]. simpl. intros Hs. by rewrite (IH _ Hs).
Qed.

Lemma parse_digits_Some s v : parse_digits s = Some v → s ≠ "" ∧ digits_value 0 s = Some v.
Proof. by destruct s. Qed.

Lemma digits_first a s v acc : digits_value acc (String a s) = Some v → is_Some (digit_value a).
Proof. simpl. destruct (digit_value a); [by eexists|done]. Qed.

Lemma digits_no_space acc s v : digits_value acc s = Some v → no_space s = true.
Proof.
  intros Hs. eapply all_chars_impl; [|apply (digit_chars s acc); by eexists].
  intros a Ha%bool_decide_eq_true%digit_value_cases. rewrite !elem_of_cons, elem_of_nil in Ha. naive_solver.
Qed.

(** A text of digits has no radix prefix and no sign. *)
Lemma digits_plain s v :
  parse_digits s = Some v → radix_prefix s = None ∧ take_sign s = (false, s).
Proof.
  intros [Hn Hv]%parse_digits_Some. destruct s as [|a s]; [done|]. clear Hn.
  pose proof (digits_first _ _ _ _ Hv) as Ha%digit_value_cases.
  assert (∀ b r, s = String b r → is_Some (digit_value b)) as Hb.
  { intros b r ->. simpl in Hv. destruct (digit_value a); [|done]. simpl in Hv. by destruct (digit_value b); [eexists|]. }
  split.
  - destruct s as [|b r]; [by rewrite !elem_of_cons, elem_of_nil in Ha; naive_solver|].
    specialize (Hb b r eq_refl). apply digit_value_cases in Hb.
    rewrite !elem_of_cons, elem_of_nil in Ha, Hb. naive_solver.
  - rewrite !elem_of_cons, elem_of_nil in Ha. naive_solver.
Qed.

Lemma to_number_digits s v : parse_digits s = Some v → to_number s = of_int (Z.of_N v).
Proof.
  intros Hs. destruct (digits_plain s v Hs) as [Hr Ht]. apply parse_digits_Some in Hs as [Hn Hv].
  unfold to_number. rewrite trim_no_space by (by eapply digits_no_space). rewrite bool_decide_false by done.
  rewrite Hr, Ht. unfold decimal_literal. rewrite bool_decide_false.
  2: { intros ->. by simpl in Hv. }
  rewrite (digits_run_all _ _ _ Hv). simpl. rewrite bool_decide_false.
  2: { destruct s; simpl; [done|lia]. }
  unfold decimal. simpl. by rewrite Z.mul_1_r.
Qed.

Lemma parseInt_digits s v : parse_digits s = Some v → parseInt s = of_int (Z.of_N v).
Proof.
  intros Hs. destruct (digits_plain s v Hs) as [Hr Ht]. apply parse_digits_Some in Hs as [Hn Hv].
  unfold parseInt. assert (trim_start s = s) as ->.
  { destruct s as [|a s]; [done|]. simpl. pose proof (digits_no_space _ _ _ Hv) as Hns. simpl in Hns.
    apply andb_true_iff in Hns as [Ha%negb_true_iff _]. by rewrite Ha. }
  rewrite Ht.
  assert (match s with
          | String "0"%char (String a r) => if bool_decide (a = "x"%char ∨ a = "X"%char) then (16%N, r) else (10%N, s)
          | _ => (10%N, s)
          end = (10%N, s)) as ->.
  { unfold radix_prefix in Hr. repeat case_match; simplify_eq; try done. }
  rewrite (digits_run_all _ _ _ Hv). by destruct s.
Qed.
