(* ===== verification/MomentLocales.v ===== *)
(** * The clock in the locales of the web interface ([src/lagosta/js/app.js], moment.js)

    The web interface shows times with moment.js, whose locales name the parts of the day in
    their own way.  [meridiem] names the part of the day of an hour; [meridiemHour], or [isPM]
    with the rule of the core, reads an hour on the twelve-hour clock back with such a name. *)

From stdpp Require Import base strings list.
From Stdlib Require Import Ascii.
From S2P Require Import Prelude Text.
Local Open Scope N_scope.

(** ** JavaScript *)

Class JsEq (A : Type) := js_eqb : A → A → bool.
#[export] Instance js_eq_N : JsEq N := N.eqb.
#[export] Instance js_eq_string : JsEq string := String.eqb.
Declare Scope js_scope.
Infix "===" := js_eqb (at level 70, no associativity) : js_scope.
Local Open Scope js_scope.

Definition js_in (x : string) (l : list string) : bool := existsb (js_eqb x) l.

(** [toLowerCase] and [charAt], for text in ASCII. *)
Definition lower_ascii (c : ascii) : ascii :=
  let n := N_of_ascii c in if (65 <=? n) && (n <=? 90) then ascii_of_N (n + 32) else c.
Fixpoint toLowerCase (s : string) : string :=
  match s with EmptyString => EmptyString | String c s => String (lower_ascii c) (toLowerCase s) end.
Definition charAt (s : string) (i : nat) : string := String.substring i 1 s.

(** ** The core *)

Record Locale := mkLocale {
  locale_name : string;
  (** hours, minutes, lower case *)
  meridiem : N → N → bool → string;
  (** hour and name; [None] for [undefined] *)
  meridiemHour : option (N → string → option N);
  isPM : string → bool;
}.

Definition localeIsPM (e : string) : bool := "p" === charAt (toLowerCase e) 0.

Definition localeMeridiem (e t : N) (n : bool) : string :=
  if 11 <? e then (if n then "pm" else "PM") else if n then "am" else "AM".

Definition en_locale : Locale := mkLocale "en" localeMeridiem None localeIsPM.

(** The hour on the twelve-hour clock. *)
Definition hFormat (hours : N) : N := if hours mod 12 === 0 then 12 else hours mod 12.

(** The hour of the day from an hour that was read and the name of the part of the day, if any. *)
Definition meridiemFixWrap (e : Locale) (t : N) (n : option string) : option N :=
  match n with
  | None => Some t
  | Some n =>
      match meridiemHour e with
      | Some f => f t n
      | None =>
          let i := isPM e n in
          let t := if i && (t <? 12) then t + 12 else t in
          Some (if negb (i || negb (12 === t)) then 0 else t)
      end
  end.

(** ** The locales *)

Definition ml_meridiem (e t : N) (n : bool) : string :=
  if e <? 4 then "രാത്രി"
  else if e <? 12 then "രാവിലെ"
  else if e <? 17 then "ഉച്ച കഴിഞ്ഞ്"
  else if e <? 20 then "വൈകുന്നേരം"
  else "രാത്രി".
Definition ml_meridiemHour (e : N) (t : string) : option N :=
  let e := if 12 === e then 0 else e in
  if ("രാത്രി" === t) && (4 <=? e) || ("ഉച്ച കഴിഞ്ഞ്" === t) || ("വൈകുന്നേരം" === t) then Some (e + 12)
  else Some e.
Definition ml_locale : Locale := mkLocale "ml" ml_meridiem (Some ml_meridiemHour) localeIsPM.

Definition ja_meridiem (e t : N) (n : bool) : string :=
  if e <? 12 then "午前"
  else "午後".
Definition ja_isPM (e : string) : bool := "午後" === e.
Definition ja_locale : Locale := mkLocale "ja" ja_meridiem None ja_isPM.

Definition gom_latn_meridiem (e t : N) (n : bool) : string :=
  if e <? 4 then "rati"
  else if e <? 12 then "sokallim"
  else if e <? 16 then "donparam"
  else if e <? 20 then "sanje"
  else "rati".
Definition gom_latn_meridiemHour (e : N) (t : string) : option N :=
  let e := if 12 === e then 0 else e in
  if "rati" === t then (if e <? 4 then Some e else Some (e + 12))
  else if "sokallim" === t then Some e
  else if "donparam" === t then (if 12 <? e then Some e else Some (e + 12))
  else if "sanje" === t then Some (e + 12)
  else None.
Definition gom_latn_locale : Locale := mkLocale "gom-latn" gom_latn_meridiem (Some gom_latn_meridiemHour) localeIsPM.

Definition tr_meridiem (e t : N) (n : bool) : string :=
  if e <? 12 then (if n then "öö" else "ÖÖ")
  else if n then "ös"
  else "ÖS".
Definition tr_isPM (e : string) : bool := ("ös" === e) || ("ÖS" === e).
Definition tr_locale : Locale := mkLocale "tr" tr_meridiem None tr_isPM.

Definition th_meridiem (e t : N) (n : bool) : string :=
  if e <? 12 then "ก่อนเที่ยง"
  else "หลังเที่ยง".
Definition th_isPM (e : string) : bool := "หลังเที่ยง" === e.
Definition th_locale : Locale := mkLocale "th" th_meridiem None th_isPM.

Definition ar_ly_meridiem (e t : N) (n : bool) : string :=
  if e <? 12 then "ص"
  else "م".
Definition ar_ly_isPM (e : string) : bool := "م" === e.
Definition ar_ly_locale : Locale := mkLocale "ar-ly" ar_ly_meridiem None ar_ly_isPM.

Definition be_meridiem (e t : N) (n : bool) : string :=
  if e <? 4 then "ночы"
  else if e <? 12 then "раніцы"
  else if e <? 17 then "дня"
  else "вечара".
Definition be_isPM (e : string) : bool := js_in e ["дня"; "вечара"].
Definition be_locale : Locale := mkLocale "be" be_meridiem None be_isPM.

Definition ko_meridiem (e t : N) (n : bool) : string :=
  if e <? 12 then "오전"
  else "오후".
Definition ko_isPM (e : string) : bool := "오후" === e.
Definition ko_locale : Locale := mkLocale "ko" ko_meridiem None ko_isPM.

Definition ku_meridiem (e t : N) (n : bool) : string :=
  if e <? 12 then "به‌یانی"
  else "ئێواره‌".
Definition ku_isPM (e : string) : bool := contains e "ئێواره‌".
Definition ku_locale : Locale := mkLocale "ku" ku_meridiem None ku_isPM.

Definition vi_meridiem (e t : N) (n : bool) : string :=
  if e <? 12 then (if n then "sa" else "SA")
  else if n then "ch"
  else "CH".
Definition vi_isPM (e : string) : bool := toLowerCase e === "ch".
Definition vi_locale : Locale := mkLocale "vi" vi_meridiem None vi_isPM.

Definition af_meridiem (e t : N) (n : bool) : string :=
  if e <? 12 then (if n then "vm" else "VM")
  else if n then "nm"
  else "NM".
Definition af_isPM (e : string) : bool := toLowerCase e === "nm".
Definition af_locale : Locale := mkLocale "af" af_meridiem None af_isPM.

Definition mr_meridiem (e t : N) (n : bool) : string :=
  if (0 <=? e) && (e <? 6) then "पहाटे"
  else if e <? 12 then "सकाळी"
  else if e <? 17 then "दुपारी"
  else if e <? 20 then "सायंकाळी"
  else "रात्री".
Definition mr_meridiemHour (e : N) (t : string) : option N :=
  let e := if 12 === e then 0 else e in
  if ("पहाटे" === t) || ("सकाळी" === t) then Some e
  else if ("दुपारी" === t) || ("सायंकाळी" === t) || ("रात्री" === t) then (if 12 <=? e then Some e else Some (e + 12))
  else None.
Definition mr_locale : Locale := mkLocale "mr" mr_meridiem (Some mr_meridiemHour) localeIsPM.

Definition ne_meridiem (e t : N) (n : bool) : string :=
  if e <? 3 then "राति"
  else if e <? 12 then "बिहान"
  else if e <? 16 then "दिउँसो"
  else if e <? 20 then "साँझ"
  else "राति".
Definition ne_meridiemHour (e : N) (t : string) : option N :=
  let e := if 12 === e then 0 else e in
  if "राति" === t then (if e <? 4 then Some e else Some (e + 12))
  else if "बिहान" === t then Some e
  else if "दिउँसो" === t then (if 10 <=? e then Some e else Some (e + 12))
  else if "साँझ" === t then Some (e + 12)
  else None.
Definition ne_locale : Locale := mkLocale "ne" ne_meridiem (Some ne_meridiemHour) localeIsPM.

Definition zh_mo_meridiem (e t : N) (n : bool) : string :=
  let i := ((100 * e) + t) in
  if i <? 600 then "凌晨"
  else if i <? 900 then "早上"
  else if i <? 1130 then "上午"
  else if i <? 1230 then "中午"
  else if i <? 1800 then "下午"
  else "晚上".
Definition zh_mo_meridiemHour (e : N) (t : string) : option N :=
  let e := if 12 === e then 0 else e in
  if ("凌晨" === t) || ("早上" === t) || ("上午" === t) then Some e
  else if "中午" === t then (if 11 <=? e then Some e else Some (e + 12))
  else if ("下午" === t) || ("晚上" === t) then Some (e + 12)
  else None.
Definition zh_mo_locale : Locale := mkLocale "zh-mo" zh_mo_meridiem (Some zh_mo_meridiemHour) localeIsPM.

Definition tg_meridiem (e t : N) (n : bool) : string :=
  if e <? 4 then "шаб"
  else if e <? 11 then "субҳ"
  else if e <? 16 then "рӯз"
  else if e <? 19 then "бегоҳ"
  else "шаб".
Definition tg_meridiemHour (e : N) (t : string) : option N :=
  let e := if 12 === e then 0 else e in
  if "шаб" === t then (if e <? 4 then Some e else Some (e + 12))
  else if "субҳ" === t then Some e
  else if "рӯз" === t then (if 11 <=? e then Some e else Some (e + 12))
  else if "бегоҳ" === t then Some (e + 12)
  else None.
Definition tg_locale : Locale := mkLocale "tg" tg_meridiem (Some tg_meridiemHour) localeIsPM.

Definition kn_meridiem (e t : N) (n : bool) : string :=
  if e <? 4 then "ರಾತ್ರಿ"
  else if e <? 10 then "ಬೆಳಿಗ್ಗೆ"
  else if e <? 17 then "ಮಧ್ಯಾಹ್ನ"
  else if e <? 20 then "ಸಂಜೆ"
  else "ರಾತ್ರಿ".
Definition kn_meridiemHour (e : N) (t : string) : option N :=
  let e := if 12 === e then 0 else e in
  if "ರಾತ್ರಿ" === t then (if e <? 4 then Some e else Some (e + 12))
  else if "ಬೆಳಿಗ್ಗೆ" === t then Some e
  else if "ಮಧ್ಯಾಹ್ನ" === t then (if 10 <=? e then Some e else Some (e + 12))
  else if "ಸಂಜೆ" === t then Some (e + 12)
  else None.
Definition kn_locale : Locale := mkLocale "kn" kn_meridiem (Some kn_meridiemHour) localeIsPM.

Definition az_meridiem (e t : N) (n : bool) : string :=
  if e <? 4 then "gecə"
  else if e <? 12 then "səhər"
  else if e <? 17 then "gündüz"
  else "axşam".
Definition az_isPM (e : string) : bool := js_in e ["gündüz"; "axşam"].
Definition az_locale : Locale := mkLocale "az" az_meridiem None az_isPM.

Definition zh_hk_meridiem (e t : N) (n : bool) : string :=
  let i := ((100 * e) + t) in
  if i <? 600 then "凌晨"
  else if i <? 900 then "早上"
  else if i <? 1200 then "上午"
  else if 1200 === i then "中午"
  else if i <? 1800 then "下午"
  else "晚上".
Definition zh_hk_meridiemHour (e : N) (t : string) : option N :=
  let e := if 12 === e then 0 else e in
  if ("凌晨" === t) || ("早上" === t) || ("上午" === t) then Some e
  else if "中午" === t then (if 11 <=? e then Some e else Some (e + 12))
  else if ("下午" === t) || ("晚上" === t) then Some (e + 12)
  else None.
Definition zh_hk_locale : Locale := mkLocale "zh-hk" zh_hk_meridiem (Some zh_hk_meridiemHour) localeIsPM.

Definition id_meridiem (e t : N) (n : bool) : string :=
  if e <? 11 then "pagi"
  else if e <? 15 then "siang"
  else if e <? 19 then "sore"
  else "malam".
Definition id_meridiemHour (e : N) (t : string) : option N :=
  let e := if 12 === e then 0 else e in
  if "pagi" === t then Some e
  else if "siang" === t then (if 11 <=? e then Some e else Some (e + 12))
  else if ("sore" === t) || ("malam" === t) then Some (e + 12)
  else None.
Definition id_locale : Locale := mkLocale "id" id_meridiem (Some id_meridiemHour) localeIsPM.

Definition ur_meridiem (e t : N) (n : bool) : string :=
  if e <? 12 then "صبح"
  else "شام".
Definition ur_isPM (e : string) : bool := "شام" === e.
Definition ur_locale : Locale := mkLocale "ur" ur_meridiem None ur_isPM.

Definition ss_meridiem (e t : N) (n : bool) : string :=
  if e <? 11 then "ekuseni"
  else if e <? 15 then "emini"
  else if e <? 19 then "entsambama"
  else "ebusuku".
Definition ss_meridiemHour (e : N) (t : string) : option N :=
  let e := if 12 === e then 0 else e in
  if "ekuseni" === t then Some e
  else if "emini" === t then (if 11 <=? e then Some e else Some (e + 12))
  else if ("entsambama" === t) || ("ebusuku" === t) then (if 0 === e then Some 0 else Some (e + 12))
  else None.
Definition ss_locale : Locale := mkLocale "ss" ss_meridiem (Some ss_meridiemHour) localeIsPM.

Definition dv_meridiem (e t : N) (n : bool) : string :=
  if e <? 12 then "މކ"
  else "މފ".
Definition dv_isPM (e : string) : bool := "މފ" === e.
Definition dv_locale : Locale := mkLocale "dv" dv_meridiem None dv_isPM.

Definition hu_meridiem (e t : N) (n : bool) : string :=
  if e <? 12 then (if n then "de" else "DE")
  else if n then "du"
  else "DU".
Definition hu_isPM (e : string) : bool := "u" === (toLowerCase (charAt e 1)).
Definition hu_locale : Locale := mkLocale "hu" hu_meridiem None hu_isPM.

Definition zh_cn_meridiem (e t : N) (n : bool) : string :=
  let i := ((100 * e) + t) in
  if i <? 600 then "凌晨"
  else if i <? 900 then "早上"
  else if i <? 1130 then "上午"
  else if i <? 1230 then "中午"
  else if i <? 1800 then "下午"
  else "晚上".
Definition zh_cn_meridiemHour (e : N) (t : string) : option N :=
  let e := if 12 === e then 0 else e in
  if ("凌晨" === t) || ("早上" === t) || ("上午" === t) then Some e
  else if ("下午" === t) || ("晚上" === t) then Some (e + 12)
  else if 11 <=? e then Some e
  else Some (e + 12).
Definition zh_cn_locale : Locale := mkLocale "zh-cn" zh_cn_meridiem (Some zh_cn_meridiemHour) localeIsPM.

Definition te_meridiem (e t : N) (n : bool) : string :=
  if e <? 4 then "రాత్రి"
  else if e <? 10 then "ఉదయం"
  else if e <? 17 then "మధ్యాహ్నం"
  else if e <? 20 then "సాయంత్రం"
  else "రాత్రి".
Definition te_meridiemHour (e : N) (t : string) : option N :=
  let e := if 12 === e then 0 else e in
  if "రాత్రి" === t then (if e <? 4 then Some e else Some (e + 12))
  else if "ఉదయం" === t then Some e
  else if "మధ్యాహ్నం" === t then (if 10 <=? e then Some e else Some (e + 12))
  else if "సాయంత్రం" === t then Some (e + 12)
  else None.
Definition te_locale : Locale := mkLocale "te" te_meridiem (Some te_meridiemHour) localeIsPM.

Definition ug_cn_meridiem (e t : N) (n : bool) : string :=
  let i := ((100 * e) + t) in
  if i <? 600 then "يېرىم كېچە"
  else if i <? 900 then "سەھەر"
  else if i <? 1130 then "چۈشتىن بۇرۇن"
  else if i <? 1230 then "چۈش"
  else if i <? 1800 then "چۈشتىن كېيىن"
  else "كەچ".
Definition ug_cn_meridiemHour (e : N) (t : string) : option N :=
  let e := if 12 === e then 0 else e in
  if ("يېرىم كېچە" === t) || ("سەھەر" === t) || ("چۈشتىن بۇرۇن" === t) then Some e
  else if ("چۈشتىن كېيىن" === t) || ("كەچ" === t) then Some (e + 12)
  else if 11 <=? e then Some e
  else Some (e + 12).
Definition ug_cn_locale : Locale := mkLocale "ug-cn" ug_cn_meridiem (Some ug_cn_meridiemHour) localeIsPM.

Definition ms_my_meridiem (e t : N) (n : bool) : string :=
  if e <? 11 then "pagi"
  else if e <? 15 then "tengahari"
  else if e <? 19 then "petang"
  else "malam".
Definition ms_my_meridiemHour (e : N) (t : string) : option N :=
  let e := if 12 === e then 0 else e in
  if "pagi" === t then Some e
  else if "tengahari" === t then (if 11 <=? e then Some e else Some (e + 12))
  else if ("petang" === t) || ("malam" === t) then Some (e + 12)
  else None.
Definition ms_my_locale : Locale := mkLocale "ms-my" ms_my_meridiem (Some ms_my_meridiemHour) localeIsPM.

Definition eo_meridiem (e t : N) (n : bool) : string :=
  if 11 <? e then (if n then "p.t.m." else "P.T.M.")
  else if n then "a.t.m."
  else "A.T.M.".
Definition eo_isPM (e : string) : bool := "p" === (toLowerCase (charAt e 0)).
Definition eo_locale : Locale := mkLocale "eo" eo_meridiem None eo_isPM.

Definition sd_meridiem (e t : N) (n : bool) : string :=
  if e <? 12 then "صبح"
  else "شام".
Definition sd_isPM (e : string) : bool := "شام" === e.
Definition sd_locale : Locale := mkLocale "sd" sd_meridiem None sd_isPM.

Definition br_meridiem (e t : N) (n : bool) : string :=
  if e <? 12 then "a.m."
  else "g.m.".
Definition br_isPM (e : string) : bool := "g.m." === e.
Definition br_locale : Locale := mkLocale "br" br_meridiem None br_isPM.

Definition ar_sa_meridiem (e t : N) (n : bool) : string :=
  if e <? 12 then "ص"
  else "م".
Definition ar_sa_isPM (e : string) : bool := "م" === e.
Definition ar_sa_locale : Locale := mkLocale "ar-sa" ar_sa_meridiem None ar_sa_isPM.

Definition fa_meridiem (e t : N) (n : bool) : string :=
  if e <? 12 then "قبل از ظهر"
  else "بعد از ظهر".
Definition fa_isPM (e : string) : bool := contains e "بعد از ظهر".
Definition fa_locale : Locale := mkLocale "fa" fa_meridiem None fa_isPM.

Definition ar_meridiem (e t : N) (n : bool) : string :=
  if e <? 12 then "ص"
  else "م".
Definition ar_isPM (e : string) : bool := "م" === e.
Definition ar_locale : Locale := mkLocale "ar" ar_meridiem None ar_isPM.

Definition bn_meridiem (e t : N) (n : bool) : string :=
  if e <? 4 then "রাত"
  else if e <? 10 then "সকাল"
  else if e <? 17 then "দুপুর"
  else if e <? 20 then "বিকাল"
  else "রাত".
Definition bn_meridiemHour (e : N) (t : string) : option N :=
  let e := if 12 === e then 0 else e in
  if ("রাত" === t) && (4 <=? e) || ("দুপুর" === t) && (e <? 5) || ("বিকাল" === t) then Some (e + 12)
  else Some e.
Definition bn_locale : Locale := mkLocale "bn" bn_meridiem (Some bn_meridiemHour) localeIsPM.

Definition zh_tw_meridiem (e t : N) (n : bool) : string :=
  let i := ((100 * e) + t) in
  if i <? 600 then "凌晨"
  else if i <? 900 then "早上"
  else if i <? 1130 then "上午"
  else if i <? 1230 then "中午"
  else if i <? 1800 then "下午"
  else "晚上".
Definition zh_tw_meridiemHour (e : N) (t : string) : option N :=
  let e := if 12 === e then 0 else e in
  if ("凌晨" === t) || ("早上" === t) || ("上午" === t) then Some e
  else if "中午" === t then (if 11 <=? e then Some e else Some (e + 12))
  else if ("下午" === t) || ("晚上" === t) then Some (e + 12)
  else None.
Definition zh_tw_locale : Locale := mkLocale "zh-tw" zh_tw_meridiem (Some zh_tw_meridiemHour) localeIsPM.

Definition ru_meridiem (e t : N) (n : bool) : string :=
  if e <? 4 then "ночи"
  else if e <? 12 then "утра"
  else if e <? 17 then "дня"
  else "вечера".
Definition ru_isPM (e : string) : bool := js_in e ["дня"; "вечера"].
Definition ru_locale : Locale := mkLocale "ru" ru_meridiem None ru_isPM.

Definition mn_meridiem (e t : N) (n : bool) : string :=
  if e <? 12 then "ҮӨ"
  else "ҮХ".
Definition mn_isPM (e : string) : bool := "ҮХ" === e.
Definition mn_locale : Locale := mkLocale "mn" mn_meridiem None mn_isPM.

Definition bn_bd_meridiem (e t : N) (n : bool) : string :=
  if e <? 4 then "রাত"
  else if e <? 6 then "ভোর"
  else if e <? 12 then "সকাল"
  else if e <? 15 then "দুপুর"
  else if e <? 18 then "বিকাল"
  else if e <? 20 then "সন্ধ্যা"
  else "রাত".
Definition bn_bd_meridiemHour (e : N) (t : string) : option N :=
  let e := if 12 === e then 0 else e in
  if "রাত" === t then (if e <? 4 then Some e else Some (e + 12))
  else if ("ভোর" === t) || ("সকাল" === t) then Some e
  else if "দুপুর" === t then (if 3 <=? e then Some e else Some (e + 12))
  else if ("বিকাল" === t) || ("সন্ধ্যা" === t) then Some (e + 12)
  else None.
Definition bn_bd_locale : Locale := mkLocale "bn-bd" bn_bd_meridiem (Some bn_bd_meridiemHour) localeIsPM.

Definition ar_dz_meridiem (e t : N) (n : bool) : string :=
  if e <? 12 then "ص"
  else "م".
Definition ar_dz_isPM (e : string) : bool := "م" === e.
Definition ar_dz_locale : Locale := mkLocale "ar-dz" ar_dz_meridiem None ar_dz_isPM.

Definition gom_deva_meridiem (e t : N) (n : bool) : string :=
  if e <? 4 then "राती"
  else if e <? 12 then "सकाळीं"
  else if e <? 16 then "दनपारां"
  else if e <? 20 then "सांजे"
  else "राती".
Definition gom_deva_meridiemHour (e : N) (t : string) : option N :=
  let e := if 12 === e then 0 else e in
  if "राती" === t then (if e <? 4 then Some e else Some (e + 12))
  else if "सकाळीं" === t then Some e
  else if "दनपारां" === t then (if 12 <? e then Some e else Some (e + 12))
  else if "सांजे" === t then Some (e + 12)
  else None.
Definition gom_deva_locale : Locale := mkLocale "gom-deva" gom_deva_meridiem (Some gom_deva_meridiemHour) localeIsPM.

Definition uk_meridiem (e t : N) (n : bool) : string :=
  if e <? 4 then "ночі"
  else if e <? 12 then "ранку"
  else if e <? 17 then "дня"
  else "вечора".
Definition uk_isPM (e : string) : bool := js_in e ["дня"; "вечора"].
Definition uk_locale : Locale := mkLocale "uk" uk_meridiem None uk_isPM.

Definition lo_meridiem (e t : N) (n : bool) : string :=
  if e <? 12 then "ຕອນເຊົ້າ"
  else "ຕອນແລງ".
Definition lo_isPM (e : string) : bool := "ຕອນແລງ" === e.
Definition lo_locale : Locale := mkLocale "lo" lo_meridiem None lo_isPM.

Definition jv_meridiem (e t : N) (n : bool) : string :=
  if e <? 11 then "enjing"
  else if e <? 15 then "siyang"
  else if e <? 19 then "sonten"
  else "ndalu".
Definition jv_meridiemHour (e : N) (t : string) : option N :=
  let e := if 12 === e then 0 else e in
  if "enjing" === t then Some e
  else if "siyang" === t then (if 11 <=? e then Some e else Some (e + 12))
  else if ("sonten" === t) || ("ndalu" === t) then Some (e + 12)
  else None.
Definition jv_locale : Locale := mkLocale "jv" jv_meridiem (Some jv_meridiemHour) localeIsPM.

Definition sq_meridiem (e t : N) (n : bool) : string :=
  if e <? 12 then "PD"
  else "MD".
Definition sq_isPM (e : string) : bool := "M" === (charAt e 0).
Definition sq_locale : Locale := mkLocale "sq" sq_meridiem None sq_isPM.

Definition tzl_meridiem (e t : N) (n : bool) : string :=
  if 11 <? e then (if n then "d'o" else "D'O")
  else if n then "d'a"
  else "D'A".
Definition tzl_isPM (e : string) : bool := "d'o" === (toLowerCase e).
Definition tzl_locale : Locale := mkLocale "tzl" tzl_meridiem None tzl_isPM.

Definition bo_meridiem (e t : N) (n : bool) : string :=
  if e <? 4 then "མཚན་མོ"
  else if e <? 10 then "ཞོགས་ཀས"
  else if e <? 17 then "ཉིན་གུང"
  else if e <? 20 then "དགོང་དག"
  else "མཚན་མོ".
Definition bo_meridiemHour (e : N) (t : string) : option N :=
  let e := if 12 === e then 0 else e in
  if ("མཚན་མོ" === t) && (4 <=? e) || ("ཉིན་གུང" === t) && (e <? 5) || ("དགོང་དག" === t) then Some (e + 12)
  else Some e.
Definition bo_locale : Locale := mkLocale "bo" bo_meridiem (Some bo_meridiemHour) localeIsPM.

Definition hy_am_meridiem (e t : N) (n : bool) : string :=
  if e <? 4 then "գիշերվա"
  else if e <? 12 then "առավոտվա"
  else if e <? 17 then "ցերեկվա"
  else "երեկոյան".
Definition hy_am_isPM (e : string) : bool := js_in e ["ցերեկվա"; "երեկոյան"].
Definition hy_am_locale : Locale := mkLocale "hy-am" hy_am_meridiem None hy_am_isPM.

Definition hi_meridiem (e t : N) (n : bool) : string :=
  if e <? 4 then "रात"
  else if e <? 10 then "सुबह"
  else if e <? 17 then "दोपहर"
  else if e <? 20 then "शाम"
  else "रात".
Definition hi_meridiemHour (e : N) (t : string) : option N :=
  let e := if 12 === e then 0 else e in
  if "रात" === t then (if e <? 4 then Some e else Some (e + 12))
  else if "सुबह" === t then Some e
  else if "दोपहर" === t then (if 10 <=? e then Some e else Some (e + 12))
  else if "शाम" === t then Some (e + 12)
  else None.
Definition hi_locale : Locale := mkLocale "hi" hi_meridiem (Some hi_meridiemHour) localeIsPM.

Definition gu_meridiem (e t : N) (n : bool) : string :=
  if e <? 4 then "રાત"
  else if e <? 10 then "સવાર"
  else if e <? 17 then "બપોર"
  else if e <? 20 then "સાંજ"
  else "રાત".
Definition gu_meridiemHour (e : N) (t : string) : option N :=
  let e := if 12 === e then 0 else e in
  if "રાત" === t then (if e <? 4 then Some e else Some (e + 12))
  else if "સવાર" === t then Some e
  else if "બપોર" === t then (if 10 <=? e then Some e else Some (e + 12))
  else if "સાંજ" === t then Some (e + 12)
  else None.
Definition gu_locale : Locale := mkLocale "gu" gu_meridiem (Some gu_meridiemHour) localeIsPM.

Definition km_meridiem (e t : N) (n : bool) : string :=
  if e <? 12 then "ព្រឹក"
  else "ល្ងាច".
Definition km_isPM (e : string) : bool := "ល្ងាច" === e.
Definition km_locale : Locale := mkLocale "km" km_meridiem None km_isPM.

Definition ms_meridiem (e t : N) (n : bool) : string :=
  if e <? 11 then "pagi"
  else if e <? 15 then "tengahari"
  else if e <? 19 then "petang"
  else "malam".
Definition ms_meridiemHour (e : N) (t : string) : option N :=
  let e := if 12 === e then 0 else e in
  if "pagi" === t then Some e
  else if "tengahari" === t then (if 11 <=? e then Some e else Some (e + 12))
  else if ("petang" === t) || ("malam" === t) then Some (e + 12)
  else None.
Definition ms_locale : Locale := mkLocale "ms" ms_meridiem (Some ms_meridiemHour) localeIsPM.

Definition si_meridiem (e t : N) (n : bool) : string :=
  if 11 <? e then (if n then "ප.ව." else "පස් වරු")
  else if n then "පෙ.ව."
  else "පෙර වරු".
Definition si_isPM (e : string) : bool := ("ප.ව." === e) || ("පස් වරු" === e).
Definition si_locale : Locale := mkLocale "si" si_meridiem None si_isPM.

Definition pa_in_meridiem (e t : N) (n : bool) : string :=
  if e <? 4 then "ਰਾਤ"
  else if e <? 10 then "ਸਵੇਰ"
  else if e <? 17 then "ਦੁਪਹਿਰ"
  else if e <? 20 then "ਸ਼ਾਮ"
  else "ਰਾਤ".
Definition pa_in_meridiemHour (e : N) (t : string) : option N :=
  let e := if 12 === e then 0 else e in
  if "ਰਾਤ" === t then (if e <? 4 then Some e else Some (e + 12))
  else if "ਸਵੇਰ" === t then Some e
  else if "ਦੁਪਹਿਰ" === t then (if 10 <=? e then Some e else Some (e + 12))
  else if "ਸ਼ਾਮ" === t then Some (e + 12)
  else None.
Definition pa_in_locale : Locale := mkLocale "pa-in" pa_in_meridiem (Some pa_in_meridiemHour) localeIsPM.

(** The locales, by the name they are registered with. *)
Definition locales : list Locale :=
  [ml_locale; ja_locale; gom_latn_locale; tr_locale; th_locale; ar_ly_locale; be_locale; ko_locale; ku_locale;
   vi_locale; af_locale; mr_locale; ne_locale; zh_mo_locale; tg_locale; kn_locale; az_locale; zh_hk_locale;
   id_locale; ur_locale; ss_locale; dv_locale; hu_locale; zh_cn_locale; te_locale; ug_cn_locale; ms_my_locale;
   eo_locale; sd_locale; br_locale; ar_sa_locale; fa_locale; ar_locale; bn_locale; zh_tw_locale; ru_locale;
   mn_locale; bn_bd_locale; ar_dz_locale; gom_deva_locale; uk_locale; lo_locale; jv_locale; sq_locale;
   tzl_locale; bo_locale; hy_am_locale; hi_locale; gu_locale; km_locale; ms_locale; si_locale; pa_in_locale].

(** Every hour and minute, in lower and upper case. *)
Definition reads_back (l : Locale) (h m : nat) (lower : bool) : bool :=
  match meridiemFixWrap l (hFormat (N.of_nat h)) (Some (meridiem l (N.of_nat h) (N.of_nat m) lower)) with
  | Some h' => h' === N.of_nat h
  | None => false
  end.

Definition clock_ok (l : Locale) : bool :=
  forallb (λ h, forallb (λ m, reads_back l h m true && reads_back l h m false) (seq 0 60)) (seq 0 24).

Lemma clock_ok_sound l h m lower :
  clock_ok l = true → (h < 24)%nat → (m < 60)%nat →
  meridiemFixWrap l (hFormat (N.of_nat h)) (Some (meridiem l (N.of_nat h) (N.of_nat m) lower)) = Some (N.of_nat h).
Proof.
  unfold clock_ok. rewrite forallb_forall. intros Hok Hh Hm.
  specialize (Hok h). rewrite in_seq, forallb_forall in Hok. specialize (Hok ltac:(lia) m).
  rewrite in_seq, andb_true_iff in Hok. destruct (Hok ltac:(lia)) as [Ht Hf].
  assert (reads_back l h m lower = true) as Hr by (by destruct lower). unfold reads_back in Hr.
  destruct (meridiemFixWrap _ _ _) as [h'|]; [|done]. f_equal. by apply N.eqb_eq in Hr.
Qed.

Lemma all_clocks_ok : forallb clock_ok (en_locale :: locales) = true.
Proof. vm_compute. reflexivity. Qed.

(**  Times on the twelve-hour clock are read back: in English and in each of the modelled
    locales, for every hour and minute of the day, the hour that is shown together with the name of
    the part of the day, in lower or upper case, is read as that hour of the day again. *)
Theorem twelve_hour_clock_roundtrip (l : Locale) (h m : nat) (lower : bool)
    (Hl : l ∈ en_locale :: locales) (Hh : (h < 24)%nat) (Hm : (m < 60)%nat) :
  meridiemFixWrap l (hFormat (N.of_nat h)) (Some (meridiem l (N.of_nat h) (N.of_nat m) lower)) = Some (N.of_nat h).
Proof.
  apply clock_ok_sound; [|done..].
  pose proof all_clocks_ok as Hall. rewrite forallb_forall in Hall. apply Hall. by apply list_elem_of_In.
Qed.

Lemma twelve_hour_clock_roundtrip_witness :
  meridiem zh_hk_locale 12 0 false = "中午" ∧
  meridiemFixWrap zh_hk_locale (hFormat 12) (Some (meridiem zh_hk_locale 12 0 false)) = Some 12.
Proof.
  split; [reflexivity|].
  apply (twelve_hour_clock_roundtrip zh_hk_locale 12 0 false); [|lia..].
  apply list_elem_of_In. simpl. tauto.
Defined.
