(* ===== verification/Ip6Addr.v ===== *)
(** * Addresses and prefixes in the web interface ([src/lagosta/js/app.js], ip6addr)

    The table of announcements sorts prefixes with [compareCIDR] of the ip6addr library: parsing
    and printing of addresses, networks, and their order.  An exception is [None]. *)

From stdpp Require Import base strings list pretty.
From Stdlib Require Import NArith ZArith Ascii Lia.
From S2P Require Import Prelude Text JsNumber MomentLocales.

(** ** Addresses *)

(** Eight fields of 16 bits; whether the address was written with dots only, and whether it was
    written with dots at all. *)
Record Addr := mkAddr { fields : list N; ipv4Bare : bool; ipv4Mapped : bool }.

(** [parseInteger] of jsprim without a sign. *)
Definition parseInteger (base : N) (s : string) : option N :=
  match digits_run base 0 s with
  | (_, O, _) => None
  | (d, _, EmptyString) => if (9007199254740991 <? d)%N then None else Some d
  | _ => None
  end.

(** The loop over the characters: fields seen, parts of a dotted quad, the position of [::], and
    the part being read. *)
Record Scan := mkScan { sc_u : list string; sc_c : list string; sc_d : option nat; sc_f : string }.

Fixpoint scan (s : string) (st : Scan) : option Scan :=
  match s with
  | EmptyString => Some st
  | String a rest =>
      if bool_decide (a = ":"%char) then
        match rest with
        | String b rest' =>
            if bool_decide (b = ":"%char) then
              if bool_decide (is_Some (sc_d st)) then None
              else
                let u := if bool_decide (sc_f st = "") then sc_u st else sc_u st ++ [sc_f st] in
                scan rest' (mkScan u (sc_c st) (Some (length u)) "")
            else if bool_decide (sc_f st = "") then None
            else scan rest (mkScan (sc_u st ++ [sc_f st]) (sc_c st) (sc_d st) "")
        | EmptyString =>
            if bool_decide (sc_f st = "") then None
            else scan rest (mkScan (sc_u st ++ [sc_f st]) (sc_c st) (sc_d st) "")
        end
      else if bool_decide (a = "."%char) then scan rest (mkScan (sc_u st) (sc_c st ++ [sc_f st]) (sc_d st) "")
      else scan rest (mkScan (sc_u st) (sc_c st) (sc_d st) (sc_f st +:+ String a ""))
  end.

(** After the last character. *)
Definition scan_end (st : Scan) : option Scan :=
  if bool_decide (sc_f st ≠ "") then
    Some (if bool_decide (sc_c st ≠ []) then mkScan (sc_u st) (sc_c st ++ [sc_f st]) (sc_d st) ""
          else mkScan (sc_u st ++ [sc_f st]) (sc_c st) (sc_d st) "")
  else if bool_decide (sc_d st ≠ Some (length (sc_u st)) ∨ sc_c st ≠ []) then None else Some st.

Definition field_value (base max : N) (s : string) : option N :=
  v ← parseInteger base s; if (max <? v)%N then None else Some v.

(** Zeros for the fields that [::] stands for. *)
Definition fill (u : list N) (d : option nat) : list N :=
  match d with
  | Some d => if bool_decide (length u < 8) then take d u ++ replicate (8 - length u) 0%N ++ drop d u else u
  | None => u
  end.

Definition is_mapped (u : list N) : bool := bool_decide (take 6 u = [0; 0; 0; 0; 0; 65535]%N).

Definition parse_addr (e : string) : option Addr :=
  let e := toLowerCase e in
  if bool_decide (40 < String.length e) then None
  else
    st ← scan e (mkScan [] [] None "");
    st ← scan_end st;
    if bool_decide (sc_c st = []) then
      if bool_decide (8 < length (sc_u st) ∨ (length (sc_u st) < 8 ∧ sc_d st = None)) then None
      else u ← mapM (field_value 16 65535) (sc_u st); Some (mkAddr (fill u (sc_d st)) false false)
    else if bool_decide (length (sc_c st) ≠ 4) then None
    else
      let bare := bool_decide (sc_u st = [] ∧ sc_d st = None) in
      let '(us, d) := if bare then (["ffff"], Some 0) else (sc_u st, sc_d st) in
      if bool_decide (6 < length us ∨ (length us < 6 ∧ d = None)) then None
      else
        u ← mapM (field_value 16 65535) us;
        c ← mapM (field_value 10 255) (sc_c st);
        let quad := match c with [c0; c1; c2; c3] => [256 * c0 + c1; 256 * c2 + c3]%N | _ => [] end in
        let u := fill (u ++ quad) d in
        if is_mapped u then Some (mkAddr u bare true) else None.

(** ** Comparison and masks *)

(** [compare]: the first field that differs decides. *)
Fixpoint compare_fields (e t : list N) : Z :=
  match e, t with
  | x :: e, y :: t => if (x <? y)%N then (-1)%Z else if (y <? x)%N then 1%Z else compare_fields e t
  | _, _ => 0%Z
  end.
Definition compare_addr (e t : Addr) : Z := compare_fields (fields e) (fields t).

(** [_prefixlenToAddr]: the mask of a prefix length. *)
Fixpoint mask_loop (n : nat) (e : N) : list N :=
  match n with
  | O => []
  | S n => if (16 <? e)%N then 65535%N :: mask_loop n (e - 16)
           else if (0 <? e)%N then (65535 - (N.shiftl 1 (16 - e) - 1))%N :: replicate n 0%N
           else replicate (S n) 0%N
  end.
Definition mask (e : N) : list N := mask_loop 8 e.

Definition and_fields (e m : list N) : list N := zip_with N.land e m.

(** [_.contains]: whether an address is in the network [::ffff:0:0/96] of IPv4. *)
Definition in_v4_range (e : Addr) : bool :=
  bool_decide (compare_fields (and_fields [0; 0; 0; 0; 0; 65535; 0; 0]%N (mask 96)) (and_fields (fields e) (mask 96)) = 0%Z).

(** ** Printing *)

Definition hex_char (n : N) : ascii := if (n <? 10)%N then ascii_of_N (48 + n) else ascii_of_N (87 + n).

(** [toString(16)] of a field. *)
Definition to_hex (n : N) : string :=
  let digit k := hex_char ((n / k) mod 16)%N in
  if (n <? 16)%N then String (digit 1%N) ""
  else if (n <? 256)%N then String (digit 16%N) (String (digit 1%N) "")
  else if (n <? 4096)%N then String (digit 256%N) (String (digit 16%N) (String (digit 1%N) ""))
  else String (digit 4096%N) (String (digit 256%N) (String (digit 16%N) (String (digit 1%N) ""))).

(** The first of the longest runs of zeros, with its length: the state of the loop is the best run
    so far, and the start and length of the current one. *)
Record Run := mkRun { best : option nat; best_len : nat; cur : option nat; cur_len : nat }.
Definition run_end (r : Run) : Run :=
  match cur r with
  | Some o => if bool_decide (best_len r < cur_len r) then mkRun (Some o) (cur_len r) None (cur_len r)
              else mkRun (best r) (best_len r) None (cur_len r)
  | None => r
  end.
Definition run_step (r : Run) (i : nat) (e : N) : Run :=
  if (e =? 0)%N then
    match cur r with
    | None => mkRun (best r) (best_len r) (Some i) 1
    | Some o => mkRun (best r) (best_len r) (Some o) (S (cur_len r))
    end
  else run_end r.
Fixpoint run_loop (i : nat) (e : list N) (r : Run) : Run :=
  match e with [] => run_end r | x :: e => run_loop (S i) e (run_step r i x) end.
Definition longest_run (e : list N) : option (nat * nat) :=
  let r := run_loop 0 e (mkRun None 0 None 0) in (λ b, (b, best_len r)) <$> best r.

(** The parts that are joined with colons. *)
Definition addr_parts (e : list N) (elide : bool) : list string :=
  let number := to_hex in
  match (if elide then longest_run e else None) with
  | None => number <$> e
  | Some (r, a) =>
      if bool_decide (a = 8) then ["::"]
      else (number <$> take r e)
           ++ (if bool_decide (r = 0 ∨ r + a = length e) then [":"] else [""])
           ++ (number <$> drop (r + a) e)
  end.

Fixpoint join (sep : string) (l : list string) : string :=
  match l with [] => "" | [s] => s | s :: l => s +:+ sep +:+ join sep l end.

Definition dotted (e : list N) : string :=
  match e with
  | [e0; e1] => pretty (e0 / 256)%N +:+ "." +:+ pretty (e0 mod 256)%N +:+ "." +:+ pretty (e1 / 256)%N +:+ "." +:+ pretty (e1 mod 256)%N
  | _ => ""
  end.

(** [toString] with the default options; dots are refused outside of IPv4. *)
Definition addr_to_string (a : Addr) : option string :=
  if ipv4Bare a then if in_v4_range a then Some (dotted (drop 6 (fields a))) else None
  else if ipv4Mapped a then
    if in_v4_range a then Some (join ":" (addr_parts (take 6 (fields a)) true ++ [dotted (drop 6 (fields a))])) else None
  else Some (join ":" (addr_parts (fields a) true)).

Definition parsed (s : string) : option (list N) := fields <$> parse_addr s.
Example parse_samples :
  (parsed "2001:db8::1", parsed "::", parsed "10.0.0.1", parsed "::ffff:1.2.3.4", parsed "1::2::3", parsed "1:2:3")
  = (Some [8193; 3512; 0; 0; 0; 0; 0; 1], Some [0; 0; 0; 0; 0; 0; 0; 0], Some [0; 0; 0; 0; 0; 65535; 2560; 1],
     Some [0; 0; 0; 0; 0; 65535; 258; 772], None, None)%N.
Proof. by vm_compute. Qed.
Example print_samples :
  addr_to_string <$> [mkAddr [8193; 3512; 0; 0; 0; 0; 0; 1]%N false false; mkAddr [0; 0; 0; 0; 0; 0; 0; 0]%N false false;
    mkAddr [0; 0; 1; 0; 0; 0; 0; 0]%N false false; mkAddr [0; 0; 0; 0; 0; 65535; 2560; 1]%N true true;
    mkAddr [0; 0; 0; 0; 0; 65535; 258; 772]%N false true]
  = Some <$> ["2001:db8::1"; "::"; "0:0:1::"; "10.0.0.1"; "::ffff:1.2.3.4"].
Proof. by vm_compute. Qed.

(** ** Networks *)

Record Cidr := mkCidr { cidr_prefix : N; cidr_mask : list N; cidr_addr : Addr }.

(** [x | 0]: the number without its fraction, at 32 bits with sign. *)
Definition to_int32 (x : Num) : Z :=
  match x with
  | Fin m e =>
      let z := if (0 <=? e)%Z then (m * 2 ^ e)%Z else Z.quot m (2 ^ (- e)) in
      ((z + 2147483648) mod 4294967296 - 2147483648)%Z
  | _ => 0%Z
  end.

(** The constructor from an address and a length. *)
Definition createCIDR (a : Addr) (len : Num) : option Cidr :=
  let t := (if ipv4Bare a then to_int32 len + 96 else to_int32 len)%Z in
  if (t <? 0)%Z || (128 <? t)%Z then None
  else
    let t := Z.to_N t in
    Some (mkCidr t (mask t) (mkAddr (and_fields (fields a) (mask t)) (ipv4Bare a) (ipv4Mapped a))).

(** The characters of the address in the text of a network. *)
Definition addr_char (a : ascii) : bool :=
  bool_decide (is_Some (radix_digit 16 a)) || bool_decide (a = ":"%char ∨ a = "."%char).

(** The constructor from a text: address, slash, digits. *)
Definition parse_cidr (s : string) : option Cidr :=
  match split_once_on "/"%char s with
  | (addr, Some len) =>
      if bool_decide (addr = "") || negb (all_chars addr_char addr) then None
      else n ← parse_digits len; a ← parse_addr addr; createCIDR a (of_int (Z.of_N n))
  | (_, None) => None
  end.

(** [contains] and [compareCIDR]. *)
Definition cidr_contains (c : Cidr) (e : Addr) : bool :=
  bool_decide (compare_fields (fields (cidr_addr c)) (and_fields (fields e) (cidr_mask c)) = 0%Z).
Definition compareCIDR (e t : Cidr) : Z :=
  let n := compare_addr (cidr_addr e) (cidr_addr t) in
  if bool_decide (n = 0%Z) then (Z.of_N (cidr_prefix t) - Z.of_N (cidr_prefix e))%Z else n.

Definition network (s : string) : option (list N * N) := (λ c, (fields (cidr_addr c), cidr_prefix c)) <$> parse_cidr s.
Example network_samples :
  (network "10.1.2.3/8", network "2001:db8:ffff::/33", network "10.0.0.0/33", network "10.0.0.0/4294967304", network "10.0.0.0")
  = (Some ([0; 0; 0; 0; 0; 65535; 2560; 0], 104), Some ([8193; 3512; 32768; 0; 0; 0; 0; 0], 33), None,
     Some ([0; 0; 0; 0; 0; 65535; 2560; 0], 104), None)%N.
Proof. by vm_compute. Qed.
