(* ===== verification/Ip6AddrFacts.v ===== *)
(** * Lemmas on addresses and prefixes of the web interface

    The value of an address as a number and what comparison and masks do to it; the texts that
    are printed and how they are read. *)

From Stdlib Require Import NArith ZArith Ascii Lia.
From stdpp Require Import base strings list pretty numbers.
From S2P Require Import Prelude Text JsNumber MomentLocales Ip6Addr.

(** ** Values *)

(** Fields of 16 bits, and the number that they write in base 65536. *)
Definition field_ok (x : N) : Prop := (x < 65536)%N.
Fixpoint value (l : list N) : N :=
  match l with [] => 0 | x :: l => x * 2 ^ (16 * N.of_nat (length l)) + value l end%N.

Lemma value_bound l : Forall field_ok l → (value l < 2 ^ (16 * N.of_nat (length l)))%N.
Proof.
  induction 1 as [|x l Hx Hl IH]; [done|]. simpl. unfold field_ok in Hx.
  replace (16 * N.of_nat (S (length l)))%N with (16 + 16 * N.of_nat (length l))%N by lia.
  rewrite N.pow_add_r. change (2 ^ 16)%N with 65536%N. nia.
Qed.

Lemma value_zeros n : value (replicate n 0%N) = 0%N.
Proof. induction n as [|n IH]; [done|]. simpl. by rewrite IH. Qed.

(** Comparing fields is comparing values. *)
Lemma compare_fields_value e t :
  Forall field_ok e → Forall field_ok t → length e = length t →
  compare_fields e t = match (value e ?= value t)%N with Lt => -1 | Eq => 0 | Gt => 1 end%Z.
Proof.
  intros He. revert t. induction He as [|x e Hx He IH]; intros [|y t] Ht Hl; try done.
  apply Forall_cons_1 in Ht as [Hy Ht]. injection Hl as Hl. simpl.
  pose proof (value_bound e He) as Be. pose proof (value_bound t Ht) as Bt. rewrite Hl in *.
  set (P := (2 ^ _)%N) in *.
  destruct (N.ltb_spec x y); [by rewrite (proj2 (N.compare_lt_iff _ _)) by nia|].
  destruct (N.ltb_spec y x); [by rewrite (proj2 (N.compare_gt_iff _ _)) by nia|].
  assert (x = y) as -> by lia. rewrite IH by done.
  destruct (N.compare_spec (value e) (value t)), (N.compare_spec (y * P + value e) (y * P + value t)); done || lia.
Qed.

(** The numbers below a power of two are cleared by a mask. *)
Definition clear_low (k v : N) : N := (v / 2 ^ k * 2 ^ k)%N.

Lemma land_high x k : field_ok x → (k ≤ 16)%N → N.land x (65536 - 2 ^ k) = clear_low k x.
Proof.
  intros Hx Hk.
  replace (65536 - 2 ^ k)%N with (N.shiftl (N.ones (16 - k)) k).
  2: { rewrite N.shiftl_mul_pow2, N.ones_equiv. rewrite <-N.sub_1_r, N.mul_sub_distr_r, N.mul_1_l.
       f_equal. rewrite <-N.pow_add_r. by replace (16 - k + k)%N with 16%N by lia. }
  unfold clear_low. rewrite <-N.shiftr_div_pow2, <-N.shiftl_mul_pow2. apply N.bits_inj. intros i.
  rewrite N.land_spec. destruct (N.le_gt_cases k i) as [Hi|Hi].
  - rewrite !N.shiftl_spec_high' by done. rewrite N.shiftr_spec'. replace (i - k + k)%N with i by lia.
    destruct (N.le_gt_cases 16 i) as [Hi'|Hi'].
    + assert (N.testbit x i = false) as ->; [|done]. destruct (decide (x = 0%N)) as [->|]; [apply N.bits_0|].
      apply N.bits_above_log2. enough (N.log2 x < 16)%N by lia. apply N.log2_lt_pow2; [lia|]. exact Hx.
    + rewrite N.ones_spec_low by lia. apply andb_true_r.
  - rewrite !N.shiftl_spec_low by done. apply andb_false_r.
Qed.

Lemma and_fields_zeros l n : and_fields l (replicate n 0%N) = replicate (min (length l) n) 0%N.
Proof.
  revert n. induction l as [|x l IH]; intros [|n]; simpl; try done. unfold and_fields in *. simpl. rewrite N.land_0_r. by rewrite IH.
Qed.

Lemma mask_loop_length n e : length (mask_loop n e) = n.
Proof. revert e. induction n as [|n IH]; intros e; simpl; [done|]. repeat case_match; simpl; rewrite ?IH, ?length_replicate; done. Qed.

Lemma clear_low_split k n x v :
  (v < 2 ^ n)%N → clear_low (k + n) (x * 2 ^ n + v) = (clear_low k x * 2 ^ n)%N.
Proof.
  intros Hv. unfold clear_low. rewrite (N.add_comm k n), N.pow_add_r.
  rewrite <-N.Div0.div_div. replace (x * 2 ^ n + v)%N with (v + x * 2 ^ n)%N by lia.
  rewrite N.div_add by (apply N.pow_nonzero; lia). rewrite (N.div_small v) by done. rewrite N.add_0_l. lia.
Qed.

Lemma clear_low_add k n x v :
  (k ≤ n)%N → clear_low k (x * 2 ^ n + v) = (x * 2 ^ n + clear_low k v)%N.
Proof.
  intros Hk. unfold clear_low. replace (2 ^ n)%N with (2 ^ (n - k) * 2 ^ k)%N.
  2: { rewrite <-N.pow_add_r. f_equal. lia. }
  replace (x * (2 ^ (n - k) * 2 ^ k) + v)%N with (v + x * 2 ^ (n - k) * 2 ^ k)%N by lia.
  rewrite N.div_add by (apply N.pow_nonzero; lia). lia.
Qed.

(** A mask clears what is beyond the prefix length. *)
Lemma mask_value n l e :
  Forall field_ok l → length l = n → (e ≤ 16 * N.of_nat n)%N →
  value (and_fields l (mask_loop n e)) = clear_low (16 * N.of_nat n - e) (value l).
Proof.
  intros Hl. revert n e. induction Hl as [|x l Hx Hl IH]; intros n e <- He; simpl; [by replace e with 0%N by (simpl in He; lia)|].
  pose proof (value_bound l Hl) as Hb. cbn [length] in He.
  assert (∀ m, length m = length l → length (and_fields l m) = length l) as Hlen.
  { intros m Hm. unfold and_fields. rewrite length_zip_with. lia. }
  destruct (N.ltb_spec 16 e).
  - simpl. rewrite Hlen by apply mask_loop_length. rewrite IH by lia.
    change 65535%N with (65536 - 2 ^ 0)%N. rewrite land_high by done.
    unfold clear_low at 1. rewrite N.div_1_r, N.mul_1_r.
    replace (_ - e)%N with (16 * N.of_nat (length l) - (e - 16))%N by lia. symmetry. apply clear_low_add. lia.
  - destruct (N.ltb_spec 0 e).
    + simpl. fold (and_fields l (replicate (length l) 0%N)).
      rewrite N.shiftl_1_l. replace (65535 - (2 ^ (16 - e) - 1))%N with (65536 - 2 ^ (16 - e))%N by lia.
      rewrite land_high by (done || lia). rewrite and_fields_zeros, length_replicate, Nat.min_id, value_zeros, N.add_0_r.
      replace (16 * N.of_nat (S (length l)) - e)%N with ((16 - e) + 16 * N.of_nat (length l))%N by lia. symmetry. by apply clear_low_split.
    + assert (e = 0%N) as -> by lia. rewrite and_fields_zeros, N.land_0_r. simpl (value _). rewrite value_zeros. symmetry. unfold clear_low. rewrite N.div_small; [done|].
      pose proof (value_bound (x :: l) (Forall_cons_2 _ _ _ Hx Hl)) as Hb'. simpl in Hb'. simpl. rewrite N.sub_0_r. done.
Qed.

(** ** Numerals *)

(** What holds of each number below a bound. *)
Lemma all_below (f : N → bool) k :
  forallb f (N.of_nat <$> seq 0 k) = true → ∀ d, (d < N.of_nat k)%N → f d = true.
Proof.
  intros H d Hd. rewrite forallb_forall in H. apply H. apply list_elem_of_In, list_elem_of_fmap.
  exists (N.to_nat d). split; [lia|]. apply elem_of_seq. lia.
Qed.

Lemma radix_digit_hex d : (d < 16)%N → radix_digit 16 (hex_char d) = Some d.
Proof.
  intros Hd. pose proof (all_below (λ d, bool_decide (radix_digit 16 (hex_char d) = Some d)) 16 eq_refl d Hd) as H.
  by apply bool_decide_eq_true in H.
Qed.

(** The characters of a part of an address. *)
Definition part_char (a : ascii) : bool :=
  bool_decide (a ≠ ":"%char) && bool_decide (a ≠ "."%char) && bool_decide (lower_ascii a = a)
  && bool_decide (is_Some (radix_digit 16 a)).
Definition part_ok (s : string) : Prop := all_chars part_char s = true ∧ s ≠ "" ∧ String.length s ≤ 4.

Lemma hex_char_part d : (d < 16)%N → part_char (hex_char d) = true.
Proof. intros Hd. by apply (all_below (λ d, part_char (hex_char d)) 16). Qed.

Lemma to_hex_part n : part_ok (to_hex n).
Proof.
  assert (∀ k, part_char (hex_char ((n / k) mod 16)) = true) as H.
  { intros k. apply hex_char_part, N.mod_lt. done. }
  unfold part_ok, to_hex. repeat case_match; simpl; rewrite !H; simpl; repeat split; done || lia.
Qed.

Lemma parseInteger_to_hex n : field_ok n → field_value 16 65535 (to_hex n) = Some n.
Proof.
  unfold field_ok. intros Hn. unfold field_value, parseInteger.
  assert (∃ k, digits_run 16 0 (to_hex n) = (n, S k, "")) as [k ->].
  { assert (∀ k, radix_digit 16 (hex_char ((n / k) mod 16)) = Some ((n / k) mod 16)%N) as H.
    { intros k. apply radix_digit_hex, N.mod_lt. done. }
    unfold to_hex.
    destruct (N.ltb_spec n 16); [|destruct (N.ltb_spec n 256); [|destruct (N.ltb_spec n 4096)]];
      cbn [digits_run]; rewrite !H; [exists 0|exists 1|exists 2|exists 3]; do 2 f_equal;
      clear H; zify; Z.to_euclidean_division_equations; lia. }
  simpl. rewrite (proj2 (N.ltb_ge _ _)) by lia. simpl. by rewrite (proj2 (N.ltb_ge _ _)) by lia.
Qed.

Lemma fields_to_hex l : Forall field_ok l → mapM (field_value 16 65535) (to_hex <$> l) = Some l.
Proof.
  intros Hl. apply mapM_Some, Forall2_fmap_l, Forall_Forall2_diag. revert Hl. apply Forall_impl.
  intros x. apply parseInteger_to_hex.
Qed.

(** The parts of a dotted quad. *)
Definition byte_text_ok (n : N) : bool :=
  bool_decide (field_value 10 255 (pretty n) = Some n) && all_chars part_char (pretty n)
  && bool_decide (pretty n ≠ "") && bool_decide (String.length (pretty n) ≤ 4).
Lemma byte_text n :
  (n < 256)%N → field_value 10 255 (pretty n) = Some n ∧ part_ok (pretty n).
Proof.
  intros Hn. pose proof (all_below byte_text_ok 256 ltac:(by vm_compute) n Hn) as H.
  unfold byte_text_ok in H. rewrite !andb_true_iff, !bool_decide_eq_true in H. unfold part_ok. naive_solver.
Qed.

(** ** Reading joined parts *)

Lemma part_char_not_sep a s : all_chars part_char (String a s) = true → a ≠ ":"%char ∧ a ≠ "."%char.
Proof. simpl. unfold part_char. rewrite !andb_true_iff, !bool_decide_eq_true. naive_solver. Qed.

(** The characters of a part are collected. *)
Lemma scan_part s rest u c d f :
  all_chars part_char s = true → scan (s +:+ rest) (mkScan u c d f) = scan rest (mkScan u c d (f +:+ s)).
Proof.
  revert f. induction s as [|a s IH]; intros f Hs.
  - by rewrite string_app_nil, string_app_empty.
  - rewrite string_app_cons. destruct (part_char_not_sep a s Hs) as [H1 H2]. simpl in *. apply andb_true_iff in Hs as [_ Hs].
    rewrite !bool_decide_false by done. rewrite IH by done. simpl. f_equal. f_equal.
    by rewrite string_app_assoc.
Qed.

(** A colon or a dot after a part, not followed by another colon. *)
Lemma scan_colon a rest u c d f :
  f ≠ "" → a ≠ ":"%char →
  scan (String ":" (String a rest)) (mkScan u c d f) = scan (String a rest) (mkScan (u ++ [f]) c d "").
Proof. intros Hf Ha. cbn [scan]. rewrite bool_decide_true by done. rewrite (bool_decide_false (a = _)) by done. by rewrite bool_decide_false. Qed.

Lemma scan_dot rest u c d f : scan (String "." rest) (mkScan u c d f) = scan rest (mkScan u (c ++ [f]) d "").
Proof. done. Qed.

(** Two colons after a part, or at the start. *)
Lemma scan_colons rest u f :
  scan (String ":" (String ":" rest)) (mkScan u [] None f)
  = let u' := if bool_decide (f = "") then u else u ++ [f] in scan rest (mkScan u' [] (Some (length u')) "").
Proof. done. Qed.

Lemma join_cons sep s l : l ≠ [] → join sep (s :: l) = s +:+ sep +:+ join sep l.
Proof. by destruct l. Qed.

(** Parts joined with colons are the fields, with the last still being read. *)
Lemma scan_join l x rest u d :
  Forall part_ok (l ++ [x]) →
  scan (join ":" (l ++ [x]) +:+ rest) (mkScan u [] d "") = scan rest (mkScan (u ++ l) [] d x).
Proof.
  revert u. induction l as [|s l IH]; intros u H; simpl app.
  - apply Forall_singleton in H as (Hx&_). simpl join. rewrite scan_part by done. rewrite string_app_nil. by rewrite app_nil_r.
  - simpl in H. apply Forall_cons_1 in H as [(Hs&Hne&_) H]. rewrite join_cons by (by destruct l).
    rewrite !string_app_assoc, scan_part by done. rewrite string_app_nil, string_app_cons, string_app_nil.
    assert (∃ b t, join ":" (l ++ [x]) +:+ rest = String b t ∧ b ≠ ":"%char) as (b&t&Hbt&Hb).
    { destruct (l ++ [x]) as [|y l'] eqn:Hl; [by destruct l|]. apply Forall_cons_1 in H as [(Hy&Hyne&_) _].
      destruct y as [|b y]; [done|]. destruct (part_char_not_sep b y Hy) as [Hb _].
      destruct l'; simpl; rewrite ?string_app_cons; eauto. }
    rewrite Hbt, scan_colon by done. rewrite <-Hbt, IH by done. by rewrite <-app_assoc.
Qed.

(** Parts on both sides of two colons. *)
Lemma scan_elided pre post :
  Forall part_ok pre → Forall part_ok post →
  scan (join ":" pre +:+ "::" +:+ join ":" post) (mkScan [] [] None "") ≫= scan_end
  = Some (mkScan (pre ++ post) [] (Some (length pre)) "").
Proof.
  intros Hpre Hpost.
  assert (scan (join ":" pre +:+ "::" +:+ join ":" post) (mkScan [] [] None "")
          = scan (join ":" post) (mkScan pre [] (Some (length pre)) "")) as ->.
  { destruct pre as [|x pre _] using rev_ind; [done|]. rewrite scan_join by done. simpl app at 1.
    rewrite !string_app_cons, string_app_nil, scan_colons. apply Forall_app in Hpre as [_ Hx].
    apply Forall_singleton in Hx as (_&Hx&_). by rewrite bool_decide_false. }
  destruct post as [|y post _] using rev_ind.
  - simpl. unfold scan_end. simpl. rewrite bool_decide_false by naive_solver. by rewrite app_nil_r.
  - rewrite <-(string_app_empty (join _ _)), scan_join by done. simpl. unfold scan_end. simpl.
    apply Forall_app in Hpost as [_ Hy]. apply Forall_singleton in Hy as (_&Hy&_).
    rewrite bool_decide_true by done. by rewrite <-app_assoc.
Qed.

Lemma scan_full l :
  l ≠ [] → Forall part_ok l →
  scan (join ":" l) (mkScan [] [] None "") ≫= scan_end = Some (mkScan l [] None "").
Proof.
  intros Hne H. destruct l as [|x l _] using rev_ind; [done|].
  rewrite <-(string_app_empty (join _ _)), scan_join by done. simpl. unfold scan_end. simpl.
  apply Forall_app in H as [_ Hx]. apply Forall_singleton in Hx as (_&Hx&_). by rewrite bool_decide_true.
Qed.

(** Lengths and lower case of joined parts. *)
Lemma join_length l : Forall part_ok l → String.length (join ":" l) ≤ 5 * length l.
Proof.
  induction 1 as [|s l (_&_&Hs) Hl IH]; [done|]. destruct l as [|t l]; [simpl; lia|].
  rewrite join_cons by done. rewrite !app_length_string. cbn [length String.length] in *. lia.
Qed.

Definition lower_text (s : string) : Prop := toLowerCase s = s.
Lemma lower_text_app s t : lower_text s → lower_text t → lower_text (s +:+ t).
Proof.
  unfold lower_text. intros Hs Ht. induction s as [|a s IH]; [done|]. rewrite string_app_cons. simpl in *.
  injection Hs as Ha Hs. by rewrite Ha, IH.
Qed.
Lemma part_lower s : part_ok s → lower_text s.
Proof.
  unfold lower_text. intros (Hs&_). induction s as [|a s IH]; [done|]. simpl in *. unfold part_char in Hs at 1.
  rewrite !andb_true_iff, !bool_decide_eq_true in Hs. destruct Hs as [[[_ Ha] _] Hs]. by rewrite Ha, IH.
Qed.
Lemma join_lower sep l : lower_text sep → Forall part_ok l → lower_text (join sep l).
Proof.
  intros Hsep. induction 1 as [|s l Hs Hl IH]; [done|]. destruct l as [|t l]; [by apply part_lower|].
  rewrite join_cons by done. auto using lower_text_app, part_lower.
Qed.

(** ** The run of zeros that is left out *)

Definition zeros (e : list N) (b n : nat) : Prop := ∀ k, b ≤ k < b + n → e !! k = Some 0%N.

Record run_inv (e : list N) (i : nat) (r : Run) : Prop := {
  ri_best : ∀ b, best r = Some b → zeros e b (best_len r) ∧ 1 ≤ best_len r ∧ b + best_len r ≤ i;
  ri_cur : ∀ o, cur r = Some o → zeros e o (cur_len r) ∧ 1 ≤ cur_len r ∧ o + cur_len r = i;
}.

Lemma run_end_inv e i r : run_inv e i r → run_inv e i (run_end r) ∧ cur (run_end r) = None.
Proof.
  intros [Hb Hc]. unfold run_end. destruct (cur r) as [o|] eqn:Ho; [|split; [split; [done|by rewrite Ho]|done]].
  destruct (Hc o eq_refl) as (Hz&H1&Hi). case_bool_decide; (split; [split|]); simpl; try done.
  intros b [= <-]. split; [done|]. lia.
Qed.

Lemma run_inv_S e i r : run_inv e i r → cur r = None → run_inv e (S i) r.
Proof. intros [Hb Hc] Hn. split; [|by rewrite Hn]. intros b Hr. destruct (Hb b Hr) as (?&?&?). split_and!; [done..|lia]. Qed.

Lemma run_step_inv e i r x : e !! i = Some x → run_inv e i r → run_inv e (S i) (run_step r i x).
Proof.
  intros Hx Hinv. unfold run_step. destruct (N.eqb_spec x 0) as [->|Hn].
  2: { destruct (run_end_inv e i r Hinv) as [H1 H2]. by apply run_inv_S. }
  destruct Hinv as [Hb Hc]. destruct (cur r) as [o|] eqn:Ho.
  - destruct (Hc o eq_refl) as (Hz&H1&Hi). split; simpl.
    + intros b Hr. destruct (Hb b Hr) as (?&?&?). split_and!; [done..|lia].
    + intros o' [= <-]. split_and!; [|lia..]. intros k Hk. destruct (decide (k = i)) as [->|]; [done|]. apply Hz. lia.
  - split; simpl.
    + intros b Hr. destruct (Hb b Hr) as (?&?&?). split_and!; [done..|lia].
    + intros o' [= <-]. split_and!; [|lia..]. intros k Hk. by replace k with i by lia.
Qed.

Lemma run_loop_inv e i r : run_inv e i r → run_inv e (length e) (run_loop i (drop i e) r) ∨ length e < i.
Proof.
  intros Hinv. remember (drop i e) as l eqn:Hl. revert i r Hinv Hl. induction l as [|x l IH]; intros i r Hinv Hl; simpl.
  - assert (length e ≤ i) as Hi by (apply (f_equal length) in Hl; rewrite length_drop in Hl; simpl in Hl; lia).
    destruct (decide (length e < i)); [by right|left]. replace (length e) with i by lia. by apply run_end_inv.
  - symmetry in Hl. assert (e !! i = Some x) as Hx by (rewrite <-(Nat.add_0_r i), <-lookup_drop, Hl; done).
    pose proof (lookup_lt_Some _ _ _ Hx). destruct (IH (S i) (run_step r i x)) as [H'|H'].
    + by apply run_step_inv.
    + by rewrite <-Nat.add_1_r, <-drop_drop, Hl.
    + by left.
    + lia.
Qed.

(** The run is a run of zeros. *)
Lemma longest_run_zeros e r a :
  longest_run e = Some (r, a) → 1 ≤ a ∧ r + a ≤ length e ∧ e = take r e ++ replicate a 0%N ++ drop (r + a) e.
Proof.
  unfold longest_run. set (st := run_loop _ _ _). intros Hr.
  destruct (run_loop_inv e 0 (mkRun None 0 None 0)) as [[Hb _]|]; [by split| |lia].
  rewrite drop_0 in Hb. fold st in Hb. destruct (best st) as [b|] eqn:Hbest; [|done]. injection Hr as <- <-.
  destruct (Hb b eq_refl) as (Hz&H1&Hlen). split_and!; [done..|].
  rewrite <-(take_drop b e) at 1. f_equal. rewrite <-(take_drop (best_len st) (drop b e)). rewrite drop_drop. f_equal.
  apply list_eq. intros k. destruct (decide (k < best_len st)) as [Hk|Hk].
  - rewrite lookup_take_lt, lookup_drop, Hz, lookup_replicate_2 by lia. done.
  - rewrite !lookup_ge_None_2; rewrite ?length_take, ?length_replicate; lia || done.
Qed.

(** ** Printing and reading addresses *)

Lemma join_app sep l m : l ≠ [] → m ≠ [] → join sep (l ++ m) = join sep l +:+ sep +:+ join sep m.
Proof.
  intros Hl Hm. induction l as [|s l IH]; [done|]. destruct l as [|t l]; [by apply join_cons|].
  simpl app. rewrite (join_cons _ s (t :: l)), join_cons by done. simpl app in IH. rewrite IH by done. by rewrite !string_app_assoc.
Qed.

(** The text of the fields with a run of zeros left out. *)
Lemma elided_text e r a :
  length e = 8 → longest_run e = Some (r, a) →
  join ":" (addr_parts e true)
  = join ":" (to_hex <$> take r e) +:+ "::" +:+ join ":" (to_hex <$> drop (r + a) e).
Proof.
  intros He Hr. destruct (longest_run_zeros e r a Hr) as (Ha&Hlen&_). unfold addr_parts. rewrite Hr.
  case_bool_decide as H8.
  { assert (r = 0) as -> by lia. rewrite drop_ge by lia. done. }
  assert (∀ l : list N, length l ≠ 0 → to_hex <$> l ≠ []) as Hne by (by intros []).
  case_bool_decide as Hedge.
  - destruct (decide (r = 0)) as [->|Hr0].
    + simpl app. rewrite join_cons by (apply Hne; rewrite length_drop; lia). done.
    + rewrite (drop_ge e (r + a)) by lia. simpl fmap. rewrite app_nil_r.
      rewrite join_app by (done || apply Hne; rewrite length_take; lia). done.
  - rewrite join_app; [|apply Hne; rewrite length_take; lia|done].
    simpl app. rewrite join_cons by (apply Hne; rewrite length_drop; lia). done.
Qed.

Lemma hex_parts l : Forall part_ok (to_hex <$> l).
Proof. apply Forall_fmap, Forall_true. intros x. apply to_hex_part. Qed.

Lemma bind_two {A B C} (m : option A) (f : A → option B) (g : B → option C) y :
  m ≫= f = Some y → (x ← m; z ← f x; g z) = g y.
Proof. intros H. destruct m as [x|]; [|done]. simpl in *. by rewrite H. Qed.

(** The text of fields is read as these fields. *)
Lemma parse_fields e :
  length e = 8 → Forall field_ok e → parse_addr (join ":" (addr_parts e true)) = Some (mkAddr e false false).
Proof.
  intros He Hok. unfold parse_addr. destruct (longest_run e) as [[r a]|] eqn:Hr.
  - rewrite (elided_text e r a) by done. destruct (longest_run_zeros e r a Hr) as (Ha&Hlen&Hsplit).
    pose proof (hex_parts (take r e)) as Hpre. pose proof (hex_parts (drop (r + a) e)) as Hpost.
    assert (length (take r e) = r ∧ length (drop (r + a) e) = 8 - (r + a)) as [Hlt Hld].
    { rewrite length_take, length_drop. lia. }
    assert (lower_text (join ":" (to_hex <$> take r e) +:+ "::" +:+ join ":" (to_hex <$> drop (r + a) e))) as ->.
    { repeat apply lower_text_app; try done; by apply join_lower. }
    rewrite bool_decide_false.
    2: { rewrite !app_length_string. apply join_length in Hpre, Hpost. rewrite length_fmap in Hpre, Hpost.
         simpl (String.length "::"). lia. }
    rewrite (bind_two _ _ _ _ (scan_elided _ _ Hpre Hpost)). simpl. rewrite <-fmap_app, length_fmap.
    rewrite bool_decide_false by (rewrite length_fmap, length_app; naive_solver lia).
    rewrite fields_to_hex by (apply Forall_app; split; [by apply Forall_take|by apply Forall_drop]).
    simpl. do 2 f_equal. rewrite bool_decide_true by (rewrite length_app; lia).
    rewrite length_fmap, take_app_length, drop_app_length, length_app, Hlt, Hld.
    replace (8 - (r + (8 - (r + a)))) with a by lia. done.
  - assert (addr_parts e true = to_hex <$> e) as -> by (unfold addr_parts; by rewrite Hr).
    pose proof (hex_parts e) as Hparts.
    assert (lower_text (join ":" (to_hex <$> e))) as -> by (by apply join_lower).
    rewrite bool_decide_false.
    2: { apply join_length in Hparts. rewrite length_fmap in Hparts. lia. }
    assert (to_hex <$> e ≠ []) as Hne by (by destruct e).
    rewrite (bind_two _ _ _ _ (scan_full _ Hne Hparts)). simpl. rewrite bool_decide_false by (rewrite length_fmap; lia).
    by rewrite fields_to_hex.
Qed.

(** The four bytes of the last two fields. *)
Definition quad (x y : N) : list N := [x / 256; x mod 256; y / 256; y mod 256]%N.

Lemma quad_bytes x y : field_ok x → field_ok y → Forall (λ b, (b < 256)%N) (quad x y).
Proof.
  unfold field_ok, quad. intros Hx Hy. repeat constructor; try (by apply N.mod_lt); by apply N.Div0.div_lt_upper_bound.
Qed.

Lemma quad_parts x y : field_ok x → field_ok y → Forall part_ok (pretty <$> quad x y).
Proof.
  intros Hx Hy. apply Forall_fmap. pose proof (quad_bytes x y Hx Hy) as H. revert H. apply Forall_impl.
  intros b Hb. by apply byte_text.
Qed.

Lemma quad_values x y :
  field_ok x → field_ok y → mapM (field_value 10 255) (pretty <$> quad x y) = Some (quad x y).
Proof.
  intros Hx Hy. apply mapM_Some, Forall2_fmap_l, Forall_Forall2_diag.
  pose proof (quad_bytes x y Hx Hy) as H. revert H. apply Forall_impl. intros b Hb. by apply byte_text.
Qed.

(** The bytes joined with dots are the parts of the quad. *)
Lemma scan_dotted x y u d :
  field_ok x → field_ok y →
  scan (dotted [x; y]) (mkScan u [] d "") ≫= scan_end = Some (mkScan u (pretty <$> quad x y) d "").
Proof.
  intros Hx Hy. pose proof (quad_parts x y Hx Hy) as H. unfold quad in *. simpl in *.
  rewrite !Forall_cons_iff in H. destruct H as ((H1&_)&(H2&_)&(H3&_)&(H4&Hne&_)&_).
  do 3 (rewrite scan_part by done; rewrite string_app_nil, string_app_cons, string_app_nil, scan_dot).
  rewrite <-(string_app_empty (pretty (y mod 256)%N)), scan_part by done. simpl. unfold scan_end. simpl.
  rewrite string_app_nil, string_app_empty. by rewrite !bool_decide_true.
Qed.

Lemma dotted_text x y :
  field_ok x → field_ok y → lower_text (dotted [x; y]) ∧ String.length (dotted [x; y]) ≤ 19.
Proof.
  intros Hx Hy. pose proof (quad_parts x y Hx Hy) as H. unfold quad in H. simpl in *. rewrite !Forall_cons_iff in H.
  destruct H as (H1&H2&H3&H4&_). split.
  - repeat apply lower_text_app; try done; by apply part_lower.
  - rewrite !app_length_string. destruct H1 as (_&_&?), H2 as (_&_&?), H3 as (_&_&?), H4 as (_&_&?). simpl (String.length "."). lia.
Qed.

Lemma dotted_first x y :
  field_ok x → field_ok y → ∃ a s, dotted [x; y] = String a s ∧ a ≠ ":"%char.
Proof.
  intros Hx Hy. pose proof (quad_parts x y Hx Hy) as H. unfold quad in H. simpl in *. apply Forall_cons_1 in H as [(H1&Hne&_) _].
  destruct (pretty (x / 256)%N) as [|a s]; [done|]. rewrite string_app_cons.
  destruct (part_char_not_sep a s H1). eauto.
Qed.

(** What follows the last colon is a quad, and the colons wrote [::ffff]. *)
Lemma parse_dotted p x y u d :
  field_ok x → field_ok y → lower_text p → String.length p ≤ 21 →
  scan (p +:+ dotted [x; y]) (mkScan [] [] None "") = scan (dotted [x; y]) (mkScan u [] d "") →
  u = [] ∧ d = None ∨ u = ["ffff"] ∧ d = Some 0 →
  parse_addr (p +:+ dotted [x; y])
  = Some (mkAddr [0; 0; 0; 0; 0; 65535; x; y]%N (bool_decide (u = [] ∧ d = None)) true).
Proof.
  intros Hx Hy Hp Hlp Hscan Hud. destruct (dotted_text x y Hx Hy) as [Hlow Hld].
  pose proof (quad_values x y Hx Hy) as Hq. unfold parse_addr.
  rewrite (lower_text_app _ _ Hp Hlow). rewrite bool_decide_false by (rewrite app_length_string; lia).
  rewrite Hscan, (bind_two _ _ _ _ (scan_dotted x y u d Hx Hy)).
  assert (256 * (x / 256) + x mod 256 = x ∧ 256 * (y / 256) + y mod 256 = y)%N as [Ex Ey].
  { split; symmetry; by apply N.div_mod. }
  destruct Hud as [[-> ->]|[-> ->]];
    cbn [sc_u sc_c sc_d]; rewrite Hq; unfold quad; simpl; by rewrite Ex, Ey.
Qed.

(** ** Well-formed addresses *)

Record addr_wf (a : Addr) : Prop := {
  aw_length : length (fields a) = 8;
  aw_fields : Forall field_ok (fields a);
  aw_bare : ipv4Bare a = true → ipv4Mapped a = true;
  aw_mapped : ipv4Mapped a = true → is_mapped (fields a) = true;
}.

Lemma fill_length u d : length u ≤ 8 → (length u < 8 → d ≠ None) → length (fill u d) = 8.
Proof.
  intros Hu Hd. unfold fill. destruct d as [d|]; [|by destruct (decide (length u < 8)) as [H|H]; [destruct (Hd H)|lia]].
  case_bool_decide; [|lia]. rewrite !length_app, length_replicate, length_take, length_drop. lia.
Qed.

Lemma fill_ok u d : Forall field_ok u → Forall field_ok (fill u d).
Proof.
  intros Hu. unfold fill. destruct d; [|done]. case_bool_decide; [|done].
  rewrite !Forall_app. split_and!; [by apply Forall_take|by apply Forall_replicate|by apply Forall_drop].
Qed.

Lemma mapM_values base max us u :
  mapM (field_value base max) us = Some u → length u = length us ∧ Forall (λ x, (x ≤ max)%N) u.
Proof.
  intros H%mapM_Some. split; [symmetry; by eapply Forall2_length|].
  eapply Forall2_Forall_r; [exact H|]. apply Forall_true. intros s x. unfold field_value.
  destruct (parseInteger base s) as [v|]; simpl; [|done]. destruct (N.ltb_spec max v); [done|]. by intros [= <-].
Qed.

(** What is read is well-formed. *)
Lemma parse_addr_wf s a : parse_addr s = Some a → addr_wf a.
Proof.
  unfold parse_addr. case_bool_decide; [done|].
  destruct (scan _ _) as [st|]; [|done]. simpl. destruct (scan_end st) as [[us c d f]|]; [|done]. simpl.
  assert (∀ l, Forall (λ x, (x ≤ 65535)%N) l → Forall field_ok l) as Hle.
  { intros l. apply Forall_impl. unfold field_ok. lia. }
  case_bool_decide as Hc.
  - case_bool_decide as Hl; [done|]. destruct (mapM _ us) as [u|] eqn:Hu; [|done]. simpl. intros [= <-].
    apply mapM_values in Hu as [Hul Huv]. split; simpl; [|by apply fill_ok, Hle|done..].
    apply fill_length; [lia|]. intros Hlt ->. apply Hl. rewrite <-Hul. auto.
  - case_bool_decide as H4; [done|]. set (bare := bool_decide _).
    destruct (if bare then _ else _) as [us' d'] eqn:Hus. case_bool_decide as Hl; [done|].
    destruct (mapM _ us') as [u|] eqn:Hu; [|done]. simpl. destruct (mapM _ c) as [cs|] eqn:Hcs; [|done]. simpl.
    apply mapM_values in Hu as [Hul Huv]. apply mapM_values in Hcs as [Hcl Hcv].
    assert (length c = 4) as Hc4 by (destruct (decide (length c = 4)); [done|naive_solver]). rewrite Hc4 in Hcl.
    destruct cs as [|c0 [|c1 [|c2 [|c3 [|]]]]]; try done. rewrite !Forall_cons_iff in Hcv.
    destruct (is_mapped _) eqn:Hm; [|done]. intros [= <-]. split; simpl; [| |done..].
    + apply fill_length; rewrite length_app; simpl; [lia|]. intros Hlt ->. apply Hl. right. split; [lia|done].
    + apply fill_ok, Forall_app. split; [by apply Hle|]. unfold field_ok. repeat constructor; lia.
Qed.
