(* ===== verification/RoaDialog.v ===== *)
(** * The forms for ROAs in the web interface ([src/lagosta/js/app.js]: CADetails, el-table)

    The form to add a ROA with its rules, the rows that suggestions are shown as, the carts that
    selected rows go into with the selections of the two tables, and what the server makes of
    the request that a cart is sent as. *)

From stdpp Require Import base gmap strings list pretty.
From Stdlib Require Import ZArith Ascii.
From S2P Require Import Prelude Text Roas Routes JsNumber MomentLocales.

(** ** The form to add a ROA *)

(** A field that was reset is [null]. *)
Record RoaForm := mkRoaForm { rf_asn : option string; rf_prefix : option string; rf_maxLength : string }.

Inductive Verdict := Accepted | Rejected (message : string).

Definition has_as (s : string) : bool := starts_with (toLowerCase s) "as".
(** [substr(2)] *)
Definition substr2 (s : string) : string := match s with String _ (String _ r) => r | _ => "" end.

(** A field's value as a number: [null] is zero. *)
Definition field_number (n : option string) : Num := match n with Some s => to_number s | None => Fin 0 0 end.

Definition asn_rule (n : option string) : Verdict :=
  if bool_decide (n = Some "") then Rejected "required"
  else
    let x := match n with
             | Some s => if has_as s then to_number (substr2 s) else to_number s
             | None => field_number n
             end in
    if num_leb (of_int 0) x && num_leb x (of_int 4294967295) then Accepted else Rejected "asn_format".

(** [cidr] is the test of the [cidr-regex] library. *)
Definition prefix_rule (cidr : string → bool) (n : option string) : Verdict :=
  match n with
  | Some "" => Rejected "required"
  | Some s => if cidr s then Accepted else Rejected "prefix_format"
  | None => Accepted
  end.

Definition updateMaxLength (e : option string) (f : RoaForm) : RoaForm :=
  match e with
  | Some e => if contains e "/" then mkRoaForm (rf_asn f) (rf_prefix f) (default "" (split_on "/"%char e !! 1)) else f
  | None => f
  end.

(** When the field for the AS number changed; [None] is an exception, for [null]. *)
Definition removeAS (f : RoaForm) : option RoaForm :=
  asn ← rf_asn f;
  let asn := if has_as asn then substr2 asn else asn in
  let f := mkRoaForm (Some asn) (rf_prefix f) (rf_maxLength f) in
  Some (if bool_decide (asn = "0") then updateMaxLength (rf_prefix f) f else f).

Definition resetAddRoaForm (f : RoaForm) : RoaForm := mkRoaForm None None "".

Definition triggerAddROA (asn : N) (prefix : string) (f : RoaForm) : RoaForm :=
  updateMaxLength (Some prefix) (mkRoaForm (Some (pretty asn)) (Some prefix) (rf_maxLength f)).

(** ** Requests *)

(** A maximum length in a request: a number, a text, or absent. *)
Inductive RowLength := LengthNum (n : Num) | LengthText (s : string) | LengthUndefined.

Inductive Action := Add | Remove.
#[export] Instance Action_eq_dec : EqDecision Action.
Proof. solve_decision. Defined.

Record Row := mkRow {
  row_action : Action;
  row_reason : string;
  row_asn : Num;
  row_prefix : option string;
  row_max_length : RowLength;
}.

Record Cart := mkCart { added : list Row; removed : list Row }.

(** [parseInt] of a field: [null] becomes a text. *)
Definition parseInt_field (n : option string) : Num := parseInt (match n with Some s => s | None => "null" end).

(** The body of the request of [addROA]. *)
Definition addROA_body (f : RoaForm) : Cart :=
  mkCart [mkRow Add "" (parseInt_field (rf_asn f)) (rf_prefix f) (LengthNum (or_zero (parseInt (rf_maxLength f))))] [].

(** [submitForm]: the request, if the rules accept. *)
Definition submitForm (cidr : string → bool) (f : RoaForm) : option Cart :=
  match asn_rule (rf_asn f), prefix_rule cidr (rf_prefix f) with
  | Accepted, Accepted => Some (addROA_body f)
  | _, _ => None
  end.

(** ** Suggestions *)

(** A ROA or an announcement in the server's suggestions. *)
Record Item := mkItem { it_asn : N; it_prefix : string; it_max_length : option N }.

Record Suggestions := mkSuggestions {
  not_found : list Item; invalid_asn : list Item; invalid_length : list Item;
  stale : list Item; as0_redundant : list Item; sg_not_held : list Item; redundant : list Item;
  too_permissive : list (Item * list Item); disallowing : list Item;
}.

(** What follows the slash, as a number, or the empty text for no prefix; a missing part makes
    [NaN]. *)
Definition prefix_length (prefix : string) : RowLength :=
  if bool_decide (prefix = "") then LengthText ""
  else LengthNum (match split_on "/"%char prefix !! 1 with Some s => to_number s | None => NaN end).

Definition suggestion_row (action : Action) (reason : string) (e : Item) : Row :=
  mkRow action reason (of_int (Z.of_N (it_asn e))) (Some (it_prefix e)) (prefix_length (it_prefix e)).

Definition too_permissive_rows (e : Item * list Item) : list Row :=
  mkRow Remove "too_permissive" (of_int (Z.of_N (it_asn e.1))) (Some (it_prefix e.1))
    (match it_max_length e.1 with Some m => LengthNum (of_int (Z.of_N m)) | None => LengthUndefined end)
  :: (suggestion_row Add "specific" <$> e.2).

(** The watcher of [suggestions]. *)
Definition suggestion_rows (s : Suggestions) : list Row :=
  (suggestion_row Add "not_found" <$> not_found s) ++ (suggestion_row Add "invalid_asn" <$> invalid_asn s)
  ++ (suggestion_row Add "invalid_length" <$> invalid_length s) ++ (suggestion_row Remove "stale" <$> stale s)
  ++ (suggestion_row Remove "as0_redundant" <$> as0_redundant s) ++ (suggestion_row Remove "not_held" <$> sg_not_held s)
  ++ (suggestion_row Remove "redundant" <$> redundant s) ++ (too_permissive s ≫= too_permissive_rows)
  ++ (suggestion_row Remove "disallowing" <$> disallowing s).

(** The rows that a selection puts into a cart. *)
Definition cart_of (rows : list Row) : Cart :=
  mkCart (filter (λ r, row_action r = Add) rows) (filter (λ r, row_action r = Remove) rows).

(** ** Tables with selectable rows ([el-table]) *)

(** The rows shown, and the selected ones in the order of selection, by their position. *)
Record Table := mkTable { tb_data : list Row; tb_selection : list nat }.

Definition selected_rows (t : Table) : list Row := omap (λ i, tb_data t !! i) (tb_selection t).

(** [splice] at the first position of a row. *)
Fixpoint splice_first (row : nat) (l : list nat) : list nat :=
  match l with [] => [] | i :: l => if bool_decide (i = row) then l else i :: splice_first row l end.

(** [toggleRowStatus]: [None] toggles; the result says whether the selection changed. *)
Definition toggleRowStatus (selection : list nat) (row : nat) (new : option bool) : list nat * bool :=
  let included := bool_decide (row ∈ selection) in
  let add := (selection ++ [row], true) in
  let remove := (splice_first row selection, true) in
  match new with
  | Some b => if b && negb included then add else if negb b && included then remove else (selection, false)
  | None => if included then remove else add
  end.

(** The checkbox in the header: all rows, or none if all were selected. *)
Definition toggleAllSelection (t : Table) : list nat * bool :=
  let rows := seq 0 (length (tb_data t)) in
  let isAllSelected := bool_decide (rows ≠ []) && forallb (λ i, bool_decide (i ∈ tb_selection t)) rows in
  foldl (λ '(sel, changed) i, let '(sel', c) := toggleRowStatus sel i (Some (negb isAllSelected)) in (sel', changed || c))
    (tb_selection t, false) rows.

(** ** The dialogs *)

Inductive Which := Mine | Suggested.
#[export] Instance Which_eq_dec : EqDecision Which.
Proof. solve_decision. Defined.

Record Dialog := mkDialog {
  (** The tables of the dialog with suggestions; [None] when not rendered. *)
  mine : option Table;
  suggested : option Table;
  (** The table of the dialog with the analysis. *)
  analysis : option Table;
  deltaMineCart : Cart;
  deltaSuggestionsCart : Cart;
  lastModifiedTable : option Which;
  addROASuggestionsVisible : bool;
  analysisDetailsVisible : bool;
}.

Definition table (w : Which) (d : Dialog) : option Table := match w with Mine => mine d | Suggested => suggested d end.
Definition other (w : Which) : Which := match w with Mine => Suggested | Suggested => Mine end.

Definition set_table (w : Which) (t : option Table) (d : Dialog) : Dialog :=
  match w with
  | Mine => mkDialog t (suggested d) (analysis d) (deltaMineCart d) (deltaSuggestionsCart d) (lastModifiedTable d)
              (addROASuggestionsVisible d) (analysisDetailsVisible d)
  | Suggested => mkDialog (mine d) t (analysis d) (deltaMineCart d) (deltaSuggestionsCart d) (lastModifiedTable d)
              (addROASuggestionsVisible d) (analysisDetailsVisible d)
  end.
Definition set_cart (w : Which) (c : Cart) (d : Dialog) : Dialog :=
  match w with
  | Mine => mkDialog (mine d) (suggested d) (analysis d) c (deltaSuggestionsCart d) (lastModifiedTable d)
              (addROASuggestionsVisible d) (analysisDetailsVisible d)
  | Suggested => mkDialog (mine d) (suggested d) (analysis d) (deltaMineCart d) c (lastModifiedTable d)
              (addROASuggestionsVisible d) (analysisDetailsVisible d)
  end.
Definition set_last (w : Which) (d : Dialog) : Dialog :=
  mkDialog (mine d) (suggested d) (analysis d) (deltaMineCart d) (deltaSuggestionsCart d) (Some w)
    (addROASuggestionsVisible d) (analysisDetailsVisible d).
Definition cart (w : Which) (d : Dialog) : Cart := match w with Mine => deltaMineCart d | Suggested => deltaSuggestionsCart d end.

(** [handleMineSelectionChange] and [handleSuggestionSelectionChange]: clearing the selection of
    the other table calls the other handler if something was selected there.  [None] when the
    handlers call each other more often than [fuel]. *)
Fixpoint handleSelectionChange (fuel : nat) (w : Which) (rows : list Row) (d : Dialog) : option Dialog :=
  match fuel with
  | O => None
  | S fuel =>
      let d := set_cart w (cart_of rows) d in
      d ← (if bool_decide (lastModifiedTable d ≠ Some w) then
             match table (other w) d with
             | Some t =>
                 if bool_decide (tb_selection t = []) then Some d
                 else handleSelectionChange fuel (other w) [] (set_table (other w) (Some (mkTable (tb_data t) [])) d)
             | None => Some d
             end
           else Some d);
      Some (set_last w d)
  end.

(** The handlers nest at most three deep, as each call empties a selection. *)
Definition on_selection : Which → list Row → Dialog → option Dialog := handleSelectionChange 3.

(** The user selects in a table of the dialog with suggestions. *)
Definition change_selection (w : Which) (change : Table → list nat * bool) (d : Dialog) : option Dialog :=
  match table w d with
  | Some t =>
      let '(sel, changed) := change t in
      let t := mkTable (tb_data t) sel in
      if changed : bool then on_selection w (selected_rows t) (set_table w (Some t) d) else Some d
  | None => Some d
  end.
Definition toggle_row (w : Which) (row : nat) : Dialog → option Dialog :=
  change_selection w (λ t, toggleRowStatus (tb_selection t) row None).
Definition toggle_all (w : Which) : Dialog → option Dialog := change_selection w toggleAllSelection.

(** New rows for a table: its selection is cleared. *)
Definition set_data (w : Which) (rows : list Row) (d : Dialog) : option Dialog :=
  match table w d with
  | Some t =>
      let d := set_table w (Some (mkTable rows [])) d in
      if bool_decide (tb_selection t = []) then Some d else on_selection w [] d
  | None => Some (set_table w (Some (mkTable rows [])) d)
  end.

(** What is sent. *)
Definition deltaCart (d : Dialog) : Cart :=
  mkCart (added (deltaMineCart d) ++ added (deltaSuggestionsCart d))
    (removed (deltaMineCart d) ++ removed (deltaSuggestionsCart d)).
Definition confirm_enabled (d : Dialog) : bool :=
  negb (bool_decide (added (deltaCart d) = [] ∧ removed (deltaCart d) = [])).

(** [addSuggestedROA] after the server accepted: the dialogs close. *)
Definition addSuggestedROA_done (d : Dialog) : Dialog :=
  mkDialog (mine d) (suggested d) (analysis d) (deltaMineCart d) (deltaSuggestionsCart d) (lastModifiedTable d) false false.

(** Opening the analysis: [getROAsSuggestions] first drops the suggestions, and with them the
    table, and shows the rows for the server's answer in a new one. *)
Definition open_analysis (d : Dialog) : Dialog :=
  mkDialog (mine d) (suggested d) None (deltaMineCart d) (deltaSuggestionsCart d) (lastModifiedTable d)
    (addROASuggestionsVisible d) true.
Definition analysis_answer (s : Suggestions) (d : Dialog) : Dialog :=
  let rows := suggestion_rows s in
  mkDialog (mine d) (suggested d) (if bool_decide (rows = []) then None else Some (mkTable rows []))
    (deltaMineCart d) (deltaSuggestionsCart d) (lastModifiedTable d) (addROASuggestionsVisible d) (analysisDetailsVisible d).
(** Selecting in the table of the analysis. *)
Definition analysis_select (row : nat) (d : Dialog) : option Dialog :=
  match analysis d with
  | Some t =>
      let t := mkTable (tb_data t) (toggleRowStatus (tb_selection t) row None).1 in
      on_selection Suggested (selected_rows t)
        (mkDialog (mine d) (suggested d) (Some t) (deltaMineCart d) (deltaSuggestionsCart d) (lastModifiedTable d)
          (addROASuggestionsVisible d) (analysisDetailsVisible d))
  | None => Some d
  end.
