(* ===== verification/RoaRequest.v ===== *)
(** * From the web interface to the CA

    The body of a request to update ROAs, as the server reads it: JSON numbers and texts become
    the payloads of [commons/api/roas.rs]. *)

From stdpp Require Import base gmap strings list pretty.
From Stdlib Require Import ZArith Ascii Lia.
From S2P Require Import Prelude Text Roas Routes JsNumber RoaDialog.

(** A number in JSON: [NaN] and infinite numbers are written as [null]. *)
Inductive JsonNumber := JsonNull | JsonInteger (z : Z) | JsonFraction.

Definition to_json (x : Num) : JsonNumber :=
  match x with
  | Fin _ _ => match num_int x with Some z => JsonInteger z | None => JsonFraction end
  | _ => JsonNull
  end.

(** An unsigned integer of the server up to [max]. *)
Definition read_unsigned (max : Z) (j : JsonNumber) : option N :=
  match j with
  | JsonInteger z => if (0 <=? z)%Z && (z <=? max)%Z then Some (Z.to_N z) else None
  | _ => None
  end.

Section request.
Context `{PA : !PrefixApi}.

(** [max_length: Option<u8>]: missing and [null] are [None]. *)
Definition read_max_length (l : RowLength) : option (option N) :=
  match l with
  | LengthUndefined => Some None
  | LengthText _ => None
  | LengthNum x => match to_json x with
                   | JsonNull => Some None
                   | j => Some <$> read_unsigned 255 j
                   end
  end.

Definition read_payload (r : Row) : option RoaPayload :=
  asn ← read_unsigned 4294967295 (to_json (row_asn r));
  text ← row_prefix r;
  prefix ← match typed_prefix_from_str text with Ok p => Some p | Err _ => None end;
  max_length ← read_max_length (row_max_length r);
  Some (mkRoaPayload asn prefix max_length).

(** The rows have no comment. *)
Definition read_configuration (r : Row) : option RoaConfiguration :=
  (λ p, mkRoaConfiguration p None) <$> read_payload r.

Definition read_updates (c : Cart) : option RoaConfigurationUpdates :=
  added ← mapM read_configuration (added c);
  removed ← mapM read_payload (removed c);
  Some (mkUpdates added removed).

(** What the server shows of a configured ROA. *)
Definition item_of (p : RoaPayload) : Item :=
  mkItem (rp_asn p) (typed_prefix_display (rp_prefix p)) (rp_max_length p).

(** ** Reading what was sent *)

Lemma read_of_int max n :
  (Z.of_N n ≤ max)%Z → (max < 2 ^ 53)%Z → read_unsigned max (to_json (of_int (Z.of_N n))) = Some n.
Proof.
  intros Hn Hmax. assert (num_int (of_int (Z.of_N n)) = Some (Z.of_N n)) as Hint by (apply num_int_of_int; lia).
  unfold to_json. destruct (of_int (Z.of_N n)) as [| |m e] eqn:He; [done|done|]. rewrite Hint. simpl.
  rewrite !(proj2 (Z.leb_le _ _)) by lia. simpl. by rewrite N2Z.id.
Qed.

Lemma read_length_of_int n : (n ≤ 255)%N → read_max_length (LengthNum (of_int (Z.of_N n))) = Some (Some n).
Proof.
  intros Hn. unfold read_max_length. pose proof (read_of_int 255 n ltac:(lia) ltac:(lia)) as Hr.
  destruct (to_json _); [done|by rewrite Hr|done].
Qed.

(** The text of a prefix without other slashes. *)
Definition one_slash (t : TypedPrefix) : Prop :=
  without "/" (match t with V4 p => addr_v4_str p | V6 p => addr_v6_str p end) = true.

(** The length read from the text of a prefix is its length. *)
Lemma prefix_length_display t :
  one_slash t → prefix_length (typed_prefix_display t) = LengthNum (of_int (Z.of_N (tp_addr_len t))).
Proof.
  intros Hs. unfold prefix_length.
  assert (split_on "/"%char (typed_prefix_display t) !! 1 = Some (pretty (tp_addr_len t)) ∧ typed_prefix_display t ≠ "")
    as [-> Hne].
  { unfold one_slash, typed_prefix_display, tp_addr_len in *. destruct t as [p|p]; simpl in *.
    all: change ("/" +:+ pretty (addr_len p)) with (String "/" (pretty (addr_len p))).
    all: rewrite split_on_app by done; rewrite split_on_none by (by apply pretty_without); split; [done|].
    all: intros He%(f_equal String.length); rewrite app_length_string in He; simpl in He; lia. }
  rewrite bool_decide_false by done. by rewrite (to_number_digits _ _ (parse_digits_pretty _)).
Qed.

(** The row of a suggested removal is read as the payload with the prefix's own length. *)
Lemma read_suggestion_row p reason action :
  prefix_text_ok (rp_prefix p) → one_slash (rp_prefix p) → (rp_asn p ≤ 4294967295)%N → (tp_addr_len (rp_prefix p) ≤ 255)%N →
  read_payload (suggestion_row action reason (item_of p)) =
    Some (mkRoaPayload (rp_asn p) (rp_prefix p) (Some (tp_addr_len (rp_prefix p)))).
Proof.
  intros [_ Hread] Hslash Hasn Hlen. unfold read_payload, suggestion_row, item_of. simpl.
  rewrite read_of_int by lia. simpl. rewrite Hread. simpl. rewrite prefix_length_display by done.
  by rewrite read_length_of_int.
Qed.

(** The row of a removal of a ROA that is too permissive is read as its payload. *)
Lemma read_too_permissive_row p m rest :
  prefix_text_ok (rp_prefix p) → (rp_asn p ≤ 4294967295)%N → rp_max_length p = Some m → (m ≤ 255)%N →
  ∃ row, head (too_permissive_rows (item_of p, rest)) = Some row ∧ row_action row = Remove ∧ read_payload row = Some p.
Proof.
  intros [_ Hread] Hasn Hmax Hm. eexists. split; [done|]. split; [done|]. unfold read_payload, item_of. simpl.
  rewrite read_of_int by lia. simpl. rewrite Hread, Hmax. rewrite read_length_of_int by done. simpl.
  destruct p. simpl in *. by subst.
Qed.
End request.
