(* ===== verification/RoaDialogProps.v ===== *)
(** * Properties of the forms for ROAs

    What the form to add a ROA accepts and sends, what removing a suggested ROA does on the
    server, and that the carts hold what is selected. *)

From stdpp Require Import base gmap strings list pretty relations.
From Stdlib Require Import ZArith Ascii Lia.
From S2P Require Import Prelude Text Roas Routes RouteFacts RouteUpdateFacts RouteProps JsNumber MomentLocales RoaDialog RoaRequest.

(** ** The form *)

Definition as_prefixes : list string := [""; "AS"; "As"; "aS"; "as"].

Lemma digits_no_as s v : parse_digits s = Some v → has_as s = false.
Proof.
  intros [Hn Hv]%parse_digits_Some. destruct s as [|a s]; [done|].
  apply digits_first, digit_value_cases in Hv. rewrite !elem_of_cons, elem_of_nil in Hv.
  unfold has_as, starts_with. apply bool_decide_eq_false. naive_solver.
Qed.

Lemma has_as_prefix pre s : pre ∈ as_prefixes → pre ≠ "" → has_as (pre +:+ s) = true ∧ substr2 (pre +:+ s) = s.
Proof.
  unfold as_prefixes. rewrite !elem_of_cons, elem_of_nil. intros H Hn.
  destruct H as [->|[->|[->|[->|[->|[]]]]]]; done.
Qed.

Lemma asn_rule_digits pre s v :
  pre ∈ as_prefixes → parse_digits s = Some v → asn_rule (Some (pre +:+ s)) = Accepted ↔ (v ≤ 4294967295)%N.
Proof.
  intros Hpre Hs. unfold asn_rule.
  assert (pre +:+ s ≠ "") as Hne.
  { intros He%(f_equal String.length). rewrite app_length_string in He. destruct s; [done|]. simpl in He. lia. }
  rewrite bool_decide_false by congruence.
  assert ((if has_as (pre +:+ s) then to_number (substr2 (pre +:+ s)) else to_number (pre +:+ s)) = of_int (Z.of_N v)) as ->.
  { destruct (decide (pre = "")) as [->|Hp].
    - rewrite string_app_nil, (digits_no_as s v) by done. by apply to_number_digits.
    - destruct (has_as_prefix pre s Hpre Hp) as [-> ->]. by apply to_number_digits. }
  destruct (decide (Z.of_N v < 2 ^ 53)%Z) as [Hsmall|Hbig].
  - rewrite !num_leb_int by lia. rewrite (proj2 (Z.leb_le 0 _)) by lia. simpl.
    destruct (Z.of_N v <=? 4294967295)%Z eqn:Hle; [apply Z.leb_le in Hle|apply Z.leb_gt in Hle]; split; (done || lia).
  - rewrite (num_leb_big (Z.of_N v)) by lia. rewrite andb_false_r. split; [done|lia].
Qed.

Lemma removeAS_digits pre s v prefix ml :
  pre ∈ as_prefixes → parse_digits s = Some v →
  ∃ f, removeAS (mkRoaForm (Some (pre +:+ s)) prefix ml) = Some f ∧ rf_asn f = Some s.
Proof.
  intros Hpre Hs. unfold removeAS. simpl.
  assert ((if has_as (pre +:+ s) then substr2 (pre +:+ s) else pre +:+ s) = s) as ->.
  { destruct (decide (pre = "")) as [->|Hp].
    - by rewrite string_app_nil, (digits_no_as s v).
    - by destruct (has_as_prefix pre s Hpre Hp) as [-> ->]. }
  eexists. split; [done|]. case_bool_decide; [|done]. unfold updateMaxLength. by destruct prefix; [destruct (contains _ _)|].
Qed.

(** C34.  The field for the AS number: for a decimal number, with or without [AS] before it, the
    rule accepts exactly the 32-bit numbers, and the number that is sent once the field lost
    its [AS] is the one typed.  Other texts are accepted with one value and sent with another
    ([1e3] is checked as 1000 and sent as 1), and the form that was just reset is accepted
    though nothing was typed: the request has neither number nor prefix. *)
Theorem roa_form_asn :
  (∀ pre s v, pre ∈ as_prefixes → parse_digits s = Some v →
    (asn_rule (Some (pre +:+ s)) = Accepted ↔ (v ≤ 4294967295)%N) ∧
    ((v ≤ 4294967295)%N → ∀ prefix ml, ∃ f, removeAS (mkRoaForm (Some (pre +:+ s)) prefix ml) = Some f ∧
      asn_rule (rf_asn f) = Accepted ∧
      read_unsigned 4294967295 (to_json (parseInt_field (rf_asn f))) = Some v)) ∧
  (asn_rule (Some "1e3") = Accepted ∧ num_int (to_number "1e3") = Some 1000%Z ∧
   num_int (parseInt_field (Some "1e3")) = Some 1%Z) ∧
  (∀ cidr f, submitForm cidr (resetAddRoaForm f) = Some (mkCart [mkRow Add "" NaN None (LengthNum (Fin 0 0))] [])).
Proof.
  split_and!; [|by vm_compute..|done]. intros pre s v Hpre Hs. split; [by apply asn_rule_digits|]. intros Hv prefix ml.
  destruct (removeAS_digits pre s v prefix ml Hpre Hs) as (f&Hf&Hasn). exists f. split; [done|]. rewrite Hasn. split.
  - apply (asn_rule_digits "" s v); [by left|done|done].
  - unfold parseInt_field. rewrite (parseInt_digits _ _ Hs). apply read_of_int; lia.
Qed.

(** ** Suggested removals *)

Section removal.
Context `{PA : !PrefixApi}.

Definition own_length (p : RoaPayload) : RoaPayload :=
  mkRoaPayload (rp_asn p) (rp_prefix p) (Some (tp_addr_len (rp_prefix p))).

(** An update that only removes one payload. *)
Lemma remove_one (self : Routes) res now a m :
  rp_max_length a = Some m →
  route_authorizations_update self res now (mkUpdates [] [a]) =
    if bool_decide (is_Some (self !! a))
    then Ok ((routes_remove self a).1, [RouteAuthorizationRemoved a])
    else Err (mkDeltaError [] [] [a] []).
Proof.
  intros Hm. unfold route_authorizations_update, update_authorizations, updates_explicit_max_length. simpl.
  assert (into_explicit_max_length a = a) as ->.
  { unfold into_explicit_max_length, effective_max_length. rewrite Hm. destruct a. simpl in *. by subst. }
  unfold update_removed. simpl. by case_bool_decide.
Qed.

(** The ROAs to remove, apart from those that are too permissive. *)
Definition plain_removals (s : Suggestions) : list Item :=
  stale s ++ as0_redundant s ++ sg_not_held s ++ redundant s ++ disallowing s.
(** All ROAs to remove. *)
Definition removal_items (s : Suggestions) : list Item := plain_removals s ++ (too_permissive s).*1.

(** The rows that remove are those of the ROAs to remove. *)
Lemma removal_items_complete s row :
  row ∈ suggestion_rows s → row_action row = Remove →
  ∃ i, i ∈ removal_items s ∧ row_prefix row = Some (it_prefix i) ∧ row_asn row = of_int (Z.of_N (it_asn i)).
Proof.
  unfold removal_items, plain_removals, suggestion_rows. rewrite !elem_of_app.
  intros [H|[H|[H|[H|[H|[H|[H|[H|H]]]]]]]] Ha;
    try (apply list_elem_of_fmap in H as (i&->&Hi); simpl in Ha; try discriminate Ha; exists i; (split; [|done]); rewrite !elem_of_app; tauto).
  apply list_elem_of_bind in H as (e&[->|(i&->&Hi)%list_elem_of_fmap]%elem_of_cons&He); [|discriminate Ha].
  exists e.1. split; [|done]. rewrite !elem_of_app. right. by apply list_elem_of_fmap_2.
Qed.

Lemma too_permissive_rows_shown s e row : e ∈ too_permissive s → head (too_permissive_rows e) = Some row → row ∈ suggestion_rows s.
Proof.
  intros He [= <-]. unfold suggestion_rows. rewrite !elem_of_app. do 7 right. left. apply list_elem_of_bind. exists e. split; [by left|done].
Qed.

Lemma plain_removals_rows s i :
  i ∈ plain_removals s → ∃ reason, suggestion_row Remove reason i ∈ suggestion_rows s.
Proof.
  unfold plain_removals, suggestion_rows. rewrite !elem_of_app.
  intros [?|[?|[?|[?|?]]]]; eexists; rewrite !elem_of_app;
    [do 3 right; left|do 4 right; left|do 5 right; left|do 6 right; left|do 8 right]; by apply list_elem_of_fmap_2.
Qed.
End removal.

(** C35.  Removing a ROA, with a maximum length, that the server suggests to remove.  The rows that
    remove are those of the suggestions.  If the ROA is suggested as stale, redundant (also for
    AS0), not held or disallowing, the request names the payload with the prefix's own length as
    maximum length: the CA removes the ROA if its maximum length is that; if it is another, the ROA
    stays, and the request is refused as unknown or, if the CA also has the ROA without extra
    length, that one is removed instead.  If the ROA is suggested as too permissive, the request
    names its maximum length and the CA removes it.  (The text of the prefix has one slash and can
    be read back as the prefix; the numbers are of 32 and 8 bits.) *)
Theorem suggested_removal_own_length `{PA : !PrefixApi} (self : Routes) (res : ResourceSet) (now : Instant)
    (s : Suggestions) (p : RoaPayload) (m : N) (info : RouteInfo)
    (Htext : prefix_text_ok (rp_prefix p)) (Hslash : one_slash (rp_prefix p))
    (Hasn : (rp_asn p ≤ 4294967295)%N) (Hlen : (tp_addr_len (rp_prefix p) ≤ 255)%N)
    (Hmax : rp_max_length p = Some m) (Hself : self !! p = Some info) :
  (∀ row, row ∈ suggestion_rows s → row_action row = Remove →
     ∃ i, i ∈ removal_items s ∧ row_prefix row = Some (it_prefix i) ∧ row_asn row = of_int (Z.of_N (it_asn i))) ∧
  (item_of p ∈ plain_removals s →
   ∃ row updates, row ∈ suggestion_rows s ∧ read_updates (cart_of [row]) = Some updates ∧
    (m = tp_addr_len (rp_prefix p) →
      ∃ desired, route_authorizations_update self res now updates = Ok (desired, [RouteAuthorizationRemoved p]) ∧
        desired !! p = None) ∧
    (m ≠ tp_addr_len (rp_prefix p) →
      match route_authorizations_update self res now updates with
      | Ok (desired, events) => events = [RouteAuthorizationRemoved (own_length p)] ∧ desired !! p = Some info
      | Err e => e = mkDeltaError [] [] [own_length p] []
      end)) ∧
  (item_of p ∈ (too_permissive s).*1 → (m ≤ 255)%N →
   ∃ row updates, row ∈ suggestion_rows s ∧ read_updates (cart_of [row]) = Some updates ∧
    ∃ desired, route_authorizations_update self res now updates = Ok (desired, [RouteAuthorizationRemoved p]) ∧
      desired !! p = None).
Proof.
  split; [apply removal_items_complete|]. split.
  - intros Hitem. destruct (plain_removals_rows s _ Hitem) as [reason Hrow].
    exists (suggestion_row Remove reason (item_of p)), (mkUpdates [] [own_length p]). split; [done|]. split.
    { unfold read_updates, cart_of. simpl. by rewrite (read_suggestion_row p reason Remove Htext Hslash Hasn Hlen). }
    rewrite (remove_one _ _ _ (own_length p) _ eq_refl). split.
    + intros Hm. assert (own_length p = p) as -> by (unfold own_length; rewrite <-Hm, <-Hmax; by destruct p).
      rewrite bool_decide_true by eauto. eexists. split; [done|]. by rewrite routes_remove_lookup, decide_True.
    + intros Hm. case_bool_decide; [|done]. split; [done|]. rewrite routes_remove_lookup, decide_False; [done|].
      intros He. apply Hm. rewrite <-He in Hmax. unfold own_length in Hmax. simpl in Hmax. congruence.
  - intros ([i rest]&Hi&He)%list_elem_of_fmap Hm. simpl in Hi. subst i.
    destruct (read_too_permissive_row p m rest Htext Hasn Hmax Hm) as (row&Hrow&Hact&Hread).
    exists row, (mkUpdates [] [p]). split; [by eapply too_permissive_rows_shown|]. split.
    { unfold read_updates, cart_of. rewrite !filter_cons, decide_False, decide_True by congruence. simpl. by rewrite Hread. }
    rewrite (remove_one _ _ _ _ _ Hmax), bool_decide_true by eauto. eexists. split; [done|].
    by rewrite routes_remove_lookup, decide_True.
Qed.

Lemma suggested_removal_own_length_witness :
  (∃ row updates, row ∈ suggestion_rows (mkSuggestions [] [] [] [item_of RouteDemo.r2] [] [] [] [] []) ∧
    read_updates (cart_of [row]) = Some updates ∧
    match route_authorizations_update RouteDemo.all RouteDemo.held 0%Z updates with
    | Ok (desired, _) => desired !! RouteDemo.r2 = Some RouteDemo.info
    | Err _ => True
    end) ∧
  ∃ row updates, row ∈ suggestion_rows (mkSuggestions [] [] [] [] [] [] [] [(item_of RouteDemo.r2, [])] []) ∧
    read_updates (cart_of [row]) = Some updates ∧
    ∃ desired, route_authorizations_update RouteDemo.all RouteDemo.held 0%Z updates
      = Ok (desired, [RouteAuthorizationRemoved RouteDemo.r2]) ∧ desired !! RouteDemo.r2 = None.
Proof.
  split.
  - destruct (suggested_removal_own_length RouteDemo.all RouteDemo.held 0%Z
      (mkSuggestions [] [] [] [item_of RouteDemo.r2] [] [] [] [] []) RouteDemo.r2 24%N RouteDemo.info
      ltac:(by split; vm_compute) ltac:(by vm_compute) ltac:(by vm_compute) ltac:(by vm_compute) ltac:(done) ltac:(by vm_compute))
      as (_&Hplain&_).
    destruct Hplain as (row&upd&Hrow&Hupd&_&Hlarger); [by left|]. exists row, upd. split_and!; [done|done|].
    assert (24%N ≠ tp_addr_len (rp_prefix RouteDemo.r2)) as Hne by (by vm_compute). specialize (Hlarger Hne).
    destruct (route_authorizations_update _ _ _ _) as [[desired events]|]; [by destruct Hlarger|done].
  - apply (suggested_removal_own_length RouteDemo.all RouteDemo.held 0%Z
      (mkSuggestions [] [] [] [] [] [] [] [(item_of RouteDemo.r2, [])] []) RouteDemo.r2 24%N RouteDemo.info
      ltac:(by split; vm_compute) ltac:(by vm_compute) ltac:(by vm_compute) ltac:(by vm_compute) ltac:(done) ltac:(by vm_compute));
      [by left|by vm_compute].
Defined.

(** ** Selections and carts *)

Definition rows_of (d : Dialog) (w : Which) : list Row :=
  match table w d with Some t => selected_rows t | None => [] end.
Definition selection_of (d : Dialog) (w : Which) : list nat :=
  match table w d with Some t => tb_selection t | None => [] end.

(** Each cart holds the rows selected in its table, and only the table modified last has a
    selection. *)
Definition dialog_inv (d : Dialog) : Prop :=
  ∀ w, cart w d = cart_of (rows_of d w) ∧ (selection_of d w ≠ [] → lastModifiedTable d = Some w).

Inductive dialog_event := ToggleRow (w : Which) (row : nat) | ToggleAll (w : Which) | NewRows (w : Which) (rows : list Row).

Definition dialog_step (d : Dialog) (e : dialog_event) : option Dialog :=
  match e with
  | ToggleRow w row => toggle_row w row d
  | ToggleAll w => toggle_all w d
  | NewRows w rows => set_data w rows d
  end.

Lemma other_ne w : other w ≠ w.
Proof. by destruct w. Qed.
Lemma which_cases w v : v = w ∨ v = other w.
Proof. destruct w, v; auto. Qed.

Lemma rows_of_empty d w : selection_of d w = [] → rows_of d w = [].
Proof.
  unfold selection_of, rows_of. destruct (table w d) as [t|]; [|done]. unfold selected_rows. by intros ->.
Qed.

(** The handler, called when the selection of [w] just changed. *)
Lemma on_selection_inv w rows d :
  rows = rows_of d w →
  cart (other w) d = cart_of (rows_of d (other w)) →
  (selection_of d (other w) ≠ [] → lastModifiedTable d = Some (other w)) →
  ∃ d', on_selection w rows d = Some d' ∧ dialog_inv d'.
Proof.
  intros -> Hc Hsel. unfold on_selection. cbn [handleSelectionChange].
  set (d1 := set_cart w (cart_of (rows_of d w)) d).
  assert (lastModifiedTable d1 = lastModifiedTable d ∧ table (other w) d1 = table (other w) d) as [Hl Ht] by (by destruct w).
  rewrite Hl, Ht. unfold selection_of in Hsel. destruct (table (other w) d) as [t|] eqn:Ho.
  2: { assert (rows_of d (other w) = []) as Hr by (unfold rows_of; by rewrite Ho). rewrite Hr in Hc.
    exists (set_last w d1). split; [by case_bool_decide|].
    intros v. destruct (which_cases w v) as [->| ->]; (split; [|unfold selection_of]); destruct w; simpl in *;
      rewrite ?Ho; unfold rows_of; simpl in *; rewrite ?Ho; done. }
  destruct (decide (tb_selection t = [])) as [Hempty|Hfull].
  - exists (set_last w d1). split; [by case_bool_decide; [rewrite bool_decide_true|]|].
    intros v. destruct (which_cases w v) as [->| ->]; split.
    + by destruct w.
    + by destruct w.
    + by destruct w.
    + unfold selection_of. assert (table (other w) (set_last w d1) = Some t) as -> by (by destruct w). done.
  - specialize (Hsel Hfull). rewrite Hsel.
    rewrite bool_decide_true by (intros [=]; by eapply other_ne). rewrite bool_decide_false by done.
    cbn [handleSelectionChange]. eexists. split.
    + rewrite bool_decide_false; [done|]. intros Hn. apply Hn. by destruct w.
    + intros v. destruct (which_cases w v) as [->| ->]; destruct w; split; done.
Qed.

(** The handler puts the rows into the cart of its table, whatever the table shows. *)
Lemma selection_cart w rows d :
  (selection_of d (other w) ≠ [] → lastModifiedTable d = Some (other w)) →
  ∃ d', on_selection w rows d = Some d' ∧ cart w d' = cart_of rows.
Proof.
  intros Hsel. unfold on_selection. cbn [handleSelectionChange]. set (d1 := set_cart w (cart_of rows) d).
  assert (lastModifiedTable d1 = lastModifiedTable d ∧ table (other w) d1 = table (other w) d) as [Hl Ht] by (by destruct w).
  rewrite Hl, Ht. unfold selection_of in Hsel. assert (cart w (set_last w d1) = cart_of rows) as Hc by (by destruct w).
  destruct (table (other w) d) as [t|]; [|by case_bool_decide; eauto].
  destruct (decide (tb_selection t = [])) as [He|Hfull]; [rewrite (bool_decide_true (_ = [])) by done; case_bool_decide; eauto|].
  specialize (Hsel Hfull). rewrite Hsel. rewrite bool_decide_true by (intros [=]; by eapply other_ne).
  rewrite bool_decide_false by done. cbn [handleSelectionChange]. eexists. split.
  - rewrite bool_decide_false; [done|]. intros Hn. apply Hn. by destruct w.
  - by destruct w.
Qed.

(** A change of the table [w] followed by its handler. *)
Lemma table_change_inv w t d :
  dialog_inv d → ∃ d', on_selection w (selected_rows t) (set_table w (Some t) d) = Some d' ∧ dialog_inv d'.
Proof.
  intros Hd. destruct (Hd (other w)) as [Hc Hs]. apply on_selection_inv.
  - by destruct w.
  - by destruct w.
  - by destruct w.
Qed.

Lemma dialog_step_inv d e : dialog_inv d → ∃ d', dialog_step d e = Some d' ∧ dialog_inv d'.
Proof.
  intros Hd. destruct e as [w row|w|w rows]; simpl.
  - unfold toggle_row, change_selection. destruct (table w d) as [t|]; [|eauto].
    destruct (toggleRowStatus _ _ _) as [sel []]; [by apply table_change_inv|eauto].
  - unfold toggle_all, change_selection. destruct (table w d) as [t|]; [|eauto].
    destruct (toggleAllSelection t) as [sel []]; [by apply table_change_inv|eauto].
  - unfold set_data. assert (selection_of d w = [] → dialog_inv (set_table w (Some (mkTable rows [])) d)) as Hempty.
    { intros He. pose proof (rows_of_empty d w He) as Hr. intros v. destruct (Hd w) as [Hc _], (Hd (other w)) as [Hc' Hs'].
      rewrite Hr in Hc. destruct (which_cases w v) as [->| ->]; destruct w; done. }
    unfold selection_of in Hempty. destruct (table w d) as [t|]; [|eauto].
    case_bool_decide as Hsel; [eauto|]. by apply (table_change_inv w (mkTable rows [])).
Qed.

(** Running events, as far as the handlers return. *)
Definition run_dialog (d : Dialog) (events : list dialog_event) : option Dialog :=
  foldl (λ o e, d ← o; dialog_step d e) (Some d) events.

Lemma run_dialog_inv d events : dialog_inv d → ∃ d', run_dialog d events = Some d' ∧ dialog_inv d'.
Proof.
  revert d. induction events as [|e events IH]; intros d Hd; [by eexists|].
  destruct (dialog_step_inv d e Hd) as (d1&Hs&Hd1). destruct (IH d1 Hd1) as (d'&Hr&Hd').
  exists d'. split; [|done]. unfold run_dialog in *. simpl. by rewrite Hs.
Qed.

Lemma cart_of_app l l' :
  cart_of (l ++ l') = mkCart (added (cart_of l) ++ added (cart_of l')) (removed (cart_of l) ++ removed (cart_of l')).
Proof. unfold cart_of. simpl. by rewrite !filter_app. Qed.

Lemma cart_of_empty rows : added (cart_of rows) = [] ∧ removed (cart_of rows) = [] ↔ rows = [].
Proof.
  split; [|by intros ->]. destruct rows as [|r rows]; [done|]. unfold cart_of. simpl. rewrite !filter_cons.
  destruct (row_action r); repeat case_decide; naive_solver.
Qed.

Lemma dialog_inv_cart d :
  dialog_inv d →
  (rows_of d Mine = [] ∨ rows_of d Suggested = []) ∧
  deltaCart d = cart_of (rows_of d Mine ++ rows_of d Suggested) ∧
  (confirm_enabled d = true ↔ ∃ w, rows_of d w ≠ []).
Proof.
  intros Hd. destruct (Hd Mine) as [Hcm Hsm], (Hd Suggested) as [Hcs Hss]. simpl in Hcm, Hcs.
  assert (deltaCart d = cart_of (rows_of d Mine ++ rows_of d Suggested)) as Hcart.
  { unfold deltaCart. by rewrite Hcm, Hcs, cart_of_app. }
  split_and!; [|done|].
  - destruct (decide (selection_of d Mine = [])) as [He|He]; [left; by apply rows_of_empty|].
    right. apply rows_of_empty. destruct (decide (selection_of d Suggested = [])) as [|He']; [done|].
    specialize (Hsm He). specialize (Hss He'). congruence.
  - unfold confirm_enabled. rewrite negb_true_iff, bool_decide_eq_false, Hcart, cart_of_empty. split.
    + intros Hne. destruct (rows_of d Mine) as [|r l] eqn:Hm; [|exists Mine; by rewrite Hm].
      exists Suggested. by intros Hs; apply Hne; rewrite Hs.
    + intros [w Hw] [H1 H2]%app_eq_nil. by destruct w.
Qed.

(** C36.  The carts follow the selections: whatever is selected, unselected or replaced in the two
    tables of the dialog, the handlers, which clear each other's table and so call each other,
    return; afterwards rows are selected in one table at most, the delta that would be sent
    consists of the selected rows, and it can be confirmed exactly if a row is selected. *)
Theorem carts_follow_selections (d : Dialog) (events : list dialog_event) (Hd : dialog_inv d) :
  ∃ d', run_dialog d events = Some d' ∧
    (rows_of d' Mine = [] ∨ rows_of d' Suggested = []) ∧
    deltaCart d' = cart_of (rows_of d' Mine ++ rows_of d' Suggested) ∧
    (confirm_enabled d' = true ↔ ∃ w, rows_of d' w ≠ []).
Proof.
  destruct (run_dialog_inv d events Hd) as (d'&Hr&Hd'). exists d'. split; [done|]. by apply dialog_inv_cart.
Qed.

Definition closed_dialog : Dialog := mkDialog None None None (mkCart [] []) (mkCart [] []) None false false.
Definition demo_row (a : Action) : Row := mkRow a "new" (of_int 64500) (Some "10.0.0.0/8") (LengthNum (of_int 8)).

Lemma carts_follow_selections_witness :
  ∃ d, run_dialog closed_dialog [NewRows Mine [demo_row Add]; NewRows Suggested [demo_row Remove]; ToggleRow Mine 0; ToggleAll Suggested]
    = Some d ∧ deltaCart d = mkCart [] [demo_row Remove] ∧ confirm_enabled d = true.
Proof.
  destruct (carts_follow_selections closed_dialog
    [NewRows Mine [demo_row Add]; NewRows Suggested [demo_row Remove]; ToggleRow Mine 0; ToggleAll Suggested]) as (d&Hr&_&Hc&He).
  - intros w. by destruct w.
  - exists d. split; [done|]. revert Hr Hc He. vm_compute. intros [= <-] _ _. done.
Defined.

(**  The dialog with the analysis keeps what was sent: after suggestions were selected there
    and the server accepted them, opening the dialog again shows the new suggestions with none
    selected, but the delta to be sent is still the old one and can be confirmed again. *)
Theorem reopened_analysis_keeps_cart (d : Dialog) (s : Suggestions) (data : list Row) (row : nat) (r : Row)
    (Hd : dialog_inv d) (Hanalysis : analysis d = Some (mkTable data [])) (Hrow : data !! row = Some r) :
  ∃ d1, analysis_select row d = Some d1 ∧
    let d2 := analysis_answer s (open_analysis (addSuggestedROA_done d1)) in
    match analysis d2 with Some t => tb_selection t = [] | None => True end ∧
    deltaCart d2 = deltaCart d1 ∧ deltaSuggestionsCart d2 = cart_of [r] ∧ confirm_enabled d2 = true.
Proof.
  unfold analysis_select. rewrite Hanalysis. cbn [tb_selection tb_data].
  set (d0 := mkDialog (mine d) (suggested d) (Some _) _ _ _ _ _).
  assert (selected_rows (mkTable data (toggleRowStatus [] row None).1) = [r]) as ->.
  { unfold selected_rows. simpl. by rewrite Hrow. }
  destruct (selection_cart Suggested [r] d0) as (d1&Hs&Hc).
  { destruct (Hd Mine) as [_ Hm]. exact Hm. }
  exists d1. split; [done|]. simpl in *. split_and!; [by case_bool_decide|done|done|].
  unfold confirm_enabled, deltaCart. simpl. rewrite Hc. apply negb_true_iff, bool_decide_eq_false.
  intros [H1 H2]. apply app_eq_nil in H1 as [_ H1], H2 as [_ H2].
  by pose proof (proj1 (cart_of_empty [r]) (conj H1 H2)).
Qed.

Lemma reopened_analysis_keeps_cart_witness :
  ∃ d1, analysis_select 0 (mkDialog None None (Some (mkTable [demo_row Remove] [])) (mkCart [] []) (mkCart [] []) None false true)
      = Some d1 ∧
    confirm_enabled (analysis_answer (mkSuggestions [] [] [] [] [] [] [] [] []) (open_analysis (addSuggestedROA_done d1))) = true.
Proof.
  destruct (reopened_analysis_keeps_cart
    (mkDialog None None (Some (mkTable [demo_row Remove] [])) (mkCart [] []) (mkCart [] []) None false true)
    (mkSuggestions [] [] [] [] [] [] [] [] []) [demo_row Remove] 0 (demo_row Remove)) as (d1&Hs&_&_&_&He).
  - intros w. by destruct w.
  - done.
  - done.
  - by exists d1.
Defined.
