(* ===== verification/CaPages.v ===== *)
(** * Getting to a CA ([src/lagosta/js/app.js]: router, interstitial, onboarding, CADetails)

    The pages redirect: the first page picks a CA, the page of a CA that cannot be loaded
    forgets it and returns to the first page, and the page to create a CA leaves it when there is
    one. *)

From stdpp Require Import base strings list.
From Stdlib Require Import Lia.
From S2P Require Import Prelude.

Inductive Page := Interstitial | CaDetails (handle : string) | Onboarding.
#[export] Instance Page_eq_dec : EqDecision Page.
Proof. solve_decision. Defined.

(** The page shown and [localStorage.lagostaLastCA]. *)
Record Browser := mkBrowser { shown : Page; lastCA : option string }.

Section pages.
(** The answers of the server: the handles of the CAs, or an error, and whether a CA loads. *)
Variables (cas : option (list string)) (ca_loads : string → bool).

(** The handles other than that of the trust anchor. *)
Definition own_cas : list string := match cas with Some l => filter (λ h, h ≠ "ta") l | None => [] end.

(** A remembered handle counts unless it is empty. *)
Definition remembered (b : Browser) : option string :=
  match lastCA b with Some "" | None => None | Some h => Some h end.

(** [loadCAs] of the interstitial page. *)
Definition interstitial_load (b : Browser) : Browser :=
  match own_cas with
  | first :: _ => mkBrowser (CaDetails (default first (remembered b))) (lastCA b)
  | [] => mkBrowser Onboarding (lastCA b)
  end.

(** [getContent] of the page of a CA: the handle is remembered; if the CA does not load it is
    forgotten. *)
Definition details_load (handle : string) (b : Browser) : Browser :=
  if ca_loads handle then mkBrowser (CaDetails handle) (Some handle) else mkBrowser Interstitial None.

(** [created] of the page to create a CA. *)
Definition onboarding_load (b : Browser) : Browser :=
  match cas with
  | Some (first :: _) => if bool_decide (first = "ta") then b else mkBrowser (CaDetails first) (lastCA b)
  | _ => b
  end.

(** Loading the page that is shown. *)
Definition load (b : Browser) : Browser :=
  match shown b with
  | Interstitial => interstitial_load b
  | CaDetails h => details_load h b
  | Onboarding => onboarding_load b
  end.

(** The page stays. *)
Definition settled (b : Browser) : bool := bool_decide (shown (load b) = shown b).

(** ** Where the redirections lead *)

Lemma interstitial_never_settled b : shown b = Interstitial → settled b = false.
Proof.
  intros Hb. unfold settled, load. rewrite Hb. apply bool_decide_eq_false.
  unfold interstitial_load. by destruct own_cas.
Qed.

Lemma details_settled h b : shown b = CaDetails h → settled b = ca_loads h.
Proof.
  intros Hb. unfold settled, load. rewrite Hb. unfold details_load. destruct (ca_loads h); [by apply bool_decide_eq_true|done].
Qed.

Lemma interstitial_first first rest last :
  own_cas = first :: rest → remembered (mkBrowser Interstitial last) = None →
  load (mkBrowser Interstitial last) = mkBrowser (CaDetails first) last.
Proof. intros Hc Hr. unfold load. simpl. unfold interstitial_load. by rewrite Hc, Hr. Qed.

(** A CA that does not load sends back to the first page, which picks the first CA. *)
Lemma details_fails first rest h last :
  own_cas = first :: rest → ca_loads h = false →
  Nat.iter 2 load (mkBrowser (CaDetails h) last) = mkBrowser (CaDetails first) None.
Proof.
  intros Hc Hh. simpl. unfold load at 2. simpl. unfold details_load. rewrite Hh. by apply (interstitial_first first rest).
Qed.

(** When neither the remembered nor the first CA loads, the pages alternate. *)
Lemma details_loop first rest n :
  own_cas = first :: rest → ca_loads first = false →
  Nat.iter (2 * n) load (mkBrowser (CaDetails first) None) = mkBrowser (CaDetails first) None.
Proof.
  intros Hc Hf. induction n as [|n IH]; [done|]. replace (2 * S n) with (2 + 2 * n) by lia.
  rewrite Nat.iter_add, IH. by apply (details_fails first rest).
Qed.

Lemma details_never_settles first rest h last n :
  own_cas = first :: rest → ca_loads first = false → ca_loads h = false →
  settled (Nat.iter n load (mkBrowser (CaDetails h) last)) = false.
Proof.
  intros Hc Hf Hh. destruct n as [|[|n]].
  - simpl. by rewrite (details_settled h).
  - simpl. unfold load. simpl. unfold details_load. rewrite Hh. by apply interstitial_never_settled.
  - replace (S (S n)) with (n + 2) by lia. rewrite Nat.iter_add, (details_fails first rest) by done.
    assert (n = 2 * (n / 2) + n mod 2 ∧ n mod 2 < 2) as [Hn Hm].
    { split; [apply Nat.div_mod; lia|apply Nat.mod_upper_bound; lia]. }
    rewrite Hn, Nat.add_comm, Nat.iter_add, (details_loop first rest) by done.
    destruct (n mod 2) as [|[|]]; [|simpl|lia].
    + simpl. by rewrite (details_settled first).
    + unfold load. simpl. unfold details_load. rewrite Hf. by apply interstitial_never_settled.
Qed.
End pages.

(** C37.  Opening the web interface ends on a page if and only if there is no CA besides the trust
    anchor, or the first of the CAs loads, or the remembered one does; then it takes at most
    four redirections, and with such a CA it ends on the page of a CA that loads and
    remembers it.  Otherwise the pages send the browser back and forth for ever. *)
Theorem redirections_end (cas : option (list string)) (ca_loads : string → bool) (last : option string) :
  let start := mkBrowser Interstitial last in
  let good := match own_cas cas with
              | [] => True
              | first :: _ => ca_loads first = true ∨ ∃ h, remembered start = Some h ∧ ca_loads h = true
              end in
  ((∃ n, settled cas ca_loads (Nat.iter n (load cas ca_loads) start) = true) ↔ good) ∧
  (good → ∃ n, n ≤ 4 ∧ settled cas ca_loads (Nat.iter n (load cas ca_loads) start) = true ∧
    (own_cas cas ≠ [] → ∃ h, Nat.iter n (load cas ca_loads) start = mkBrowser (CaDetails h) (Some h) ∧ ca_loads h = true)).
Proof.
  intros start good.
  assert (good → ∃ n, n ≤ 4 ∧ settled cas ca_loads (Nat.iter n (load cas ca_loads) start) = true ∧
    (own_cas cas ≠ [] → ∃ h, Nat.iter n (load cas ca_loads) start = mkBrowser (CaDetails h) (Some h) ∧ ca_loads h = true)) as Hgood.
  { intros Hg. subst good. destruct (own_cas cas) as [|first rest] eqn:Hc.
    - exists 1. split; [lia|]. split; [|done]. simpl. unfold load, start. simpl. unfold interstitial_load. rewrite Hc.
      unfold settled, load. simpl. apply bool_decide_eq_true. unfold onboarding_load.
      unfold own_cas in Hc. destruct cas as [[|h l]|]; [done| |done].
      destruct (decide (h = "ta")) as [->|Hh]; [by rewrite bool_decide_true|].
      by rewrite filter_cons_True in Hc.
    - set (h := default first (remembered start)).
      assert (load cas ca_loads start = mkBrowser (CaDetails h) last) as Hload.
      { unfold load, start. simpl. unfold interstitial_load. by rewrite Hc. }
      destruct (ca_loads h) eqn:Hh.
      + exists 2. split; [lia|]. assert (Nat.iter 2 (load cas ca_loads) start = mkBrowser (CaDetails h) (Some h)) as ->.
        { simpl. rewrite Hload. unfold load. simpl. unfold details_load. by rewrite Hh. }
        rewrite (details_settled _ _ h), Hh by done. eauto.
      + assert (ca_loads first = true) as Hf.
        { destruct Hg as [|(h'&Hr&Hl)]; [done|]. subst h. rewrite Hr in Hh. simpl in Hh. congruence. }
        exists 4. split; [lia|].
        assert (Nat.iter 4 (load cas ca_loads) start = mkBrowser (CaDetails first) (Some first)) as ->.
        { change 4 with (1 + (2 + 1)). rewrite !Nat.iter_add. change (Nat.iter 1 (load cas ca_loads) start) with (load cas ca_loads start). rewrite Hload.
          rewrite (details_fails _ _ first rest) by done. simpl. unfold load. simpl. unfold details_load. by rewrite Hf. }
        rewrite (details_settled _ _ first), Hf by done. eauto. }
  split; [|done]. split; [|intros (n&_&Hn&_)%Hgood; eauto].
  intros [n Hn]. subst good. destruct (own_cas cas) as [|first rest] eqn:Hc; [done|].
  destruct (ca_loads first) eqn:Hf; [by left|]. right.
  set (h := default first (remembered start)).
  assert (load cas ca_loads start = mkBrowser (CaDetails h) last) as Hload.
  { unfold load, start. simpl. unfold interstitial_load. by rewrite Hc. }
  destruct (ca_loads h) eqn:Hh.
  - subst h. destruct (remembered start) as [h|]; simpl in Hh; [by exists h|congruence].
  - exfalso. destruct n as [|n]; [by rewrite interstitial_never_settled in Hn|].
    replace (S n) with (n + 1) in Hn by lia. rewrite Nat.iter_add in Hn. change (Nat.iter 1 (load cas ca_loads) start) with (load cas ca_loads start) in Hn.
    rewrite Hload, (details_never_settles _ _ first rest) in Hn by done. done.
Qed.
