(* ===== verification/CaContent.v ===== *)
(** * The page of a CA and its requests ([src/lagosta/js/app.js]: CADetails)

    The page asks the server for the CA, its repository, its parents and the XML of its requests,
    and shows what the answers bring.  Answers may arrive in any order, also after the page was
    switched to another CA.  What the page shows is modelled by the handle of the CA that it is
    of. *)

From stdpp Require Import base strings list.
From Stdlib Require Import Lia.
From S2P Require Import Prelude.

Inductive Request := GetCA | GetRepo | GetParents | GetChildRequestXML | GetRepoStatus | GetRepoRequestXML.
#[export] Instance Request_eq_dec : EqDecision Request.
Proof. solve_decision. Defined.

Record View := mkView {
  handle : string;
  (** [$route.params.tab] *)
  route_tab : option string;
  activeTab : string;
  loading : bool;
  loadingRepo : bool;
  initializeParent : bool;
  initializeRepo : bool;
  ca : option string;
  repo : option string;
  parents : option string;
  repoStatus : option string;
  parentXml : option string;
  repoXml : option string;
  (** [localStorage.lagostaLastCA] *)
  lastCA : option string;
  (** Whether the page was left for the first page. *)
  left_page : bool;
  (** Requests sent and not answered, with the handle they are for, oldest first. *)
  sent : list (Request * string);
}.

Definition send (r : Request) (v : View) : View :=
  mkView (handle v) (route_tab v) (activeTab v) (loading v) (loadingRepo v) (initializeParent v) (initializeRepo v)
    (ca v) (repo v) (parents v) (repoStatus v) (parentXml v) (repoXml v) (lastCA v) (left_page v)
    (sent v ++ [(r, handle v)]).

Definition set_tab (t : string) (v : View) : View :=
  mkView (handle v) (route_tab v) t (loading v) (loadingRepo v) (initializeParent v) (initializeRepo v)
    (ca v) (repo v) (parents v) (repoStatus v) (parentXml v) (repoXml v) (lastCA v) (left_page v) (sent v).

(** [params.tab ? params.tab : "roas"] *)
Definition tab_or_roas (t : option string) : string :=
  match t with Some "" | None => "roas" | Some t => t end.

(** [getContent]: everything is reset but the parents, the state of the repository and the XML. *)
Definition getContent (v : View) : View :=
  send GetRepo (send GetCA
    (mkView (handle v) (route_tab v) (tab_or_roas (route_tab v)) true true false false None None (parents v)
      (repoStatus v) (parentXml v) (repoXml v) (Some (handle v)) (left_page v) (sent v))).

Definition set_handle (h : string) (v : View) : View :=
  mkView h (route_tab v) (activeTab v) (loading v) (loadingRepo v) (initializeParent v) (initializeRepo v)
    (ca v) (repo v) (parents v) (repoStatus v) (parentXml v) (repoXml v) (lastCA v) (left_page v) (sent v).
Definition set_route (t : option string) (v : View) : View :=
  mkView (handle v) t (activeTab v) (loading v) (loadingRepo v) (initializeParent v) (initializeRepo v)
    (ca v) (repo v) (parents v) (repoStatus v) (parentXml v) (repoXml v) (lastCA v) (left_page v) (sent v).

(** [beforeRouteUpdate]: the handle changes at once, the route after it. *)
Definition beforeRouteUpdate (h : string) (t : option string) (v : View) : View :=
  set_route t (getContent (set_tab (default "" t) (set_handle h v))).

(** The page as it is created for a route. *)
Definition created (h : string) (t : option string) : View :=
  getContent (mkView h t (tab_or_roas t) false false false false None None None None None None None false []).

(** An answer: for a CA whether it has parents; an error. *)
Inductive Answer := Success (has_parents : bool) | Failure.

(** What the page does with the answer to a request for a handle. *)
Definition on_ca (h : string) (a : Answer) (v : View) : View :=
  match a with
  | Success has_parents =>
      let v := mkView (handle v) (route_tab v) (activeTab v) false (loadingRepo v) (initializeParent v) (initializeRepo v)
        (Some h) (repo v) (parents v) (repoStatus v) (parentXml v) (repoXml v) (lastCA v) (left_page v) (sent v) in
      if has_parents then send GetParents v
      else
        let v := mkView (handle v) (route_tab v) (activeTab v) (loading v) (loadingRepo v) true (initializeRepo v)
          (ca v) (repo v) (parents v) (repoStatus v) (parentXml v) (repoXml v) (lastCA v) (left_page v) (sent v) in
        send GetChildRequestXML (if bool_decide (activeTab v = "roas") then set_tab "parents" v else v)
  | Failure =>
      mkView (handle v) (route_tab v) (activeTab v) (loading v) (loadingRepo v) (initializeParent v) (initializeRepo v)
        (ca v) (repo v) (parents v) (repoStatus v) (parentXml v) (repoXml v) None true (sent v)
  end.

Definition on_repo (h : string) (a : Answer) (v : View) : View :=
  match a with
  | Success _ =>
      let v := send GetRepoStatus v in
      mkView (handle v) (route_tab v) (if initializeParent v then "parents" else activeTab v) (loading v) false
        (initializeParent v) (initializeRepo v) (ca v) (Some h) (parents v) (repoStatus v) (parentXml v) (repoXml v)
        (lastCA v) (left_page v) (sent v)
  | Failure =>
      send GetRepoRequestXML
        (mkView (handle v) (route_tab v) "repo" (loading v) (loadingRepo v) (initializeParent v) true
          (ca v) (repo v) (parents v) (repoStatus v) (parentXml v) (repoXml v) (lastCA v) (left_page v) (sent v))
  end.

Definition on_answer (r : Request) (h : string) (a : Answer) (v : View) : View :=
  match r, a with
  | GetCA, _ => on_ca h a v
  | GetRepo, _ => on_repo h a v
  | _, Failure => v
  | GetParents, _ =>
      mkView (handle v) (route_tab v) (activeTab v) (loading v) (loadingRepo v) (initializeParent v) (initializeRepo v)
        (ca v) (repo v) (Some h) (repoStatus v) (parentXml v) (repoXml v) (lastCA v) (left_page v) (sent v)
  | GetRepoStatus, _ =>
      mkView (handle v) (route_tab v) (activeTab v) (loading v) (loadingRepo v) (initializeParent v) (initializeRepo v)
        (ca v) (repo v) (parents v) (Some h) (parentXml v) (repoXml v) (lastCA v) (left_page v) (sent v)
  | GetChildRequestXML, _ =>
      mkView (handle v) (route_tab v) (activeTab v) (loading v) (loadingRepo v) (initializeParent v) (initializeRepo v)
        (ca v) (repo v) (parents v) (repoStatus v) (Some h) (repoXml v) (lastCA v) (left_page v) (sent v)
  | GetRepoRequestXML, _ =>
      mkView (handle v) (route_tab v) (activeTab v) (loading v) (loadingRepo v) (initializeParent v) (initializeRepo v)
        (ca v) (repo v) (parents v) (repoStatus v) (parentXml v) (Some h) (lastCA v) (left_page v) (sent v)
  end.

Definition set_sent (l : list (Request * string)) (v : View) : View :=
  mkView (handle v) (route_tab v) (activeTab v) (loading v) (loadingRepo v) (initializeParent v) (initializeRepo v)
    (ca v) (repo v) (parents v) (repoStatus v) (parentXml v) (repoXml v) (lastCA v) (left_page v) l.

(** ** Runs *)

(** The page is switched to another CA, or a request is answered.  [in_order] says whether answers
    to requests of one kind arrive in the order in which these were sent. *)
Inductive step (in_order : bool) : View → View → Prop :=
| step_switch h t v : left_page v = false → step in_order v (beforeRouteUpdate h t v)
| step_answer l r h l' a v :
    left_page v = false → sent v = l ++ (r, h) :: l' → (in_order = true → r ∉ l.*1) →
    step in_order v (on_answer r h a (set_sent (l ++ l') v)).

Inductive run (in_order : bool) : View → Prop :=
| run_created h t : run in_order (created h t)
| run_step v v' : run in_order v → step in_order v v' → run in_order v'.

(** ** Answers in order *)

(** The handles of the requests of a kind that are not answered. *)
Definition waiting (r : Request) (v : View) : list string := (filter (λ p, p.1 = r) (sent v)).*2.

(** What is shown of a CA, or will be when the last answer arrives, is of the handle. *)
Definition current (r : Request) (shown : View → Prop) (v : View) : Prop :=
  match last (waiting r v) with
  | Some h => h = handle v
  | None => shown v
  end.

Definition shows_ca (v : View) : Prop := ca v = Some (handle v) ∧ loading v = false.
Definition shows_repo (v : View) : Prop := repo v = Some (handle v) ∨ initializeRepo v = true.

Lemma waiting_send r r' v : waiting r (send r' v) = waiting r v ++ (if decide (r' = r) then [handle v] else []).
Proof.
  unfold waiting. simpl. rewrite filter_app, fmap_app. f_equal. rewrite filter_cons. simpl. by destruct (decide (r' = r)).
Qed.

(** The requests of a kind when one request is answered. *)
Lemma waiting_other r r' h l l' v : r ≠ r' → sent v = l ++ (r', h) :: l' → waiting r (set_sent (l ++ l') v) = waiting r v.
Proof.
  intros Hne Hs. unfold waiting. rewrite Hs. simpl. rewrite !filter_app, filter_cons_False by (simpl; congruence). done.
Qed.

Lemma waiting_first r h l l' v :
  sent v = l ++ (r, h) :: l' → r ∉ l.*1 → waiting r v = h :: waiting r (set_sent (l ++ l') v).
Proof.
  intros Hs Hl. unfold waiting. rewrite Hs. simpl. rewrite !filter_app, filter_cons_True by done.
  rewrite (filter_none _ l); [done|]. intros [r' h'] Hin Heq. simpl in Heq. subst. apply Hl. by apply (list_elem_of_fmap_2 fst) in Hin.
Qed.

Definition inv (v : View) : Prop := left_page v = true ∨ current GetCA shows_ca v ∧ current GetRepo shows_repo v.

Lemma last_first (h : string) l : last (h :: l) = Some (default h (last l)).
Proof. rewrite last_cons. by destruct (last l). Qed.

Lemma inv_getContent v : current GetCA shows_ca (getContent v) ∧ current GetRepo shows_repo (getContent v).
Proof.
  unfold getContent, current. rewrite !waiting_send. simpl. rewrite !app_nil_r, !last_snoc. done.
Qed.

Lemma current_answered r h (shown : View → Prop) w w' :
  default h (last (waiting r w)) = handle w → waiting r w' = waiting r w → handle w' = handle w →
  (h = handle w' → shown w') → current r shown w'.
Proof. intros Hl Hw Hh Hs. unfold current. rewrite Hw. rewrite <-Hh in Hl. destruct (last _); auto. Qed.

Lemma current_kept r (shown : View → Prop) w w' :
  waiting r w' = waiting r w → handle w' = handle w → (shown w → shown w') → current r shown w → current r shown w'.
Proof. intros Hw Hh Hs. unfold current. rewrite Hw, Hh. destruct (last _); auto. Qed.

(** The answer to the first request of its kind. *)
Lemma inv_answer l r h l' a v :
  sent v = l ++ (r, h) :: l' → r ∉ l.*1 → current GetCA shows_ca v → current GetRepo shows_repo v →
  inv (on_answer r h a (set_sent (l ++ l') v)).
Proof.
  intros Hs Hl HC HR. set (w := set_sent (l ++ l') v).
  assert (r ≠ GetCA → current GetCA shows_ca w) as HC'.
  { intros Hne. unfold w, current in *. by rewrite (waiting_other GetCA r h l l' v). }
  assert (r ≠ GetRepo → current GetRepo shows_repo w) as HR'.
  { intros Hne. unfold w, current in *. by rewrite (waiting_other GetRepo r h l l' v). }
  assert (∀ r' shown, r = r' → current r' shown v → default h (last (waiting r' w)) = handle w) as Hlast.
  { intros r' shown <- Hc. unfold w, current in *. rewrite (waiting_first r h l l' v Hs Hl), last_first in Hc. done. }
  clearbody w. clear Hs Hl. destruct r; simpl.
  - specialize (Hlast _ _ eq_refl HC). specialize (HR' ltac:(done)). destruct a as [p|]; [right|by left].
    unfold on_ca. destruct p; [|destruct (bool_decide _)];
      (split; [apply (current_answered GetCA h shows_ca w)|apply (current_kept GetRepo shows_repo w)]);
      rewrite ?waiting_send; simpl; rewrite ?app_nil_r; try done; by intros ->.
  - specialize (Hlast _ _ eq_refl HR). specialize (HC' ltac:(done)). right.
    destruct a as [p|]; (split; [apply (current_kept GetCA shows_ca w)|apply (current_answered GetRepo h shows_repo w)]);
      unfold waiting; simpl; rewrite ?filter_app, ?fmap_app; simpl; rewrite ?app_nil_r; try done; intros ->; (by left) || (by right).
  - right. specialize (HC' ltac:(done)). specialize (HR' ltac:(done)). destruct a; auto.
  - right. specialize (HC' ltac:(done)). specialize (HR' ltac:(done)). destruct a; auto.
  - right. specialize (HC' ltac:(done)). specialize (HR' ltac:(done)). destruct a; auto.
  - right. specialize (HC' ltac:(done)). specialize (HR' ltac:(done)). destruct a; auto.
Qed.

Lemma run_inv v : run true v → inv v.
Proof.
  induction 1 as [h t|v v' Hr IH Hs]; [right; apply inv_getContent|].
  destruct Hs as [h t v Hleft|l r h l' a v Hleft Hsent Hl].
  - right. unfold beforeRouteUpdate. destruct (inv_getContent (set_tab (default "" t) (set_handle h v))) as [HC HR].
    split; [exact HC|exact HR].
  - destruct IH as [IH|[HC HR]]; [congruence|]. apply inv_answer; auto.
Qed.

(** ** Concrete runs *)

(** Answering the request at a position. *)
Definition answer_at (i : nat) (a : Answer) (v : View) : View :=
  match sent v !! i with
  | Some (r, h) => on_answer r h a (set_sent (take i (sent v) ++ drop (S i) (sent v)) v)
  | None => v
  end.

(** A run as a list of moves, and whether each can be made. *)
Inductive Move := Switch (h : string) (t : option string) | AnswerAt (i : nat) (a : Answer).
Definition move (m : Move) (v : View) : View :=
  match m with Switch h t => beforeRouteUpdate h t v | AnswerAt i a => answer_at i a v end.
Definition legal (in_order : bool) (m : Move) (v : View) : bool :=
  negb (left_page v) &&
  match m with
  | Switch _ _ => true
  | AnswerAt i _ =>
      match sent v !! i with
      | Some (r, _) => negb in_order || bool_decide (r ∉ (take i (sent v)).*1)
      | None => false
      end
  end.
Fixpoint play (in_order : bool) (ms : list Move) (v : View) : option View :=
  match ms with
  | [] => Some v
  | m :: ms => if legal in_order m v then play in_order ms (move m v) else None
  end.

Lemma play_run in_order ms v v' : run in_order v → play in_order ms v = Some v' → run in_order v'.
Proof.
  revert v. induction ms as [|m ms IH]; intros v Hr; simpl; [by intros [= <-]|].
  destruct (legal in_order m v) eqn:Hm; [|done]. apply IH. eapply run_step; [exact Hr|].
  unfold legal in Hm. apply andb_true_iff in Hm as [Hleft%negb_true_iff Hm]. destruct m as [h t|i a]; simpl.
  - by apply step_switch.
  - unfold answer_at. destruct (sent v !! i) as [[r h]|] eqn:Hi; [|done]. apply step_answer; [done|by rewrite take_drop_middle|].
    intros ->. by apply bool_decide_eq_true in Hm.
Qed.

(** The page of CA [a] switched to CA [b], with requests for the CA and the repository of [a], then
    of [b]: the answers for [b] arrive first. *)
Definition overtaking : list Move :=
  [Switch "b" None; AnswerAt 2 (Success true); AnswerAt 2 (Success true); AnswerAt 0 (Success true); AnswerAt 0 (Success true);
   AnswerAt 0 (Success true); AnswerAt 0 (Success true); AnswerAt 0 (Success true); AnswerAt 0 (Success true)].
(** The answers for [a], which has no parent, arrive after the switch, and those for [b] after them. *)
Definition parentless : list Move :=
  [Switch "b" None; AnswerAt 0 (Success false); AnswerAt 0 (Success true); AnswerAt 0 (Success true); AnswerAt 0 (Success true);
   AnswerAt 0 (Success true); AnswerAt 0 (Success true); AnswerAt 0 (Success true); AnswerAt 0 (Success true)].
(** That the CA [a] cannot be loaded is known after the switch. *)
Definition failing : list Move := [Switch "b" None; AnswerAt 0 Failure].

(** ** Theorems *)

(** C38.  When answers to requests of one kind arrive in the order in which these were sent, the page
    shows the CA it was last switched to as soon as no request for a CA is unanswered, and that
    CA's repository, or the form to set one up, once no request for a repository is. *)
Theorem page_shows_its_ca (v : View) (Hrun : run true v) (Hleft : left_page v = false) :
  (waiting GetCA v = [] → ca v = Some (handle v) ∧ loading v = false) ∧
  (waiting GetRepo v = [] → repo v = Some (handle v) ∨ initializeRepo v = true).
Proof.
  destruct (run_inv v Hrun) as [Hl|[HC HR]]; [congruence|]. unfold current in *.
  split; intros Hw; rewrite Hw in *; [exact HC|exact HR].
Qed.

(**  Answers that arrive after the page was switched to another CA are not told apart.  When they
    are overtaken, the page ends with the other CA's data under the handle; in order too, a CA that
    has a parent is left marked as one without because the other has none, and a CA that cannot be
    loaded takes the user away from the page of the one that was switched to, which is forgotten. *)
Theorem late_answers_taken_for_current :
  (∃ v, run false v ∧ sent v = [] ∧ handle v = "b" ∧ ca v = Some "a") ∧
  (∃ v, run true v ∧ sent v = [] ∧ handle v = "b" ∧ ca v = Some "b" ∧ parents v = Some "b" ∧ initializeParent v = true) ∧
  (∃ v, run true v ∧ handle v = "b" ∧ (GetCA, "b") ∈ sent v ∧ left_page v = true ∧ lastCA v = None).
Proof.
  split_and!; [destruct (play false overtaking (created "a" None)) as [v|] eqn:Hp
              |destruct (play true parentless (created "a" None)) as [v|] eqn:Hp
              |destruct (play true failing (created "a" None)) as [v|] eqn:Hp]; try (vm_compute in Hp; discriminate);
    (exists v; split; [by eapply play_run; [apply run_created|]|]); vm_compute in Hp; injection Hp as <-;
    split_and!; try reflexivity. right. by left.
Qed.

Lemma page_shows_its_ca_witness :
  ∃ v, run true v ∧ left_page v = false ∧ handle v = "b" ∧ ca v = Some (handle v) ∧ loading v = false.
Proof.
  destruct (play true parentless (created "a" None)) as [v|] eqn:Hp; [|vm_compute in Hp; discriminate].
  assert (run true v) as Hr by (by eapply play_run; [apply run_created|]).
  pose proof (page_shows_its_ca v Hr) as H. exists v. vm_compute in Hp. injection Hp as <-.
  split; [exact Hr|]. split; [reflexivity|]. split; [reflexivity|]. exact (proj1 (H eq_refl) eq_refl).
Defined.
