(* ===== verification/Testbed.v ===== *)
(** * Registration at a testbed ([src/lagosta/js/app.js]: TestBed)

    The forms that take the XML request of a child CA or of a publisher: the rule for the field,
    what is read from the request, and the registration, which is repeated under another name
    while the server knows the name already. *)

From stdpp Require Import base gmap strings list pretty.
From Stdlib Require Import Ascii Lia.
From S2P Require Import Prelude Text.

(** ** The parsed request *)

(** The text of the certificate, or an object when the element has attributes. *)
Inductive TaValue := TaText (s : string) | TaObject.

(** The element of the request: its attributes, if any, with the handle, if any, and the elements
    for the certificate, if any. *)
Record Element := mkElement { el_attributes : option (option string); el_ta : option (list TaValue) }.

(** What the parser makes of the root element that is looked for. *)
Inductive Root := RootUndefined | RootEmpty | RootText (s : string) | RootElement (e : Element).

Inductive FormVerdict := FormAccepted | FormRejected (message : string) | FormException.

Definition isAscii (s : string) : bool := all_chars (λ a, bool_decide (N_of_ascii a < 128)%N) s.

(** All white space removed. *)
Fixpoint removeWhitespace (s : string) : string :=
  match s with EmptyString => "" | String a s => if is_space a then removeWhitespace s else String a (removeWhitespace s) end.

Section testbed.
(** The parser of [xml2js] and whether [atob] accepts a text. *)
Variables (parseString : string → result string Root) (atob : string → bool).

(** The rule for the request in [addChildForm] and, with its own names, [addPublisherForm]. *)
Definition request_rule (n : option string) : FormVerdict :=
  match n with
  | None => FormRejected "required"
  | Some n =>
      if bool_decide (trim n = "") then FormRejected "required"
      else match parseString n with
           | Err _ => FormRejected "invalid-xml"
           | Ok RootUndefined => FormRejected "missing-xml-el"
           | Ok RootEmpty => FormRejected "empty-xml-el"
           | Ok (RootText _) => FormRejected "missing-xml-attr"
           | Ok (RootElement e) =>
               match el_attributes e with
               | None | Some None => FormRejected "missing-xml-attr"
               | Some (Some handle) =>
                   if bool_decide (handle = "") then FormRejected "empty-xml-attr"
                   else match el_ta e with
                        | None => FormRejected "missing-xml-child-el"
                        | Some (TaText t :: _) =>
                            if bool_decide (trim t = "") then FormRejected "empty-xml-el"
                            else if negb (isAscii t) then FormRejected "non-ascii-xml-el"
                            else if atob t then FormAccepted else FormRejected "non-base64-certificate-xml-el"
                        | Some _ => FormException
                        end
               end
           end
  end.

(** What the submission reads from the request: handle and certificate. *)
Definition request_data (n : string) : option (string * string) :=
  match parseString n with
  | Ok (RootElement (mkElement (Some (Some handle)) (Some (TaText t :: _)))) => Some (handle, removeWhitespace t)
  | _ => None
  end.

(** ** Registering *)

Inductive Reply := Created | Refused (label : option string).
Inductive Outcome := Registered (name : string) | Failed (message : string).

(** The server's reply to a name and a certificate, the label of its error for a name in use, and
    the time of each attempt. *)
Variables (reply : string → string → Reply) (duplicate : string) (time : nat → N).

(** [r] in [submitAddChildForm] and [submitAddPublisherForm]; the requests are sent trimmed.
    [None] when [fuel] attempts do not end it. *)
Fixpoint register (fuel attempt : nat) (name cert : string) : option Outcome :=
  match fuel with
  | O => None
  | S fuel =>
      match reply (trim name) (trim cert) with
      | Created => Some (Registered name)
      | Refused (Some label) =>
          if bool_decide (label = "api-json") then Some (Failed "invalid-registration-data")
          else if bool_decide (label = duplicate) then register fuel (S attempt) (name +:+ pretty (time attempt)) cert
          else Some (Failed label)
      | Refused None => Some (Failed "error")
      end
  end.

Definition submit (fuel : nat) (n : string) : option Outcome :=
  match request_data n with
  | Some (handle, cert) => register fuel 0 handle cert
  | None => Some (Failed "invalid-xml")
  end.

(** ** Names get longer *)

Lemma trim_start_app e d : no_space d = true → d ≠ "" → trim_start (e +:+ d) = trim_start e +:+ d.
Proof.
  intros Hd Hn. induction e as [|a e IH].
  - rewrite !string_app_nil. destruct d as [|b d]; [done|]. simpl in *. apply andb_true_iff in Hd as [Hb%negb_true_iff _].
    by rewrite Hb.
  - rewrite string_app_cons. simpl. by destruct (is_space a).
Qed.

Lemma trim_end_app x d : no_space d = true → d ≠ "" → trim_end (x +:+ d) = x +:+ d.
Proof.
  intros Hd Hn. induction x as [|a x IH]; [by apply trim_end_no_space|].
  rewrite string_app_cons. simpl. rewrite IH. destruct x; [|done]. rewrite string_app_nil. by destruct d.
Qed.

Lemma trim_end_length s : String.length (trim_end s) ≤ String.length s.
Proof.
  induction s as [|a s IH]; simpl; [done|]. destruct (trim_end s); [|simpl in *; lia]. destruct (is_space a); simpl; lia.
Qed.

Lemma retry_longer e (n : N) : String.length (trim e) < String.length (trim (e +:+ pretty n)).
Proof.
  assert (pretty n ≠ "") as Hn by (destruct (pretty_N_digits n) as [Hd _]; by destruct (pretty n)).
  unfold trim. rewrite trim_start_app, trim_end_app by (done || apply pretty_no_space).
  rewrite app_length_string. pose proof (trim_end_length (trim_start e)). destruct (pretty n); [done|]. simpl. lia.
Qed.

(** A request that the rule accepts can be submitted. *)
Lemma rule_accepts_data n :
  request_rule (Some n) = FormAccepted → ∃ handle cert, request_data n = Some (handle, cert) ∧ handle ≠ "".
Proof.
  unfold request_rule, request_data. destruct (parseString n) as [[| |s|[attrs ta]]|]; repeat case_bool_decide; try done.
  simpl. destruct attrs as [[h|]|]; [|done..]. case_bool_decide; [done|]. destruct ta as [[|[t|] l]|]; try done.
  intros _. by do 2 eexists.
Qed.

(** What the page shows for a reply that is not the error for a name in use. *)
Definition reply_outcome (name : string) (r : Reply) : Outcome :=
  match r with
  | Created => Registered name
  | Refused (Some label) => Failed (if bool_decide (label = "api-json") then "invalid-registration-data" else label)
  | Refused None => Failed "error"
  end.

(** The names tried so far are in use and shorter than the next. *)
Lemma register_ends (registered : gset string) fuel attempt name cert (tried : list string) :
  duplicate ≠ "api-json" → (∀ name cert, reply name cert = Refused (Some duplicate) → name ∈ registered) →
  NoDup tried → (∀ x, x ∈ tried → x ∈ registered ∧ String.length x < String.length (trim name)) →
  size registered < fuel + length tried →
  ∃ name', register fuel attempt name cert = Some (reply_outcome name' (reply (trim name') (trim cert)))
    ∧ reply (trim name') (trim cert) ≠ Refused (Some duplicate)
    ∧ (reply (trim name) (trim cert) ≠ Refused (Some duplicate) → name' = name).
Proof.
  intros Hdup Hreply. revert attempt name tried. induction fuel as [|fuel IH]; intros attempt name tried Hnd Htried Hsize.
  - exfalso. assert (size (list_to_set tried : gset string) ≤ size registered) as Hle.
    { apply subseteq_size. intros x. rewrite elem_of_list_to_set. by intros [? _]%Htried. }
    rewrite size_list_to_set in Hle by done. lia.
  - simpl. destruct (reply (trim name) (trim cert)) as [|[label|]] eqn:Hr; [exists name; by rewrite Hr| |exists name; by rewrite Hr].
    destruct (bool_decide (label = "api-json")) eqn:Hjson.
    { exists name. rewrite Hr. simpl. rewrite Hjson. apply bool_decide_eq_true in Hjson. split; [done|]. split; [congruence|done]. }
    destruct (bool_decide_reflect (label = duplicate)) as [Hlabel|Hlabel]; [|exists name; rewrite Hr; simpl; rewrite Hjson; split; [done|]; split; [congruence|done]].
    subst label. pose proof (retry_longer name (time attempt)) as Hlong. apply Hreply in Hr.
    destruct (IH (S attempt) (name +:+ pretty (time attempt)) (trim name :: tried)) as (name'&Hreg&Hne&_).
    + constructor; [|done]. intros [_ Hlt]%Htried. lia.
    + intros x [->|[? ?]%Htried]%elem_of_cons; [done|]. split; [done|lia].
    + simpl. lia.
    + exists name'. by split.
Qed.
End testbed.

(** C39.  Registering at the testbed: when the rule accepted the request, and the server gives the
    error for a name in use only for finitely many names, the submission reads handle and
    certificate and ends, after at most one attempt more than there are such names, with what the
    server replied to the last name tried: the registration of that name, or another error, which
    is shown and not tried again.  The name is the handle itself unless that is in use. *)
Theorem registration_ends (parseString : string → result string Root) (atob : string → bool)
    (reply : string → string → Reply) (duplicate : string) (time : nat → N) (registered : gset string) (n : string)
    (Hduplicate : duplicate ≠ "api-json")
    (Hreply : ∀ name cert, reply name cert = Refused (Some duplicate) → name ∈ registered)
    (Hrule : request_rule parseString atob (Some n) = FormAccepted) :
  ∃ handle cert name, request_data parseString n = Some (handle, cert) ∧ handle ≠ "" ∧
    submit parseString reply duplicate time (S (size registered)) n = Some (reply_outcome name (reply (trim name) (trim cert))) ∧
    reply (trim name) (trim cert) ≠ Refused (Some duplicate) ∧
    (reply (trim handle) (trim cert) ≠ Refused (Some duplicate) → name = handle).
Proof.
  destruct (rule_accepts_data parseString atob n Hrule) as (handle&cert&Hdata&Hne).
  destruct (register_ends reply duplicate time registered (S (size registered)) 0 handle cert []) as (name&Hreg&Hfree&Hown);
    [done|done|constructor|by intros x ?%elem_of_nil|simpl; lia|].
  exists handle, cert, name. split_and!; [done|done|by unfold submit; rewrite Hdata|done|done].
Qed.

Lemma registration_ends_witness :
  let parse (_ : string) : result string Root := Ok (RootElement (mkElement (Some (Some "child")) (Some [TaText "QUJD"]))) in
  let registered : gset string := {["child"]} in
  let reply name (_ : string) := if decide (name ∈ registered) then Refused (Some "ca-child-duplicate") else Created in
  submit parse reply "ca-child-duplicate" (λ _, 1700000000000%N) 2 "<child_request/>" = Some (Registered "child1700000000000") ∧
  ∃ name, submit parse reply "ca-child-duplicate" (λ _, 1700000000000%N) 2 "<child_request/>" = Some (Registered name).
Proof.
  intros parse registered reply. split; [by vm_compute|].
  destruct (registration_ends parse (λ _, true) reply "ca-child-duplicate" (λ _, 1700000000000%N) registered "<child_request/>")
    as (handle&cert&name&_&_&Hs&Hf&_); [done| |by vm_compute|].
  - intros name cert. unfold reply. by case_decide.
  - assert (size registered = 1) as Hsize by (apply size_singleton). rewrite Hsize in Hs. exists name.
    etrans; [exact Hs|]. unfold reply at 1. unfold reply at 1 in Hf. case_decide; [by destruct Hf|done].
Defined.
