(* ===== verification/MomentNumerals.v ===== *)
(** * Numerals in the locales of the web interface ([src/lagosta/js/app.js], moment.js)

    Locales with digits of their own replace the digits in a text that was formatted
    ([postformat]) and put them back before a text is parsed ([preparse]); some also use
    another comma.  A text is a list of code points. *)

From stdpp Require Import base list.
From S2P Require Import Prelude.
Local Open Scope N_scope.

Record Numerals := mkNumerals {
  (** The symbols for the digits, from zero; none if the locale keeps the digits. *)
  symbols : list N;
  (** The digit for each symbol. *)
  from_symbol : list (N * N);
  (** Whether the Arabic comma is used. *)
  arabic_comma : bool;
}.

Definition comma : N := 44.
Definition arabic_comma_char : N := 1548.
Definition is_digit (c : N) : bool := (48 <=? c) && (c <=? 57).

Fixpoint assoc (l : list (N * N)) (c : N) : option N :=
  match l with [] => None | (k, v) :: l => if k =? c then Some v else assoc l c end.

(** [replace(/\d/g, t[e])], [replace(/[..]/g, n[e])] and the replacement of the comma. *)
Definition to_native (l : Numerals) (c : N) : N :=
  if is_digit c then default c (symbols l !! N.to_nat (c - 48)) else c.
Definition to_ascii (l : Numerals) (c : N) : N :=
  match assoc (from_symbol l) c with Some d => 48 + d | None => c end.
Definition replace_char (from to c : N) : N := if c =? from then to else c.

Definition postformat (l : Numerals) (e : list N) : list N :=
  let e := to_native l <$> e in
  if arabic_comma l then replace_char comma arabic_comma_char <$> e else e.

Definition preparse (l : Numerals) (e : list N) : list N :=
  let e := to_ascii l <$> e in
  if arabic_comma l then replace_char arabic_comma_char comma <$> e else e.

Definition ar_ly_numerals : Numerals := mkNumerals
  [48; 49; 50; 51; 52; 53; 54; 55; 56; 57]
  []
  true.

Definition ku_numerals : Numerals := mkNumerals
  [1632; 1633; 1634; 1635; 1636; 1637; 1638; 1639; 1640; 1641]
  [(1633, 1); (1634, 2); (1635, 3); (1636, 4); (1637, 5); (1638, 6); (1639, 7); (1640, 8); (1641, 9); (1632, 0)]
  true.

Definition mr_numerals : Numerals := mkNumerals
  [2406; 2407; 2408; 2409; 2410; 2411; 2412; 2413; 2414; 2415]
  [(2407, 1); (2408, 2); (2409, 3); (2410, 4); (2411, 5); (2412, 6); (2413, 7); (2414, 8); (2415, 9); (2406, 0)]
  false.

Definition ne_numerals : Numerals := mkNumerals
  [2406; 2407; 2408; 2409; 2410; 2411; 2412; 2413; 2414; 2415]
  [(2407, 1); (2408, 2); (2409, 3); (2410, 4); (2411, 5); (2412, 6); (2413, 7); (2414, 8); (2415, 9); (2406, 0)]
  false.

Definition ta_numerals : Numerals := mkNumerals
  [3046; 3047; 3048; 3049; 3050; 3051; 3052; 3053; 3054; 3055]
  [(3047, 1); (3048, 2); (3049, 3); (3050, 4); (3051, 5); (3052, 6); (3053, 7); (3054, 8); (3055, 9); (3046, 0)]
  false.

Definition kn_numerals : Numerals := mkNumerals
  [3302; 3303; 3304; 3305; 3306; 3307; 3308; 3309; 3310; 3311]
  [(3303, 1); (3304, 2); (3305, 3); (3306, 4); (3307, 5); (3308, 6); (3309, 7); (3310, 8); (3311, 9); (3302, 0)]
  false.

Definition ur_numerals : Numerals := mkNumerals
  []
  []
  true.

Definition dv_numerals : Numerals := mkNumerals
  []
  []
  true.

Definition ug_cn_numerals : Numerals := mkNumerals
  []
  []
  true.

Definition sd_numerals : Numerals := mkNumerals
  []
  []
  true.

Definition ar_sa_numerals : Numerals := mkNumerals
  [1632; 1633; 1634; 1635; 1636; 1637; 1638; 1639; 1640; 1641]
  [(1633, 1); (1634, 2); (1635, 3); (1636, 4); (1637, 5); (1638, 6); (1639, 7); (1640, 8); (1641, 9); (1632, 0)]
  true.

Definition my_numerals : Numerals := mkNumerals
  [4160; 4161; 4162; 4163; 4164; 4165; 4166; 4167; 4168; 4169]
  [(4161, 1); (4162, 2); (4163, 3); (4164, 4); (4165, 5); (4166, 6); (4167, 7); (4168, 8); (4169, 9); (4160, 0)]
  false.

Definition fa_numerals : Numerals := mkNumerals
  [1776; 1777; 1778; 1779; 1780; 1781; 1782; 1783; 1784; 1785]
  [(1777, 1); (1778, 2); (1779, 3); (1780, 4); (1781, 5); (1782, 6); (1783, 7); (1784, 8); (1785, 9); (1776, 0)]
  true.

Definition ar_numerals : Numerals := mkNumerals
  [1632; 1633; 1634; 1635; 1636; 1637; 1638; 1639; 1640; 1641]
  [(1633, 1); (1634, 2); (1635, 3); (1636, 4); (1637, 5); (1638, 6); (1639, 7); (1640, 8); (1641, 9); (1632, 0)]
  true.

Definition bn_numerals : Numerals := mkNumerals
  [2534; 2535; 2536; 2537; 2538; 2539; 2540; 2541; 2542; 2543]
  [(2535, 1); (2536, 2); (2537, 3); (2538, 4); (2539, 5); (2540, 6); (2541, 7); (2542, 8); (2543, 9); (2534, 0)]
  false.

Definition bn_bd_numerals : Numerals := mkNumerals
  [2534; 2535; 2536; 2537; 2538; 2539; 2540; 2541; 2542; 2543]
  [(2535, 1); (2536, 2); (2537, 3); (2538, 4); (2539, 5); (2540, 6); (2541, 7); (2542, 8); (2543, 9); (2534, 0)]
  false.

Definition bo_numerals : Numerals := mkNumerals
  [3872; 3873; 3874; 3875; 3876; 3877; 3878; 3879; 3880; 3881]
  [(3873, 1); (3874, 2); (3875, 3); (3876, 4); (3877, 5); (3878, 6); (3879, 7); (3880, 8); (3881, 9); (3872, 0)]
  false.

Definition hi_numerals : Numerals := mkNumerals
  [2406; 2407; 2408; 2409; 2410; 2411; 2412; 2413; 2414; 2415]
  [(2407, 1); (2408, 2); (2409, 3); (2410, 4); (2411, 5); (2412, 6); (2413, 7); (2414, 8); (2415, 9); (2406, 0)]
  false.

Definition gu_numerals : Numerals := mkNumerals
  [2790; 2791; 2792; 2793; 2794; 2795; 2796; 2797; 2798; 2799]
  [(2791, 1); (2792, 2); (2793, 3); (2794, 4); (2795, 5); (2796, 6); (2797, 7); (2798, 8); (2799, 9); (2790, 0)]
  false.

Definition km_numerals : Numerals := mkNumerals
  [6112; 6113; 6114; 6115; 6116; 6117; 6118; 6119; 6120; 6121]
  [(6113, 1); (6114, 2); (6115, 3); (6116, 4); (6117, 5); (6118, 6); (6119, 7); (6120, 8); (6121, 9); (6112, 0)]
  false.

Definition pa_in_numerals : Numerals := mkNumerals
  [2662; 2663; 2664; 2665; 2666; 2667; 2668; 2669; 2670; 2671]
  [(2663, 1); (2664, 2); (2665, 3); (2666, 4); (2667, 5); (2668, 6); (2669, 7); (2670, 8); (2671, 9); (2662, 0)]
  false.

Definition numerals : list Numerals :=
  [ar_ly_numerals; ku_numerals; mr_numerals; ne_numerals; ta_numerals; kn_numerals; ur_numerals; dv_numerals;
   ug_cn_numerals; sd_numerals; ar_sa_numerals; my_numerals; fa_numerals; ar_numerals; bn_numerals;
   bn_bd_numerals; bo_numerals; hi_numerals; gu_numerals; km_numerals; pa_in_numerals].

(** The characters that the locale puts in the place of others. *)
Definition native (l : Numerals) (c : N) : bool :=
  bool_decide (is_Some (assoc (from_symbol l) c)) || (arabic_comma l && (c =? arabic_comma_char)).

Definition char_back (l : Numerals) (c : N) : N :=
  let c := to_native l c in
  let c := if arabic_comma l then replace_char comma arabic_comma_char c else c in
  let c := to_ascii l c in
  if arabic_comma l then replace_char arabic_comma_char comma c else c.

Lemma preparse_postformat l e : preparse l (postformat l e) = char_back l <$> e.
Proof.
  unfold preparse, postformat, char_back.
  destruct (arabic_comma l); rewrite <-!list_fmap_compose; by apply list_fmap_ext.
Qed.

(** The digits and the comma are given back; no symbol is the comma of the locale. *)
Definition table_ok (l : Numerals) : bool :=
  forallb (λ d, char_back l (48 + N.of_nat d) =? 48 + N.of_nat d) (seq 0 10) &&
  (char_back l comma =? comma) &&
  bool_decide (assoc (from_symbol l) arabic_comma_char = None).

Lemma char_back_id l c : table_ok l = true → native l c = false → char_back l c = c.
Proof.
  unfold table_ok. rewrite !andb_true_iff, forallb_forall, bool_decide_eq_true. intros [[Hd Hc] Hn].
  apply N.eqb_eq in Hc. intros [Hs Ha]%orb_false_iff. apply bool_decide_eq_false, eq_None_not_Some in Hs.
  destruct (is_digit c) eqn:Hdig.
  { unfold is_digit in Hdig. apply andb_true_iff in Hdig as [Hlo%N.leb_le Hhi%N.leb_le].
    specialize (Hd (N.to_nat (c - 48))). rewrite in_seq, N2Nat.id, N.eqb_eq in Hd.
    replace (48 + (c - 48)) with c in Hd by lia. apply Hd. lia. }
  destruct (decide (c = comma)) as [->|Hcne]; [done|].
  assert (to_native l c = c) as Hnat by (unfold to_native; by rewrite Hdig).
  assert (to_ascii l c = c) as Hasc by (unfold to_ascii; by rewrite Hs).
  assert (replace_char comma arabic_comma_char c = c) as Hr1.
  { unfold replace_char. by rewrite (proj2 (N.eqb_neq _ _) Hcne). }
  unfold char_back. rewrite Hnat. destruct (arabic_comma l); [|done].
  rewrite Hr1, Hasc. unfold replace_char. simpl in Ha. by rewrite Ha.
Qed.

Lemma all_tables_ok : forallb table_ok numerals = true.
Proof. vm_compute. reflexivity. Qed.

(** Localised numbers are read back: in each of these locales a formatted text that contains
    none of the symbols of the locale is the same after the digits and commas were replaced for
    display and put back for parsing. *)
Theorem numerals_roundtrip (l : Numerals) (e : list N)
    (Hl : l ∈ numerals) (He : Forall (λ c, native l c = false) e) :
  preparse l (postformat l e) = e.
Proof.
  rewrite preparse_postformat. rewrite <-(list_fmap_id e) at 2. apply list_fmap_ext.
  intros i c Hc. apply char_back_id; [|by eapply (Forall_lookup_1 _ _ _ _ He)].
  pose proof all_tables_ok as Hall. rewrite forallb_forall in Hall. apply Hall. by apply list_elem_of_In.
Qed.

Lemma numerals_roundtrip_witness :
  postformat fa_numerals [49; 50; 44; 32; 57] = [1777; 1778; 1548; 32; 1785] ∧
  preparse fa_numerals (postformat fa_numerals [49; 50; 44; 32; 57]) = [49; 50; 44; 32; 57].
Proof.
  split; [reflexivity|]. apply numerals_roundtrip.
  - apply list_elem_of_In. simpl. tauto.
  - repeat constructor.
Defined.
