(* ===== verification/MomentOrdinals.v ===== *)
(** * Ordinals and plurals in the locales of the web interface ([src/lagosta/js/app.js], moment.js)

    Ordinals add a suffix to a number; relative times ("in 3 hours") pick a form of a word by
    the number.  A part of a text that is [undefined] in JavaScript is [None] here. *)

From stdpp Require Import base strings list pretty.
From S2P Require Import Prelude Text MomentLocales.
Local Open Scope N_scope.
Local Open Scope js_scope.

(** ** Ordinals from a table *)

Fixpoint suffix_of (t : list (N * string)) (k : N) : option string :=
  match t with [] => None | (k', s) :: t => if k' === k then Some s else suffix_of t k end.

(** [a || b] for texts of a table, none of which is empty. *)
Definition or_else {A} (a b : option A) : option A := match a with Some _ => a | None => b end.

(** [100] or [null] as a key. *)
Definition hundreds (e : N) : option N := if 100 <=? e then Some 100 else None.

(** The suffix by the last digit, the tens, or the hundreds. *)
Definition by_digits (t : list (N * string)) (e : N) : option string :=
  let i := e mod 10 in
  let r := e mod 100 - i in
  or_else (suffix_of t i) (or_else (suffix_of t r) (hundreds e ≫= suffix_of t)).

(** The suffix by the number, the last digit, or the hundreds. *)
Definition by_number (t : list (N * string)) (e : N) : option string :=
  or_else (suffix_of t e) (or_else (suffix_of t (e mod 10)) (hundreds e ≫= suffix_of t)).

Definition append (e : N) (s : option string) : option string := (λ s, pretty e +:+ s) <$> s.

Definition tr_suffixes : list (N * string) :=
  [(1, "'inci"); (5, "'inci"); (8, "'inci"); (70, "'inci"); (80, "'inci"); (2, "'nci"); (7, "'nci");
   (20, "'nci"); (50, "'nci"); (3, "'üncü"); (4, "'üncü"); (100, "'üncü"); (6, "'ncı"); (9, "'uncu");
   (10, "'uncu"); (30, "'uncu"); (60, "'ıncı"); (90, "'ıncı")].

Definition az_suffixes : list (N * string) :=
  [(1, "-inci"); (5, "-inci"); (8, "-inci"); (70, "-inci"); (80, "-inci"); (2, "-nci"); (7, "-nci");
   (20, "-nci"); (50, "-nci"); (3, "-üncü"); (4, "-üncü"); (100, "-üncü"); (6, "-ncı"); (9, "-uncu");
   (10, "-uncu"); (30, "-uncu"); (60, "-ıncı"); (90, "-ıncı")].

Definition tk_suffixes : list (N * string) :=
  [(1, "'inji"); (5, "'inji"); (8, "'inji"); (70, "'inji"); (80, "'inji"); (2, "'nji"); (7, "'nji");
   (20, "'nji"); (50, "'nji"); (3, "'ünji"); (4, "'ünji"); (100, "'ünji"); (6, "'njy"); (9, "'unjy");
   (10, "'unjy"); (30, "'unjy"); (60, "'ynjy"); (90, "'ynjy")].

Definition kk_suffixes : list (N * string) :=
  [(0, "-ші"); (1, "-ші"); (2, "-ші"); (3, "-ші"); (4, "-ші"); (5, "-ші"); (6, "-шы"); (7, "-ші"); (8,
   "-ші"); (9, "-шы"); (10, "-шы"); (20, "-шы"); (30, "-шы"); (40, "-шы"); (50, "-ші"); (60, "-шы");
   (70, "-ші"); (80, "-ші"); (90, "-шы"); (100, "-ші")].

Definition ky_suffixes : list (N * string) :=
  [(0, "-чү"); (1, "-чи"); (2, "-чи"); (3, "-чү"); (4, "-чү"); (5, "-чи"); (6, "-чы"); (7, "-чи"); (8,
   "-чи"); (9, "-чу"); (10, "-чу"); (20, "-чы"); (30, "-чу"); (40, "-чы"); (50, "-чү"); (60, "-чы");
   (70, "-чи"); (80, "-чи"); (90, "-чу"); (100, "-чү")].

Definition tg_suffixes : list (N * string) :=
  [(0, "-ум"); (1, "-ум"); (2, "-юм"); (3, "-юм"); (4, "-ум"); (5, "-ум"); (6, "-ум"); (7, "-ум"); (8,
   "-ум"); (9, "-ум"); (10, "-ум"); (12, "-ум"); (13, "-ум"); (20, "-ум"); (30, "-юм"); (40, "-ум");
   (50, "-ум"); (60, "-ум"); (70, "-ум"); (80, "-ум"); (90, "-ум"); (100, "-ум")].

Definition tr_ordinal (e : N) (n : string) : option string :=
  if js_in n ["d"; "D"; "Do"; "DD"] then Some (pretty e)
  else if 0 === e then append e (Some "'ıncı")
  else append e (by_digits tr_suffixes e).

Definition az_ordinal (e : N) : option string :=
  if 0 === e then append e (Some "-ıncı") else append e (by_digits az_suffixes e).

Definition tk_ordinal (e : N) (n : string) : option string :=
  if js_in n ["d"; "D"; "Do"; "DD"] then Some (pretty e)
  else if 0 === e then append e (Some "'unjy")
  else append e (by_digits tk_suffixes e).

Definition kk_ordinal (e : N) : option string := append e (by_number kk_suffixes e).
Definition ky_ordinal (e : N) : option string := append e (by_number ky_suffixes e).
Definition tg_ordinal (e : N) : option string := append e (by_number tg_suffixes e).

Definition cy_suffixes : list string :=
  [""; "af"; "il"; "ydd"; "ydd"; "ed"; "ed"; "ed"; "fed"; "fed"; "fed"; "eg"; "fed"; "eg"; "eg"; "fed"; "eg"; "eg";
   "fed"; "eg"; "fed"].
Definition cy_ordinal (e : N) : option string :=
  append e
    (if 20 <? e
     then Some (if (40 === e) || (50 === e) || (60 === e) || (80 === e) || (100 === e) then "fed" else "ain")
     else if 0 <? e then cy_suffixes !! N.to_nat e else Some "").

(** The ordinal of the English locales. *)
Definition en_suffix (e : N) : string :=
  let t := e mod 10 in
  if 1 === (e mod 100) / 10 then "th"
  else if 1 === t then "st" else if 2 === t then "nd" else if 3 === t then "rd" else "th".
Definition en_ordinal (e : N) : string := pretty e +:+ en_suffix e.

(** ** Plurals *)

(** The keys of a relative time: one or several seconds, minutes, hours, days, weeks, months, years. *)
Record RelativeTime := mkRelativeTime {
  rt_locale : string;
  (** The keys for which the locale installs [rt_form]. *)
  rt_keys : list string;
  (** number, without suffix, key, in the future *)
  rt_form : N → bool → string → bool → option string;
}.

Fixpoint words_of (t : list (string * list string)) (k : string) : option (list string) :=
  match t with [] => None | (k', w) :: t => if k' === k then Some w else words_of t k end.

Definition with_number (e : N) (w : option string) : option string := (λ w, pretty e +:+ " " +:+ w) <$> w.

(** *** Belarusian, Russian, Ukrainian *)

Definition plural (n : list string) (t : N) : option string :=
  if (t mod 10 === 1) && negb (t mod 100 === 11) then n !! 0%nat
  else if (2 <=? t mod 10) && (t mod 10 <=? 4) && ((t mod 100 <? 10) || (20 <=? t mod 100)) then n !! 1%nat
  else n !! 2%nat.

Definition be_words (n : bool) : list (string * list string) :=
  [("ss", if n then ["секунда"; "секунды"; "секунд"] else ["секунду"; "секунды"; "секунд"]);
   ("mm", if n then ["хвіліна"; "хвіліны"; "хвілін"] else ["хвіліну"; "хвіліны"; "хвілін"]);
   ("hh", if n then ["гадзіна"; "гадзіны"; "гадзін"] else ["гадзіну"; "гадзіны"; "гадзін"]);
   ("dd", ["дзень"; "дні"; "дзён"]); ("MM", ["месяц"; "месяцы"; "месяцаў"]); ("yy", ["год"; "гады"; "гадоў"])].
Definition be_relativeTime (e : N) (n : bool) (i : string) (future : bool) : option string :=
  if "m" === i then Some (if n then "хвіліна" else "хвіліну")
  else if "h" === i then Some (if n then "гадзіна" else "гадзіну")
  else with_number e (words_of (be_words n) i ≫= λ r, plural r e).

Definition ru_words (n : bool) : list (string * list string) :=
  [("ss", if n then ["секунда"; "секунды"; "секунд"] else ["секунду"; "секунды"; "секунд"]);
   ("mm", if n then ["минута"; "минуты"; "минут"] else ["минуту"; "минуты"; "минут"]);
   ("hh", ["час"; "часа"; "часов"]); ("dd", ["день"; "дня"; "дней"]); ("ww", ["неделя"; "недели"; "недель"]);
   ("MM", ["месяц"; "месяца"; "месяцев"]); ("yy", ["год"; "года"; "лет"])].
Definition ru_relativeTime (e : N) (n : bool) (i : string) (future : bool) : option string :=
  if "m" === i then Some (if n then "минута" else "минуту")
  else with_number e (words_of (ru_words n) i ≫= λ r, plural r e).

Definition uk_words (n : bool) : list (string * list string) :=
  [("ss", if n then ["секунда"; "секунди"; "секунд"] else ["секунду"; "секунди"; "секунд"]);
   ("mm", if n then ["хвилина"; "хвилини"; "хвилин"] else ["хвилину"; "хвилини"; "хвилин"]);
   ("hh", if n then ["година"; "години"; "годин"] else ["годину"; "години"; "годин"]);
   ("dd", ["день"; "дні"; "днів"]); ("MM", ["місяць"; "місяці"; "місяців"]); ("yy", ["рік"; "роки"; "років"])].
Definition uk_relativeTime (e : N) (n : bool) (i : string) (future : bool) : option string :=
  if "m" === i then Some (if n then "хвилина" else "хвилину")
  else if "h" === i then Some (if n then "година" else "годину")
  else with_number e (words_of (uk_words n) i ≫= λ r, plural r e).

(** *** Lithuanian, Latvian, Serbian *)

Definition lt_units : list (string * list string) :=
  [("ss", ["sekundė"; "sekundžių"; "sekundes"]); ("m", ["minutė"; "minutės"; "minutę"]);
   ("mm", ["minutės"; "minučių"; "minutes"]); ("h", ["valanda"; "valandos"; "valandą"]);
   ("hh", ["valandos"; "valandų"; "valandas"]); ("d", ["diena"; "dienos"; "dieną"]);
   ("dd", ["dienos"; "dienų"; "dienas"]); ("M", ["mėnuo"; "mėnesio"; "mėnesį"]);
   ("MM", ["mėnesiai"; "mėnesių"; "mėnesius"]); ("y", ["metai"; "metų"; "metus"]); ("yy", ["metai"; "metų"; "metus"])].
Definition lt_form (k : string) (i : nat) : option string := words_of lt_units k ≫= λ w, w !! i.
Definition lt_special (e : N) : bool := (e mod 10 === 0) || (10 <? e) && (e <? 20).
Definition lt_singular (e : N) (t : bool) (n : string) (i : bool) : option string :=
  if t then lt_form n 0 else if i then lt_form n 1 else lt_form n 2.
Definition lt_translate (e : N) (t : bool) (n : string) (o : bool) : option string :=
  with_number e
    (if 1 === e then lt_singular e t (charAt n 0) o
     else if t then (if lt_special e then lt_form n 1 else lt_form n 0)
     else if o then lt_form n 1
     else if lt_special e then lt_form n 1 else lt_form n 2).
Definition lt_relativeTime (e : N) (t : bool) (n : string) (i : bool) : option string :=
  if js_in n ["m"; "h"; "d"; "M"; "y"] then lt_singular e t n i else lt_translate e t n i.

Definition lv_units : list (string * list string) :=
  let seconds := ["sekundes"; "sekundēm"; "sekunde"; "sekundes"] in
  let minutes := ["minūtes"; "minūtēm"; "minūte"; "minūtes"] in
  let hours := ["stundas"; "stundām"; "stunda"; "stundas"] in
  let days := ["dienas"; "dienām"; "diena"; "dienas"] in
  let months := ["mēneša"; "mēnešiem"; "mēnesis"; "mēneši"] in
  let years := ["gada"; "gadiem"; "gads"; "gadi"] in
  [("ss", seconds); ("m", minutes); ("mm", minutes); ("h", hours); ("hh", hours); ("d", days); ("dd", days);
   ("M", months); ("MM", months); ("y", years); ("yy", years)].
Definition lv_format (e : list string) (t : N) (n : bool) : option string :=
  if n then (if (t mod 10 === 1) && negb (t mod 100 === 11) then e !! 2%nat else e !! 3%nat)
  else if (t mod 10 === 1) && negb (t mod 100 === 11) then e !! 0%nat else e !! 1%nat.
Definition lv_relativeTime (e : N) (i : bool) (r : string) (future : bool) : option string :=
  let w := words_of lv_units r ≫= λ l, lv_format l e i in
  if js_in r ["m"; "h"; "d"; "M"; "y"] then w else with_number e w.

Definition sr_words : list (string * list string) :=
  [("ss", ["sekunda"; "sekunde"; "sekundi"]); ("m", ["jedan minut"; "jedne minute"]);
   ("mm", ["minut"; "minute"; "minuta"]); ("h", ["jedan sat"; "jednog sata"]); ("hh", ["sat"; "sata"; "sati"]);
   ("dd", ["dan"; "dana"; "dana"]); ("MM", ["mesec"; "meseca"; "meseci"]); ("yy", ["godina"; "godine"; "godina"])].
Definition correctGrammaticalCase (e : N) (t : list string) : option string :=
  if 1 === e then t !! 0%nat else if (2 <=? e) && (e <=? 4) then t !! 1%nat else t !! 2%nat.
Definition sr_relativeTime (e : N) (n : bool) (i : string) (future : bool) : option string :=
  words_of sr_words i ≫= λ r,
  if (String.length i =? 1)%nat then (if n then r !! 0%nat else r !! 1%nat)
  else with_number e (correctGrammaticalCase e r).

Definition relative_times : list RelativeTime :=
  [mkRelativeTime "be" ["m"; "mm"; "h"; "hh"; "dd"; "MM"; "yy"] be_relativeTime;
   mkRelativeTime "ru" ["ss"; "m"; "mm"; "hh"; "dd"; "ww"; "MM"; "yy"] ru_relativeTime;
   mkRelativeTime "uk" ["ss"; "m"; "mm"; "hh"; "dd"; "MM"; "yy"] uk_relativeTime;
   mkRelativeTime "lt" ["ss"; "m"; "mm"; "h"; "hh"; "d"; "dd"; "M"; "MM"; "y"; "yy"] lt_relativeTime;
   mkRelativeTime "lv" ["ss"; "m"; "mm"; "h"; "hh"; "d"; "dd"; "M"; "MM"; "y"; "yy"] lv_relativeTime;
   mkRelativeTime "sr" ["ss"; "m"; "mm"; "h"; "hh"; "dd"; "MM"; "yy"] sr_relativeTime].

(** ** Facts *)

Lemma mod_10_100 e : e mod 10 = (e mod 100) mod 10.
Proof.
  rewrite (N.div_mod e 100) at 1 by done. rewrite N.add_comm.
  replace (100 * (e / 100)) with (10 * (e / 100) * 10) by lia. apply N.Div0.mod_add.
Qed.

Lemma in_below m k : m < N.of_nat k → In (N.to_nat m) (seq 0 k).
Proof. intros H. apply in_seq. lia. Qed.
Lemma in_residues e k : k ≠ 0%nat → In (N.to_nat (e mod N.of_nat k)) (seq 0 k).
Proof. intros H. apply in_below, N.mod_lt. lia. Qed.

(** What [by_digits] gives depends on the last two digits and on whether there are hundreds. *)
Definition by_residue (t : list (N * string)) (m : N) (big : bool) : option string :=
  or_else (suffix_of t (m mod 10)) (or_else (suffix_of t (m - m mod 10))
    ((if big then Some 100 else None) ≫= suffix_of t)).

Lemma by_digits_residue t e : by_digits t e = by_residue t (e mod 100) (100 <=? e).
Proof. unfold by_digits, by_residue. by rewrite (mod_10_100 e). Qed.

(** With hundreds there is always a suffix; without, only 40 has none (and zero, which is
    treated apart). *)
Definition digits_table (t : list (N * string)) : bool :=
  forallb (λ m, bool_decide (is_Some (by_residue t (N.of_nat m) true)) &&
                bool_decide (by_residue t (N.of_nat m) false = None ↔ (N.of_nat m = 0 ∨ N.of_nat m = 40)))
    (seq 0 100).

Lemma digits_table_sound t e :
  digits_table t = true → e ≠ 0 → by_digits t e = None ↔ e = 40.
Proof.
  unfold digits_table. rewrite forallb_forall, by_digits_residue. intros H Hne.
  specialize (H _ (in_residues e 100 ltac:(done))). rewrite N2Nat.id in H. change (N.of_nat 100) with 100 in H. apply andb_true_iff in H as [H1 H2].
  apply bool_decide_eq_true in H1, H2. destruct (100 <=? e) eqn:He.
  - apply N.leb_le in He. split; [|lia]. intros Hn. rewrite Hn in H1. by destruct H1.
  - apply N.leb_gt in He. rewrite N.mod_small in * by done. rewrite H2. lia.
Qed.

Lemma append_None e s : append e s = None ↔ s = None.
Proof. by destruct s. Qed.

(** The Turkish, Azerbaijani and Turkmen tables of ordinal suffixes have no entry for 40: the
    ordinal is [undefined] for the number 40 (say, of a week or of a day of the year), and
    only there. *)
Theorem ordinal_of_forty_undefined (e : N) :
  (∀ n, js_in n ["d"; "D"; "Do"; "DD"] = false → tr_ordinal e n = None ↔ e = 40) ∧
  (az_ordinal e = None ↔ e = 40) ∧
  (∀ n, js_in n ["d"; "D"; "Do"; "DD"] = false → tk_ordinal e n = None ↔ e = 40).
Proof.
  assert (∀ t z, digits_table t = true →
    (if 0 === e then append e (Some z) else append e (by_digits t e)) = None ↔ e = 40) as H.
  { intros t z Ht. destruct (0 === e) eqn:He.
    - apply N.eqb_eq in He as <-. by split.
    - apply N.eqb_neq in He. rewrite append_None. by apply digits_table_sound. }
  unfold tr_ordinal, tk_ordinal.
  split; [|split]; [intros n ->|..|intros n ->]; apply H; vm_compute; reflexivity.
Qed.

Lemma suffix_of_digit t e :
  forallb (λ d, bool_decide (is_Some (suffix_of t (N.of_nat d)))) (seq 0 10) = true →
  is_Some (by_number t e).
Proof.
  rewrite forallb_forall. intros H. specialize (H _ (in_residues e 10 ltac:(done))). rewrite N2Nat.id in H. change (N.of_nat 10) with 10 in H. unfold by_number.
  destruct (suffix_of t e); [by eexists|]. simpl.
  destruct (bool_decide_eq_true_1 _ H) as [s ->]. by eexists.
Qed.

Lemma en_suffix_spec e :
  (en_suffix e = "st" ↔ e mod 10 = 1 ∧ e mod 100 ≠ 11) ∧
  (en_suffix e = "nd" ↔ e mod 10 = 2 ∧ e mod 100 ≠ 12) ∧
  (en_suffix e = "rd" ↔ e mod 10 = 3 ∧ e mod 100 ≠ 13).
Proof.
  unfold en_suffix. rewrite mod_10_100. pose proof (N.mod_lt e 100 ltac:(done)) as Hlt.
  generalize dependent (e mod 100). clear e. intros m Hm.
  cut (forallb (λ m, let e := N.of_nat m in let s := if 1 === e / 10 then "th" else if 1 === e mod 10 then "st"
    else if 2 === e mod 10 then "nd" else if 3 === e mod 10 then "rd" else "th" in
    bool_decide ((s = "st" ↔ e mod 10 = 1 ∧ e ≠ 11) ∧ (s = "nd" ↔ e mod 10 = 2 ∧ e ≠ 12) ∧
                 (s = "rd" ↔ e mod 10 = 3 ∧ e ≠ 13))) (seq 0 100) = true); [|vm_compute; reflexivity].
  rewrite forallb_forall. intros H. specialize (H _ (in_below m 100 Hm)). rewrite N2Nat.id in H.
  by apply bool_decide_eq_true in H.
Qed.

(** Ordinals are defined for every number in the Kazakh, Kyrgyz, Tajik and Welsh locales, and
    the English suffix is "st", "nd" or "rd" exactly for numbers that end in 1, 2 or 3 but not
    in 11, 12 or 13. *)
Theorem ordinals_defined (e : N) :
  is_Some (kk_ordinal e) ∧ is_Some (ky_ordinal e) ∧ is_Some (tg_ordinal e) ∧ is_Some (cy_ordinal e) ∧
  (en_suffix e = "st" ↔ e mod 10 = 1 ∧ e mod 100 ≠ 11) ∧
  (en_suffix e = "nd" ↔ e mod 10 = 2 ∧ e mod 100 ≠ 12) ∧
  (en_suffix e = "rd" ↔ e mod 10 = 3 ∧ e mod 100 ≠ 13).
Proof.
  unfold kk_ordinal, ky_ordinal, tg_ordinal, cy_ordinal, append. rewrite !fmap_is_Some.
  do 3 (split; [apply suffix_of_digit; vm_compute; reflexivity|]). split.
  { destruct (20 <? e) eqn:H20; [by eexists|]. destruct (0 <? e); [|by eexists].
    apply N.ltb_ge in H20. apply lookup_lt_is_Some. simpl. lia. }
  apply en_suffix_spec.
Qed.

(** A relative time is always defined: in the Belarusian, Russian, Ukrainian, Lithuanian,
    Latvian and Serbian locales, for every number from two on and for each of the keys for which
    the locale installs a function, that function finds a form of the word. *)
Theorem relative_time_defined (l : RelativeTime) (e : N) (without_suffix future : bool) (key : string)
    (Hl : l ∈ relative_times) (He : 2 ≤ e) (Hkey : key ∈ rt_keys l) :
  is_Some (rt_form l e without_suffix key future).
Proof.
  assert ((1 === e) = false) as H1 by (apply N.eqb_neq; lia).
  unfold relative_times in Hl.
  repeat (apply elem_of_cons in Hl as [->|Hl]); [..|by apply elem_of_nil in Hl]; simpl in Hkey;
    repeat (apply elem_of_cons in Hkey as [->|Hkey]); try (by apply elem_of_nil in Hkey);
    destruct without_suffix, future; simpl;
    unfold be_relativeTime, ru_relativeTime, uk_relativeTime, lt_relativeTime, lv_relativeTime, sr_relativeTime,
      lt_translate, lt_singular, correctGrammaticalCase, plural, lv_format; simpl; rewrite ?H1;
    repeat case_match; by eexists.
Qed.

Lemma relative_time_defined_witness :
  ru_relativeTime 21 true "dd" false = Some "21 день" ∧ is_Some (ru_relativeTime 21 true "dd" false).
Proof.
  split; [reflexivity|].
  apply (relative_time_defined (mkRelativeTime "ru" ["ss"; "m"; "mm"; "hh"; "dd"; "ww"; "MM"; "yy"] ru_relativeTime));
    [|lia|]; apply list_elem_of_In; simpl; tauto.
Defined.
