(* ===== verification/MomentRelative.v ===== *)
(** * Relative times of the web interface ([src/lagosta/js/app.js], the core of moment.js)

    [moment(x).fromNow()] turns the time between two moments, a duration, into a text such as
    "in 3 hours": [io] rounds the duration in every unit and takes the first unit in which it is
    small enough, the locale has a text or a function for the key of that unit, and [pastFuture]
    puts the words for past or future around it ([oo], the method [humanize]).  A text that is
    [undefined] in JavaScript, or a property of [undefined] that is read, is [None].

    Quotients are rational numbers: the numbers of the code are doubles, but the rounded results
    are the same as long as the duration has less than 2^52 milliseconds. *)

From stdpp Require Import base strings list pretty.
From Stdlib Require Import Ascii ZArith QArith Qround Lqa.
From S2P Require Import Prelude Text MomentLocales MomentNumerals.
Local Open Scope Z_scope.

(** ** Durations *)

Record Duration := mkDuration {
  du_isValid : bool;
  du_milliseconds : Z;
  du_days : Z;
  du_months : Z;
}.

Definition duration_abs (d : Duration) : Duration :=
  mkDuration (du_isValid d) (Z.abs (du_milliseconds d)) (Z.abs (du_days d)) (Z.abs (du_months d)).

(** The sign of the time: months as 30 days, years as 365 days. *)
Definition duration_valueOf (d : Duration) : Z :=
  du_milliseconds d + 86400000 * du_days d + Z.rem (du_months d) 12 * 2592000000
  + 31536000000 * Z.quot (du_months d) 12.

Definition math_round (q : Q) : Z := Qfloor (q + (1 # 2))%Q.

Definition daysToMonths (e : Q) : Q := ((4800 # 1) * e * (1 # 146097))%Q.
Definition monthsToDays (e : Q) : Q := ((146097 # 1) * e * (1 # 4800))%Q.

Inductive DurationUnit := Second | Minute | Hour | Day | Week | Month | Year.

(** [Aa], the method [as]. *)
Definition duration_as (d : Duration) (u : DurationUnit) : Q :=
  let i := inject_Z (du_milliseconds d) in
  let n := (inject_Z (du_months d) + daysToMonths (inject_Z (du_days d) + i * (1 # 86400000)))%Q in
  let t := inject_Z (du_days d + math_round (monthsToDays (inject_Z (du_months d)))) in
  match u with
  | Month => n
  | Year => n * (1 # 12)
  | Week => t * (1 # 7) + i * (1 # 604800000)
  | Day => t + i * (1 # 86400000)
  | Hour => (24 # 1) * t + i * (1 # 3600000)
  | Minute => (1440 # 1) * t + i * (1 # 60000)
  | Second => (86400 # 1) * t + i * (1 # 1000)
  end%Q.

(** ** The unit *)

Record Thresholds := mkThresholds {
  th_ss : Z; th_s : Z; th_m : Z; th_h : Z; th_d : Z;
  (** [null] if weeks are not used *)
  th_w : option Z;
  th_M : Z;
}.

Definition default_thresholds : Thresholds := mkThresholds 44 45 45 22 26 None 11.

(** The thresholds given to [humanize]; [None] for those that are not given. *)
Record GivenThresholds := mkGiven {
  gt_ss : option Z; gt_s : option Z; gt_m : option Z; gt_h : option Z; gt_d : option Z;
  gt_w : option (option Z);
  gt_M : option Z;
}.

Definition merge_thresholds (to : Thresholds) (t : GivenThresholds) : Thresholds :=
  mkThresholds
    (match gt_s t, gt_ss t with
     | Some s, None => s - 1
     | _, Some ss => ss
     | None, None => th_ss to
     end)
    (default (th_s to) (gt_s t)) (default (th_m to) (gt_m t)) (default (th_h to) (gt_h t))
    (default (th_d to) (gt_d t)) (default (th_w to) (gt_w t)) (default (th_M to) (gt_M t)).

(** The key and the number, if there is one. *)
Definition choose_unit (n : Thresholds) (a o s l u c d : Z) : string * option Z :=
  if a <=? th_ss n then ("s", Some a)
  else if a <? th_s n then ("ss", Some a)
  else if o <=? 1 then ("m", None)
  else if o <? th_m n then ("mm", Some o)
  else if s <=? 1 then ("h", None)
  else if s <? th_h n then ("hh", Some s)
  else if l <=? 1 then ("d", None)
  else if l <? th_d n then ("dd", Some l)
  else
    let months := if u <=? 1 then ("M", None)
                  else if u <? th_M n then ("MM", Some u)
                  else if d <=? 1 then ("y", None)
                  else ("yy", Some d) in
    match th_w n with
    | Some w => if c <=? 1 then ("w", None) else if c <? w then ("ww", Some c) else months
    | None => months
    end.

(** [t || 1]: zero and [undefined] count as one. *)
Definition or_one (t : option Z) : Z :=
  match t with Some t => if t =? 0 then 1 else t | None => 1 end.

Definition duration_unit (n : Thresholds) (e : Duration) : string * Z :=
  let r := duration_abs e in
  let '(key, t) :=
    choose_unit n (math_round (duration_as r Second)) (math_round (duration_as r Minute))
      (math_round (duration_as r Hour)) (math_round (duration_as r Day)) (math_round (duration_as r Month))
      (math_round (duration_as r Week)) (math_round (duration_as r Year)) in
  (key, or_one t).

(** ** Locales *)

(** A text with [%d] for the number, or a function of the number, whether the text stands
    without suffix, the key, and whether the time is in the future. *)
Inductive Entry :=
  | Text (t : string)
  | Form (f : N → bool → string → bool → option string).

(** A text with [%s] for the time, or a function. *)
Inductive Affix :=
  | Around (t : string)
  | Affixed (f : string → string).

Record Relative := mkRelative {
  rl_locale : string;
  rl_future : Affix;
  rl_past : Affix;
  rl_entries : list (string * Entry);
  rl_invalidDate : string;
  rl_numerals : option Numerals;
}.

Fixpoint entry_in (t : list (string * Entry)) (k : string) : option Entry :=
  match t with [] => None | (k', e) :: t => if String.eqb k' k then Some e else entry_in t k end.

(** The texts of the base, which are also the English ones. *)
Definition en_relative : Relative :=
  mkRelative "en" (Around "in %s") (Around "%s ago")
    [("s", Text "a few seconds"); ("ss", Text "%d seconds"); ("m", Text "a minute"); ("mm", Text "%d minutes");
     ("h", Text "an hour"); ("hh", Text "%d hours"); ("d", Text "a day"); ("dd", Text "%d days");
     ("w", Text "a week"); ("ww", Text "%d weeks"); ("M", Text "a month"); ("MM", Text "%d months");
     ("y", Text "a year"); ("yy", Text "%d years")]
    "Invalid date" None.

(** [defineLocale] merges the texts of a locale into those of the base ([vn], [P]). *)
Definition relative_entry (r : Relative) (k : string) : option Entry :=
  match entry_in (rl_entries r) k with
  | Some e => Some e
  | None => entry_in (rl_entries en_relative) k
  end.

(** [s.replace(/%c/i, v)]: the first mark.  No text that is put in has a dollar sign. *)
Fixpoint replace_mark (c : ascii) (s v : string) : string :=
  match s with
  | EmptyString => EmptyString
  | String a s' =>
      match s' with
      | String b s'' =>
          if Ascii.eqb a "%" && Ascii.eqb (lower_ascii b) c then v +:+ s''
          else String a (replace_mark c s' v)
      | EmptyString => s
      end
  end.

(** [te], the method [relativeTime]. *)
Definition relativeTime (r : Relative) (e : N) (t : bool) (n : string) (i : bool) : option string :=
  entry ← relative_entry r n;
  match entry with
  | Form f => f e t n i
  | Text s => Some (replace_mark "d" s (pretty e))
  end.

(** [ne], the method [pastFuture]. *)
Definition pastFuture (r : Relative) (e : Z) (t : string) : string :=
  match (if 0 <? e then rl_future r else rl_past r) with
  | Affixed f => f t
  | Around s => replace_mark "s" s t
  end.

(** A code point below 65536 as text. *)
Definition utf8 (c : N) : string :=
  (if c <? 128 then String (ascii_of_N c) ""
   else if c <? 2048 then String (ascii_of_N (192 + c / 64)) (String (ascii_of_N (128 + c mod 64)) "")
   else String (ascii_of_N (224 + c / 4096))
          (String (ascii_of_N (128 + (c / 64) mod 64)) (String (ascii_of_N (128 + c mod 64)) "")))%N.

(** [postformat] of a text: digits and commas are replaced. *)
Definition postformat_char (l : Numerals) (a : ascii) : string :=
  let c := N_of_ascii a in
  if (c <? 128)%N then foldr (λ x s, utf8 x +:+ s) "" (postformat l [c]) else String a "".
Fixpoint postformat_string (l : Numerals) (s : string) : string :=
  match s with EmptyString => EmptyString | String a s => postformat_char l a +:+ postformat_string l s end.
Definition relative_postformat (r : Relative) (s : string) : string :=
  match rl_numerals r with Some l => postformat_string l s | None => s end.

(** [io] and [no]. *)
Definition relative_duration (e : Duration) (t : bool) (n : Thresholds) (i : Relative) : option string :=
  let '(key, number) := duration_unit n e in
  relativeTime i (Z.to_N number) t key (0 <? duration_valueOf e).

(** [oo], the method [humanize]. *)
Definition humanize (n : Relative) (d : Duration) (r : bool) (t : option GivenThresholds) : option string :=
  if negb (du_isValid d) then Some (rl_invalidDate n)
  else
    let a := match t with Some t => merge_thresholds default_thresholds t | None => default_thresholds end in
    i ← relative_duration d (negb r) a n;
    let i := if r then pastFuture n (duration_valueOf d) i else i in
    Some (relative_postformat n i).

Example humanize_samples :
  (humanize en_relative (mkDuration true 0 0 0) true None,
   humanize en_relative (mkDuration true (-89999) 0 0) true None,
   humanize en_relative (mkDuration true 90000 0 0) true None,
   humanize en_relative (mkDuration true 0 0 17) false None,
   humanize en_relative (mkDuration true 0 20 0) true (Some (mkGiven None None None None (Some 7) (Some (Some 4)) None)))
  = (Some "a few seconds ago", Some "a minute ago", Some "in 2 minutes", Some "a year", Some "in 3 weeks").
Proof. vm_compute. reflexivity. Qed.

(** ** The unit is the right one *)

(** [q] rounds to [n]. *)
Definition nearest (n : Z) (q : Q) : Prop := (inject_Z n - (1 # 2) <= q < inject_Z n + (1 # 2))%Q.

(** The key and number that stand for a time with the default thresholds. *)
Inductive Stands (d : Duration) : string → Z → Prop :=
  | stands_few n : nearest n (duration_as d Second) → 0 ≤ n ≤ 44 → Stands d "s" (Z.max 1 n)
  | stands_minute : (89 # 2 <= duration_as d Second)%Q → (duration_as d Minute < 3 # 2)%Q → Stands d "m" 1
  | stands_minutes n : nearest n (duration_as d Minute) → 2 ≤ n < 45 → Stands d "mm" n
  | stands_hour : (89 # 2 <= duration_as d Minute)%Q → (duration_as d Hour < 3 # 2)%Q → Stands d "h" 1
  | stands_hours n : nearest n (duration_as d Hour) → 2 ≤ n < 22 → Stands d "hh" n
  | stands_day : (43 # 2 <= duration_as d Hour)%Q → (duration_as d Day < 3 # 2)%Q → Stands d "d" 1
  | stands_days n : nearest n (duration_as d Day) → 2 ≤ n < 26 → Stands d "dd" n
  | stands_month : (51 # 2 <= duration_as d Day)%Q → (duration_as d Month < 3 # 2)%Q → Stands d "M" 1
  | stands_months n : nearest n (duration_as d Month) → 2 ≤ n < 11 → Stands d "MM" n
  | stands_year : (21 # 2 <= duration_as d Month)%Q → (duration_as d Year < 3 # 2)%Q → Stands d "y" 1
  | stands_years n : nearest n (duration_as d Year) → 2 ≤ n → Stands d "yy" n.

Lemma math_round_nearest q : nearest (math_round q) q.
Proof.
  unfold nearest, math_round. pose proof (Qfloor_le (q + (1 # 2))). pose proof (Qlt_floor (q + (1 # 2))) as H'.
  rewrite inject_Z_plus in H'. change (inject_Z 1) with 1%Q in H'.
  split; lra.
Qed.

Lemma nearest_lower n q k : nearest n q → k ≤ n → (inject_Z k - (1 # 2) <= q)%Q.
Proof. intros [H _] Hk. rewrite Zle_Qle in Hk. lra. Qed.
Lemma nearest_upper n q k : nearest n q → n ≤ k → (q < inject_Z k + (1 # 2))%Q.
Proof. intros [_ H] Hk. rewrite Zle_Qle in Hk. lra. Qed.

Lemma math_round_nonneg q : (0 <= q)%Q → 0 ≤ math_round q.
Proof. intros H. change 0 with (Qfloor 0) at 1. apply Qfloor_resp_le. lra. Qed.

Lemma abs_seconds_nonneg d : (0 <= duration_as (duration_abs d) Second)%Q.
Proof.
  unfold duration_as, duration_abs. simpl.
  assert (0 <= inject_Z (Z.abs (du_milliseconds d)))%Q by (rewrite <-(Zle_Qle 0); lia).
  assert (0 <= inject_Z (Z.abs (du_months d)))%Q as Hm by (rewrite <-(Zle_Qle 0); lia).
  assert (0 <= inject_Z (Z.abs (du_days d) + math_round (monthsToDays (inject_Z (Z.abs (du_months d))))))%Q.
  { assert (0 ≤ math_round (monthsToDays (inject_Z (Z.abs (du_months d))))).
    { apply math_round_nonneg. unfold monthsToDays. lra. }
    rewrite <-(Zle_Qle 0). lia. }
  lra.
Qed.

(** A value that rounds to at least (at most) a number of the code. *)
Ltac by_nearest :=
  match goal with
  | H : nearest ?n ?q |- (_ <= ?q)%Q =>
      match goal with G : ?k ≤ n |- _ => pose proof (nearest_lower n q k H G); unfold inject_Z in *; lra end
  | H : nearest ?n ?q |- (?q < _)%Q =>
      match goal with G : n ≤ ?k |- _ => pose proof (nearest_upper n q k H G); unfold inject_Z in *; lra end
  end.

Lemma choose_unit_stands r a o s l u c d key t :
  nearest a (duration_as r Second) → nearest o (duration_as r Minute) → nearest s (duration_as r Hour) →
  nearest l (duration_as r Day) → nearest u (duration_as r Month) → nearest d (duration_as r Year) → 0 ≤ a →
  choose_unit default_thresholds a o s l u c d = (key, t) → Stands r key (or_one t).
Proof.
  intros Ha Ho Hs Hl Hu Hd H0. unfold choose_unit, default_thresholds, th_ss, th_s, th_m, th_h, th_d, th_w, th_M.
  destruct (Z.leb_spec a 44).
  { intros [= <- <-]. replace (or_one (Some a)) with (Z.max 1 a); [by constructor|].
    unfold or_one. destruct (Z.eqb_spec a 0); lia. }
  destruct (Z.ltb_spec a 45); [lia|].
  assert (∀ n k, 2 ≤ n → Stands r k n → Stands r k (or_one (Some n))) as Hone.
  { intros n k Hn. unfold or_one. by destruct (Z.eqb_spec n 0); [lia|]. }
  destruct (Z.leb_spec o 1); [intros [= <- <-]; constructor; by_nearest|].
  destruct (Z.ltb_spec o 45); [intros [= <- <-]; apply Hone; [lia|]; constructor; [done|lia]|].
  destruct (Z.leb_spec s 1); [intros [= <- <-]; constructor; by_nearest|].
  destruct (Z.ltb_spec s 22); [intros [= <- <-]; apply Hone; [lia|]; constructor; [done|lia]|].
  destruct (Z.leb_spec l 1); [intros [= <- <-]; constructor; by_nearest|].
  destruct (Z.ltb_spec l 26); [intros [= <- <-]; apply Hone; [lia|]; constructor; [done|lia]|].
  destruct (Z.leb_spec u 1); [intros [= <- <-]; constructor; by_nearest|].
  destruct (Z.ltb_spec u 11); [intros [= <- <-]; apply Hone; [lia|]; constructor; [done|lia]|].
  destruct (Z.leb_spec d 1); [intros [= <- <-]; constructor; by_nearest|].
  intros [= <- <-]; apply Hone; [lia|]; constructor; [done|lia].
Qed.

(** With the default thresholds the unit and the number stand for the time. *)
Lemma duration_unit_stands d key n :
  duration_unit default_thresholds d = (key, n) → Stands (duration_abs d) key n.
Proof.
  unfold duration_unit. destruct (choose_unit _ _ _ _ _ _ _ _) as [k t] eqn:Hc. intros [= <- <-].
  eapply choose_unit_stands, Hc; eauto using math_round_nearest, math_round_nonneg, abs_seconds_nonneg.
Qed.

(** The keys and numbers that can stand for a time. *)
Lemma stands_keys d key n :
  Stands d key n →
  1 ≤ n ∧ (key ∈ ["s"; "m"; "h"; "d"; "M"; "y"] ∨ key ∈ ["mm"; "hh"; "dd"; "MM"; "yy"] ∧ 2 ≤ n).
Proof. rewrite !elem_of_cons. destruct 1; (split; [lia|]); first [left; tauto|right; split; [tauto|lia]]. Qed.
