(* ===== verification/MomentForms.v ===== *)
(** * Relative times by functions in the locales of the web interface ([src/lagosta/js/app.js], moment.js)

    The locales in which a text of a relative time depends on more than the number: a function
    of the number, whether the text stands without suffix, the key, and whether the time is in
    the future; or, for past and future, a function of the text.  Regular expressions are
    read on texts in UTF-8; where they ignore case, the texts of the locale have no capitals. *)

From stdpp Require Import base strings list pretty.
From Stdlib Require Import Ascii.
From S2P Require Import Prelude Text JsNumber MomentLocales MomentNumerals MomentOrdinals MomentRelative.
Local Open Scope N_scope.
Local Open Scope js_scope.

(** [switch (key)]: the case of the key. *)
Fixpoint switch (key : string) (cases : list (string * string)) : option string :=
  match cases with [] => None | (k, v) :: cases => if k === key then Some v else switch key cases end.

(** [r[n][i]] in a table of forms. *)
Definition form_at (t : list (string * list string)) (n : string) (i : nat) : option string :=
  words_of t n ≫= λ w, w !! i.

Definition num_word (e : N) (w : string) : string := pretty e +:+ w.

(** *** Icelandic *)

Definition is_plural (e : N) : bool := (e mod 100 === 11) || (negb (e mod 10 === 1)).
Definition is_relativeTime (e : N) (without : bool) (key : string) (future : bool) : option string :=
  let num := pretty e +:+ " " in
  switch key
    [("s", if without || future then "nokkrar sekúndur" else "nokkrum sekúndum");
     ("ss", if is_plural e then num +:+ (if without || future then "sekúndur" else "sekúndum") else num +:+
     "sekúnda");
     ("m", if without then "mínúta" else "mínútu");
     ("mm", if is_plural e then num +:+ (if without || future then "mínútur" else "mínútum") else if without then
     num +:+ "mínúta" else num +:+ "mínútu");
     ("hh", if is_plural e then num +:+ (if without || future then "klukkustundir" else "klukkustundum") else num
     +:+ "klukkustund");
     ("d", if without then "dagur" else if future then "dag" else "degi");
     ("dd", if is_plural e then if without then num +:+ "dagar" else num +:+ (if future then "daga" else "dögum")
     else if without then num +:+ "dagur" else num +:+ (if future then "dag" else "degi"));
     ("M", if without then "mánuður" else if future then "mánuð" else "mánuði");
     ("MM", if is_plural e then if without then num +:+ "mánuðir" else num +:+ (if future then "mánuði" else
     "mánuðum") else if without then num +:+ "mánuður" else num +:+ (if future then "mánuð" else "mánuði"));
     ("y", if without || future then "ár" else "ári");
     ("yy", if is_plural e then num +:+ (if without || future then "ár" else "árum") else num +:+ (if without ||
     future then "ár" else "ári"))].

(** *** Bosnian, Croatian *)

Definition bs_relativeTime (e : N) (without : bool) (key : string) (future : bool) : option string :=
  let num := pretty e +:+ " " in
  switch key
    [("ss", num +:+ (if 1 === e then "sekunda" else if ((2 === e) || (3 === e)) || (4 === e) then "sekunde" else
     "sekundi"));
     ("m", if without then "jedna minuta" else "jedne minute");
     ("mm", num +:+ (if 1 === e then "minuta" else if ((2 === e) || (3 === e)) || (4 === e) then "minute" else
     "minuta"));
     ("h", if without then "jedan sat" else "jednog sata");
     ("hh", num +:+ (if 1 === e then "sat" else if ((2 === e) || (3 === e)) || (4 === e) then "sata" else "sati"));
     ("dd", num +:+ (if 1 === e then "dan" else "dana"));
     ("MM", num +:+ (if 1 === e then "mjesec" else if ((2 === e) || (3 === e)) || (4 === e) then "mjeseca" else
     "mjeseci"));
     ("yy", num +:+ (if 1 === e then "godina" else if ((2 === e) || (3 === e)) || (4 === e) then "godine" else
     "godina"))].
Definition hr_relativeTime (e : N) (without : bool) (key : string) (future : bool) : option string :=
  let num := pretty e +:+ " " in
  switch key
    [("ss", num +:+ (if 1 === e then "sekunda" else if ((2 === e) || (3 === e)) || (4 === e) then "sekunde" else
     "sekundi"));
     ("m", if without then "jedna minuta" else "jedne minute");
     ("mm", num +:+ (if 1 === e then "minuta" else if ((2 === e) || (3 === e)) || (4 === e) then "minute" else
     "minuta"));
     ("h", if without then "jedan sat" else "jednog sata");
     ("hh", num +:+ (if 1 === e then "sat" else if ((2 === e) || (3 === e)) || (4 === e) then "sata" else "sati"));
     ("dd", num +:+ (if 1 === e then "dan" else "dana"));
     ("MM", num +:+ (if 1 === e then "mjesec" else if ((2 === e) || (3 === e)) || (4 === e) then "mjeseca" else
     "mjeseci"));
     ("yy", num +:+ (if 1 === e then "godina" else if ((2 === e) || (3 === e)) || (4 === e) then "godine" else
     "godina"))].

(** *** Czech, Slovak, Slovenian, Polish *)

Definition cs_plural (e : N) : bool := ((1 <? e) && (e <? 5)) && (negb (1 === e / 10)).
Definition cs_relativeTime (e : N) (without : bool) (key : string) (future : bool) : option string :=
  let num := pretty e +:+ " " in
  switch key
    [("s", if without || future then "pár sekund" else "pár sekundami");
     ("ss", if without || future then num +:+ (if cs_plural e then "sekundy" else "sekund") else num +:+
     "sekundami");
     ("m", if without then "minuta" else if future then "minutu" else "minutou");
     ("mm", if without || future then num +:+ (if cs_plural e then "minuty" else "minut") else num +:+ "minutami");
     ("h", if without then "hodina" else if future then "hodinu" else "hodinou");
     ("hh", if without || future then num +:+ (if cs_plural e then "hodiny" else "hodin") else num +:+ "hodinami");
     ("d", if without || future then "den" else "dnem");
     ("dd", if without || future then num +:+ (if cs_plural e then "dny" else "dní") else num +:+ "dny");
     ("M", if without || future then "měsíc" else "měsícem");
     ("MM", if without || future then num +:+ (if cs_plural e then "měsíce" else "měsíců") else num +:+ "měsíci");
     ("y", if without || future then "rok" else "rokem");
     ("yy", if without || future then num +:+ (if cs_plural e then "roky" else "let") else num +:+ "lety")].
Definition sk_plural (e : N) : bool := (1 <? e) && (e <? 5).
Definition sk_relativeTime (e : N) (without : bool) (key : string) (future : bool) : option string :=
  let num := pretty e +:+ " " in
  switch key
    [("s", if without || future then "pár sekúnd" else "pár sekundami");
     ("ss", if without || future then num +:+ (if sk_plural e then "sekundy" else "sekúnd") else num +:+
     "sekundami");
     ("m", if without then "minúta" else if future then "minútu" else "minútou");
     ("mm", if without || future then num +:+ (if sk_plural e then "minúty" else "minút") else num +:+ "minútami");
     ("h", if without then "hodina" else if future then "hodinu" else "hodinou");
     ("hh", if without || future then num +:+ (if sk_plural e then "hodiny" else "hodín") else num +:+ "hodinami");
     ("d", if without || future then "deň" else "dňom");
     ("dd", if without || future then num +:+ (if sk_plural e then "dni" else "dní") else num +:+ "dňami");
     ("M", if without || future then "mesiac" else "mesiacom");
     ("MM", if without || future then num +:+ (if sk_plural e then "mesiace" else "mesiacov") else num +:+
     "mesiacmi");
     ("y", if without || future then "rok" else "rokom");
     ("yy", if without || future then num +:+ (if sk_plural e then "roky" else "rokov") else num +:+ "rokmi")].
Definition sl_relativeTime (e : N) (without : bool) (key : string) (future : bool) : option string :=
  let num := pretty e +:+ " " in
  switch key
    [("s", if without || future then "nekaj sekund" else "nekaj sekundami");
     ("ss", num +:+ (if 1 === e then if without then "sekundo" else "sekundi" else if 2 === e then if without ||
     future then "sekundi" else "sekundah" else if e <? 5 then if without || future then "sekunde" else "sekundah"
     else "sekund"));
     ("m", if without then "ena minuta" else "eno minuto");
     ("mm", num +:+ (if 1 === e then if without then "minuta" else "minuto" else if 2 === e then if without ||
     future then "minuti" else "minutama" else if e <? 5 then if without || future then "minute" else "minutami"
     else if without || future then "minut" else "minutami"));
     ("h", if without then "ena ura" else "eno uro");
     ("hh", num +:+ (if 1 === e then if without then "ura" else "uro" else if 2 === e then if without || future
     then "uri" else "urama" else if e <? 5 then if without || future then "ure" else "urami" else if without ||
     future then "ur" else "urami"));
     ("d", if without || future then "en dan" else "enim dnem");
     ("dd", num +:+ (if 1 === e then if without || future then "dan" else "dnem" else if 2 === e then if without ||
     future then "dni" else "dnevoma" else if without || future then "dni" else "dnevi"));
     ("M", if without || future then "en mesec" else "enim mesecem");
     ("MM", num +:+ (if 1 === e then if without || future then "mesec" else "mesecem" else if 2 === e then if
     without || future then "meseca" else "mesecema" else if e <? 5 then if without || future then "mesece" else
     "meseci" else if without || future then "mesecev" else "meseci"));
     ("y", if without || future then "eno leto" else "enim letom");
     ("yy", num +:+ (if 1 === e then if without || future then "leto" else "letom" else if 2 === e then if without
     || future then "leti" else "letoma" else if e <? 5 then if without || future then "leta" else "leti" else if
     without || future then "let" else "leti"))].
Definition pl_plural (e : N) : bool := ((e mod 10 <? 5) && (1 <? e mod 10)) && (negb ((e / 10) mod 10 === 1)).
Definition pl_relativeTime (e : N) (without : bool) (key : string) (future : bool) : option string :=
  let num := pretty e +:+ " " in
  switch key
    [("ss", num +:+ (if pl_plural e then "sekundy" else "sekund"));
     ("m", if without then "minuta" else "minutę");
     ("mm", num +:+ (if pl_plural e then "minuty" else "minut"));
     ("h", if without then "godzina" else "godzinę");
     ("hh", num +:+ (if pl_plural e then "godziny" else "godzin"));
     ("ww", num +:+ (if pl_plural e then "tygodnie" else "tygodni"));
     ("MM", num +:+ (if pl_plural e then "miesiące" else "miesięcy"));
     ("yy", num +:+ (if pl_plural e then "lata" else "lat"))].

(** *** Serbian in Cyrillic, Montenegrin *)

Definition sr_cyrl_words : list (string * list string) :=
  [("ss", ["секунда"; "секунде"; "секунди"]); ("m", ["један минут"; "једне минуте"]);
   ("mm", ["минут"; "минуте"; "минута"]); ("h", ["један сат"; "једног сата"]); ("hh", ["сат"; "сата"; "сати"]);
   ("dd", ["дан"; "дана"; "дана"]); ("MM", ["месец"; "месеца"; "месеци"]); ("yy", ["година"; "године"; "година"])].
Definition me_words : list (string * list string) :=
  [("ss", ["sekund"; "sekunda"; "sekundi"]); ("m", ["jedan minut"; "jednog minuta"]);
   ("mm", ["minut"; "minuta"; "minuta"]); ("h", ["jedan sat"; "jednog sata"]); ("hh", ["sat"; "sata"; "sati"]);
   ("dd", ["dan"; "dana"; "dana"]); ("MM", ["mjesec"; "mjeseca"; "mjeseci"]); ("yy", ["godina"; "godine"; "godina"])].
Definition translate (words : list (string * list string)) (e : N) (n : bool) (i : string) (future : bool)
    : option string :=
  words_of words i ≫= λ r,
  if (String.length i =? 1)%nat then (if n then r !! 0%nat else r !! 1%nat)
  else with_number e (correctGrammaticalCase e r).
Definition sr_cyrl_relativeTime : N → bool → string → bool → option string := translate sr_cyrl_words.
Definition me_relativeTime : N → bool → string → bool → option string := translate me_words.

(** *** German, in Germany, Austria and Switzerland *)

Definition de_forms (e : N) : list (string * list string) :=
  [("m", ["eine Minute"; "einer Minute"]); ("h", ["eine Stunde"; "einer Stunde"]); ("d", ["ein Tag"; "einem Tag"]);
   ("dd", [num_word e " Tage"; num_word e " Tagen"]); ("w", ["eine Woche"; "einer Woche"]);
   ("M", ["ein Monat"; "einem Monat"]); ("MM", [num_word e " Monate"; num_word e " Monaten"]);
   ("y", ["ein Jahr"; "einem Jahr"]); ("yy", [num_word e " Jahre"; num_word e " Jahren"])].
Definition de_relativeTime (e : N) (t : bool) (n : string) (i : bool) : option string :=
  if t then form_at (de_forms e) n 0 else form_at (de_forms e) n 1.
Definition de_at_relativeTime : N → bool → string → bool → option string := de_relativeTime.
Definition de_ch_relativeTime : N → bool → string → bool → option string := de_relativeTime.

(** *** Estonian *)

Definition et_forms (e : N) : list (string * list string) :=
  [("s", ["mõne sekundi"; "mõni sekund"; "paar sekundit"]); ("ss", [num_word e "sekundi"; num_word e "sekundit"]);
   ("m", ["ühe minuti"; "üks minut"]); ("mm", [num_word e " minuti"; num_word e " minutit"]);
   ("h", ["ühe tunni"; "tund aega"; "üks tund"]); ("hh", [num_word e " tunni"; num_word e " tundi"]);
   ("d", ["ühe päeva"; "üks päev"]); ("M", ["kuu aja"; "kuu aega"; "üks kuu"]);
   ("MM", [num_word e " kuu"; num_word e " kuud"]); ("y", ["ühe aasta"; "aasta"; "üks aasta"]);
   ("yy", [num_word e " aasta"; num_word e " aastat"])].
Definition et_relativeTime (e : N) (t : bool) (n : string) (i : bool) : option string :=
  if t then or_else (form_at (et_forms e) n 2) (form_at (et_forms e) n 1)
  else if i then form_at (et_forms e) n 0 else form_at (et_forms e) n 1.

(** *** Romanian *)

Definition ro_words : list (string * string) :=
  [("ss", "secunde"); ("mm", "minute"); ("hh", "ore"); ("dd", "zile"); ("ww", "săptămâni"); ("MM", "luni"); ("yy", "ani")].
Definition ro_relativeTime (e : N) (t : bool) (n : string) (future : bool) : option string :=
  let r := if (20 <=? e mod 100) || (100 <=? e) && (e mod 100 === 0) then " de " else " " in
  (λ w, pretty e +:+ r +:+ w) <$> switch n ro_words.

(** *** Finnish *)

Definition fi_numbers : list string :=
  ["nolla"; "yksi"; "kaksi"; "kolme"; "neljä"; "viisi"; "kuusi"; "seitsemän"; "kahdeksan"; "yhdeksän"].
Definition fi_numbers_future : list string :=
  ["nolla"; "yhden"; "kahden"; "kolmen"; "neljän"; "viiden"; "kuuden"; "seitsemän"; "kahdeksan"; "yhdeksän"].
Definition fi_verbalNumber (e : N) (i : bool) : option string :=
  if e <? 10 then (if i then fi_numbers_future !! N.to_nat e else fi_numbers !! N.to_nat e) else Some (pretty e).
Definition fi_relativeTime (e : N) (t : bool) (n : string) (i : bool) : option string :=
  match switch n [("s", if i then "muutaman sekunnin" else "muutama sekunti"); ("m", if i then "minuutin" else "minuutti");
                  ("h", if i then "tunnin" else "tunti"); ("d", if i then "päivän" else "päivä");
                  ("M", if i then "kuukauden" else "kuukausi"); ("y", if i then "vuoden" else "vuosi")] with
  | Some s => Some s
  | None =>
      let a := default "" (switch n
        [("ss", if i then "sekunnin" else "sekuntia"); ("mm", if i then "minuutin" else "minuuttia");
         ("hh", if i then "tunnin" else "tuntia"); ("dd", if i then "päivän" else "päivää");
         ("MM", if i then "kuukauden" else "kuukautta"); ("yy", if i then "vuoden" else "vuotta")]) in
      (λ v, v +:+ " " +:+ a) <$> fi_verbalNumber e i
  end.

(** *** Klingon *)

Definition tlh_numbers : list string :=
  ["pagh"; "wa’"; "cha’"; "wej"; "loS"; "vagh"; "jav"; "Soch"; "chorgh"; "Hut"].
Definition tlh_numberAsNoun (e : N) : option string :=
  let n := e mod 1000 / 100 in
  let i := e mod 100 / 10 in
  let r := e mod 10 in
  let space (a : string) := if a === "" then "" else " " in
  a ← (if 0 <? n then (λ w, w +:+ "vatlh") <$> tlh_numbers !! N.to_nat n else Some "");
  a ← (if 0 <? i then (λ w, a +:+ space a +:+ w +:+ "maH") <$> tlh_numbers !! N.to_nat i else Some a);
  a ← (if 0 <? r then (λ w, a +:+ space a +:+ w) <$> tlh_numbers !! N.to_nat r else Some a);
  Some (if a === "" then "pagh" else a).
Definition tlh_translate (e : N) (t : bool) (n : string) (i : bool) : option string :=
  r ← tlh_numberAsNoun e;
  (λ w, r +:+ w) <$> switch n [("ss", " lup"); ("mm", " tup"); ("hh", " rep"); ("dd", " jaj"); ("MM", " jar"); ("yy", " DIS")].

(** [e.slice(0, -3)], of a text that ends in three characters of ASCII. *)
Definition slice_3 (e : string) : string := String.substring 0 (String.length e - 3) e.
Definition tlh_future (e : string) : string :=
  if contains e "jaj" then slice_3 e +:+ "leS"
  else if contains e "jar" then slice_3 e +:+ "waQ"
  else if contains e "DIS" then slice_3 e +:+ "nem"
  else e +:+ " pIq".
Definition tlh_past (e : string) : string :=
  if contains e "jaj" then slice_3 e +:+ "Hu’"
  else if contains e "jar" then slice_3 e +:+ "wen"
  else if contains e "DIS" then slice_3 e +:+ "ben"
  else e +:+ " ret".

(** *** Luxembourgish *)

Definition lb_forms : list (string * list string) :=
  [("m", ["eng Minutt"; "enger Minutt"]); ("h", ["eng Stonn"; "enger Stonn"]); ("d", ["een Dag"; "engem Dag"]);
   ("M", ["ee Mount"; "engem Mount"]); ("y", ["ee Joer"; "engem Joer"])].
Definition lb_relativeTime (e : N) (t : bool) (n : string) (i : bool) : option string :=
  if t then form_at lb_forms n 0 else form_at lb_forms n 1.

(** [while (e >= 10) e /= 10] on a number below 10000; the rest after the point is dropped when
    the number is read again. *)
Fixpoint lb_leading (fuel : nat) (e : N) : N :=
  match fuel with O => e | S fuel => if 10 <=? e then lb_leading fuel (e / 10) else e end.

(** Whether the final n is dropped before a number (the Eifel rule): the number as it is
    spoken starts with 4, 5, 6 or 7. *)
Fixpoint lb_eifelerRegelAppliesToNumber (fuel : nat) (e : N) : option bool :=
  match fuel with
  | O => None
  | S fuel =>
      if e <? 10 then Some ((4 <=? e) && (e <=? 7))
      else if e <? 100 then
        let t := e mod 10 in
        lb_eifelerRegelAppliesToNumber fuel (if 0 === t then e / 10 else t)
      else if e <? 10000 then lb_eifelerRegelAppliesToNumber fuel (lb_leading 4 e)
      else lb_eifelerRegelAppliesToNumber fuel (e / 1000)
  end.
Definition lb_fuel (e : N) : nat := S (S (N.to_nat (N.log2 e))).

(** The rule for the text before the first space: no number, no rule; a negative number, the rule. *)
Definition lb_eifel (t : string) : option bool :=
  let '(neg, s) := take_sign (trim_start t) in
  match digits_run 10 0 s with
  | (_, O, _) => Some false
  | (v, _, _) => if neg && (0 <? v) then Some true else lb_eifelerRegelAppliesToNumber (lb_fuel v) v
  end.
(** [e.substr(0, e.indexOf(" "))], empty if there is no space. *)
Definition before_space (e : string) : string :=
  match String.index 0 " " e with Some i => String.substring 0 i e | None => "" end.
Definition lb_future (e : string) : string :=
  if default false (lb_eifel (before_space e)) then "a " +:+ e else "an " +:+ e.
Definition lb_past (e : string) : string :=
  if default false (lb_eifel (before_space e)) then "viru " +:+ e else "virun " +:+ e.

(** *** Hebrew *)

Definition he_relativeTime (e : N) (t : bool) (n : string) (i : bool) : option string :=
  switch n
    [("hh", if 2 === e then "שעתיים" else num_word e " שעות"); ("dd", if 2 === e then "יומיים" else num_word e " ימים");
     ("MM", if 2 === e then "חודשיים" else num_word e " חודשים");
     ("yy", if 2 === e then "שנתיים"
            else if (e mod 10 === 0) && negb (10 === e) then num_word e " שנה" else num_word e " שנים")].

(** *** Lithuanian and Latvian: a few seconds *)

Definition lt_seconds (e : N) (t : bool) (n : string) (i : bool) : option string :=
  Some (if t then "kelios sekundės" else if i then "kelių sekundžių" else "kelias sekundes").
Definition lv_seconds (e : N) (t : bool) (n : string) (i : bool) : option string :=
  Some (if t then "dažas sekundes" else "dažām sekundēm").

(** *** Konkani, Talossan *)

Definition gom_latn_forms (e : N) : list (string * list string) :=
  [("s", ["thoddea sekondamni"; "thodde sekond"]); ("ss", [num_word e " sekondamni"; num_word e " sekond"]);
   ("m", ["eka mintan"; "ek minut"]); ("mm", [num_word e " mintamni"; num_word e " mintam"]);
   ("h", ["eka voran"; "ek vor"]); ("hh", [num_word e " voramni"; num_word e " voram"]);
   ("d", ["eka disan"; "ek dis"]); ("dd", [num_word e " disamni"; num_word e " dis"]);
   ("M", ["eka mhoinean"; "ek mhoino"]); ("MM", [num_word e " mhoineamni"; num_word e " mhoine"]);
   ("y", ["eka vorsan"; "ek voros"]); ("yy", [num_word e " vorsamni"; num_word e " vorsam"])].
Definition gom_latn_relativeTime (e : N) (t : bool) (n : string) (i : bool) : option string :=
  if i then form_at (gom_latn_forms e) n 0 else form_at (gom_latn_forms e) n 1.

Definition gom_deva_forms (e : N) : list (string * list string) :=
  [("s", ["थोडया सॅकंडांनी"; "थोडे सॅकंड"]); ("ss", [num_word e " सॅकंडांनी"; num_word e " सॅकंड"]);
   ("m", ["एका मिणटान"; "एक मिनूट"]); ("mm", [num_word e " मिणटांनी"; num_word e " मिणटां"]);
   ("h", ["एका वरान"; "एक वर"]); ("hh", [num_word e " वरांनी"; num_word e " वरां"]);
   ("d", ["एका दिसान"; "एक दीस"]); ("dd", [num_word e " दिसांनी"; num_word e " दीस"]);
   ("M", ["एका म्हयन्यान"; "एक म्हयनो"]); ("MM", [num_word e " म्हयन्यानी"; num_word e " म्हयने"]);
   ("y", ["एका वर्सान"; "एक वर्स"]); ("yy", [num_word e " वर्सांनी"; num_word e " वर्सां"])].
Definition gom_deva_relativeTime (e : N) (t : bool) (n : string) (i : bool) : option string :=
  if i then form_at (gom_deva_forms e) n 0 else form_at (gom_deva_forms e) n 1.

Definition tzl_forms (e : N) : list (string * list string) :=
  [("s", ["viensas secunds"; "'iensas secunds"]); ("ss", [num_word e " secunds"; num_word e " secunds"]);
   ("m", ["'n míut"; "'iens míut"]); ("mm", [num_word e " míuts"; num_word e " míuts"]);
   ("h", ["'n þora"; "'iensa þora"]); ("hh", [num_word e " þoras"; num_word e " þoras"]);
   ("d", ["'n ziua"; "'iensa ziua"]); ("dd", [num_word e " ziuas"; num_word e " ziuas"]);
   ("M", ["'n mes"; "'iens mes"]); ("MM", [num_word e " mesen"; num_word e " mesen"]);
   ("y", ["'n ar"; "'iens ar"]); ("yy", [num_word e " ars"; num_word e " ars"])].
Definition tzl_relativeTime (e : N) (t : bool) (n : string) (i : bool) : option string :=
  if i || t then form_at (tzl_forms e) n 0 else form_at (tzl_forms e) n 1.

(** *** Arabic, in general and in Libya and Algeria *)

Definition ar_pluralForm (e : N) : nat :=
  if 0 === e then 0%nat else if 1 === e then 1%nat else if 2 === e then 2%nat
  else if (3 <=? e mod 100) && (e mod 100 <=? 10) then 3%nat
  else if 11 <=? e mod 100 then 4%nat else 5%nat.

(** The six forms; the third, the dual, is one of two. *)
Definition ar_plurals (dual : nat) : list (string * list string) :=
  let two (a b : string) := match dual with O => a | _ => b end in
  [("s", ["أقل من ثانية"; "ثانية واحدة"; two "ثانيتان" "ثانيتين"; "%d ثوان"; "%d ثانية"; "%d ثانية"]);
   ("m", ["أقل من دقيقة"; "دقيقة واحدة"; two "دقيقتان" "دقيقتين"; "%d دقائق"; "%d دقيقة"; "%d دقيقة"]);
   ("h", ["أقل من ساعة"; "ساعة واحدة"; two "ساعتان" "ساعتين"; "%d ساعات"; "%d ساعة"; "%d ساعة"]);
   ("d", ["أقل من يوم"; "يوم واحد"; two "يومان" "يومين"; "%d أيام"; "%d يومًا"; "%d يوم"]);
   ("M", ["أقل من شهر"; "شهر واحد"; two "شهران" "شهرين"; "%d أشهر"; "%d شهرا"; "%d شهر"]);
   ("y", ["أقل من عام"; "عام واحد"; two "عامان" "عامين"; "%d أعوام"; "%d عامًا"; "%d عام"])].
Definition ar_pluralize (u : string) (t : N) (r : bool) (a : string) (o : bool) : option string :=
  (λ l, replace_mark "d" l (pretty t)) <$> form_at (ar_plurals (if r then 0 else 1)) u (ar_pluralForm t).
Definition ar_ly_pluralize : string → N → bool → string → bool → option string := ar_pluralize.
Definition ar_dz_pluralize : string → N → bool → string → bool → option string := ar_pluralize.
Definition ar_dz_numerals : Numerals := mkNumerals [] [] true.

(** *** Marathi, Mongolian, Hungarian *)

Definition mr_relativeTime (e : N) (t : bool) (n : string) (i : bool) : option string :=
  let r := default "" (switch n
    (if t
     then [("s", "काही सेकंद"); ("ss", "%d सेकंद"); ("m", "एक मिनिट"); ("mm", "%d मिनिटे"); ("h", "एक तास"); ("hh", "%d तास");
           ("d", "एक दिवस"); ("dd", "%d दिवस"); ("M", "एक महिना"); ("MM", "%d महिने"); ("y", "एक वर्ष"); ("yy", "%d वर्षे")]
     else [("s", "काही सेकंदां"); ("ss", "%d सेकंदां"); ("m", "एका मिनिटा"); ("mm", "%d मिनिटां"); ("h", "एका तासा");
           ("hh", "%d तासां"); ("d", "एका दिवसा"); ("dd", "%d दिवसां"); ("M", "एका महिन्या"); ("MM", "%d महिन्यां");
           ("y", "एका वर्षा"); ("yy", "%d वर्षां")])) in
  Some (replace_mark "d" r (pretty e)).

Definition mn_relativeTime (e : N) (t : bool) (n : string) (i : bool) : option string :=
  let minutes := num_word e (if t then " минут" else " минутын") in
  let hours := num_word e (if t then " цаг" else " цагийн") in
  let days := num_word e (if t then " өдөр" else " өдрийн") in
  let months := num_word e (if t then " сар" else " сарын") in
  let years := num_word e (if t then " жил" else " жилийн") in
  Some (default (pretty e) (switch n
    [("s", if t then "хэдхэн секунд" else "хэдхэн секундын"); ("ss", num_word e (if t then " секунд" else " секундын"));
     ("m", minutes); ("mm", minutes); ("h", hours); ("hh", hours); ("d", days); ("dd", days); ("M", months);
     ("MM", months); ("y", years); ("yy", years)])).

(** For several seconds the code reads [r + (i || t) ? .. : ..]: the number, plus one if the
    condition holds, is tested and is not part of the text. *)
Definition hu_relativeTime (e : N) (t : bool) (n : string) (i : bool) : option string :=
  let it := i || t in
  Some (default "" (switch n
    [("s", if it then "néhány másodperc" else "néhány másodperce"); ("ss", if 0 === e + (if it then 1 else 0) then " másodperce" else " másodperc");
     ("m", "egy" +:+ (if it then " perc" else " perce")); ("mm", num_word e (if it then " perc" else " perce"));
     ("h", "egy" +:+ (if it then " óra" else " órája")); ("hh", num_word e (if it then " óra" else " órája"));
     ("d", "egy" +:+ (if it then " nap" else " napja")); ("dd", num_word e (if it then " nap" else " napja"));
     ("M", "egy" +:+ (if it then " hónap" else " hónapja")); ("MM", num_word e (if it then " hónap" else " hónapja"));
     ("y", "egy" +:+ (if it then " év" else " éve")); ("yy", num_word e (if it then " év" else " éve"))])).

(** *** Breton *)

Definition br_softMutation (e : string) : string :=
  match switch (charAt e 0) [("m", "v"); ("b", "v"); ("d", "z")] with
  | Some t => t +:+ String.substring 1 (String.length e - 1) e
  | None => e
  end.
Definition br_mutation (e : string) (t : N) : string := if 2 === t then br_softMutation e else e.
Definition br_relativeTime (e : N) (t : bool) (n : string) (i : bool) : option string :=
  (λ w, pretty e +:+ " " +:+ br_mutation w e) <$> switch n [("mm", "munutenn"); ("MM", "miz"); ("dd", "devezh")].
(** [i(e)]: the last digit, as [e % 10] is not above nine. *)
Definition br_lastNumber (e : N) : N := if 9 <? e then e mod 10 else e.
Definition br_years (e : N) (t : bool) (n : string) (i : bool) : option string :=
  let l := br_lastNumber e in
  Some (num_word e (if (1 === l) || (3 === l) || (4 === l) || (5 === l) || (9 === l) then " bloaz" else " vloaz")).

(** *** Past and future in Chuvash, Georgian, Swiss Italian and Galician *)

Definition cv_future (e : string) : string :=
  e +:+ (if ends_with e "сехет" then "рен" else if ends_with e "ҫул" then "тан" else "ран").

Definition ka_stems : list string := ["წამ"; "წუთ"; "საათ"; "წელ"; "დღ"; "თვ"].
(** The stem with a vowel at the start of the text, and what follows. *)
Fixpoint ka_match (stems : list string) (e : string) : option (string * string * string) :=
  match stems with
  | [] => None
  | t :: stems =>
      match strip_prefix t e ≫= strip_prefix "ი" with
      | Some rest => Some (t, "ი", rest)
      | None => match strip_prefix t e ≫= strip_prefix "ე" with
                | Some rest => Some (t, "ე", rest)
                | None => ka_match stems e
                end
      end
  end.
Fixpoint ka_future (e : string) : string :=
  match ka_match ka_stems e with
  | Some (t, n, rest) => (if "ი" === n then t +:+ "ში" else t +:+ n +:+ "ში") +:+ rest
  | None => match e with EmptyString => EmptyString | String a e => String a (ka_future e) end
  end.
(** [e.replace(/suf$/, v)]. *)
Definition replace_end (e suf v : string) : string :=
  match strip_suffix suf e with Some s => s +:+ v | None => e end.
Definition ka_past (e : string) : string :=
  if existsb (contains e) ["წამი"; "წუთი"; "საათი"; "დღე"; "თვე"]
  then (if ends_with e "ი" then replace_end e "ი" "ის წინ" else replace_end e "ე" "ის წინ")
  else if contains e "წელი" then replace_end e "წელი" "წლის წინ"
  else e.

(** [/^[0-9].+$/]: a digit and something after it. *)
Definition it_ch_future (e : string) : string :=
  (match e with
   | String a (String _ _) => if bool_decide (is_Some (digit_value a)) then "tra" else "in"
   | _ => "in"
   end) +:+ " " +:+ e.
Definition gl_future (e : string) : string := if starts_with e "un" then "n" +:+ e else "en " +:+ e.

(** ** The locales *)

Definition ar_relative : Relative :=
  mkRelative "ar" (Around "بعد %s") (Around "منذ %s")
    [("s", Form (ar_pluralize "s")); ("ss", Form (ar_pluralize "s")); ("m", Form (ar_pluralize "m"));
     ("mm", Form (ar_pluralize "m")); ("h", Form (ar_pluralize "h")); ("hh", Form (ar_pluralize "h"));
     ("d", Form (ar_pluralize "d")); ("dd", Form (ar_pluralize "d")); ("M", Form (ar_pluralize "M"));
     ("MM", Form (ar_pluralize "M")); ("y", Form (ar_pluralize "y")); ("yy", Form (ar_pluralize "y"))]
    "Invalid date" (Some ar_numerals).

Definition ar_dz_relative : Relative :=
  mkRelative "ar-dz" (Around "بعد %s") (Around "منذ %s")
    [("s", Form (ar_dz_pluralize "s")); ("ss", Form (ar_dz_pluralize "s")); ("m", Form (ar_dz_pluralize "m"));
     ("mm", Form (ar_dz_pluralize "m")); ("h", Form (ar_dz_pluralize "h")); ("hh", Form (ar_dz_pluralize "h"));
     ("d", Form (ar_dz_pluralize "d")); ("dd", Form (ar_dz_pluralize "d")); ("M", Form (ar_dz_pluralize "M"));
     ("MM", Form (ar_dz_pluralize "M")); ("y", Form (ar_dz_pluralize "y")); ("yy", Form (ar_dz_pluralize "y"))]
    "Invalid date" (Some ar_dz_numerals).

Definition ar_ly_relative : Relative :=
  mkRelative "ar-ly" (Around "بعد %s") (Around "منذ %s")
    [("s", Form (ar_ly_pluralize "s")); ("ss", Form (ar_ly_pluralize "s")); ("m", Form (ar_ly_pluralize "m"));
     ("mm", Form (ar_ly_pluralize "m")); ("h", Form (ar_ly_pluralize "h")); ("hh", Form (ar_ly_pluralize "h"));
     ("d", Form (ar_ly_pluralize "d")); ("dd", Form (ar_ly_pluralize "d")); ("M", Form (ar_ly_pluralize "M"));
     ("MM", Form (ar_ly_pluralize "M")); ("y", Form (ar_ly_pluralize "y")); ("yy", Form (ar_ly_pluralize "y"))]
    "Invalid date" (Some ar_ly_numerals).

Definition be_relative : Relative :=
  mkRelative "be" (Around "праз %s") (Around "%s таму")
    [("s", Text "некалькі секунд"); ("m", Form be_relativeTime); ("mm", Form be_relativeTime);
     ("h", Form be_relativeTime); ("hh", Form be_relativeTime); ("d", Text "дзень");
     ("dd", Form be_relativeTime); ("M", Text "месяц"); ("MM", Form be_relativeTime); ("y", Text "год");
     ("yy", Form be_relativeTime)]
    "Invalid date" None.

Definition br_relative : Relative :=
  mkRelative "br" (Around "a-benn %s") (Around "%s ʼzo")
    [("s", Text "un nebeud segondennoù"); ("ss", Text "%d eilenn"); ("m", Text "ur vunutenn");
     ("mm", Form br_relativeTime); ("h", Text "un eur"); ("hh", Text "%d eur"); ("d", Text "un devezh");
     ("dd", Form br_relativeTime); ("M", Text "ur miz"); ("MM", Form br_relativeTime); ("y", Text "ur bloaz");
     ("yy", Form br_years)]
    "Invalid date" None.

Definition bs_relative : Relative :=
  mkRelative "bs" (Around "za %s") (Around "prije %s")
    [("s", Text "par sekundi"); ("ss", Form bs_relativeTime); ("m", Form bs_relativeTime);
     ("mm", Form bs_relativeTime); ("h", Form bs_relativeTime); ("hh", Form bs_relativeTime);
     ("d", Text "dan"); ("dd", Form bs_relativeTime); ("M", Text "mjesec"); ("MM", Form bs_relativeTime);
     ("y", Text "godinu"); ("yy", Form bs_relativeTime)]
    "Invalid date" None.

Definition cs_relative : Relative :=
  mkRelative "cs" (Around "za %s") (Around "před %s")
    [("s", Form cs_relativeTime); ("ss", Form cs_relativeTime); ("m", Form cs_relativeTime);
     ("mm", Form cs_relativeTime); ("h", Form cs_relativeTime); ("hh", Form cs_relativeTime);
     ("d", Form cs_relativeTime); ("dd", Form cs_relativeTime); ("M", Form cs_relativeTime);
     ("MM", Form cs_relativeTime); ("y", Form cs_relativeTime); ("yy", Form cs_relativeTime)]
    "Invalid date" None.

Definition cv_relative : Relative :=
  mkRelative "cv" (Affixed cv_future) (Around "%s каялла")
    [("s", Text "пӗр-ик ҫеккунт"); ("ss", Text "%d ҫеккунт"); ("m", Text "пӗр минут"); ("mm", Text "%d минут");
     ("h", Text "пӗр сехет"); ("hh", Text "%d сехет"); ("d", Text "пӗр кун"); ("dd", Text "%d кун");
     ("M", Text "пӗр уйӑх"); ("MM", Text "%d уйӑх"); ("y", Text "пӗр ҫул"); ("yy", Text "%d ҫул")]
    "Invalid date" None.

Definition de_relative : Relative :=
  mkRelative "de" (Around "in %s") (Around "vor %s")
    [("s", Text "ein paar Sekunden"); ("ss", Text "%d Sekunden"); ("m", Form de_relativeTime);
     ("mm", Text "%d Minuten"); ("h", Form de_relativeTime); ("hh", Text "%d Stunden");
     ("d", Form de_relativeTime); ("dd", Form de_relativeTime); ("w", Form de_relativeTime);
     ("ww", Text "%d Wochen"); ("M", Form de_relativeTime); ("MM", Form de_relativeTime);
     ("y", Form de_relativeTime); ("yy", Form de_relativeTime)]
    "Invalid date" None.

Definition de_at_relative : Relative :=
  mkRelative "de-at" (Around "in %s") (Around "vor %s")
    [("s", Text "ein paar Sekunden"); ("ss", Text "%d Sekunden"); ("m", Form de_at_relativeTime);
     ("mm", Text "%d Minuten"); ("h", Form de_at_relativeTime); ("hh", Text "%d Stunden");
     ("d", Form de_at_relativeTime); ("dd", Form de_at_relativeTime); ("w", Form de_at_relativeTime);
     ("ww", Text "%d Wochen"); ("M", Form de_at_relativeTime); ("MM", Form de_at_relativeTime);
     ("y", Form de_at_relativeTime); ("yy", Form de_at_relativeTime)]
    "Invalid date" None.

Definition de_ch_relative : Relative :=
  mkRelative "de-ch" (Around "in %s") (Around "vor %s")
    [("s", Text "ein paar Sekunden"); ("ss", Text "%d Sekunden"); ("m", Form de_ch_relativeTime);
     ("mm", Text "%d Minuten"); ("h", Form de_ch_relativeTime); ("hh", Text "%d Stunden");
     ("d", Form de_ch_relativeTime); ("dd", Form de_ch_relativeTime); ("w", Form de_ch_relativeTime);
     ("ww", Text "%d Wochen"); ("M", Form de_ch_relativeTime); ("MM", Form de_ch_relativeTime);
     ("y", Form de_ch_relativeTime); ("yy", Form de_ch_relativeTime)]
    "Invalid date" None.

Definition et_relative : Relative :=
  mkRelative "et" (Around "%s pärast") (Around "%s tagasi")
    [("s", Form et_relativeTime); ("ss", Form et_relativeTime); ("m", Form et_relativeTime);
     ("mm", Form et_relativeTime); ("h", Form et_relativeTime); ("hh", Form et_relativeTime);
     ("d", Form et_relativeTime); ("dd", Text "%d päeva"); ("M", Form et_relativeTime);
     ("MM", Form et_relativeTime); ("y", Form et_relativeTime); ("yy", Form et_relativeTime)]
    "Invalid date" None.

Definition fi_relative : Relative :=
  mkRelative "fi" (Around "%s päästä") (Around "%s sitten")
    [("s", Form fi_relativeTime); ("ss", Form fi_relativeTime); ("m", Form fi_relativeTime);
     ("mm", Form fi_relativeTime); ("h", Form fi_relativeTime); ("hh", Form fi_relativeTime);
     ("d", Form fi_relativeTime); ("dd", Form fi_relativeTime); ("M", Form fi_relativeTime);
     ("MM", Form fi_relativeTime); ("y", Form fi_relativeTime); ("yy", Form fi_relativeTime)]
    "Invalid date" None.

Definition gl_relative : Relative :=
  mkRelative "gl" (Affixed gl_future) (Around "hai %s")
    [("s", Text "uns segundos"); ("ss", Text "%d segundos"); ("m", Text "un minuto");
     ("mm", Text "%d minutos"); ("h", Text "unha hora"); ("hh", Text "%d horas"); ("d", Text "un día");
     ("dd", Text "%d días"); ("M", Text "un mes"); ("MM", Text "%d meses"); ("y", Text "un ano");
     ("yy", Text "%d anos")]
    "Invalid date" None.

Definition gom_deva_relative : Relative :=
  mkRelative "gom-deva" (Around "%s") (Around "%s आदीं")
    [("s", Form gom_deva_relativeTime); ("ss", Form gom_deva_relativeTime); ("m", Form gom_deva_relativeTime);
     ("mm", Form gom_deva_relativeTime); ("h", Form gom_deva_relativeTime); ("hh", Form gom_deva_relativeTime);
     ("d", Form gom_deva_relativeTime); ("dd", Form gom_deva_relativeTime); ("M", Form gom_deva_relativeTime);
     ("MM", Form gom_deva_relativeTime); ("y", Form gom_deva_relativeTime); ("yy", Form gom_deva_relativeTime)]
    "Invalid date" None.

Definition gom_latn_relative : Relative :=
  mkRelative "gom-latn" (Around "%s") (Around "%s adim")
    [("s", Form gom_latn_relativeTime); ("ss", Form gom_latn_relativeTime); ("m", Form gom_latn_relativeTime);
     ("mm", Form gom_latn_relativeTime); ("h", Form gom_latn_relativeTime); ("hh", Form gom_latn_relativeTime);
     ("d", Form gom_latn_relativeTime); ("dd", Form gom_latn_relativeTime); ("M", Form gom_latn_relativeTime);
     ("MM", Form gom_latn_relativeTime); ("y", Form gom_latn_relativeTime); ("yy", Form gom_latn_relativeTime)]
    "Invalid date" None.

Definition he_relative : Relative :=
  mkRelative "he" (Around "בעוד %s") (Around "לפני %s")
    [("s", Text "מספר שניות"); ("ss", Text "%d שניות"); ("m", Text "דקה"); ("mm", Text "%d דקות");
     ("h", Text "שעה"); ("hh", Form he_relativeTime); ("d", Text "יום"); ("dd", Form he_relativeTime);
     ("M", Text "חודש"); ("MM", Form he_relativeTime); ("y", Text "שנה"); ("yy", Form he_relativeTime)]
    "Invalid date" None.

Definition hr_relative : Relative :=
  mkRelative "hr" (Around "za %s") (Around "prije %s")
    [("s", Text "par sekundi"); ("ss", Form hr_relativeTime); ("m", Form hr_relativeTime);
     ("mm", Form hr_relativeTime); ("h", Form hr_relativeTime); ("hh", Form hr_relativeTime);
     ("d", Text "dan"); ("dd", Form hr_relativeTime); ("M", Text "mjesec"); ("MM", Form hr_relativeTime);
     ("y", Text "godinu"); ("yy", Form hr_relativeTime)]
    "Invalid date" None.

Definition hu_relative : Relative :=
  mkRelative "hu" (Around "%s múlva") (Around "%s")
    [("s", Form hu_relativeTime); ("ss", Form hu_relativeTime); ("m", Form hu_relativeTime);
     ("mm", Form hu_relativeTime); ("h", Form hu_relativeTime); ("hh", Form hu_relativeTime);
     ("d", Form hu_relativeTime); ("dd", Form hu_relativeTime); ("M", Form hu_relativeTime);
     ("MM", Form hu_relativeTime); ("y", Form hu_relativeTime); ("yy", Form hu_relativeTime)]
    "Invalid date" None.

Definition is_relative : Relative :=
  mkRelative "is" (Around "eftir %s") (Around "fyrir %s síðan")
    [("s", Form is_relativeTime); ("ss", Form is_relativeTime); ("m", Form is_relativeTime);
     ("mm", Form is_relativeTime); ("h", Text "klukkustund"); ("hh", Form is_relativeTime);
     ("d", Form is_relativeTime); ("dd", Form is_relativeTime); ("M", Form is_relativeTime);
     ("MM", Form is_relativeTime); ("y", Form is_relativeTime); ("yy", Form is_relativeTime)]
    "Invalid date" None.

Definition it_ch_relative : Relative :=
  mkRelative "it-ch" (Affixed it_ch_future) (Around "%s fa")
    [("s", Text "alcuni secondi"); ("ss", Text "%d secondi"); ("m", Text "un minuto");
     ("mm", Text "%d minuti"); ("h", Text "un'ora"); ("hh", Text "%d ore"); ("d", Text "un giorno");
     ("dd", Text "%d giorni"); ("M", Text "un mese"); ("MM", Text "%d mesi"); ("y", Text "un anno");
     ("yy", Text "%d anni")]
    "Invalid date" None.

Definition ka_relative : Relative :=
  mkRelative "ka" (Affixed ka_future) (Affixed ka_past)
    [("s", Text "რამდენიმე წამი"); ("ss", Text "%d წამი"); ("m", Text "წუთი"); ("mm", Text "%d წუთი");
     ("h", Text "საათი"); ("hh", Text "%d საათი"); ("d", Text "დღე"); ("dd", Text "%d დღე"); ("M", Text "თვე");
     ("MM", Text "%d თვე"); ("y", Text "წელი"); ("yy", Text "%d წელი")]
    "Invalid date" None.

Definition lb_relative : Relative :=
  mkRelative "lb" (Affixed lb_future) (Affixed lb_past)
    [("s", Text "e puer Sekonnen"); ("ss", Text "%d Sekonnen"); ("m", Form lb_relativeTime);
     ("mm", Text "%d Minutten"); ("h", Form lb_relativeTime); ("hh", Text "%d Stonnen");
     ("d", Form lb_relativeTime); ("dd", Text "%d Deeg"); ("M", Form lb_relativeTime); ("MM", Text "%d Méint");
     ("y", Form lb_relativeTime); ("yy", Text "%d Joer")]
    "Invalid date" None.

Definition lt_relative : Relative :=
  mkRelative "lt" (Around "po %s") (Around "prieš %s")
    [("s", Form lt_seconds); ("ss", Form lt_relativeTime); ("m", Form lt_relativeTime);
     ("mm", Form lt_relativeTime); ("h", Form lt_relativeTime); ("hh", Form lt_relativeTime);
     ("d", Form lt_relativeTime); ("dd", Form lt_relativeTime); ("M", Form lt_relativeTime);
     ("MM", Form lt_relativeTime); ("y", Form lt_relativeTime); ("yy", Form lt_relativeTime)]
    "Invalid date" None.

Definition lv_relative : Relative :=
  mkRelative "lv" (Around "pēc %s") (Around "pirms %s")
    [("s", Form lv_seconds); ("ss", Form lv_relativeTime); ("m", Form lv_relativeTime);
     ("mm", Form lv_relativeTime); ("h", Form lv_relativeTime); ("hh", Form lv_relativeTime);
     ("d", Form lv_relativeTime); ("dd", Form lv_relativeTime); ("M", Form lv_relativeTime);
     ("MM", Form lv_relativeTime); ("y", Form lv_relativeTime); ("yy", Form lv_relativeTime)]
    "Invalid date" None.

Definition me_relative : Relative :=
  mkRelative "me" (Around "za %s") (Around "prije %s")
    [("s", Text "nekoliko sekundi"); ("ss", Form me_relativeTime); ("m", Form me_relativeTime);
     ("mm", Form me_relativeTime); ("h", Form me_relativeTime); ("hh", Form me_relativeTime);
     ("d", Text "dan"); ("dd", Form me_relativeTime); ("M", Text "mjesec"); ("MM", Form me_relativeTime);
     ("y", Text "godinu"); ("yy", Form me_relativeTime)]
    "Invalid date" None.

Definition mn_relative : Relative :=
  mkRelative "mn" (Around "%s дараа") (Around "%s өмнө")
    [("s", Form mn_relativeTime); ("ss", Form mn_relativeTime); ("m", Form mn_relativeTime);
     ("mm", Form mn_relativeTime); ("h", Form mn_relativeTime); ("hh", Form mn_relativeTime);
     ("d", Form mn_relativeTime); ("dd", Form mn_relativeTime); ("M", Form mn_relativeTime);
     ("MM", Form mn_relativeTime); ("y", Form mn_relativeTime); ("yy", Form mn_relativeTime)]
    "Invalid date" None.

Definition mr_relative : Relative :=
  mkRelative "mr" (Around "%sमध्ये") (Around "%sपूर्वी")
    [("s", Form mr_relativeTime); ("ss", Form mr_relativeTime); ("m", Form mr_relativeTime);
     ("mm", Form mr_relativeTime); ("h", Form mr_relativeTime); ("hh", Form mr_relativeTime);
     ("d", Form mr_relativeTime); ("dd", Form mr_relativeTime); ("M", Form mr_relativeTime);
     ("MM", Form mr_relativeTime); ("y", Form mr_relativeTime); ("yy", Form mr_relativeTime)]
    "Invalid date" (Some mr_numerals).

Definition pl_relative : Relative :=
  mkRelative "pl" (Around "za %s") (Around "%s temu")
    [("s", Text "kilka sekund"); ("ss", Form pl_relativeTime); ("m", Form pl_relativeTime);
     ("mm", Form pl_relativeTime); ("h", Form pl_relativeTime); ("hh", Form pl_relativeTime);
     ("d", Text "1 dzień"); ("dd", Text "%d dni"); ("w", Text "tydzień"); ("ww", Form pl_relativeTime);
     ("M", Text "miesiąc"); ("MM", Form pl_relativeTime); ("y", Text "rok"); ("yy", Form pl_relativeTime)]
    "Invalid date" None.

Definition ro_relative : Relative :=
  mkRelative "ro" (Around "peste %s") (Around "%s în urmă")
    [("s", Text "câteva secunde"); ("ss", Form ro_relativeTime); ("m", Text "un minut");
     ("mm", Form ro_relativeTime); ("h", Text "o oră"); ("hh", Form ro_relativeTime); ("d", Text "o zi");
     ("dd", Form ro_relativeTime); ("w", Text "o săptămână"); ("ww", Form ro_relativeTime);
     ("M", Text "o lună"); ("MM", Form ro_relativeTime); ("y", Text "un an"); ("yy", Form ro_relativeTime)]
    "Invalid date" None.

Definition ru_relative : Relative :=
  mkRelative "ru" (Around "через %s") (Around "%s назад")
    [("s", Text "несколько секунд"); ("ss", Form ru_relativeTime); ("m", Form ru_relativeTime);
     ("mm", Form ru_relativeTime); ("h", Text "час"); ("hh", Form ru_relativeTime); ("d", Text "день");
     ("dd", Form ru_relativeTime); ("w", Text "неделя"); ("ww", Form ru_relativeTime); ("M", Text "месяц");
     ("MM", Form ru_relativeTime); ("y", Text "год"); ("yy", Form ru_relativeTime)]
    "Invalid date" None.

Definition sk_relative : Relative :=
  mkRelative "sk" (Around "za %s") (Around "pred %s")
    [("s", Form sk_relativeTime); ("ss", Form sk_relativeTime); ("m", Form sk_relativeTime);
     ("mm", Form sk_relativeTime); ("h", Form sk_relativeTime); ("hh", Form sk_relativeTime);
     ("d", Form sk_relativeTime); ("dd", Form sk_relativeTime); ("M", Form sk_relativeTime);
     ("MM", Form sk_relativeTime); ("y", Form sk_relativeTime); ("yy", Form sk_relativeTime)]
    "Invalid date" None.

Definition sl_relative : Relative :=
  mkRelative "sl" (Around "čez %s") (Around "pred %s")
    [("s", Form sl_relativeTime); ("ss", Form sl_relativeTime); ("m", Form sl_relativeTime);
     ("mm", Form sl_relativeTime); ("h", Form sl_relativeTime); ("hh", Form sl_relativeTime);
     ("d", Form sl_relativeTime); ("dd", Form sl_relativeTime); ("M", Form sl_relativeTime);
     ("MM", Form sl_relativeTime); ("y", Form sl_relativeTime); ("yy", Form sl_relativeTime)]
    "Invalid date" None.

Definition sr_relative : Relative :=
  mkRelative "sr" (Around "za %s") (Around "pre %s")
    [("s", Text "nekoliko sekundi"); ("ss", Form sr_relativeTime); ("m", Form sr_relativeTime);
     ("mm", Form sr_relativeTime); ("h", Form sr_relativeTime); ("hh", Form sr_relativeTime);
     ("d", Text "dan"); ("dd", Form sr_relativeTime); ("M", Text "mesec"); ("MM", Form sr_relativeTime);
     ("y", Text "godinu"); ("yy", Form sr_relativeTime)]
    "Invalid date" None.

Definition sr_cyrl_relative : Relative :=
  mkRelative "sr-cyrl" (Around "за %s") (Around "пре %s")
    [("s", Text "неколико секунди"); ("ss", Form sr_cyrl_relativeTime); ("m", Form sr_cyrl_relativeTime);
     ("mm", Form sr_cyrl_relativeTime); ("h", Form sr_cyrl_relativeTime); ("hh", Form sr_cyrl_relativeTime);
     ("d", Text "дан"); ("dd", Form sr_cyrl_relativeTime); ("M", Text "месец");
     ("MM", Form sr_cyrl_relativeTime); ("y", Text "годину"); ("yy", Form sr_cyrl_relativeTime)]
    "Invalid date" None.

Definition tlh_relative : Relative :=
  mkRelative "tlh" (Affixed tlh_future) (Affixed tlh_past)
    [("s", Text "puS lup"); ("ss", Form tlh_translate); ("m", Text "wa’ tup"); ("mm", Form tlh_translate);
     ("h", Text "wa’ rep"); ("hh", Form tlh_translate); ("d", Text "wa’ jaj"); ("dd", Form tlh_translate);
     ("M", Text "wa’ jar"); ("MM", Form tlh_translate); ("y", Text "wa’ DIS"); ("yy", Form tlh_translate)]
    "Invalid date" None.

Definition tzl_relative : Relative :=
  mkRelative "tzl" (Around "osprei %s") (Around "ja%s")
    [("s", Form tzl_relativeTime); ("ss", Form tzl_relativeTime); ("m", Form tzl_relativeTime);
     ("mm", Form tzl_relativeTime); ("h", Form tzl_relativeTime); ("hh", Form tzl_relativeTime);
     ("d", Form tzl_relativeTime); ("dd", Form tzl_relativeTime); ("M", Form tzl_relativeTime);
     ("MM", Form tzl_relativeTime); ("y", Form tzl_relativeTime); ("yy", Form tzl_relativeTime)]
    "Invalid date" None.

Definition uk_relative : Relative :=
  mkRelative "uk" (Around "за %s") (Around "%s тому")
    [("s", Text "декілька секунд"); ("ss", Form uk_relativeTime); ("m", Form uk_relativeTime);
     ("mm", Form uk_relativeTime); ("h", Text "годину"); ("hh", Form uk_relativeTime); ("d", Text "день");
     ("dd", Form uk_relativeTime); ("M", Text "місяць"); ("MM", Form uk_relativeTime); ("y", Text "рік");
     ("yy", Form uk_relativeTime)]
    "Invalid date" None.

Definition form_relatives : list Relative :=
  [ar_relative; ar_dz_relative; ar_ly_relative; be_relative; br_relative; bs_relative; cs_relative;
   cv_relative; de_relative; de_at_relative; de_ch_relative; et_relative; fi_relative; gl_relative;
   gom_deva_relative; gom_latn_relative; he_relative; hr_relative; hu_relative; is_relative; it_ch_relative;
   ka_relative; lb_relative; lt_relative; lv_relative; me_relative; mn_relative; mr_relative; pl_relative;
   ro_relative; ru_relative; sk_relative; sl_relative; sr_relative; sr_cyrl_relative; tlh_relative;
   tzl_relative; uk_relative].

Example form_samples :
  (is_relativeTime 21 false "dd" false, pl_relativeTime 22 true "hh" false, ro_relativeTime 20 true "mm" false,
   tlh_numberAsNoun 345, fi_relativeTime 3 false "dd" true, br_relativeTime 2 true "mm" false,
   ar_pluralize "d" 2 true "dd" false, hu_relativeTime 7 true "ss" false)
  = (Some "21 degi", Some "22 godziny", Some "20 de minute", Some "wejvatlh loSmaH vagh", Some "kolmen päivän",
     Some "2 vunutenn", Some "يومان", Some " másodperc").
Proof. reflexivity. Qed.

Example affix_samples :
  (lb_future "4 Deeg", lb_past "12 Deeg", tlh_past "wa’ jaj", ka_future "3 საათი", ka_past "5 წელი", gl_future "un minuto",
   it_ch_future "3 ore", cv_future "пӗр ҫул")
  = ("a 4 Deeg", "virun 12 Deeg", "wa’ Hu’", "3 საათში", "5 წლის წინ", "nun minuto", "tra 3 ore", "пӗр ҫултан").
Proof. reflexivity. Qed.
