(* ===== verification/MomentTables.v ===== *)
(** * Texts of relative times in the locales of the web interface ([src/lagosta/js/app.js], moment.js)

    The locales in which every relative time is a text with a place for the number, and past and
    future are texts with a place for the time. *)

From stdpp Require Import base strings list.
From S2P Require Import Prelude MomentNumerals MomentRelative.

Definition af_relative : Relative :=
  mkRelative "af" (Around "oor %s") (Around "%s gelede")
    [("s", Text "'n paar sekondes"); ("ss", Text "%d sekondes"); ("m", Text "'n minuut");
     ("mm", Text "%d minute"); ("h", Text "'n uur"); ("hh", Text "%d ure"); ("d", Text "'n dag");
     ("dd", Text "%d dae"); ("M", Text "'n maand"); ("MM", Text "%d maande"); ("y", Text "'n jaar");
     ("yy", Text "%d jaar")]
    "Invalid date" None.

Definition ar_kw_relative : Relative :=
  mkRelative "ar-kw" (Around "في %s") (Around "منذ %s")
    [("s", Text "ثوان"); ("ss", Text "%d ثانية"); ("m", Text "دقيقة"); ("mm", Text "%d دقائق");
     ("h", Text "ساعة"); ("hh", Text "%d ساعات"); ("d", Text "يوم"); ("dd", Text "%d أيام"); ("M", Text "شهر");
     ("MM", Text "%d أشهر"); ("y", Text "سنة"); ("yy", Text "%d سنوات")]
    "Invalid date" None.

Definition ar_ma_relative : Relative :=
  mkRelative "ar-ma" (Around "في %s") (Around "منذ %s")
    [("s", Text "ثوان"); ("ss", Text "%d ثانية"); ("m", Text "دقيقة"); ("mm", Text "%d دقائق");
     ("h", Text "ساعة"); ("hh", Text "%d ساعات"); ("d", Text "يوم"); ("dd", Text "%d أيام"); ("M", Text "شهر");
     ("MM", Text "%d أشهر"); ("y", Text "سنة"); ("yy", Text "%d سنوات")]
    "Invalid date" None.

Definition ar_sa_relative : Relative :=
  mkRelative "ar-sa" (Around "في %s") (Around "منذ %s")
    [("s", Text "ثوان"); ("ss", Text "%d ثانية"); ("m", Text "دقيقة"); ("mm", Text "%d دقائق");
     ("h", Text "ساعة"); ("hh", Text "%d ساعات"); ("d", Text "يوم"); ("dd", Text "%d أيام"); ("M", Text "شهر");
     ("MM", Text "%d أشهر"); ("y", Text "سنة"); ("yy", Text "%d سنوات")]
    "Invalid date" (Some ar_sa_numerals).

Definition ar_tn_relative : Relative :=
  mkRelative "ar-tn" (Around "في %s") (Around "منذ %s")
    [("s", Text "ثوان"); ("ss", Text "%d ثانية"); ("m", Text "دقيقة"); ("mm", Text "%d دقائق");
     ("h", Text "ساعة"); ("hh", Text "%d ساعات"); ("d", Text "يوم"); ("dd", Text "%d أيام"); ("M", Text "شهر");
     ("MM", Text "%d أشهر"); ("y", Text "سنة"); ("yy", Text "%d سنوات")]
    "Invalid date" None.

Definition az_relative : Relative :=
  mkRelative "az" (Around "%s sonra") (Around "%s əvvəl")
    [("s", Text "bir neçə saniyə"); ("ss", Text "%d saniyə"); ("m", Text "bir dəqiqə");
     ("mm", Text "%d dəqiqə"); ("h", Text "bir saat"); ("hh", Text "%d saat"); ("d", Text "bir gün");
     ("dd", Text "%d gün"); ("M", Text "bir ay"); ("MM", Text "%d ay"); ("y", Text "bir il");
     ("yy", Text "%d il")]
    "Invalid date" None.

Definition bg_relative : Relative :=
  mkRelative "bg" (Around "след %s") (Around "преди %s")
    [("s", Text "няколко секунди"); ("ss", Text "%d секунди"); ("m", Text "минута"); ("mm", Text "%d минути");
     ("h", Text "час"); ("hh", Text "%d часа"); ("d", Text "ден"); ("dd", Text "%d дена");
     ("w", Text "седмица"); ("ww", Text "%d седмици"); ("M", Text "месец"); ("MM", Text "%d месеца");
     ("y", Text "година"); ("yy", Text "%d години")]
    "Invalid date" None.

Definition bm_relative : Relative :=
  mkRelative "bm" (Around "%s kɔnɔ") (Around "a bɛ %s bɔ")
    [("s", Text "sanga dama dama"); ("ss", Text "sekondi %d"); ("m", Text "miniti kelen");
     ("mm", Text "miniti %d"); ("h", Text "lɛrɛ kelen"); ("hh", Text "lɛrɛ %d"); ("d", Text "tile kelen");
     ("dd", Text "tile %d"); ("M", Text "kalo kelen"); ("MM", Text "kalo %d"); ("y", Text "san kelen");
     ("yy", Text "san %d")]
    "Invalid date" None.

Definition bn_relative : Relative :=
  mkRelative "bn" (Around "%s পরে") (Around "%s আগে")
    [("s", Text "কয়েক সেকেন্ড"); ("ss", Text "%d সেকেন্ড"); ("m", Text "এক মিনিট"); ("mm", Text "%d মিনিট");
     ("h", Text "এক ঘন্টা"); ("hh", Text "%d ঘন্টা"); ("d", Text "এক দিন"); ("dd", Text "%d দিন");
     ("M", Text "এক মাস"); ("MM", Text "%d মাস"); ("y", Text "এক বছর"); ("yy", Text "%d বছর")]
    "Invalid date" (Some bn_numerals).

Definition bn_bd_relative : Relative :=
  mkRelative "bn-bd" (Around "%s পরে") (Around "%s আগে")
    [("s", Text "কয়েক সেকেন্ড"); ("ss", Text "%d সেকেন্ড"); ("m", Text "এক মিনিট"); ("mm", Text "%d মিনিট");
     ("h", Text "এক ঘন্টা"); ("hh", Text "%d ঘন্টা"); ("d", Text "এক দিন"); ("dd", Text "%d দিন");
     ("M", Text "এক মাস"); ("MM", Text "%d মাস"); ("y", Text "এক বছর"); ("yy", Text "%d বছর")]
    "Invalid date" (Some bn_bd_numerals).

Definition bo_relative : Relative :=
  mkRelative "bo" (Around "%s ལ་") (Around "%s སྔན་ལ")
    [("s", Text "ལམ་སང"); ("ss", Text "%d སྐར་ཆ།"); ("m", Text "སྐར་མ་གཅིག"); ("mm", Text "%d སྐར་མ");
     ("h", Text "ཆུ་ཚོད་གཅིག"); ("hh", Text "%d ཆུ་ཚོད"); ("d", Text "ཉིན་གཅིག"); ("dd", Text "%d ཉིན་");
     ("M", Text "ཟླ་བ་གཅིག"); ("MM", Text "%d ཟླ་བ"); ("y", Text "ལོ་གཅིག"); ("yy", Text "%d ལོ")]
    "Invalid date" (Some bo_numerals).

Definition ca_relative : Relative :=
  mkRelative "ca" (Around "d'aquí %s") (Around "fa %s")
    [("s", Text "uns segons"); ("ss", Text "%d segons"); ("m", Text "un minut"); ("mm", Text "%d minuts");
     ("h", Text "una hora"); ("hh", Text "%d hores"); ("d", Text "un dia"); ("dd", Text "%d dies");
     ("M", Text "un mes"); ("MM", Text "%d mesos"); ("y", Text "un any"); ("yy", Text "%d anys")]
    "Invalid date" None.

Definition cy_relative : Relative :=
  mkRelative "cy" (Around "mewn %s") (Around "%s yn ôl")
    [("s", Text "ychydig eiliadau"); ("ss", Text "%d eiliad"); ("m", Text "munud"); ("mm", Text "%d munud");
     ("h", Text "awr"); ("hh", Text "%d awr"); ("d", Text "diwrnod"); ("dd", Text "%d diwrnod");
     ("M", Text "mis"); ("MM", Text "%d mis"); ("y", Text "blwyddyn"); ("yy", Text "%d flynedd")]
    "Invalid date" None.

Definition da_relative : Relative :=
  mkRelative "da" (Around "om %s") (Around "%s siden")
    [("s", Text "få sekunder"); ("ss", Text "%d sekunder"); ("m", Text "et minut"); ("mm", Text "%d minutter");
     ("h", Text "en time"); ("hh", Text "%d timer"); ("d", Text "en dag"); ("dd", Text "%d dage");
     ("M", Text "en måned"); ("MM", Text "%d måneder"); ("y", Text "et år"); ("yy", Text "%d år")]
    "Invalid date" None.

Definition dv_relative : Relative :=
  mkRelative "dv" (Around "ތެރޭގައި %s") (Around "ކުރިން %s")
    [("s", Text "ސިކުންތުކޮޅެއް"); ("ss", Text "d% ސިކުންތު"); ("m", Text "މިނިޓެއް");
     ("mm", Text "މިނިޓު %d"); ("h", Text "ގަޑިއިރެއް"); ("hh", Text "ގަޑިއިރު %d"); ("d", Text "ދުވަހެއް");
     ("dd", Text "ދުވަސް %d"); ("M", Text "މަހެއް"); ("MM", Text "މަސް %d"); ("y", Text "އަހަރެއް");
     ("yy", Text "އަހަރު %d")]
    "Invalid date" (Some dv_numerals).

Definition el_relative : Relative :=
  mkRelative "el" (Around "σε %s") (Around "%s πριν")
    [("s", Text "λίγα δευτερόλεπτα"); ("ss", Text "%d δευτερόλεπτα"); ("m", Text "ένα λεπτό");
     ("mm", Text "%d λεπτά"); ("h", Text "μία ώρα"); ("hh", Text "%d ώρες"); ("d", Text "μία μέρα");
     ("dd", Text "%d μέρες"); ("M", Text "ένας μήνας"); ("MM", Text "%d μήνες"); ("y", Text "ένας χρόνος");
     ("yy", Text "%d χρόνια")]
    "Invalid date" None.

Definition en_au_relative : Relative :=
  mkRelative "en-au" (Around "in %s") (Around "%s ago")
    [("s", Text "a few seconds"); ("ss", Text "%d seconds"); ("m", Text "a minute"); ("mm", Text "%d minutes");
     ("h", Text "an hour"); ("hh", Text "%d hours"); ("d", Text "a day"); ("dd", Text "%d days");
     ("M", Text "a month"); ("MM", Text "%d months"); ("y", Text "a year"); ("yy", Text "%d years")]
    "Invalid date" None.

Definition en_ca_relative : Relative :=
  mkRelative "en-ca" (Around "in %s") (Around "%s ago")
    [("s", Text "a few seconds"); ("ss", Text "%d seconds"); ("m", Text "a minute"); ("mm", Text "%d minutes");
     ("h", Text "an hour"); ("hh", Text "%d hours"); ("d", Text "a day"); ("dd", Text "%d days");
     ("M", Text "a month"); ("MM", Text "%d months"); ("y", Text "a year"); ("yy", Text "%d years")]
    "Invalid date" None.

Definition en_gb_relative : Relative :=
  mkRelative "en-gb" (Around "in %s") (Around "%s ago")
    [("s", Text "a few seconds"); ("ss", Text "%d seconds"); ("m", Text "a minute"); ("mm", Text "%d minutes");
     ("h", Text "an hour"); ("hh", Text "%d hours"); ("d", Text "a day"); ("dd", Text "%d days");
     ("M", Text "a month"); ("MM", Text "%d months"); ("y", Text "a year"); ("yy", Text "%d years")]
    "Invalid date" None.

Definition en_ie_relative : Relative :=
  mkRelative "en-ie" (Around "in %s") (Around "%s ago")
    [("s", Text "a few seconds"); ("ss", Text "%d seconds"); ("m", Text "a minute"); ("mm", Text "%d minutes");
     ("h", Text "an hour"); ("hh", Text "%d hours"); ("d", Text "a day"); ("dd", Text "%d days");
     ("M", Text "a month"); ("MM", Text "%d months"); ("y", Text "a year"); ("yy", Text "%d years")]
    "Invalid date" None.

Definition en_il_relative : Relative :=
  mkRelative "en-il" (Around "in %s") (Around "%s ago")
    [("s", Text "a few seconds"); ("ss", Text "%d seconds"); ("m", Text "a minute"); ("mm", Text "%d minutes");
     ("h", Text "an hour"); ("hh", Text "%d hours"); ("d", Text "a day"); ("dd", Text "%d days");
     ("M", Text "a month"); ("MM", Text "%d months"); ("y", Text "a year"); ("yy", Text "%d years")]
    "Invalid date" None.

Definition en_in_relative : Relative :=
  mkRelative "en-in" (Around "in %s") (Around "%s ago")
    [("s", Text "a few seconds"); ("ss", Text "%d seconds"); ("m", Text "a minute"); ("mm", Text "%d minutes");
     ("h", Text "an hour"); ("hh", Text "%d hours"); ("d", Text "a day"); ("dd", Text "%d days");
     ("M", Text "a month"); ("MM", Text "%d months"); ("y", Text "a year"); ("yy", Text "%d years")]
    "Invalid date" None.

Definition en_nz_relative : Relative :=
  mkRelative "en-nz" (Around "in %s") (Around "%s ago")
    [("s", Text "a few seconds"); ("ss", Text "%d seconds"); ("m", Text "a minute"); ("mm", Text "%d minutes");
     ("h", Text "an hour"); ("hh", Text "%d hours"); ("d", Text "a day"); ("dd", Text "%d days");
     ("M", Text "a month"); ("MM", Text "%d months"); ("y", Text "a year"); ("yy", Text "%d years")]
    "Invalid date" None.

Definition en_sg_relative : Relative :=
  mkRelative "en-sg" (Around "in %s") (Around "%s ago")
    [("s", Text "a few seconds"); ("ss", Text "%d seconds"); ("m", Text "a minute"); ("mm", Text "%d minutes");
     ("h", Text "an hour"); ("hh", Text "%d hours"); ("d", Text "a day"); ("dd", Text "%d days");
     ("M", Text "a month"); ("MM", Text "%d months"); ("y", Text "a year"); ("yy", Text "%d years")]
    "Invalid date" None.

Definition eo_relative : Relative :=
  mkRelative "eo" (Around "post %s") (Around "antaŭ %s")
    [("s", Text "kelkaj sekundoj"); ("ss", Text "%d sekundoj"); ("m", Text "unu minuto");
     ("mm", Text "%d minutoj"); ("h", Text "unu horo"); ("hh", Text "%d horoj"); ("d", Text "unu tago");
     ("dd", Text "%d tagoj"); ("M", Text "unu monato"); ("MM", Text "%d monatoj"); ("y", Text "unu jaro");
     ("yy", Text "%d jaroj")]
    "Invalid date" None.

Definition es_relative : Relative :=
  mkRelative "es" (Around "en %s") (Around "hace %s")
    [("s", Text "unos segundos"); ("ss", Text "%d segundos"); ("m", Text "un minuto");
     ("mm", Text "%d minutos"); ("h", Text "una hora"); ("hh", Text "%d horas"); ("d", Text "un día");
     ("dd", Text "%d días"); ("w", Text "una semana"); ("ww", Text "%d semanas"); ("M", Text "un mes");
     ("MM", Text "%d meses"); ("y", Text "un año"); ("yy", Text "%d años")]
    "Fecha inválida" None.

Definition es_do_relative : Relative :=
  mkRelative "es-do" (Around "en %s") (Around "hace %s")
    [("s", Text "unos segundos"); ("ss", Text "%d segundos"); ("m", Text "un minuto");
     ("mm", Text "%d minutos"); ("h", Text "una hora"); ("hh", Text "%d horas"); ("d", Text "un día");
     ("dd", Text "%d días"); ("w", Text "una semana"); ("ww", Text "%d semanas"); ("M", Text "un mes");
     ("MM", Text "%d meses"); ("y", Text "un año"); ("yy", Text "%d años")]
    "Invalid date" None.

Definition es_mx_relative : Relative :=
  mkRelative "es-mx" (Around "en %s") (Around "hace %s")
    [("s", Text "unos segundos"); ("ss", Text "%d segundos"); ("m", Text "un minuto");
     ("mm", Text "%d minutos"); ("h", Text "una hora"); ("hh", Text "%d horas"); ("d", Text "un día");
     ("dd", Text "%d días"); ("w", Text "una semana"); ("ww", Text "%d semanas"); ("M", Text "un mes");
     ("MM", Text "%d meses"); ("y", Text "un año"); ("yy", Text "%d años")]
    "Fecha inválida" None.

Definition es_us_relative : Relative :=
  mkRelative "es-us" (Around "en %s") (Around "hace %s")
    [("s", Text "unos segundos"); ("ss", Text "%d segundos"); ("m", Text "un minuto");
     ("mm", Text "%d minutos"); ("h", Text "una hora"); ("hh", Text "%d horas"); ("d", Text "un día");
     ("dd", Text "%d días"); ("w", Text "una semana"); ("ww", Text "%d semanas"); ("M", Text "un mes");
     ("MM", Text "%d meses"); ("y", Text "un año"); ("yy", Text "%d años")]
    "Invalid date" None.

Definition eu_relative : Relative :=
  mkRelative "eu" (Around "%s barru") (Around "duela %s")
    [("s", Text "segundo batzuk"); ("ss", Text "%d segundo"); ("m", Text "minutu bat");
     ("mm", Text "%d minutu"); ("h", Text "ordu bat"); ("hh", Text "%d ordu"); ("d", Text "egun bat");
     ("dd", Text "%d egun"); ("M", Text "hilabete bat"); ("MM", Text "%d hilabete"); ("y", Text "urte bat");
     ("yy", Text "%d urte")]
    "Invalid date" None.

Definition fa_relative : Relative :=
  mkRelative "fa" (Around "در %s") (Around "%s پیش")
    [("s", Text "چند ثانیه"); ("ss", Text "%d ثانیه"); ("m", Text "یک دقیقه"); ("mm", Text "%d دقیقه");
     ("h", Text "یک ساعت"); ("hh", Text "%d ساعت"); ("d", Text "یک روز"); ("dd", Text "%d روز");
     ("M", Text "یک ماه"); ("MM", Text "%d ماه"); ("y", Text "یک سال"); ("yy", Text "%d سال")]
    "Invalid date" (Some fa_numerals).

Definition fil_relative : Relative :=
  mkRelative "fil" (Around "sa loob ng %s") (Around "%s ang nakalipas")
    [("s", Text "ilang segundo"); ("ss", Text "%d segundo"); ("m", Text "isang minuto");
     ("mm", Text "%d minuto"); ("h", Text "isang oras"); ("hh", Text "%d oras"); ("d", Text "isang araw");
     ("dd", Text "%d araw"); ("M", Text "isang buwan"); ("MM", Text "%d buwan"); ("y", Text "isang taon");
     ("yy", Text "%d taon")]
    "Invalid date" None.

Definition fo_relative : Relative :=
  mkRelative "fo" (Around "um %s") (Around "%s síðani")
    [("s", Text "fá sekund"); ("ss", Text "%d sekundir"); ("m", Text "ein minuttur");
     ("mm", Text "%d minuttir"); ("h", Text "ein tími"); ("hh", Text "%d tímar"); ("d", Text "ein dagur");
     ("dd", Text "%d dagar"); ("M", Text "ein mánaður"); ("MM", Text "%d mánaðir"); ("y", Text "eitt ár");
     ("yy", Text "%d ár")]
    "Invalid date" None.

Definition fr_relative : Relative :=
  mkRelative "fr" (Around "dans %s") (Around "il y a %s")
    [("s", Text "quelques secondes"); ("ss", Text "%d secondes"); ("m", Text "une minute");
     ("mm", Text "%d minutes"); ("h", Text "une heure"); ("hh", Text "%d heures"); ("d", Text "un jour");
     ("dd", Text "%d jours"); ("w", Text "une semaine"); ("ww", Text "%d semaines"); ("M", Text "un mois");
     ("MM", Text "%d mois"); ("y", Text "un an"); ("yy", Text "%d ans")]
    "Invalid date" None.

Definition fr_ca_relative : Relative :=
  mkRelative "fr-ca" (Around "dans %s") (Around "il y a %s")
    [("s", Text "quelques secondes"); ("ss", Text "%d secondes"); ("m", Text "une minute");
     ("mm", Text "%d minutes"); ("h", Text "une heure"); ("hh", Text "%d heures"); ("d", Text "un jour");
     ("dd", Text "%d jours"); ("M", Text "un mois"); ("MM", Text "%d mois"); ("y", Text "un an");
     ("yy", Text "%d ans")]
    "Invalid date" None.

Definition fr_ch_relative : Relative :=
  mkRelative "fr-ch" (Around "dans %s") (Around "il y a %s")
    [("s", Text "quelques secondes"); ("ss", Text "%d secondes"); ("m", Text "une minute");
     ("mm", Text "%d minutes"); ("h", Text "une heure"); ("hh", Text "%d heures"); ("d", Text "un jour");
     ("dd", Text "%d jours"); ("M", Text "un mois"); ("MM", Text "%d mois"); ("y", Text "un an");
     ("yy", Text "%d ans")]
    "Invalid date" None.

Definition fy_relative : Relative :=
  mkRelative "fy" (Around "oer %s") (Around "%s lyn")
    [("s", Text "in pear sekonden"); ("ss", Text "%d sekonden"); ("m", Text "ien minút");
     ("mm", Text "%d minuten"); ("h", Text "ien oere"); ("hh", Text "%d oeren"); ("d", Text "ien dei");
     ("dd", Text "%d dagen"); ("M", Text "ien moanne"); ("MM", Text "%d moannen"); ("y", Text "ien jier");
     ("yy", Text "%d jierren")]
    "Invalid date" None.

Definition ga_relative : Relative :=
  mkRelative "ga" (Around "i %s") (Around "%s ó shin")
    [("s", Text "cúpla soicind"); ("ss", Text "%d soicind"); ("m", Text "nóiméad"); ("mm", Text "%d nóiméad");
     ("h", Text "uair an chloig"); ("hh", Text "%d uair an chloig"); ("d", Text "lá"); ("dd", Text "%d lá");
     ("M", Text "mí"); ("MM", Text "%d míonna"); ("y", Text "bliain"); ("yy", Text "%d bliain")]
    "Invalid date" None.

Definition gd_relative : Relative :=
  mkRelative "gd" (Around "ann an %s") (Around "bho chionn %s")
    [("s", Text "beagan diogan"); ("ss", Text "%d diogan"); ("m", Text "mionaid");
     ("mm", Text "%d mionaidean"); ("h", Text "uair"); ("hh", Text "%d uairean"); ("d", Text "latha");
     ("dd", Text "%d latha"); ("M", Text "mìos"); ("MM", Text "%d mìosan"); ("y", Text "bliadhna");
     ("yy", Text "%d bliadhna")]
    "Invalid date" None.

Definition gu_relative : Relative :=
  mkRelative "gu" (Around "%s મા") (Around "%s પહેલા")
    [("s", Text "અમુક પળો"); ("ss", Text "%d સેકંડ"); ("m", Text "એક મિનિટ"); ("mm", Text "%d મિનિટ");
     ("h", Text "એક કલાક"); ("hh", Text "%d કલાક"); ("d", Text "એક દિવસ"); ("dd", Text "%d દિવસ");
     ("M", Text "એક મહિનો"); ("MM", Text "%d મહિનો"); ("y", Text "એક વર્ષ"); ("yy", Text "%d વર્ષ")]
    "Invalid date" (Some gu_numerals).

Definition hi_relative : Relative :=
  mkRelative "hi" (Around "%s में") (Around "%s पहले")
    [("s", Text "कुछ ही क्षण"); ("ss", Text "%d सेकंड"); ("m", Text "एक मिनट"); ("mm", Text "%d मिनट");
     ("h", Text "एक घंटा"); ("hh", Text "%d घंटे"); ("d", Text "एक दिन"); ("dd", Text "%d दिन");
     ("M", Text "एक महीने"); ("MM", Text "%d महीने"); ("y", Text "एक वर्ष"); ("yy", Text "%d वर्ष")]
    "Invalid date" (Some hi_numerals).

Definition hy_am_relative : Relative :=
  mkRelative "hy-am" (Around "%s հետո") (Around "%s առաջ")
    [("s", Text "մի քանի վայրկյան"); ("ss", Text "%d վայրկյան"); ("m", Text "րոպե"); ("mm", Text "%d րոպե");
     ("h", Text "ժամ"); ("hh", Text "%d ժամ"); ("d", Text "օր"); ("dd", Text "%d օր"); ("M", Text "ամիս");
     ("MM", Text "%d ամիս"); ("y", Text "տարի"); ("yy", Text "%d տարի")]
    "Invalid date" None.

Definition id_relative : Relative :=
  mkRelative "id" (Around "dalam %s") (Around "%s yang lalu")
    [("s", Text "beberapa detik"); ("ss", Text "%d detik"); ("m", Text "semenit"); ("mm", Text "%d menit");
     ("h", Text "sejam"); ("hh", Text "%d jam"); ("d", Text "sehari"); ("dd", Text "%d hari");
     ("M", Text "sebulan"); ("MM", Text "%d bulan"); ("y", Text "setahun"); ("yy", Text "%d tahun")]
    "Invalid date" None.

Definition it_relative : Relative :=
  mkRelative "it" (Around "tra %s") (Around "%s fa")
    [("s", Text "alcuni secondi"); ("ss", Text "%d secondi"); ("m", Text "un minuto");
     ("mm", Text "%d minuti"); ("h", Text "un'ora"); ("hh", Text "%d ore"); ("d", Text "un giorno");
     ("dd", Text "%d giorni"); ("w", Text "una settimana"); ("ww", Text "%d settimane"); ("M", Text "un mese");
     ("MM", Text "%d mesi"); ("y", Text "un anno"); ("yy", Text "%d anni")]
    "Invalid date" None.

Definition ja_relative : Relative :=
  mkRelative "ja" (Around "%s後") (Around "%s前")
    [("s", Text "数秒"); ("ss", Text "%d秒"); ("m", Text "1分"); ("mm", Text "%d分"); ("h", Text "1時間");
     ("hh", Text "%d時間"); ("d", Text "1日"); ("dd", Text "%d日"); ("M", Text "1ヶ月"); ("MM", Text "%dヶ月");
     ("y", Text "1年"); ("yy", Text "%d年")]
    "Invalid date" None.

Definition jv_relative : Relative :=
  mkRelative "jv" (Around "wonten ing %s") (Around "%s ingkang kepengker")
    [("s", Text "sawetawis detik"); ("ss", Text "%d detik"); ("m", Text "setunggal menit");
     ("mm", Text "%d menit"); ("h", Text "setunggal jam"); ("hh", Text "%d jam"); ("d", Text "sedinten");
     ("dd", Text "%d dinten"); ("M", Text "sewulan"); ("MM", Text "%d wulan"); ("y", Text "setaun");
     ("yy", Text "%d taun")]
    "Invalid date" None.

Definition kk_relative : Relative :=
  mkRelative "kk" (Around "%s ішінде") (Around "%s бұрын")
    [("s", Text "бірнеше секунд"); ("ss", Text "%d секунд"); ("m", Text "бір минут"); ("mm", Text "%d минут");
     ("h", Text "бір сағат"); ("hh", Text "%d сағат"); ("d", Text "бір күн"); ("dd", Text "%d күн");
     ("M", Text "бір ай"); ("MM", Text "%d ай"); ("y", Text "бір жыл"); ("yy", Text "%d жыл")]
    "Invalid date" None.

Definition km_relative : Relative :=
  mkRelative "km" (Around "%sទៀត") (Around "%sមុន")
    [("s", Text "ប៉ុន្មានវិនាទី"); ("ss", Text "%d វិនាទី"); ("m", Text "មួយនាទី"); ("mm", Text "%d នាទី");
     ("h", Text "មួយម៉ោង"); ("hh", Text "%d ម៉ោង"); ("d", Text "មួយថ្ងៃ"); ("dd", Text "%d ថ្ងៃ");
     ("M", Text "មួយខែ"); ("MM", Text "%d ខែ"); ("y", Text "មួយឆ្នាំ"); ("yy", Text "%d ឆ្នាំ")]
    "Invalid date" (Some km_numerals).

Definition kn_relative : Relative :=
  mkRelative "kn" (Around "%s ನಂತರ") (Around "%s ಹಿಂದೆ")
    [("s", Text "ಕೆಲವು ಕ್ಷಣಗಳು"); ("ss", Text "%d ಸೆಕೆಂಡುಗಳು"); ("m", Text "ಒಂದು ನಿಮಿಷ");
     ("mm", Text "%d ನಿಮಿಷ"); ("h", Text "ಒಂದು ಗಂಟೆ"); ("hh", Text "%d ಗಂಟೆ"); ("d", Text "ಒಂದು ದಿನ");
     ("dd", Text "%d ದಿನ"); ("M", Text "ಒಂದು ತಿಂಗಳು"); ("MM", Text "%d ತಿಂಗಳು"); ("y", Text "ಒಂದು ವರ್ಷ");
     ("yy", Text "%d ವರ್ಷ")]
    "Invalid date" (Some kn_numerals).

Definition ko_relative : Relative :=
  mkRelative "ko" (Around "%s 후") (Around "%s 전")
    [("s", Text "몇 초"); ("ss", Text "%d초"); ("m", Text "1분"); ("mm", Text "%d분"); ("h", Text "한 시간");
     ("hh", Text "%d시간"); ("d", Text "하루"); ("dd", Text "%d일"); ("M", Text "한 달"); ("MM", Text "%d달");
     ("y", Text "일 년"); ("yy", Text "%d년")]
    "Invalid date" None.

Definition ku_relative : Relative :=
  mkRelative "ku" (Around "له‌ %s") (Around "%s")
    [("s", Text "چه‌ند چركه‌یه‌ك"); ("ss", Text "چركه‌ %d"); ("m", Text "یه‌ك خوله‌ك");
     ("mm", Text "%d خوله‌ك"); ("h", Text "یه‌ك كاتژمێر"); ("hh", Text "%d كاتژمێر"); ("d", Text "یه‌ك ڕۆژ");
     ("dd", Text "%d ڕۆژ"); ("M", Text "یه‌ك مانگ"); ("MM", Text "%d مانگ"); ("y", Text "یه‌ك ساڵ");
     ("yy", Text "%d ساڵ")]
    "Invalid date" (Some ku_numerals).

Definition ky_relative : Relative :=
  mkRelative "ky" (Around "%s ичинде") (Around "%s мурун")
    [("s", Text "бирнече секунд"); ("ss", Text "%d секунд"); ("m", Text "бир мүнөт"); ("mm", Text "%d мүнөт");
     ("h", Text "бир саат"); ("hh", Text "%d саат"); ("d", Text "бир күн"); ("dd", Text "%d күн");
     ("M", Text "бир ай"); ("MM", Text "%d ай"); ("y", Text "бир жыл"); ("yy", Text "%d жыл")]
    "Invalid date" None.

Definition lo_relative : Relative :=
  mkRelative "lo" (Around "ອີກ %s") (Around "%sຜ່ານມາ")
    [("s", Text "ບໍ່ເທົ່າໃດວິນາທີ"); ("ss", Text "%d ວິນາທີ"); ("m", Text "1 ນາທີ"); ("mm", Text "%d ນາທີ");
     ("h", Text "1 ຊົ່ວໂມງ"); ("hh", Text "%d ຊົ່ວໂມງ"); ("d", Text "1 ມື້"); ("dd", Text "%d ມື້");
     ("M", Text "1 ເດືອນ"); ("MM", Text "%d ເດືອນ"); ("y", Text "1 ປີ"); ("yy", Text "%d ປີ")]
    "Invalid date" None.

Definition mi_relative : Relative :=
  mkRelative "mi" (Around "i roto i %s") (Around "%s i mua")
    [("s", Text "te hēkona ruarua"); ("ss", Text "%d hēkona"); ("m", Text "he meneti");
     ("mm", Text "%d meneti"); ("h", Text "te haora"); ("hh", Text "%d haora"); ("d", Text "he ra");
     ("dd", Text "%d ra"); ("M", Text "he marama"); ("MM", Text "%d marama"); ("y", Text "he tau");
     ("yy", Text "%d tau")]
    "Invalid date" None.

Definition mk_relative : Relative :=
  mkRelative "mk" (Around "за %s") (Around "пред %s")
    [("s", Text "неколку секунди"); ("ss", Text "%d секунди"); ("m", Text "една минута");
     ("mm", Text "%d минути"); ("h", Text "еден час"); ("hh", Text "%d часа"); ("d", Text "еден ден");
     ("dd", Text "%d дена"); ("M", Text "еден месец"); ("MM", Text "%d месеци"); ("y", Text "една година");
     ("yy", Text "%d години")]
    "Invalid date" None.

Definition ml_relative : Relative :=
  mkRelative "ml" (Around "%s കഴിഞ്ഞ്") (Around "%s മുൻപ്")
    [("s", Text "അൽപ നിമിഷങ്ങൾ"); ("ss", Text "%d സെക്കൻഡ്"); ("m", Text "ഒരു മിനിറ്റ്");
     ("mm", Text "%d മിനിറ്റ്"); ("h", Text "ഒരു മണിക്കൂർ"); ("hh", Text "%d മണിക്കൂർ");
     ("d", Text "ഒരു ദിവസം"); ("dd", Text "%d ദിവസം"); ("M", Text "ഒരു മാസം"); ("MM", Text "%d മാസം");
     ("y", Text "ഒരു വർഷം"); ("yy", Text "%d വർഷം")]
    "Invalid date" None.

Definition ms_relative : Relative :=
  mkRelative "ms" (Around "dalam %s") (Around "%s yang lepas")
    [("s", Text "beberapa saat"); ("ss", Text "%d saat"); ("m", Text "seminit"); ("mm", Text "%d minit");
     ("h", Text "sejam"); ("hh", Text "%d jam"); ("d", Text "sehari"); ("dd", Text "%d hari");
     ("M", Text "sebulan"); ("MM", Text "%d bulan"); ("y", Text "setahun"); ("yy", Text "%d tahun")]
    "Invalid date" None.

Definition ms_my_relative : Relative :=
  mkRelative "ms-my" (Around "dalam %s") (Around "%s yang lepas")
    [("s", Text "beberapa saat"); ("ss", Text "%d saat"); ("m", Text "seminit"); ("mm", Text "%d minit");
     ("h", Text "sejam"); ("hh", Text "%d jam"); ("d", Text "sehari"); ("dd", Text "%d hari");
     ("M", Text "sebulan"); ("MM", Text "%d bulan"); ("y", Text "setahun"); ("yy", Text "%d tahun")]
    "Invalid date" None.

Definition mt_relative : Relative :=
  mkRelative "mt" (Around "f’ %s") (Around "%s ilu")
    [("s", Text "ftit sekondi"); ("ss", Text "%d sekondi"); ("m", Text "minuta"); ("mm", Text "%d minuti");
     ("h", Text "siegħa"); ("hh", Text "%d siegħat"); ("d", Text "ġurnata"); ("dd", Text "%d ġranet");
     ("M", Text "xahar"); ("MM", Text "%d xhur"); ("y", Text "sena"); ("yy", Text "%d sni")]
    "Invalid date" None.

Definition my_relative : Relative :=
  mkRelative "my" (Around "လာမည့် %s မှာ") (Around "လွန်ခဲ့သော %s က")
    [("s", Text "စက္ကန်.အနည်းငယ်"); ("ss", Text "%d စက္ကန့်"); ("m", Text "တစ်မိနစ်"); ("mm", Text "%d မိနစ်");
     ("h", Text "တစ်နာရီ"); ("hh", Text "%d နာရီ"); ("d", Text "တစ်ရက်"); ("dd", Text "%d ရက်");
     ("M", Text "တစ်လ"); ("MM", Text "%d လ"); ("y", Text "တစ်နှစ်"); ("yy", Text "%d နှစ်")]
    "Invalid date" (Some my_numerals).

Definition nb_relative : Relative :=
  mkRelative "nb" (Around "om %s") (Around "%s siden")
    [("s", Text "noen sekunder"); ("ss", Text "%d sekunder"); ("m", Text "ett minutt");
     ("mm", Text "%d minutter"); ("h", Text "en time"); ("hh", Text "%d timer"); ("d", Text "en dag");
     ("dd", Text "%d dager"); ("w", Text "en uke"); ("ww", Text "%d uker"); ("M", Text "en måned");
     ("MM", Text "%d måneder"); ("y", Text "ett år"); ("yy", Text "%d år")]
    "Invalid date" None.

Definition ne_relative : Relative :=
  mkRelative "ne" (Around "%sमा") (Around "%s अगाडि")
    [("s", Text "केही क्षण"); ("ss", Text "%d सेकेण्ड"); ("m", Text "एक मिनेट"); ("mm", Text "%d मिनेट");
     ("h", Text "एक घण्टा"); ("hh", Text "%d घण्टा"); ("d", Text "एक दिन"); ("dd", Text "%d दिन");
     ("M", Text "एक महिना"); ("MM", Text "%d महिना"); ("y", Text "एक बर्ष"); ("yy", Text "%d बर्ष")]
    "Invalid date" (Some ne_numerals).

Definition nl_relative : Relative :=
  mkRelative "nl" (Around "over %s") (Around "%s geleden")
    [("s", Text "een paar seconden"); ("ss", Text "%d seconden"); ("m", Text "één minuut");
     ("mm", Text "%d minuten"); ("h", Text "één uur"); ("hh", Text "%d uur"); ("d", Text "één dag");
     ("dd", Text "%d dagen"); ("w", Text "één week"); ("ww", Text "%d weken"); ("M", Text "één maand");
     ("MM", Text "%d maanden"); ("y", Text "één jaar"); ("yy", Text "%d jaar")]
    "Invalid date" None.

Definition nl_be_relative : Relative :=
  mkRelative "nl-be" (Around "over %s") (Around "%s geleden")
    [("s", Text "een paar seconden"); ("ss", Text "%d seconden"); ("m", Text "één minuut");
     ("mm", Text "%d minuten"); ("h", Text "één uur"); ("hh", Text "%d uur"); ("d", Text "één dag");
     ("dd", Text "%d dagen"); ("M", Text "één maand"); ("MM", Text "%d maanden"); ("y", Text "één jaar");
     ("yy", Text "%d jaar")]
    "Invalid date" None.

Definition nn_relative : Relative :=
  mkRelative "nn" (Around "om %s") (Around "%s sidan")
    [("s", Text "nokre sekund"); ("ss", Text "%d sekund"); ("m", Text "eit minutt"); ("mm", Text "%d minutt");
     ("h", Text "ein time"); ("hh", Text "%d timar"); ("d", Text "ein dag"); ("dd", Text "%d dagar");
     ("w", Text "ei veke"); ("ww", Text "%d veker"); ("M", Text "ein månad"); ("MM", Text "%d månader");
     ("y", Text "eit år"); ("yy", Text "%d år")]
    "Invalid date" None.

Definition oc_lnc_relative : Relative :=
  mkRelative "oc-lnc" (Around "d'aquí %s") (Around "fa %s")
    [("s", Text "unas segondas"); ("ss", Text "%d segondas"); ("m", Text "una minuta");
     ("mm", Text "%d minutas"); ("h", Text "una ora"); ("hh", Text "%d oras"); ("d", Text "un jorn");
     ("dd", Text "%d jorns"); ("M", Text "un mes"); ("MM", Text "%d meses"); ("y", Text "un an");
     ("yy", Text "%d ans")]
    "Invalid date" None.

Definition pa_in_relative : Relative :=
  mkRelative "pa-in" (Around "%s ਵਿੱਚ") (Around "%s ਪਿਛਲੇ")
    [("s", Text "ਕੁਝ ਸਕਿੰਟ"); ("ss", Text "%d ਸਕਿੰਟ"); ("m", Text "ਇਕ ਮਿੰਟ"); ("mm", Text "%d ਮਿੰਟ");
     ("h", Text "ਇੱਕ ਘੰਟਾ"); ("hh", Text "%d ਘੰਟੇ"); ("d", Text "ਇੱਕ ਦਿਨ"); ("dd", Text "%d ਦਿਨ");
     ("M", Text "ਇੱਕ ਮਹੀਨਾ"); ("MM", Text "%d ਮਹੀਨੇ"); ("y", Text "ਇੱਕ ਸਾਲ"); ("yy", Text "%d ਸਾਲ")]
    "Invalid date" (Some pa_in_numerals).

Definition pt_relative : Relative :=
  mkRelative "pt" (Around "em %s") (Around "há %s")
    [("s", Text "segundos"); ("ss", Text "%d segundos"); ("m", Text "um minuto"); ("mm", Text "%d minutos");
     ("h", Text "uma hora"); ("hh", Text "%d horas"); ("d", Text "um dia"); ("dd", Text "%d dias");
     ("w", Text "uma semana"); ("ww", Text "%d semanas"); ("M", Text "um mês"); ("MM", Text "%d meses");
     ("y", Text "um ano"); ("yy", Text "%d anos")]
    "Invalid date" None.

Definition pt_br_relative : Relative :=
  mkRelative "pt-br" (Around "em %s") (Around "há %s")
    [("s", Text "poucos segundos"); ("ss", Text "%d segundos"); ("m", Text "um minuto");
     ("mm", Text "%d minutos"); ("h", Text "uma hora"); ("hh", Text "%d horas"); ("d", Text "um dia");
     ("dd", Text "%d dias"); ("M", Text "um mês"); ("MM", Text "%d meses"); ("y", Text "um ano");
     ("yy", Text "%d anos")]
    "Data inválida" None.

Definition sd_relative : Relative :=
  mkRelative "sd" (Around "%s پوء") (Around "%s اڳ")
    [("s", Text "چند سيڪنڊ"); ("ss", Text "%d سيڪنڊ"); ("m", Text "هڪ منٽ"); ("mm", Text "%d منٽ");
     ("h", Text "هڪ ڪلاڪ"); ("hh", Text "%d ڪلاڪ"); ("d", Text "هڪ ڏينهن"); ("dd", Text "%d ڏينهن");
     ("M", Text "هڪ مهينو"); ("MM", Text "%d مهينا"); ("y", Text "هڪ سال"); ("yy", Text "%d سال")]
    "Invalid date" (Some sd_numerals).

Definition se_relative : Relative :=
  mkRelative "se" (Around "%s geažes") (Around "maŋit %s")
    [("s", Text "moadde sekunddat"); ("ss", Text "%d sekunddat"); ("m", Text "okta minuhta");
     ("mm", Text "%d minuhtat"); ("h", Text "okta diimmu"); ("hh", Text "%d diimmut");
     ("d", Text "okta beaivi"); ("dd", Text "%d beaivvit"); ("M", Text "okta mánnu"); ("MM", Text "%d mánut");
     ("y", Text "okta jahki"); ("yy", Text "%d jagit")]
    "Invalid date" None.

Definition si_relative : Relative :=
  mkRelative "si" (Around "%sකින්") (Around "%sකට පෙර")
    [("s", Text "තත්පර කිහිපය"); ("ss", Text "තත්පර %d"); ("m", Text "මිනිත්තුව"); ("mm", Text "මිනිත්තු %d");
     ("h", Text "පැය"); ("hh", Text "පැය %d"); ("d", Text "දිනය"); ("dd", Text "දින %d"); ("M", Text "මාසය");
     ("MM", Text "මාස %d"); ("y", Text "වසර"); ("yy", Text "වසර %d")]
    "Invalid date" None.

Definition sq_relative : Relative :=
  mkRelative "sq" (Around "në %s") (Around "%s më parë")
    [("s", Text "disa sekonda"); ("ss", Text "%d sekonda"); ("m", Text "një minutë"); ("mm", Text "%d minuta");
     ("h", Text "një orë"); ("hh", Text "%d orë"); ("d", Text "një ditë"); ("dd", Text "%d ditë");
     ("M", Text "një muaj"); ("MM", Text "%d muaj"); ("y", Text "një vit"); ("yy", Text "%d vite")]
    "Invalid date" None.

Definition ss_relative : Relative :=
  mkRelative "ss" (Around "nga %s") (Around "wenteka nga %s")
    [("s", Text "emizuzwana lomcane"); ("ss", Text "%d mzuzwana"); ("m", Text "umzuzu");
     ("mm", Text "%d emizuzu"); ("h", Text "lihora"); ("hh", Text "%d emahora"); ("d", Text "lilanga");
     ("dd", Text "%d emalanga"); ("M", Text "inyanga"); ("MM", Text "%d tinyanga"); ("y", Text "umnyaka");
     ("yy", Text "%d iminyaka")]
    "Invalid date" None.

Definition sv_relative : Relative :=
  mkRelative "sv" (Around "om %s") (Around "för %s sedan")
    [("s", Text "några sekunder"); ("ss", Text "%d sekunder"); ("m", Text "en minut");
     ("mm", Text "%d minuter"); ("h", Text "en timme"); ("hh", Text "%d timmar"); ("d", Text "en dag");
     ("dd", Text "%d dagar"); ("M", Text "en månad"); ("MM", Text "%d månader"); ("y", Text "ett år");
     ("yy", Text "%d år")]
    "Invalid date" None.

Definition sw_relative : Relative :=
  mkRelative "sw" (Around "%s baadaye") (Around "tokea %s")
    [("s", Text "hivi punde"); ("ss", Text "sekunde %d"); ("m", Text "dakika moja"); ("mm", Text "dakika %d");
     ("h", Text "saa limoja"); ("hh", Text "masaa %d"); ("d", Text "siku moja"); ("dd", Text "siku %d");
     ("M", Text "mwezi mmoja"); ("MM", Text "miezi %d"); ("y", Text "mwaka mmoja"); ("yy", Text "miaka %d")]
    "Invalid date" None.

Definition ta_relative : Relative :=
  mkRelative "ta" (Around "%s இல்") (Around "%s முன்")
    [("s", Text "ஒரு சில விநாடிகள்"); ("ss", Text "%d விநாடிகள்"); ("m", Text "ஒரு நிமிடம்");
     ("mm", Text "%d நிமிடங்கள்"); ("h", Text "ஒரு மணி நேரம்"); ("hh", Text "%d மணி நேரம்");
     ("d", Text "ஒரு நாள்"); ("dd", Text "%d நாட்கள்"); ("M", Text "ஒரு மாதம்"); ("MM", Text "%d மாதங்கள்");
     ("y", Text "ஒரு வருடம்"); ("yy", Text "%d ஆண்டுகள்")]
    "Invalid date" (Some ta_numerals).

Definition te_relative : Relative :=
  mkRelative "te" (Around "%s లో") (Around "%s క్రితం")
    [("s", Text "కొన్ని క్షణాలు"); ("ss", Text "%d సెకన్లు"); ("m", Text "ఒక నిమిషం");
     ("mm", Text "%d నిమిషాలు"); ("h", Text "ఒక గంట"); ("hh", Text "%d గంటలు"); ("d", Text "ఒక రోజు");
     ("dd", Text "%d రోజులు"); ("M", Text "ఒక నెల"); ("MM", Text "%d నెలలు"); ("y", Text "ఒక సంవత్సరం");
     ("yy", Text "%d సంవత్సరాలు")]
    "Invalid date" None.

Definition tet_relative : Relative :=
  mkRelative "tet" (Around "iha %s") (Around "%s liuba")
    [("s", Text "segundu balun"); ("ss", Text "segundu %d"); ("m", Text "minutu ida");
     ("mm", Text "minutu %d"); ("h", Text "oras ida"); ("hh", Text "oras %d"); ("d", Text "loron ida");
     ("dd", Text "loron %d"); ("M", Text "fulan ida"); ("MM", Text "fulan %d"); ("y", Text "tinan ida");
     ("yy", Text "tinan %d")]
    "Invalid date" None.

Definition tg_relative : Relative :=
  mkRelative "tg" (Around "баъди %s") (Around "%s пеш")
    [("s", Text "якчанд сония"); ("m", Text "як дақиқа"); ("mm", Text "%d дақиқа"); ("h", Text "як соат");
     ("hh", Text "%d соат"); ("d", Text "як рӯз"); ("dd", Text "%d рӯз"); ("M", Text "як моҳ");
     ("MM", Text "%d моҳ"); ("y", Text "як сол"); ("yy", Text "%d сол")]
    "Invalid date" None.

Definition th_relative : Relative :=
  mkRelative "th" (Around "อีก %s") (Around "%sที่แล้ว")
    [("s", Text "ไม่กี่วินาที"); ("ss", Text "%d วินาที"); ("m", Text "1 นาที"); ("mm", Text "%d นาที");
     ("h", Text "1 ชั่วโมง"); ("hh", Text "%d ชั่วโมง"); ("d", Text "1 วัน"); ("dd", Text "%d วัน");
     ("w", Text "1 สัปดาห์"); ("ww", Text "%d สัปดาห์"); ("M", Text "1 เดือน"); ("MM", Text "%d เดือน");
     ("y", Text "1 ปี"); ("yy", Text "%d ปี")]
    "Invalid date" None.

Definition tk_relative : Relative :=
  mkRelative "tk" (Around "%s soň") (Around "%s öň")
    [("s", Text "birnäçe sekunt"); ("m", Text "bir minut"); ("mm", Text "%d minut"); ("h", Text "bir sagat");
     ("hh", Text "%d sagat"); ("d", Text "bir gün"); ("dd", Text "%d gün"); ("M", Text "bir aý");
     ("MM", Text "%d aý"); ("y", Text "bir ýyl"); ("yy", Text "%d ýyl")]
    "Invalid date" None.

Definition tl_ph_relative : Relative :=
  mkRelative "tl-ph" (Around "sa loob ng %s") (Around "%s ang nakalipas")
    [("s", Text "ilang segundo"); ("ss", Text "%d segundo"); ("m", Text "isang minuto");
     ("mm", Text "%d minuto"); ("h", Text "isang oras"); ("hh", Text "%d oras"); ("d", Text "isang araw");
     ("dd", Text "%d araw"); ("M", Text "isang buwan"); ("MM", Text "%d buwan"); ("y", Text "isang taon");
     ("yy", Text "%d taon")]
    "Invalid date" None.

Definition tr_relative : Relative :=
  mkRelative "tr" (Around "%s sonra") (Around "%s önce")
    [("s", Text "birkaç saniye"); ("ss", Text "%d saniye"); ("m", Text "bir dakika"); ("mm", Text "%d dakika");
     ("h", Text "bir saat"); ("hh", Text "%d saat"); ("d", Text "bir gün"); ("dd", Text "%d gün");
     ("w", Text "bir hafta"); ("ww", Text "%d hafta"); ("M", Text "bir ay"); ("MM", Text "%d ay");
     ("y", Text "bir yıl"); ("yy", Text "%d yıl")]
    "Invalid date" None.

Definition tzm_relative : Relative :=
  mkRelative "tzm" (Around "ⴷⴰⴷⵅ ⵙ ⵢⴰⵏ %s") (Around "ⵢⴰⵏ %s")
    [("s", Text "ⵉⵎⵉⴽ"); ("ss", Text "%d ⵉⵎⵉⴽ"); ("m", Text "ⵎⵉⵏⵓⴺ"); ("mm", Text "%d ⵎⵉⵏⵓⴺ");
     ("h", Text "ⵙⴰⵄⴰ"); ("hh", Text "%d ⵜⴰⵙⵙⴰⵄⵉⵏ"); ("d", Text "ⴰⵙⵙ"); ("dd", Text "%d oⵙⵙⴰⵏ");
     ("M", Text "ⴰⵢoⵓⵔ"); ("MM", Text "%d ⵉⵢⵢⵉⵔⵏ"); ("y", Text "ⴰⵙⴳⴰⵙ"); ("yy", Text "%d ⵉⵙⴳⴰⵙⵏ")]
    "Invalid date" None.

Definition tzm_latn_relative : Relative :=
  mkRelative "tzm-latn" (Around "dadkh s yan %s") (Around "yan %s")
    [("s", Text "imik"); ("ss", Text "%d imik"); ("m", Text "minuḍ"); ("mm", Text "%d minuḍ");
     ("h", Text "saɛa"); ("hh", Text "%d tassaɛin"); ("d", Text "ass"); ("dd", Text "%d ossan");
     ("M", Text "ayowr"); ("MM", Text "%d iyyirn"); ("y", Text "asgas"); ("yy", Text "%d isgasn")]
    "Invalid date" None.

Definition ug_cn_relative : Relative :=
  mkRelative "ug-cn" (Around "%s كېيىن") (Around "%s بۇرۇن")
    [("s", Text "نەچچە سېكونت"); ("ss", Text "%d سېكونت"); ("m", Text "بىر مىنۇت"); ("mm", Text "%d مىنۇت");
     ("h", Text "بىر سائەت"); ("hh", Text "%d سائەت"); ("d", Text "بىر كۈن"); ("dd", Text "%d كۈن");
     ("M", Text "بىر ئاي"); ("MM", Text "%d ئاي"); ("y", Text "بىر يىل"); ("yy", Text "%d يىل")]
    "Invalid date" (Some ug_cn_numerals).

Definition ur_relative : Relative :=
  mkRelative "ur" (Around "%s بعد") (Around "%s قبل")
    [("s", Text "چند سیکنڈ"); ("ss", Text "%d سیکنڈ"); ("m", Text "ایک منٹ"); ("mm", Text "%d منٹ");
     ("h", Text "ایک گھنٹہ"); ("hh", Text "%d گھنٹے"); ("d", Text "ایک دن"); ("dd", Text "%d دن");
     ("M", Text "ایک ماہ"); ("MM", Text "%d ماہ"); ("y", Text "ایک سال"); ("yy", Text "%d سال")]
    "Invalid date" (Some ur_numerals).

Definition uz_relative : Relative :=
  mkRelative "uz" (Around "Якин %s ичида") (Around "Бир неча %s олдин")
    [("s", Text "фурсат"); ("ss", Text "%d фурсат"); ("m", Text "бир дакика"); ("mm", Text "%d дакика");
     ("h", Text "бир соат"); ("hh", Text "%d соат"); ("d", Text "бир кун"); ("dd", Text "%d кун");
     ("M", Text "бир ой"); ("MM", Text "%d ой"); ("y", Text "бир йил"); ("yy", Text "%d йил")]
    "Invalid date" None.

Definition uz_latn_relative : Relative :=
  mkRelative "uz-latn" (Around "Yaqin %s ichida") (Around "Bir necha %s oldin")
    [("s", Text "soniya"); ("ss", Text "%d soniya"); ("m", Text "bir daqiqa"); ("mm", Text "%d daqiqa");
     ("h", Text "bir soat"); ("hh", Text "%d soat"); ("d", Text "bir kun"); ("dd", Text "%d kun");
     ("M", Text "bir oy"); ("MM", Text "%d oy"); ("y", Text "bir yil"); ("yy", Text "%d yil")]
    "Invalid date" None.

Definition vi_relative : Relative :=
  mkRelative "vi" (Around "%s tới") (Around "%s trước")
    [("s", Text "vài giây"); ("ss", Text "%d giây"); ("m", Text "một phút"); ("mm", Text "%d phút");
     ("h", Text "một giờ"); ("hh", Text "%d giờ"); ("d", Text "một ngày"); ("dd", Text "%d ngày");
     ("w", Text "một tuần"); ("ww", Text "%d tuần"); ("M", Text "một tháng"); ("MM", Text "%d tháng");
     ("y", Text "một năm"); ("yy", Text "%d năm")]
    "Invalid date" None.

Definition x_pseudo_relative : Relative :=
  mkRelative "x-pseudo" (Around "í~ñ %s") (Around "%s á~gó")
    [("s", Text "á ~féw ~sécó~ñds"); ("ss", Text "%d s~écóñ~ds"); ("m", Text "á ~míñ~úté");
     ("mm", Text "%d m~íñú~tés"); ("h", Text "á~ñ hó~úr"); ("hh", Text "%d h~óúrs"); ("d", Text "á ~dáý");
     ("dd", Text "%d d~áýs"); ("M", Text "á ~móñ~th"); ("MM", Text "%d m~óñt~hs"); ("y", Text "á ~ýéár");
     ("yy", Text "%d ý~éárs")]
    "Invalid date" None.

Definition yo_relative : Relative :=
  mkRelative "yo" (Around "ní %s") (Around "%s kọjá")
    [("s", Text "ìsẹjú aayá die"); ("ss", Text "aayá %d"); ("m", Text "ìsẹjú kan");
     ("mm", Text "ìsẹjú %d"); ("h", Text "wákati kan"); ("hh", Text "wákati %d"); ("d", Text "ọjọ́ kan");
     ("dd", Text "ọjọ́ %d"); ("M", Text "osù kan"); ("MM", Text "osù %d"); ("y", Text "ọdún kan");
     ("yy", Text "ọdún %d")]
    "Invalid date" None.

Definition zh_cn_relative : Relative :=
  mkRelative "zh-cn" (Around "%s后") (Around "%s前")
    [("s", Text "几秒"); ("ss", Text "%d 秒"); ("m", Text "1 分钟"); ("mm", Text "%d 分钟"); ("h", Text "1 小时");
     ("hh", Text "%d 小时"); ("d", Text "1 天"); ("dd", Text "%d 天"); ("w", Text "1 周"); ("ww", Text "%d 周");
     ("M", Text "1 个月"); ("MM", Text "%d 个月"); ("y", Text "1 年"); ("yy", Text "%d 年")]
    "Invalid date" None.

Definition zh_hk_relative : Relative :=
  mkRelative "zh-hk" (Around "%s後") (Around "%s前")
    [("s", Text "幾秒"); ("ss", Text "%d 秒"); ("m", Text "1 分鐘"); ("mm", Text "%d 分鐘"); ("h", Text "1 小時");
     ("hh", Text "%d 小時"); ("d", Text "1 天"); ("dd", Text "%d 天"); ("M", Text "1 個月"); ("MM", Text "%d 個月");
     ("y", Text "1 年"); ("yy", Text "%d 年")]
    "Invalid date" None.

Definition zh_mo_relative : Relative :=
  mkRelative "zh-mo" (Around "%s內") (Around "%s前")
    [("s", Text "幾秒"); ("ss", Text "%d 秒"); ("m", Text "1 分鐘"); ("mm", Text "%d 分鐘"); ("h", Text "1 小時");
     ("hh", Text "%d 小時"); ("d", Text "1 天"); ("dd", Text "%d 天"); ("M", Text "1 個月"); ("MM", Text "%d 個月");
     ("y", Text "1 年"); ("yy", Text "%d 年")]
    "Invalid date" None.

Definition zh_tw_relative : Relative :=
  mkRelative "zh-tw" (Around "%s後") (Around "%s前")
    [("s", Text "幾秒"); ("ss", Text "%d 秒"); ("m", Text "1 分鐘"); ("mm", Text "%d 分鐘"); ("h", Text "1 小時");
     ("hh", Text "%d 小時"); ("d", Text "1 天"); ("dd", Text "%d 天"); ("M", Text "1 個月"); ("MM", Text "%d 個月");
     ("y", Text "1 年"); ("yy", Text "%d 年")]
    "Invalid date" None.

Definition text_relatives : list Relative :=
  [af_relative; ar_kw_relative; ar_ma_relative; ar_sa_relative; ar_tn_relative; az_relative; bg_relative;
   bm_relative; bn_relative; bn_bd_relative; bo_relative; ca_relative; cy_relative; da_relative; dv_relative;
   el_relative; en_au_relative; en_ca_relative; en_gb_relative; en_ie_relative; en_il_relative; en_in_relative;
   en_nz_relative; en_sg_relative; eo_relative; es_relative; es_do_relative; es_mx_relative; es_us_relative;
   eu_relative; fa_relative; fil_relative; fo_relative; fr_relative; fr_ca_relative; fr_ch_relative;
   fy_relative; ga_relative; gd_relative; gu_relative; hi_relative; hy_am_relative; id_relative; it_relative;
   ja_relative; jv_relative; kk_relative; km_relative; kn_relative; ko_relative; ku_relative; ky_relative;
   lo_relative; mi_relative; mk_relative; ml_relative; ms_relative; ms_my_relative; mt_relative; my_relative;
   nb_relative; ne_relative; nl_relative; nl_be_relative; nn_relative; oc_lnc_relative; pa_in_relative;
   pt_relative; pt_br_relative; sd_relative; se_relative; si_relative; sq_relative; ss_relative; sv_relative;
   sw_relative; ta_relative; te_relative; tet_relative; tg_relative; th_relative; tk_relative; tl_ph_relative;
   tr_relative; tzm_relative; tzm_latn_relative; ug_cn_relative; ur_relative; uz_relative; uz_latn_relative;
   vi_relative; x_pseudo_relative; yo_relative; zh_cn_relative; zh_hk_relative; zh_mo_relative; zh_tw_relative].
