(* ===== verification/MomentRelativeProps.v ===== *)
(** * Properties of relative times in the web interface

    Every duration has a text in every locale, and the text is for the unit and the number that
    stand for the duration. *)

From stdpp Require Import base strings list pretty.
From Stdlib Require Import QArith.
From S2P Require Import Prelude Text JsNumber MomentLocales MomentNumerals MomentOrdinals.
From S2P Require Import MomentRelative MomentForms MomentTables.
Local Open Scope N_scope.

(** All locales of the bundle. *)
Definition relatives : list Relative := en_relative :: form_relatives ++ text_relatives.

(** ** Every locale has a text *)

Definition single_keys : list string := ["s"; "m"; "h"; "d"; "M"; "y"].
Definition plural_keys : list string := ["mm"; "hh"; "dd"; "MM"; "yy"].

(** The numbers with which a key is used. *)
Definition admissible (k : string) (e : N) : bool :=
  if js_in k single_keys then 1 <=? e else js_in k plural_keys && (2 <=? e).

Definition entry_total (ke : string * Entry) : Prop :=
  match ke.2 with
  | Text _ => True
  | Form f => ∀ e t i, admissible ke.1 e = true → is_Some (f e t ke.1 i)
  end.

Definition has_keys (r : Relative) : bool :=
  forallb (λ k, match relative_entry r k with Some _ => true | None => false end) (single_keys ++ plural_keys).

Lemma entry_in_total l k e : Forall entry_total l → entry_in l k = Some e → entry_total (k, e).
Proof.
  induction 1 as [|[k' e'] l H _ IH]; simpl; [done|].
  destruct (String.eqb k' k) eqn:Hk; [|done]. apply String.eqb_eq in Hk as ->. by intros [= ->].
Qed.

Lemma relative_entry_total r k e :
  Forall entry_total (rl_entries r) → relative_entry r k = Some e → entry_total (k, e).
Proof.
  unfold relative_entry. intros Hr. destruct (entry_in (rl_entries r) k) eqn:Hk.
  - intros [= <-]. by eapply entry_in_total.
  - apply entry_in_total. repeat constructor.
Qed.

Lemma js_in_elem k l : js_in k l = true ↔ k ∈ l.
Proof.
  unfold js_in. rewrite existsb_exists, list_elem_of_In. split.
  - intros [x [H Hx%String.eqb_eq]]. by subst.
  - intros H. exists k. split; [done|]. apply String.eqb_refl.
Qed.

Lemma relativeTime_total r k e t i :
  Forall entry_total (rl_entries r) → has_keys r = true → admissible k e = true →
  is_Some (relativeTime r e t k i).
Proof.
  intros Hr Hk Ha. unfold has_keys in Hk. rewrite forallb_forall in Hk.
  assert (k ∈ single_keys ++ plural_keys) as Hin.
  { unfold admissible in Ha. apply elem_of_app. destruct (js_in k single_keys) eqn:Hs.
    - left. by apply js_in_elem.
    - right. apply andb_true_iff in Ha as [Ha _]. by apply js_in_elem. }
  apply list_elem_of_In, Hk in Hin. unfold relativeTime.
  destruct (relative_entry r k) as [[s|f]|] eqn:He; simpl; [by eexists| |done].
  by apply (relative_entry_total _ _ _ Hr He).
Qed.

Lemma fi_verbalNumber_total e i : is_Some (fi_verbalNumber e i).
Proof.
  unfold fi_verbalNumber. destruct (N.ltb_spec e 10); [|by eexists].
  destruct i; apply lookup_lt_is_Some; simpl; lia.
Qed.

Lemma tlh_digit d : d < 10 → is_Some (tlh_numbers !! N.to_nat d).
Proof. intros H. apply lookup_lt_is_Some. simpl. lia. Qed.
Lemma tlh_numberAsNoun_total e : is_Some (tlh_numberAsNoun e).
Proof.
  unfold tlh_numberAsNoun.
  assert (e mod 1000 / 100 < 10) as [n Hn]%tlh_digit
    by (apply N.Div0.div_lt_upper_bound; pose proof (N.mod_lt e 1000); lia).
  assert (e mod 100 / 10 < 10) as [i Hi]%tlh_digit
    by (apply N.Div0.div_lt_upper_bound; pose proof (N.mod_lt e 100); lia).
  assert (e mod 10 < 10) as [r Hr]%tlh_digit by (by apply N.mod_lt).
  rewrite Hn, Hi, Hr.
  destruct (0 <? _), (0 <? _), (0 <? _); by eexists.
Qed.

(** The recursion of the Eifel rule ends. *)
Lemma lb_leading_digit e : e < 10000 → lb_leading 4 e < 10.
Proof.
  intros H. simpl. repeat (case_match; [|by apply N.leb_gt]).
  rewrite !N.Div0.div_div. apply N.Div0.div_lt_upper_bound. lia.
Qed.
Lemma lb_eifel_digit fuel e : e < 10 → is_Some (lb_eifelerRegelAppliesToNumber (S fuel) e).
Proof. intros H. simpl. apply N.ltb_lt in H. rewrite H. by eexists. Qed.

Lemma log2_div_1000 e : 10000 ≤ e → N.log2 (e / 1000) < N.log2 e.
Proof.
  intros H. assert (0 < e / 1000) by (apply N.div_str_pos; lia).
  apply N.lt_le_trans with (N.succ (N.log2 (e / 1000))); [lia|]. rewrite <-N.log2_double by lia.
  apply N.log2_le_mono. pose proof (N.Div0.mul_div_le e 1000). lia.
Qed.

Lemma lb_eifel_number fuel e :
  (lb_fuel e ≤ fuel)%nat → is_Some (lb_eifelerRegelAppliesToNumber fuel e).
Proof.
  revert e. induction fuel as [|fuel IH]; intros e Hf; [unfold lb_fuel in Hf; lia|].
  destruct fuel as [|fuel]; [unfold lb_fuel in Hf; lia|].
  destruct (N.ltb_spec e 10) as [|H10]; [by apply lb_eifel_digit|].
  cbn [lb_eifelerRegelAppliesToNumber].
  rewrite (proj2 (N.ltb_ge e 10) H10).
  destruct (N.ltb_spec e 100) as [H100|H100].
  { apply lb_eifel_digit. case_match; [apply N.Div0.div_lt_upper_bound; lia|by apply N.mod_lt]. }
  destruct (N.ltb_spec e 10000) as [|H4]; [by apply lb_eifel_digit, lb_leading_digit|].
  apply IH. pose proof (log2_div_1000 e H4). unfold lb_fuel in *. lia.
Qed.

(** Whether the rule applies to a text is always decided. *)
Lemma lb_eifel_total t : is_Some (lb_eifel t).
Proof.
  unfold lb_eifel. destruct (take_sign _) as [neg s]. destruct (digits_run 10 0 s) as [[v [|n]] rest]; [by eexists|].
  case_match; [by eexists|]. by apply lb_eifel_number.
Qed.

Create HintDb forms discriminated.
#[local] Hint Unfold with_number form_at num_word plural correctGrammaticalCase be_relativeTime ru_relativeTime
  uk_relativeTime lt_relativeTime lt_translate lt_singular lt_form lv_relativeTime lv_format sr_relativeTime
  translate sr_cyrl_relativeTime me_relativeTime de_relativeTime de_at_relativeTime de_ch_relativeTime
  et_relativeTime ro_relativeTime lb_relativeTime he_relativeTime lt_seconds lv_seconds gom_latn_relativeTime
  gom_deva_relativeTime tzl_relativeTime ar_pluralize ar_ly_pluralize ar_dz_pluralize ar_pluralForm
  mr_relativeTime mn_relativeTime hu_relativeTime br_relativeTime br_years is_relativeTime bs_relativeTime
  hr_relativeTime cs_relativeTime sk_relativeTime sl_relativeTime pl_relativeTime : forms.

Lemma plural_not_one e : 2 ≤ e → js_eqb 1 e = false.
Proof. intros H. apply N.eqb_neq. lia. Qed.

(** The form that a function finds for a key: its tables are read at the key and the cases on
    the number are split. *)
Ltac form_total :=
  let e := fresh "e" in let t := fresh "t" in let i := fresh "i" in let He := fresh "He" in
  intros e t i He; simpl in He; try done; apply N.leb_le in He;
  destruct t, i; autounfold with forms; simpl; try rewrite (plural_not_one e He);
  repeat case_match; simplify_eq/=; by eexists.

(** Finnish and Klingon spell numbers. *)
Lemma fi_relativeTime_total e t k i : is_Some (fi_relativeTime e t k i).
Proof.
  unfold fi_relativeTime. destruct (switch _ _); [by eexists|].
  apply fmap_is_Some, fi_verbalNumber_total.
Qed.
Lemma tlh_translate_total e t k i : js_in k plural_keys = true → is_Some (tlh_translate e t k i).
Proof.
  intros Hk%js_in_elem. unfold tlh_translate. destruct (tlh_numberAsNoun_total e) as [r ->]. simpl.
  unfold plural_keys in Hk. rewrite !elem_of_cons, elem_of_nil in Hk.
  destruct Hk as [->|[->|[->|[->|[->|[]]]]]]; by eexists.
Qed.

Ltac entry_total_tac :=
  match goal with
  | |- entry_total (_, Text _) => exact I
  | |- entry_total (_, Form fi_relativeTime) => intros ????; apply fi_relativeTime_total
  | |- entry_total (_, Form tlh_translate) => intros ??? H; first [discriminate H | by apply tlh_translate_total]
  | |- _ => form_total
  end.

Lemma form_relatives_total : Forall (λ r, Forall entry_total (rl_entries r)) form_relatives.
Proof.
  unfold form_relatives. repeat (apply Forall_cons; split); try apply Forall_nil_2; entry_total_tac.
Qed.

Definition text_entries (r : Relative) : bool :=
  forallb (λ ke, match ke.2 with Text _ => true | Form _ => false end) (rl_entries r).
Lemma text_entries_total r : text_entries r = true → Forall entry_total (rl_entries r).
Proof.
  unfold text_entries. rewrite forallb_forall. intros H. apply Forall_forall.
  intros [k e] Hin%list_elem_of_In%H. by destruct e.
Qed.

Lemma relatives_total r : r ∈ relatives → Forall entry_total (rl_entries r) ∧ has_keys r = true.
Proof.
  intros Hr. split.
  - unfold relatives in Hr. rewrite elem_of_cons, elem_of_app in Hr. destruct Hr as [->|[Hr|Hr]].
    + by apply text_entries_total.
    + pose proof form_relatives_total as H. rewrite Forall_forall in H. by apply H.
    + apply text_entries_total. revert Hr. rewrite list_elem_of_In.
      assert (forallb text_entries text_relatives = true) as H by (vm_compute; reflexivity).
      rewrite forallb_forall in H. apply H.
  - assert (forallb has_keys relatives = true) as H by (vm_compute; reflexivity).
    rewrite forallb_forall in H. by apply H, list_elem_of_In.
Qed.

Lemma stands_admissible d key n : Stands d key n → admissible key (Z.to_N n) = true.
Proof. destruct 1; simpl; apply N.leb_le; lia. Qed.

(** C40. A relative time is right in every locale of the web interface.  For every valid
    duration there is a text in each of the 136 locales, with and without the words for past
    and future; it is the text of the locale for a unit and a number that stand for the
    duration: the number is the duration in that unit, rounded to the nearest whole number and
    at least two, or the unit is named as one, and the unit is the one whose range has the
    duration (45 seconds, 45 minutes, 22 hours, 26 days, 11 months). *)
Theorem relative_time_stands (r : Relative) (d : Duration) (suffix : bool)
    (Hr : r ∈ relatives) (Hd : du_isValid d = true) :
  ∃ key n text, Stands (duration_abs d) key n ∧
    relativeTime r (Z.to_N n) (negb suffix) key (0 <? duration_valueOf d)%Z = Some text ∧
    humanize r d suffix None =
      Some (relative_postformat r (if suffix then pastFuture r (duration_valueOf d) text else text)).
Proof.
  destruct (duration_unit default_thresholds d) as [key n] eqn:Hu.
  pose proof (duration_unit_stands _ _ _ Hu) as Hs. destruct (relatives_total r Hr) as [Ht Hk].
  destruct (relativeTime_total r key (Z.to_N n) (negb suffix) (0 <? duration_valueOf d)%Z Ht Hk) as [text Htext];
    [by eapply stands_admissible|].
  exists key, n, text. split_and!; [done..|].
  unfold humanize, relative_duration. rewrite Hd, Hu. simpl. by rewrite Htext.
Qed.

Lemma relative_time_stands_witness :
  let d := mkDuration true 0 0 (-17) in
  humanize fi_relative d true None = Some "vuosi sitten" ∧
  ∃ key n text, Stands (duration_abs d) key n ∧
    relativeTime fi_relative (Z.to_N n) false key (0 <? duration_valueOf d)%Z = Some text ∧
    humanize fi_relative d true None =
      Some (relative_postformat fi_relative (pastFuture fi_relative (duration_valueOf d) text)).
Proof.
  split; [vm_compute; reflexivity|]. apply (relative_time_stands fi_relative (mkDuration true 0 0 (-17)) true).
  - apply elem_of_cons. right. apply elem_of_app. left. unfold form_relatives.
    repeat first [apply list_elem_of_here | apply list_elem_of_further].
  - reflexivity.
Defined.
