(* ===== verification/Lagosta.v ===== *)
(** * The web interface ([src/lagosta/js/app.js]: auth-header, APIService, router, AnnouncementsROAs)

    The session of the browser: the token in the header of the requests and the user in the
    local storage, what login, logout and the replies of the server do to them, and the guard that
    decides whether a page may be entered.  The table of announcements: search and paging. *)

From stdpp Require Import base strings list sorting relations.
From S2P Require Import Prelude Text.

(** ** The session *)

(** What is kept under [krill_user]; [authdata] is missing when it was [undefined]. *)
Record User := mkUser { authdata : option string; user_id : string; user_attributes : list (string * string) }.

Record Session := mkSession {
  (** [localStorage.getItem("krill_user")] *)
  storage : option User;
  (** [apiClient.defaults.headers["Authorization"]] *)
  authorization : option string;
}.

Definition bearer (token : string) : string := "Bearer " +:+ token.

(** The text of a token that is [undefined] in JavaScript. *)
Definition token_text (t : option string) : string := match t with Some t => t | None => "undefined" end.

(** The [Authorization] header for a stored user. *)
Definition authHeader (user : option User) : option string :=
  match user with
  | Some u => match authdata u with
              | Some t => if bool_decide (t = "") then None else Some (bearer t)
              | None => None
              end
  | None => None
  end.

(** Loading the page: the client is created with the header for the stored user. *)
Definition load_page (s : Session) : Session := mkSession (storage s) (authHeader (storage s)).

(** What follows the first occurrence of a separator, up to the next: [split(sep)[1]]. *)
Fixpoint split_after (sep s : string) : option string :=
  match strip_prefix sep s with
  | Some rest => Some rest
  | None => match s with EmptyString => None | String _ s => split_after sep s end
  end.
Fixpoint before (sep s : string) : string :=
  match strip_prefix sep s with
  | Some _ => ""
  | None => match s with EmptyString => "" | String c s => String c (before sep s) end
  end.
Definition second_part (sep s : string) : option string := before sep <$> split_after sep s.

(** The response interceptor: the server may send a new token. *)
Definition on_response (header : option string) (s : Session) : Session :=
  match header with
  | None => s
  | Some h =>
      let new_token := second_part "Bearer " h in
      mkSession (match storage s with
                 | Some user => Some (mkUser new_token (user_id user) (user_attributes user))
                 | None => None
                 end) (Some (bearer (token_text new_token)))
  end.

(** [login]: the request, and its end. *)
Record LoginData := mkLoginData { ld_token : string; ld_id : string; ld_attributes : list (string * string) }.

Definition login_request (token : string) (s : Session) : Session := mkSession None (Some (bearer token)).
Definition login_path (id : option string) : string :=
  "/auth/login" +:+ match id with Some id => "?id=" +:+ id | None => "" end.
Definition login_reply (r : option LoginData) (s : Session) : Session * bool :=
  match r with
  | Some d => (mkSession (Some (mkUser (Some (ld_token d)) (ld_id d) (ld_attributes d))) (Some (bearer (ld_token d))), true)
  | None => (mkSession None (authorization s), false)
  end.

Definition recordLogin (id token : string) (attributes : list (string * string)) (s : Session) : Session :=
  mkSession (Some (mkUser (Some token) id attributes)) (Some (bearer token)).

Definition logout (s : Session) : Session := mkSession None (authorization s).

(** ** The guard of the router *)

Definition publicPages : list string := ["/login"; "/testbed"].

Inductive Guard :=
| Enter
| External (url : string)
| Redirect (path : string) (returnUrl : string)
| RedirectError (path : string) (returnUrl : string) (error : string).

Definition authRequired (path : string) : bool := negb (bool_decide (path ∈ publicPages)).

(** A navigation: the stored user is read at the start, the guard ends when the server has said
    whether the request was authorized and, if need be, where to log in. *)
Definition beforeEach (path : string) (loggedInOnFrontend : bool) (loggedInOnBackend : bool)
    (login_url : result string string) (s : Session) : Session * Guard :=
  if authRequired path then
    if loggedInOnFrontend && loggedInOnBackend then (s, Enter)
    else
      (mkSession None (authorization s),
       match login_url with
       | Ok url => if starts_with url "http" then External url else Redirect url path
       | Err e => RedirectError "/login" path e
       end)
  else (s, Enter).

(** ** Runs of the application in one window *)

Record App := mkApp {
  session : Session;
  page : string;
  (** Navigations under way: the page and whether a user was stored at the start. *)
  navigating : list (string * bool);
}.

Definition well_formed_token (h : string) : Prop := ∃ t, t ≠ "" ∧ second_part "Bearer " h = Some t.

Inductive app_step : App → App → Prop :=
| as_reload a : app_step a (mkApp (load_page (session a)) (page a) [])
| as_login a token : app_step a (mkApp (login_request token (session a)) (page a) (navigating a))
| as_login_reply a d :
    match d with Some d => ld_token d ≠ "" | None => True end →
    app_step a (mkApp (login_reply d (session a)).1 (page a) (navigating a))
| as_record a id token attributes :
    token ≠ "" → app_step a (mkApp (recordLogin id token attributes (session a)) (page a) (navigating a))
| as_logout a : app_step a (mkApp (logout (session a)) (page a) (navigating a))
| as_response a header :
    match header with Some h => well_formed_token h | None => True end →
    app_step a (mkApp (on_response header (session a)) (page a) (navigating a))
| as_start a path :
    app_step a (mkApp (session a) (page a) ((path, bool_decide (is_Some (storage (session a)))) :: navigating a))
| as_guard a pre post path stored backend url s g :
    navigating a = pre ++ (path, stored) :: post →
    beforeEach path stored backend url (session a) = (s, g) →
    app_step a (mkApp s (match g with Enter => path | _ => page a end) (pre ++ post)).

(** The token that is stored is the one that requests carry. *)
Definition session_consistent (s : Session) : Prop :=
  ∀ u, storage s = Some u → authorization s = authHeader (Some u) ∧ is_Some (authorization s).

Lemma authHeader_token t id attrs : t ≠ "" → authHeader (Some (mkUser (Some t) id attrs)) = Some (bearer t).
Proof. intros Ht. simpl. by rewrite bool_decide_false. Qed.

Lemma app_step_consistent a a' :
  app_step a a' → session_consistent (session a) → session_consistent (session a').
Proof.
  intros Hstep Hinv. destruct Hstep as [a|a t|a d Hd|a id t attrs Ht|a|a h Hh|a p|a pre post p st b url s g _ Hg];
    simpl; try done.
  - intros u Hu. simpl in *. destruct (Hinv u Hu) as [He Hs]. rewrite Hu. split; [done|]. by rewrite <-He.
  - destruct d as [d|]; intros u [= <-]; simpl. rewrite bool_decide_false by done. by split.
  - intros u [= <-]. rewrite authHeader_token by done. by split.
  - destruct h as [h|]; [|done]. destruct Hh as (t&Ht&Hsec). simpl. rewrite Hsec. intros u Hu. simpl in *.
    destruct (storage (session a)) as [u'|]; [|done]. injection Hu as <-. simpl. rewrite bool_decide_false by done. by split.
  - unfold beforeEach in Hg. destruct (authRequired p), (st && b); simplify_eq; try done.
Qed.

(** Whether a page was entered with a stored user and the consent of the server. *)
Lemma guard_enter path stored backend url s s' :
  beforeEach path stored backend url s = (s', Enter) →
  s' = s ∧ (path ∈ publicPages ∨ stored = true ∧ backend = true).
Proof.
  unfold beforeEach, authRequired. case_bool_decide; simpl; [intros [= <-]; auto|].
  destruct stored, backend; simpl; [intros [= <-]; auto|..]; destruct url as [url|]; simpl;
    try destruct (starts_with url "http"); congruence.
Qed.

(** ** The table of announcements *)

(** Texts are lists of code points. *)
Abbreviation text := (list N).

Record Announcement := mkAnnouncement {
  ann_asn : text;
  ann_prefix : text;
  ann_max_length : option nat;
  ann_state : text;
  (** The JSON texts of the lists, if present. *)
  ann_authorizes : option text;
  ann_disallows : option text;
}.

Definition between (a b c : N) : bool := (a <=? c)%N && (c <=? b)%N.
(** [/[^0-9a-zΆ-ωΑ-ώ./-]/gi]: what is not removed.  The flag [i] compares by upper case, so that
    letters outside the ranges whose upper case is a Greek capital also match: the micro sign, the
    iota subscripts and the variants of beta, theta, phi, pi, kappa, rho and epsilon. *)
Definition kept_char (c : N) : bool :=
  between 48 57 c || between 97 122 c || between 65 90 c || between 902 974 c || bool_decide (c ∈ [46; 47; 45]%N)
  || bool_decide (c ∈ [181; 837; 976; 977; 981; 982; 1008; 1009; 1013; 8126]%N).
Definition clean (s : text) : text := filter (λ c, kept_char c = true) s.
(** [toLowerCase], for text in ASCII. *)
Definition lower (s : text) : text := (λ c, if between 65 90 c then c + 32 else c)%N <$> s.

Fixpoint is_prefix (p s : text) : bool :=
  match p, s with
  | [], _ => true
  | c :: p, d :: s => bool_decide (c = d) && is_prefix p s
  | _, [] => false
  end.
(** [s.indexOf(p) > -1] *)
Fixpoint includes (s p : text) : bool :=
  is_prefix p s || match s with [] => false | _ :: s => includes s p end.

Definition announcement_valid : text := [97; 110; 110; 111; 117; 110; 99; 101; 109; 101; 110; 116; 95; 118; 97; 108; 105; 100]%N.

Section table.
(** The labels of the states in the chosen language. *)
Variable state_label : text → option text.

Definition ann_matches (src : text) (ann : Announcement) : bool :=
  let found s := includes (clean s) src in
  let inAuth := match ann_authorizes ann with Some s => found s | None => false end in
  let inDis := match ann_disallows ann with Some s => found s | None => false end in
  let is_valid_announcement := bool_decide (ann_state ann = announcement_valid) in
  let stateLabel := match state_label (ann_state ann) with Some l => found (lower l) | None => false end in
  (found (lower (ann_asn ann)) || found (lower (ann_prefix ann)) || found (lower (ann_state ann))
   || stateLabel || inAuth || inDis) && negb is_valid_announcement.

(** [sort] with a comparison: stable. *)
Variable compare : Announcement → Announcement → Z.
Fixpoint insert_ann (a : Announcement) (l : list Announcement) : list Announcement :=
  match l with
  | [] => [a]
  | b :: l => if bool_decide (compare b a > 0)%Z then a :: b :: l else b :: insert_ann a l
  end.
Definition sort_ann (l : list Announcement) : list Announcement := foldl (λ acc a, insert_ann a acc) [] l.

Record Table := mkTable {
  announcements : list Announcement;
  filteredAnnouncements : list Announcement;
  search : text;
  currentPage : nat;
  pageSize : nat;
  totalRecords : nat;
}.

Definition js_slice {A} (from to : nat) (l : list A) : list A := take (to - from) (drop from l).

Definition filterAnnouncements (t : Table) : Table :=
  let src := clean (lower (search t)) in
  let anns := sort_ann (announcements t) in
  let filtered := filter (λ a, ann_matches src a = true) anns in
  mkTable anns
    (js_slice ((currentPage t - 1) * pageSize t) (min (length anns) (currentPage t * pageSize t)) filtered)
    (search t) (currentPage t) (pageSize t) (length filtered).

(** Going to a page. *)
Definition at_page (p : nat) (t : Table) : Table :=
  mkTable (announcements t) (filteredAnnouncements t) (search t) p (pageSize t) (totalRecords t).

Lemma insert_ann_perm a l : insert_ann a l ≡ₚ a :: l.
Proof.
  induction l as [|b l IH]; simpl; [done|]. case_bool_decide; [done|]. rewrite IH. apply Permutation_swap.
Qed.

Lemma sort_ann_perm l : sort_ann l ≡ₚ l.
Proof.
  unfold sort_ann. rewrite <-(app_nil_r l) at 2. generalize (@nil Announcement). induction l as [|a l IH]; intros acc; simpl; [done|].
  rewrite IH, insert_ann_perm. symmetry. apply Permutation_middle.
Qed.

Lemma slice_page {A} (l : list A) (n p size : nat) :
  length l ≤ n → js_slice (p * size) (min n (S p * size)) l = take size (drop (p * size) l).
Proof.
  intros Hn. unfold js_slice. destruct (decide (n ≤ S p * size)) as [Hle|Hgt].
  - rewrite Nat.min_l by done. rewrite !take_ge; [done|rewrite length_drop; lia..].
  - rewrite Nat.min_r by lia. f_equal. lia.
Qed.

Lemma pages_concat {A} (l : list A) (size k : nat) :
  concat ((λ p, take size (drop (p * size) l)) <$> seq 0 k) = take (k * size) l.
Proof.
  induction k as [|k IH]; [done|]. rewrite seq_S, fmap_app, concat_app, IH. simpl. rewrite app_nil_r.
  rewrite Nat.add_comm, <-(take_drop (k * size) (take (k * size + size) l)).
  rewrite take_take, skipn_firstn_comm. f_equal; f_equal; lia.
Qed.
End table.

(** ** Properties *)

(** C31.  The token in use is the stored token: from a freshly loaded page, after any run of logins,
    logouts, replies with new tokens, navigations and reloads, in any order, whenever a user is
    stored the requests carry that user's token, and loading the page again changes nothing. *)
Theorem stored_token_in_use (a0 a : App) (u : User)
    (Hstart : session_consistent (session a0)) (Hrun : rtc app_step a0 a)
    (Hu : storage (session a) = Some u) :
  authorization (session a) = authHeader (Some u) ∧ is_Some (authorization (session a)) ∧
  load_page (session a) = session a.
Proof.
  assert (session_consistent (session a)) as Hinv.
  { clear Hu. induction Hrun as [|a a1 a2 Hstep _ IH]; [done|]. by eapply IH, app_step_consistent. }
  destruct (Hinv u Hu) as [He Hs]. split; [done|]. split; [done|].
  destruct (session a) as [st au]. simpl in *. subst. done.
Qed.

Lemma stored_token_in_use_witness :
  authorization (session
    (mkApp (on_response (Some "Bearer tok2") (login_reply (Some (mkLoginData "tok1" "joe" []))
       (login_request "secret" (mkSession None None))).1) "/login" [])) = Some "Bearer tok2".
Proof.
  refine (proj1 (stored_token_in_use (mkApp (mkSession None None) "/login" []) (mkApp _ "/login" [])
    (mkUser (Some "tok2") "joe" []) _ _ _)).
  - by intros u.
  - eapply rtc_l; [apply (as_login _ "secret")|]. simpl.
    eapply rtc_l; [by apply (as_login_reply _ (Some (mkLoginData "tok1" "joe" [])))|]. simpl.
    eapply rtc_l; [|reflexivity]. apply (as_response (mkApp (mkSession (Some (mkUser (Some "tok1") "joe" []))
      (Some (bearer "tok1"))) "/login" []) (Some "Bearer tok2")). by exists "tok2".
  - reflexivity.
Defined.

(** The guard lets a navigation through exactly to the public pages, and to other pages when
    a user was stored and the server accepted the token; otherwise the stored user is removed and the
    user is sent to log in, to an external page or to one that gets the page to return to. *)
Theorem guard_protects_pages (path : string) (stored backend : bool) (url : result string string)
    (s : Session) :
  let '(s', g) := beforeEach path stored backend url s in
  match g with
  | Enter => s' = s ∧ (path ∈ publicPages ∨ (stored = true ∧ backend = true))
  | _ => (path ∉ publicPages) ∧ (stored = false ∨ backend = false) ∧ storage s' = None ∧
         match g with
         | External u => url = Ok u ∧ starts_with u "http" = true
         | Redirect u r => url = Ok u ∧ starts_with u "http" = false ∧ r = path
         | RedirectError u r e => url = Err e ∧ u = "/login" ∧ r = path
         | Enter => False
         end
  end.
Proof.
  unfold beforeEach, authRequired. case_bool_decide as Hp; simpl; [auto|].
  destruct stored, backend; simpl; [auto|..]; destruct url as [url|e]; simpl;
    try destruct (starts_with url "http") eqn:Hh; auto 8.
Qed.

(** C32.  The pages of the table partition what was found: the pages together are all announcements
    that match the search, in sorted order, the total is their number, and an announcement that is
    valid is on none of them. *)
Theorem announcement_pages_complete (state_label : text → option text)
    (compare : Announcement → Announcement → Z) (t : Table) (k : nat)
    (Hk : length (announcements t) ≤ k * pageSize t) :
  let page p := filterAnnouncements state_label compare (at_page (S p) t) in
  let found := filter (λ a, ann_matches state_label (clean (lower (search t))) a = true)
                 (sort_ann compare (announcements t)) in
  concat ((λ p, filteredAnnouncements (page p)) <$> seq 0 k) = found ∧
  (∀ p, totalRecords (page p) = length found) ∧
  sort_ann compare (announcements t) ≡ₚ announcements t ∧
  (∀ p a, a ∈ filteredAnnouncements (page p) → ann_state a ≠ announcement_valid).
Proof.
  simpl. set (found := filter _ _).
  assert (length found ≤ length (sort_ann compare (announcements t))) as Hlen by apply length_filter.
  assert (∀ p, js_slice ((p - 0) * pageSize t) (min (length (sort_ann compare (announcements t))) (pageSize t + p * pageSize t))
    found = take (pageSize t) (drop (p * pageSize t) found)) as Hpage.
  { intros p. rewrite Nat.sub_0_r. by apply (slice_page found _ p). }
  split; [|split; [done|split; [apply sort_ann_perm|]]].
  - erewrite list_fmap_ext; [|intros i p _; apply Hpage]. rewrite pages_concat. apply take_ge.
    rewrite (Permutation_length (sort_ann_perm compare _)) in Hlen. lia.
  - intros p a Ha. rewrite Hpage in Ha.
    assert (a ∈ found) as Hin.
    { rewrite <-(take_drop (p * pageSize t) found). apply elem_of_app. right.
      rewrite <-(take_drop (pageSize t) (drop _ found)). apply elem_of_app. by left. }
    apply list_elem_of_filter in Hin as [Hm _]. unfold ann_matches in Hm. apply andb_true_iff in Hm as [_ Hm].
    by apply negb_true_iff, bool_decide_eq_false in Hm.
Qed.

Module TableDemo.
Definition ann (n : N) : Announcement := mkAnnouncement [n] [] None [98]%N None None.
Definition by_asn (a b : Announcement) : Z :=
  match ann_asn a, ann_asn b with x :: _, y :: _ => (Z.of_N x - Z.of_N y)%Z | _, _ => 0%Z end.
Definition t : Table := mkTable [ann 51; ann 49; ann 50]%N [] [] 1 2 0.
End TableDemo.

Lemma announcement_pages_complete_witness :
  length (announcements TableDemo.t) ≤ 2 * pageSize TableDemo.t ∧
  totalRecords (filterAnnouncements (λ _, None) TableDemo.by_asn (at_page 1 TableDemo.t)) = 3.
Proof.
  split; [simpl; lia|].
  exact (proj1 (proj2 (announcement_pages_complete (λ _, None) TableDemo.by_asn TableDemo.t 2 ltac:(simpl; lia))) 0).
Defined.
