(* ===== verification/Ip6AddrProps.v ===== *)
(** * Addresses, networks and the order of announcements: theorems

    Addresses round trip through their texts, a network contains the addresses of its range, and
    the table of announcements sorted by prefix is in the order of networks. *)

From Stdlib Require Import NArith ZArith Ascii Lia.
From stdpp Require Import base strings list pretty numbers sorting.
From S2P Require Import Prelude Text JsNumber MomentLocales Ip6Addr Ip6AddrFacts Lagosta.

(** ** Sorting the table by prefix *)

Definition ascii_text (s : text) : option string :=
  String.string_of_list_ascii <$> mapM (λ c, if (c <? 128)%N then Some (ascii_of_N c) else None) s.

(** [prefix.split("-")[0]] *)
Fixpoint before_dash (s : text) : text :=
  match s with [] => [] | c :: s => if (c =? 45)%N then [] else c :: before_dash s end.

(** The network of a row; [None] where [compareCIDR] throws. *)
Definition row_network (a : Announcement) : option Cidr := s ← ascii_text (before_dash (ann_prefix a)); parse_cidr s.

(** The comparison of rows by prefix, for either order of the column. *)
Definition prefix_compare (ascending : bool) (a b : Announcement) : option Z :=
  p ← row_network a; q ← row_network b;
  Some (compareCIDR p q * (if ascending then 1 else -1))%Z.

(** ** Networks *)

Record cidr_wf (c : Cidr) : Prop := {
  cw_addr : length (fields (cidr_addr c)) = 8 ∧ Forall field_ok (fields (cidr_addr c));
  cw_prefix : (cidr_prefix c ≤ 128)%N;
  cw_mask : cidr_mask c = mask (cidr_prefix c);
  cw_aligned : clear_low (128 - cidr_prefix c) (value (fields (cidr_addr c))) = value (fields (cidr_addr c));
}.

(** The first address of a network, as a number. *)
Definition cidr_value (c : Cidr) : N := value (fields (cidr_addr c)).

Lemma clear_low_idem k v : clear_low k (clear_low k v) = clear_low k v.
Proof. unfold clear_low. by rewrite N.div_mul by (by apply N.pow_nonzero). Qed.

Lemma and_fields_mask l p :
  length l = 8 → Forall field_ok l → (p ≤ 128)%N →
  length (and_fields l (mask p)) = 8 ∧ Forall field_ok (and_fields l (mask p))
  ∧ value (and_fields l (mask p)) = clear_low (128 - p) (value l).
Proof.
  intros Hl Hok Hp. split_and!.
  - unfold and_fields, mask. rewrite length_zip_with, mask_loop_length. lia.
  - clear Hl. unfold and_fields. generalize (mask p). induction Hok as [|x l Hx Hok IH]; intros [|m ms]; simpl; constructor; [|done].
    unfold field_ok in *. pose proof (N.land_le_l x m). lia.
  - by apply (mask_value 8).
Qed.

Lemma createCIDR_wf a len c : addr_wf a → createCIDR a len = Some c → cidr_wf c.
Proof.
  intros [Hl Hok _ _]. unfold createCIDR. set (t := if ipv4Bare a then _ else _). case_match eqn:Ht; [done|].
  apply orb_false_iff in Ht as [H0%Z.ltb_ge H1%Z.ltb_ge]. intros [= <-].
  destruct (and_fields_mask (fields a) (Z.to_N t)) as (Hl'&Hok'&Hv); [done..|lia|].
  split; simpl; [done|lia|done|]. rewrite Hv. apply clear_low_idem.
Qed.

Lemma parse_cidr_wf s c : parse_cidr s = Some c → cidr_wf c.
Proof.
  unfold parse_cidr. destruct (split_once_on _ s) as [addr [len|]]; [|done]. case_match; [done|].
  destruct (parse_digits len) as [n|]; [|done]. simpl. destruct (parse_addr addr) as [a|] eqn:Ha; [|done]. simpl.
  apply createCIDR_wf. by eapply parse_addr_wf.
Qed.

(** The key of a network in the order: its first address, then longer prefixes first. *)
Definition cidr_key (c : Cidr) : Z := (Z.of_N (cidr_value c) * 256 + (128 - Z.of_N (cidr_prefix c)))%Z.

Lemma compareCIDR_key p q : cidr_wf p → cidr_wf q → (compareCIDR p q > 0 ↔ cidr_key q < cidr_key p)%Z ∧ (compareCIDR p q < 0 ↔ cidr_key p < cidr_key q)%Z.
Proof.
  intros [[Hl1 Ho1] Hp1 _ _] [[Hl2 Ho2] Hp2 _ _]. unfold compareCIDR, compare_addr, cidr_key, cidr_value.
  rewrite compare_fields_value by (done || lia).
  destruct (N.compare_spec (value (fields (cidr_addr p))) (value (fields (cidr_addr q)))); case_bool_decide; lia.
Qed.

(** A network comes before another: a lower first address, or the same and a longer prefix. *)
Definition comes_before (p q : Cidr) : Prop :=
  (cidr_value p < cidr_value q)%N ∨ cidr_value p = cidr_value q ∧ (cidr_prefix q ≤ cidr_prefix p)%N.

Lemma cidr_key_before p q : cidr_wf p → cidr_wf q → (cidr_key p ≤ cidr_key q)%Z ↔ comes_before p q.
Proof. intros [_ Hp _ _] [_ Hq _ _]. unfold cidr_key, comes_before. lia. Qed.

(** ** Sorting by a key *)

Section sort_by_key.
Context (compare : Announcement → Announcement → Z) (key : Announcement → Z) (rows : list Announcement).
Hypothesis Hkey : ∀ a b, a ∈ rows → b ∈ rows → (compare a b > 0 ↔ key b < key a)%Z.

Definition by_key (a b : Announcement) : Prop := (key a ≤ key b)%Z.

Lemma insert_ann_sorted a l :
  a ∈ rows → l ⊆ rows → StronglySorted by_key l → StronglySorted by_key (insert_ann compare a l).
Proof.
  intros Ha. induction l as [|b l IH]; intros Hsub Hs; simpl; [by repeat constructor|].
  apply StronglySorted_inv in Hs as [Hs Hall]. assert (b ∈ rows) as Hb by (apply Hsub; left).
  case_bool_decide as Hc; [apply Hkey in Hc; [|done..]|rewrite Hkey in Hc by done].
  - assert (by_key a b) as Hab by (unfold by_key; lia). constructor; [by constructor|]. constructor; [done|].
    eapply Forall_impl; [exact Hall|]. unfold by_key in *. lia.
  - constructor.
    + apply IH; [|done]. intros x Hx. apply Hsub. by right.
    + rewrite insert_ann_perm. constructor; [unfold by_key; lia|done].
Qed.

Lemma filter_key_above k l : Forall (λ b, (k < key b)%Z) l → filter (λ b, key b = k) l = [].
Proof. rewrite Forall_forall. intros H. apply filter_none. intros x Hx%H. lia. Qed.

(** Rows of one key keep their order. *)
Lemma insert_ann_stable a l k :
  a ∈ rows → l ⊆ rows → StronglySorted by_key l →
  filter (λ b, key b = k) (insert_ann compare a l) = filter (λ b, key b = k) (l ++ [a]).
Proof.
  intros Ha. induction l as [|b l IH]; intros Hsub Hs; simpl; [done|].
  apply StronglySorted_inv in Hs as [Hs Hall]. assert (b ∈ rows) as Hb by (apply Hsub; left).
  case_bool_decide as Hc; [apply Hkey in Hc; [|done..]|].
  - change (b :: l ++ [a]) with ((b :: l) ++ [a]). rewrite filter_app. destruct (decide (key a = k)) as [Hk|Hk].
    + assert (filter (λ b, key b = k) (b :: l) = []) as Hnone.
      { apply filter_key_above. constructor; [lia|]. eapply Forall_impl; [exact Hall|]. unfold by_key. lia. }
      rewrite filter_cons_True, Hnone by done. by rewrite (filter_cons_True _ a []).
    + rewrite filter_cons_False by done. rewrite (filter_cons_False _ a []) by done. by rewrite app_nil_r.
  - assert (l ⊆ rows) as Hsub' by (intros x Hx; apply Hsub; by right).
    rewrite !filter_cons. by rewrite IH.
Qed.

Lemma sort_ann_key :
  StronglySorted by_key (sort_ann compare rows)
  ∧ ∀ k, filter (λ b, key b = k) (sort_ann compare rows) = filter (λ b, key b = k) rows.
Proof.
  unfold sort_ann.
  enough (∀ l acc, l ⊆ rows → acc ⊆ rows → StronglySorted by_key acc →
    StronglySorted by_key (foldl (λ acc a, insert_ann compare a acc) acc l)
    ∧ ∀ k, filter (λ b, key b = k) (foldl (λ acc a, insert_ann compare a acc) acc l)
           = filter (λ b, key b = k) (acc ++ l)) as H by (apply H; [done|apply list_subseteq_nil|constructor]).
  induction l as [|a l IH]; intros acc Hl Hacc Hs; simpl; [by rewrite app_nil_r|].
  assert (a ∈ rows) as Ha by (apply Hl; left).
  destruct (IH (insert_ann compare a acc)) as [Hsorted Hst].
  - intros x Hx. apply Hl. by right.
  - rewrite insert_ann_perm. intros x [->|Hx]%elem_of_cons; auto.
  - by apply insert_ann_sorted.
  - split; [done|]. intros k. rewrite Hst, filter_app, insert_ann_stable by done.
    rewrite <-filter_app, <-app_assoc. done.
Qed.
End sort_by_key.

Lemma sorted_weaken {A} (R Q : A → A → Prop) l :
  (∀ a b, a ∈ l → b ∈ l → R a b → Q a b) → StronglySorted R l → StronglySorted Q l.
Proof.
  intros HRQ. induction 1 as [|a l Hs IH Hall]; [constructor|]. constructor.
  - apply IH. intros x y Hx Hy. apply HRQ; by right.
  - rewrite Forall_forall in *. intros x Hx. apply HRQ; [by left|by right|by apply Hall].
Qed.

(** The key of a row, for either order. *)
Definition row_key (ascending : bool) (a : Announcement) : Z :=
  match row_network a with Some c => if ascending then cidr_key c else (- cidr_key c)%Z | None => 0%Z end.

Lemma row_network_wf a c : row_network a = Some c → cidr_wf c.
Proof. unfold row_network. destruct (ascii_text _); [|done]. apply parse_cidr_wf. Qed.

Lemma prefix_compare_key ascending a b z :
  prefix_compare ascending a b = Some z →
  (z > 0 ↔ row_key ascending b < row_key ascending a)%Z ∧
  ∃ p q, row_network a = Some p ∧ row_network b = Some q ∧ cidr_wf p ∧ cidr_wf q.
Proof.
  unfold prefix_compare, row_key. destruct (row_network a) as [p|] eqn:Hp; [|done].
  destruct (row_network b) as [q|] eqn:Hq; [|done]. simpl. intros [= <-].
  apply row_network_wf in Hp, Hq. split; [|eauto 10]. destruct (compareCIDR_key p q Hp Hq) as [H1 H2].
  destruct ascending; lia.
Qed.

(** Networks with the same key have the same first address and length. *)
Lemma cidr_key_inj p q :
  cidr_wf p → cidr_wf q → cidr_key p = cidr_key q ↔ (cidr_value p, cidr_prefix p) = (cidr_value q, cidr_prefix q).
Proof.
  intros [_ Hp _ _] [_ Hq _ _]. unfold cidr_key. split; [|by intros [= -> ->]]. intros H.
  assert (cidr_value p = cidr_value q ∧ cidr_prefix p = cidr_prefix q) as [-> ->] by lia. done.
Qed.

(** ** Theorems *)

(**  Addresses round trip through their texts: what was read from any text prints without an
    exception, and the printed text is read as the same address, with the same fields and the
    same notation. *)
Theorem address_text_roundtrip (s : string) (a : Addr) (Hs : parse_addr s = Some a) :
  ∃ t, addr_to_string a = Some t ∧ parse_addr t = Some a.
Proof.
  destruct (parse_addr_wf s a Hs) as [Hl Hok Hb Hm]. destruct a as [e bare mapped]. simpl in *. unfold addr_to_string. simpl.
  destruct mapped; [|destruct bare; [discriminate (Hb eq_refl)|]; eexists; split; [done|by apply parse_fields]].
  specialize (Hm eq_refl). unfold is_mapped in Hm. apply bool_decide_eq_true in Hm.
  destruct e as [|e0 [|e1 [|e2 [|e3 [|e4 [|e5 [|x [|y [|]]]]]]]]]; try done. injection Hm as -> -> -> -> -> ->.
  rewrite !Forall_cons_iff in Hok. destruct Hok as (_&_&_&_&_&_&Hx&Hy&_).
  assert (in_v4_range (mkAddr [0; 0; 0; 0; 0; 65535; x; y]%N bare true) = true) as ->.
  { unfold in_v4_range, and_fields. simpl. rewrite !N.land_0_r. done. }
  destruct bare; eexists; (split; [reflexivity|]); simpl drop.
  - apply (parse_dotted "" x y [] None); auto; [done|simpl; lia].
  - apply (parse_dotted "::ffff:" x y ["ffff"] (Some 0)); auto; [done|simpl; lia|].
    destruct (dotted_first x y Hx Hy) as (a&r&->&Ha).
    change ("::ffff:" +:+ String a r) with (String ":" (String ":" ("ffff" +:+ String ":" (String a r)))).
    rewrite scan_colons, bool_decide_true by done. cbv zeta. rewrite scan_part by done. by rewrite scan_colon.
Qed.

(** A network contains exactly the addresses of its range: the [2 ^ (128 - length)] numbers
    that start at its first address, which is a multiple of that size. *)
Theorem network_contains_range (s t : string) (c : Cidr) (a : Addr)
    (Hc : parse_cidr s = Some c) (Ha : parse_addr t = Some a) :
  let size := (2 ^ (128 - cidr_prefix c))%N in
  (cidr_prefix c ≤ 128)%N ∧ (cidr_value c mod size = 0)%N ∧
  (cidr_contains c a = true ↔ (cidr_value c ≤ value (fields a) < cidr_value c + size)%N).
Proof.
  destruct (parse_cidr_wf s c Hc) as [[Hl Hok] Hp Hm Hal]. destruct (parse_addr_wf t a Ha) as [Hla Hoka _ _].
  destruct (and_fields_mask (fields a) (cidr_prefix c)) as (Hl'&Hok'&Hv); [done..|].
  intros size. assert (size ≠ 0)%N as Hz by (by apply N.pow_nonzero).
  unfold cidr_value. split; [done|]. unfold clear_low in *. fold size in Hal, Hv. split.
  { rewrite <-Hal. by apply N.Div0.mod_mul. }
  unfold cidr_contains. rewrite Hm, compare_fields_value by (done || lia). rewrite Hv, bool_decide_eq_true.
  set (v := value (fields a)) in *. set (n := value (fields (cidr_addr c))) in *.
  pose proof (N.div_mod v size Hz) as Hd. pose proof (N.mod_lt v size Hz).
  assert (n = v / size * size ↔ n ≤ v < n + size)%N as <-.
  { clearbody size. revert Hal Hd H. generalize (n / size)%N (v / size)%N (v mod size)%N. intros m q r Hal Hd Hr.
    split; [nia|]. intros Hrange. assert (m = q) as ->; [|done]. apply N.le_antisymm; apply N.lt_succ_r; nia. }
  destruct (N.compare_spec n (v / size * size)); lia.
Qed.

(** C33.  The table sorted by prefix, when every prefix can be read, holds the same rows in the
    order of their networks: lower first addresses first, of the same address longer prefixes
    first, and the reverse when descending.  Rows of the same network keep their order. *)
Theorem announcements_sorted_by_prefix (ascending : bool) (compare : Announcement → Announcement → Z)
    (rows : list Announcement)
    (Hcmp : ∀ a b, a ∈ rows → b ∈ rows → prefix_compare ascending a b = Some (compare a b)) :
  let sorted := sort_ann compare rows in
  let key a := (λ c, (cidr_value c, cidr_prefix c)) <$> row_network a in
  sorted ≡ₚ rows ∧
  StronglySorted (λ a b, ∃ p q, row_network a = Some p ∧ row_network b = Some q ∧
    (if ascending then comes_before p q else comes_before q p)) sorted ∧
  ∀ k, filter (λ a, key a = k) sorted = filter (λ a, key a = k) rows.
Proof.
  simpl. assert (∀ a b, a ∈ rows → b ∈ rows → (compare a b > 0 ↔ row_key ascending b < row_key ascending a)%Z ∧
    ∃ p q, row_network a = Some p ∧ row_network b = Some q ∧ cidr_wf p ∧ cidr_wf q) as Hrow.
  { intros a b Ha Hb. by apply prefix_compare_key, Hcmp. }
  destruct (sort_ann_key compare (row_key ascending) rows) as [Hs Hst]; [intros; by apply Hrow|].
  pose proof (sort_ann_perm compare rows) as Hperm. split_and!; [done| |].
  - eapply sorted_weaken; [|exact Hs]. intros a b Ha Hb. rewrite Hperm in Ha, Hb.
    destruct (Hrow a b Ha Hb) as (_&p&q&Hp&Hq&Wp&Wq). unfold by_key, row_key. rewrite Hp, Hq. intros Hle.
    exists p, q. split_and!; [done..|]. destruct ascending; apply cidr_key_before; done || lia.
  - intros k. destruct (decide (Exists (λ a, (λ c, (cidr_value c, cidr_prefix c)) <$> row_network a = k) rows)) as [He|He].
    + apply Exists_exists in He as (a&Ha&Hk). specialize (Hst (row_key ascending a)).
      assert (∀ l : list Announcement, (∀ b, b ∈ l → b ∈ rows) →
        filter (λ b, (λ c, (cidr_value c, cidr_prefix c)) <$> row_network b = k) l
        = filter (λ b, row_key ascending b = row_key ascending a) l) as Hsame.
      { intros l Hl. apply filter_same. intros b Hb%Hl. destruct (Hrow a b Ha Hb) as (_&p&q&Hp&Hq&Wp&Wq).
        unfold row_key. rewrite <-Hk, Hp, Hq. simpl. pose proof (cidr_key_inj q p Wq Wp) as Hinj.
        split; [intros [= H1 H2]|intros H; f_equal; apply Hinj; destruct ascending; lia].
        assert (cidr_key q = cidr_key p) as -> by (apply Hinj; congruence). done. }
      rewrite !Hsame by (intros b; by rewrite ?Hperm). done.
    + rewrite !filter_none; [done|..]; intros a Ha; rewrite ?Hperm in Ha; intros Hk; apply He, Exists_exists; eauto.
Qed.

(** ** Witnesses *)

Module PrefixDemo.
Definition a1 : Addr := mkAddr [8193; 3512; 0; 0; 0; 0; 0; 1]%N false false.
Definition ten : Cidr := mkCidr 104 (mask 104) (mkAddr [0; 0; 0; 0; 0; 65535; 2560; 0]%N true true).
Definition inside : Addr := mkAddr [0; 0; 0; 0; 0; 65535; 2561; 515]%N true true.

Definition to_text (s : string) : text := N_of_ascii <$> String.list_ascii_of_string s.
Definition row (s : string) : Announcement := mkAnnouncement [] (to_text s) None [] None None.
Definition rows : list Announcement := row <$> ["10.0.0.0/8"; "2001:db8::/32"; "10.0.0.0/16-24"; "::/0"].
Definition compare (a b : Announcement) : Z := default 0%Z (prefix_compare true a b).
End PrefixDemo.

Lemma address_text_roundtrip_witness :
  parse_addr "2001:DB8:0::0001" = Some PrefixDemo.a1 ∧
  ∃ t, addr_to_string PrefixDemo.a1 = Some t ∧ parse_addr t = Some PrefixDemo.a1.
Proof.
  split; [by vm_compute|]. apply (address_text_roundtrip "2001:DB8:0::0001"). by vm_compute.
Defined.

Lemma network_contains_range_witness :
  cidr_contains PrefixDemo.ten PrefixDemo.inside = true ∧
  (cidr_value PrefixDemo.ten ≤ value (fields PrefixDemo.inside) < cidr_value PrefixDemo.ten + 2 ^ 24)%N.
Proof.
  destruct (network_contains_range "10.255.0.0/8" "10.1.2.3" PrefixDemo.ten PrefixDemo.inside) as (_&_&H);
    [by vm_compute..|].
  assert (cidr_contains PrefixDemo.ten PrefixDemo.inside = true) as Hc by (by vm_compute).
  split; [exact Hc|]. exact (proj1 H Hc).
Defined.

Lemma announcements_sorted_by_prefix_witness :
  (∀ a b, a ∈ PrefixDemo.rows → b ∈ PrefixDemo.rows → prefix_compare true a b = Some (PrefixDemo.compare a b)) ∧
  sort_ann PrefixDemo.compare PrefixDemo.rows ≡ₚ PrefixDemo.rows ∧
  sort_ann PrefixDemo.compare PrefixDemo.rows
  = PrefixDemo.row <$> ["::/0"; "10.0.0.0/16-24"; "10.0.0.0/8"; "2001:db8::/32"].
Proof.
  assert (∀ a b, a ∈ PrefixDemo.rows → b ∈ PrefixDemo.rows →
    prefix_compare true a b = Some (PrefixDemo.compare a b)) as H.
  { intros a b Ha Hb. unfold PrefixDemo.compare.
    assert (Forall (λ a, Forall (λ b, is_Some (prefix_compare true a b)) PrefixDemo.rows) PrefixDemo.rows) as Hall.
    { repeat constructor; vm_compute; eauto. }
    rewrite Forall_forall in Hall. specialize (Hall a Ha). rewrite Forall_forall in Hall.
    destruct (Hall b Hb) as [z Hz]. rewrite Hz. reflexivity. }
  split; [exact H|]. destruct (announcements_sorted_by_prefix true PrefixDemo.compare PrefixDemo.rows H) as (Hp&_&_).
  split; [exact Hp|]. by vm_compute.
Defined.
