(* ===== verification/WebText.v ===== *)
(** * Libraries in the bundle of the web interface ([src/lagosta/js/app.js])

    [escape-html] escapes text for HTML in one pass over the text, copying the parts
    between the special characters; [compare] orders byte arrays; [object-assign] copies
    properties; the loader of the bundle runs each module once. *)

From stdpp Require Import base gmap strings list.
From S2P Require Import Prelude.

(** ** escape-html *)

Section escape.
Local Open Scope N_scope.

(** Texts are lists of character codes. *)
Definition entity (c : N) : option (list N) :=
  if c =? 34 then Some [38; 113; 117; 111; 116; 59]        (* &quot; *)
  else if c =? 38 then Some [38; 97; 109; 112; 59]         (* &amp; *)
  else if c =? 39 then Some [38; 35; 51; 57; 59]           (* &#39; *)
  else if c =? 60 then Some [38; 108; 116; 59]             (* &lt; *)
  else if c =? 62 then Some [38; 103; 116; 59]             (* &gt; *)
  else None.

(** Where the first special character is. *)
Fixpoint exec_index (s : list N) : option nat :=
  match s with
  | [] => None
  | c :: s => match entity c with Some _ => Some 0%nat | None => S <$> exec_index s end
  end.
End escape.

Definition substring (s o : nat) (n : list N) : list N := take (o - s) (drop s n).

(** The loop: [k] characters are left from index [o] on, those before index [s] are done. *)
Fixpoint escape_loop (n : list N) (k o s : nat) (a : list N) : list N :=
  match k with
  | 0 => if negb (bool_decide (s = o)) then a ++ substring s o n else a
  | S k =>
      match n !! o ≫= entity with
      | Some t =>
          let a := if negb (bool_decide (s = o)) then a ++ substring s o n else a in
          escape_loop n k (S o) (S o) (a ++ t)
      | None => escape_loop n k (S o) s a
      end
  end.

Definition escapeHtml (n : list N) : list N :=
  match exec_index n with
  | None => n
  | Some index => escape_loop n (length n - index) index 0 []
  end.

(** The text with each special character replaced. *)
Definition escape_char (c : N) : list N := match entity c with Some t => t | None => [c] end.
Definition escape_spec (n : list N) : list N := n ≫= escape_char.

Lemma substring_self s n : substring s s n = [].
Proof. unfold substring. by rewrite Nat.sub_diag. Qed.

Lemma guarded_append s o n a :
  (if negb (bool_decide (s = o)) then a ++ substring s o n else a) = a ++ substring s o n.
Proof. case_bool_decide; simpl; [|done]. subst. by rewrite substring_self, app_nil_r. Qed.

Lemma substring_snoc s o n c : s ≤ o → n !! o = Some c → substring s (S o) n = substring s o n ++ [c].
Proof.
  intros Hle Hc. unfold substring. replace (S o - s) with (S (o - s)) by lia.
  apply take_S_r. rewrite lookup_drop. by replace (s + (o - s)) with o by lia.
Qed.

Lemma escape_loop_spec n k o s a :
  s ≤ o → o + k = length n → escape_loop n k o s a = a ++ substring s o n ++ escape_spec (drop o n).
Proof.
  revert o s a. induction k as [|k IH]; intros o s a Hs Hk; simpl.
  - rewrite guarded_append, drop_ge by lia. simpl. by rewrite app_nil_r.
  - destruct (lookup_lt_is_Some_2 n o ltac:(lia)) as [c Hc]. rewrite Hc. simpl.
    rewrite (drop_S _ _ _ Hc). simpl. unfold escape_char at 1. destruct (entity c) as [t|] eqn:Ht.
    + rewrite IH by lia. rewrite guarded_append, substring_self. simpl. by rewrite <-!app_assoc.
    + rewrite IH by lia. rewrite (substring_snoc _ _ _ _ Hs Hc). rewrite <-!app_assoc. done.
Qed.

Lemma exec_index_None n : exec_index n = None → escape_spec n = n.
Proof.
  induction n as [|c n IH]; simpl; [done|]. unfold escape_char at 1. destruct (entity c); [done|].
  intros H%fmap_None. by rewrite (IH H).
Qed.

Lemma exec_index_Some n i :
  exec_index n = Some i → i ≤ length n ∧ escape_spec n = take i n ++ escape_spec (drop i n).
Proof.
  revert i. induction n as [|c n IH]; intros i; simpl; [done|]. destruct (entity c) as [t|] eqn:Hc.
  - intros [= <-]. simpl. split; [lia|done].
  - intros (j&Hj&->)%fmap_Some. destruct (IH j Hj) as [Hle Heq]. simpl. split; [lia|].
    unfold escape_char at 1. rewrite Hc. simpl. by rewrite Heq.
Qed.

Lemma escapeHtml_spec n : escapeHtml n = escape_spec n.
Proof.
  unfold escapeHtml. destruct (exec_index n) as [i|] eqn:Hi; [|by rewrite exec_index_None].
  apply exec_index_Some in Hi as [Hle ->]. rewrite escape_loop_spec by lia.
  unfold substring. by rewrite Nat.sub_0_r, drop_0.
Qed.

(** Reading entities back. *)
Fixpoint unescape (fuel : nat) (s : list N) : list N :=
  match fuel with
  | 0 => []
  | S fuel =>
      match s with
      | 38%N :: 113%N :: 117%N :: 111%N :: 116%N :: 59%N :: s => 34%N :: unescape fuel s
      | 38%N :: 97%N :: 109%N :: 112%N :: 59%N :: s => 38%N :: unescape fuel s
      | 38%N :: 35%N :: 51%N :: 57%N :: 59%N :: s => 39%N :: unescape fuel s
      | 38%N :: 108%N :: 116%N :: 59%N :: s => 60%N :: unescape fuel s
      | 38%N :: 103%N :: 116%N :: 59%N :: s => 62%N :: unescape fuel s
      | c :: s => c :: unescape fuel s
      | [] => []
      end
  end.

Lemma entity_cases c :
  c = 34%N ∨ c = 38%N ∨ c = 39%N ∨ c = 60%N ∨ c = 62%N ∨ (entity c = None ∧ c ≠ 38%N).
Proof.
  unfold entity. destruct (N.eqb_spec c 34), (N.eqb_spec c 38), (N.eqb_spec c 39), (N.eqb_spec c 60),
    (N.eqb_spec c 62); tauto.
Qed.

Lemma unescape_other fuel c s : c ≠ 38%N → unescape (S fuel) (c :: s) = c :: unescape fuel s.
Proof.
  intros Hne. simpl. destruct c as [|p]; [done|].
  do 6 (try destruct p as [p|p|]; try done).
Qed.

Lemma unescape_escape n fuel : length n ≤ fuel → unescape fuel (escape_spec n) = n.
Proof.
  revert fuel. induction n as [|c n IH]; intros [|fuel] Hf; simpl in Hf; try lia; [done|done|].
  change (escape_spec (c :: n)) with (escape_char c ++ escape_spec n). unfold escape_char.
  destruct (entity_cases c) as [->|[->|[->|[->|[->|[-> Hne]]]]]]; cbn [entity N.eqb Pos.eqb app];
    try (cbn [unescape]; f_equal; apply IH; lia).
  rewrite unescape_other by done. f_equal. apply IH. lia.
Qed.

(** ** Comparing byte arrays *)

(** The loop of [compare]: the first difference, else the lengths. *)
Fixpoint compare_bytes (e t : list N) : Z :=
  match e, t with
  | [], [] => 0
  | [], _ :: _ => -1
  | _ :: _, [] => 1
  | x :: e, y :: t => if bool_decide (x = y) then compare_bytes e t else if (x <? y)%N then -1 else 1
  end.

Lemma compare_bytes_eq e t : compare_bytes e t = 0%Z ↔ e = t.
Proof.
  revert t. induction e as [|x e IH]; intros [|y t]; simpl; try (split; congruence).
  case_bool_decide as Hxy; [subst; rewrite IH; split; congruence|].
  destruct (x <? y)%N; split; congruence.
Qed.

Lemma compare_bytes_sym e t : compare_bytes t e = (- compare_bytes e t)%Z.
Proof.
  revert t. induction e as [|x e IH]; intros [|y t]; simpl; try done.
  destruct (decide (x = y)) as [->|Hne]; [rewrite !bool_decide_true by done; apply IH|].
  rewrite !bool_decide_false by congruence.
  destruct (N.ltb_spec x y), (N.ltb_spec y x); try done; lia.
Qed.

Lemma compare_bytes_trans e t u :
  (compare_bytes e t = -1 → compare_bytes t u = -1 → compare_bytes e u = -1)%Z.
Proof.
  revert t u. induction e as [|x e IH]; intros [|y t] [|z u]; simpl; try done.
  repeat case_bool_decide; subst; try done; eauto;
    repeat match goal with |- context [(?a <? ?b)%N] => destruct (N.ltb_spec a b) end; try done; try lia.
Qed.

(** ** The loader of the bundle *)

(** The modules, each with the modules it requires while it runs, in that order. *)
Record Loader := mkLoader {
  (** Whether an installed module has finished ([l]). *)
  installed : gmap string bool;
  (** The modules that were run, latest first. *)
  ran : list string;
}.

Section loader.
Variable modules : gmap string (list string).

(** [r(t)]: an installed module is not run again, finished or not. *)
Fixpoint require (fuel : nat) (t : string) (s : Loader) : option Loader :=
  match installed s !! t with
  | Some _ => Some s
  | None =>
      match fuel with
      | 0 => None
      | S fuel =>
          let s := mkLoader (<[t := false]> (installed s)) (t :: ran s) in
          match modules !! t with
          | None => None
          | Some deps =>
              s ← foldl (λ s d, s ≫= require fuel d) (Some s) deps;
              Some (mkLoader (<[t := true]> (installed s)) (ran s))
          end
      end
  end.

(** Modules that are not installed. *)
Definition missing (s : Loader) : gmap string (list string) := filter (λ kv, installed s !! kv.1 = None) modules.

Definition loader_ok (s : Loader) : Prop :=
  NoDup (ran s) ∧ (∀ t, t ∈ ran s ↔ is_Some (installed s !! t)) ∧ (∀ t, is_Some (installed s !! t) → is_Some (modules !! t)).

(** Every module that is required is there. *)
Definition closed : Prop := ∀ t deps d, modules !! t = Some deps → d ∈ deps → is_Some (modules !! d).

Definition extends (s s' : Loader) : Prop := ∀ t, is_Some (installed s !! t) → is_Some (installed s' !! t).

Lemma missing_mono s s' : extends s s' → size (missing s') ≤ size (missing s).
Proof.
  intros Hext. apply map_subseteq_size, map_subseteq_spec. intros k v. unfold missing.
  rewrite !map_lookup_filter_Some. simpl. intros [Hk Hn]. split; [done|].
  apply eq_None_not_Some. intros Hs%Hext. rewrite Hn in Hs. by destruct Hs.
Qed.

(** A module is installed before it runs. *)
Definition install (t : string) (s : Loader) : Loader := mkLoader (<[t := false]> (installed s)) (t :: ran s).

Lemma install_ok s t deps :
  loader_ok s → modules !! t = Some deps → installed s !! t = None →
  loader_ok (install t s) ∧ extends s (install t s) ∧ size (missing (install t s)) < size (missing s).
Proof.
  intros (Hnd&Hran&Hmod) Hdeps Ht. split; [split; [|split]|split]; simpl.
  - constructor; [|done]. rewrite Hran, Ht. by intros [].
  - intros u. rewrite elem_of_cons, Hran, lookup_insert. case_decide; [subst; split; eauto|].
    split; [intros [->|]; done|auto].
  - intros u. rewrite lookup_insert. case_decide; [subst; eauto|apply Hmod].
  - intros u Hu. simpl. rewrite lookup_insert. case_decide; eauto.
  - apply map_subset_size. split.
    + apply map_subseteq_spec. intros k v. unfold missing. rewrite !map_lookup_filter_Some. simpl.
      rewrite lookup_insert. case_decide; [by intros [_ ?]|done].
    + intros Hsub. assert (missing s !! t = Some deps) as Hm by (by apply map_lookup_filter_Some).
      apply (lookup_weaken _ _ _ _ Hm) in Hsub. apply map_lookup_filter_Some in Hsub as [_ Hn]. simpl in Hn.
      by rewrite lookup_insert_eq in Hn.
Qed.

Lemma require_ok fuel :
  closed → ∀ t s, loader_ok s → is_Some (modules !! t) → size (missing s) ≤ fuel →
  ∃ s', require fuel t s = Some s' ∧ loader_ok s' ∧ extends s s' ∧ is_Some (installed s' !! t).
Proof.
  intros Hclosed. induction fuel as [|fuel IH]; intros t s Hok [deps Hdeps] Hfuel; simpl.
  - destruct (installed s !! t) as [b|] eqn:Ht.
    { exists s. split; [done|]. split; [done|]. split; [by intros u|]. rewrite Ht. eauto. }
    exfalso. assert (missing s !! t = Some deps) as Hm by (by apply map_lookup_filter_Some).
    apply Nat.le_0_r, map_size_empty_inv in Hfuel. by rewrite Hfuel in Hm.
  - destruct (installed s !! t) as [b|] eqn:Ht.
    { exists s. split; [done|]. split; [done|]. split; [by intros u|]. rewrite Ht. eauto. }
    rewrite Hdeps. destruct (install_ok s t deps Hok Hdeps Ht) as (Hok0&Hext0&Hlt). set (s0 := install t s) in *.
    change (mkLoader (<[t := false]> (installed s)) (t :: ran s)) with s0.
    assert (∀ l, (∀ d, d ∈ l → d ∈ deps) → ∀ s1, loader_ok s1 → extends s0 s1 →
      ∃ s2, foldl (λ s d, s ≫= require fuel d) (Some s1) l = Some s2 ∧ loader_ok s2 ∧ extends s1 s2) as Hfold.
    { induction l as [|d l IHl]; intros Hl s1 Hok1 He1; simpl; [exists s1; split; [done|]; split; [done|]; by intros u|].
      destruct (IH d s1 Hok1) as (s2&Hr&Hok2&He2&_).
      { eapply Hclosed; [done|]. apply Hl. by left. }
      { pose proof (missing_mono _ _ He1). lia. }
      rewrite Hr. destruct (IHl (λ d' H, Hl d' (list_elem_of_further _ _ _ H)) s2 Hok2) as (s3&Hf&Hok3&He3).
      { intros u Hu. by apply He2, He1. }
      exists s3. split; [done|]. split; [done|]. intros u Hu. by apply He3, He2. }
    destruct (Hfold deps (λ d H, H) s0 Hok0 (λ u H, H)) as (s1&->&(Hnd1&Hran1&Hmod1)&He1). simpl.
    assert (is_Some (installed s1 !! t)) as Ht1 by (apply He1; simpl; rewrite lookup_insert_eq; eauto).
    eexists. split; [done|]. split; [|split].
    + split; [done|]. split; simpl; intros u; rewrite lookup_insert; [rewrite Hran1|]; case_decide; subst; eauto.
      split; eauto.
    + intros u Hu. simpl. rewrite lookup_insert. case_decide; [by eauto|]. by apply He1, Hext0.
    + simpl. rewrite lookup_insert_eq. eauto.
Qed.
End loader.

(** ** Properties *)

(** Escaping for HTML: the one-pass routine computes the text with each special character
    replaced by its entity; no quote or angle bracket is left, and reading the entities back gives
    the text. *)
Theorem escape_html_correct (n : list N) :
  escapeHtml n = (n ≫= escape_char) ∧
  (∀ c, c ∈ escapeHtml n → c ∉ [34; 39; 60; 62]%N) ∧
  unescape (length n) (escapeHtml n) = n.
Proof.
  rewrite escapeHtml_spec. split; [done|]. split; [|by apply unescape_escape].
  intros c (d&Hc&_)%list_elem_of_bind. unfold escape_char in Hc.
  destruct (entity_cases d) as [->|[->|[->|[->|[->|[He Hne]]]]]];
    [simpl in Hc; rewrite !elem_of_cons, elem_of_nil in *; intuition congruence..|].
  rewrite He in Hc. apply list_elem_of_singleton in Hc as ->. unfold entity in He.
  rewrite !elem_of_cons, elem_of_nil. intros [->|[->|[->|[->|[]]]]]; discriminate.
Qed.

(**  The loader of the bundle: with every required module in the bundle, requiring a module ends
    (the number of modules is enough fuel) also if modules require each other in a circle, the module
    is then installed, and no module was run twice. *)
Theorem loader_runs_modules_once (modules : gmap string (list string)) (t : string)
    (Hclosed : closed modules) (Ht : is_Some (modules !! t)) :
  ∃ s, require modules (size modules) t (mkLoader ∅ []) = Some s ∧ NoDup (ran s) ∧ t ∈ ran s ∧
    (∀ u, u ∈ ran s ↔ is_Some (installed s !! u)).
Proof.
  destruct (require_ok modules (size modules) Hclosed t (mkLoader ∅ [])) as (s&Hr&(Hnd&Hran&_)&_&Hi).
  - split; [constructor|]. split; simpl; intros u; rewrite lookup_empty; [|by intros []].
    rewrite elem_of_nil. split; [done|by intros []].
  - done.
  - apply map_subseteq_size. apply map_filter_subseteq.
  - exists s. split; [done|]. split; [done|]. split; [by apply Hran|done].
Qed.

Module LoaderDemo.
(** Two modules that require each other, and one that requires both. *)
Definition modules : gmap string (list string) := {["0" := ["a"; "b"]; "a" := ["b"]; "b" := ["a"]]}.
Lemma modules_closed : closed modules.
Proof.
  intros t deps d Ht Hd. revert t deps Ht d Hd. apply (map_Forall_to_list (λ _ deps, ∀ d, d ∈ deps → is_Some (modules !! d))).
  vm_compute. repeat constructor; intros d Hd; simpl in Hd;
    repeat (apply elem_of_cons in Hd as [->|Hd]; [by eexists|]); by apply elem_of_nil in Hd.
Qed.
End LoaderDemo.

Lemma loader_runs_modules_once_witness :
  ∃ s, require LoaderDemo.modules 3 "0" (mkLoader ∅ []) = Some s ∧ NoDup (ran s) ∧ "0" ∈ ran s.
Proof.
  destruct (loader_runs_modules_once LoaderDemo.modules "0" LoaderDemo.modules_closed) as (s&Hs&Hnd&Ht&_).
  - by eexists.
  - exists s. exact (conj Hs (conj Hnd Ht)).
Defined.
